(* ===== verification/_CoqProject ===== *)
-Q . S2P
Prelude.v
RustStr.v
Paths.v
Interleave.v
Config.v
Supervisor.v
KeyManagement.v
Ca.v
MqttClient.v
Brokerage.v
Json.v
CloudGateway.v
Registry.v
Timeouts.v
HttpGateway.v
Handshakes.v
Connections.v
GatewayMqtt.v
App.v
Pipeline.v
System.v
