(* ===== verification/Prelude.v ===== *)
(** * PlaceNet Hamlet: a verification development

    PlaceNet Hamlet is a node of a network of beacons: one Rust process that runs an
    MQTT broker for the beacons around it, hands them certificates, announces its own
    address to them, and keeps connections to the cloud gateways they advertise.  This
    library models the program's own logic and proves what makes it correct.  File
    names below are those of the repository (src/...); the name in brackets is the
    file of this library.

    ** The program and its parts

    - src/config.rs reads the environment into configuration records and writes
      mosquitto.conf [Config].
    - src/supervisor.rs owns the managed services and runs start, stop, restart and
      status commands one at a time [Supervisor].
    - src/infra/ca/ is the certificate authority over three SQLite tables: the root key,
      the device certificates, the node's own identity [Ca].
    - src/services/mqtt_brokerage/ runs Mosquitto as a child process and provisions its
      files and accounts [Brokerage].
    - src/services/mqtt_client/ is the client of that broker: options, the command
      channel, two tasks [MqttClient].
    - src/services/beacon_management/ holds four things: the HTTP gateway with the device
      handshake [HttpGateway], the registry of beacons [Registry], the rotating broadcast
      keys [KeyManagement], and the managers that register them.
    - src/services/cloud_gateway/ connects to a gateway over WebSocket [CloudGateway];
      src/services/gateway_mqtt/ logs in over HTTPS and connects over MQTT [GatewayMqtt].
    - src/services/peer/ sends one request to another node [Connections].
    - src/app.rs and src/services/capabilities.rs put the parts together: initialisation,
      the message loop (in [Registry], where its state is) and the broadcast loop [App];
      src/main.rs runs them [System].

    They interact as follows.  A device posts its certificate request to the HTTP gateway;
    the CA signs it, the broker's directory records it, and two topic channels go to the
    message loop, which enters the beacon in the registry, subscribes the MQTT client to
    its receive topic and puts its broadcast topic on the list it shares with the broadcast
    loop.  A message of the beacon refreshes its record and may advertise a gateway, for
    which the loop opens a WebSocket connection that lives as long as the record.  Silent
    beacons are swept.  The broadcast loop publishes the node's address with a token of the
    current broadcast key.  The supervisor manages the broker, the MQTT client, the HTTP
    gateway and the gateway link over MQTT behind one trait; the WebSocket service has the
    trait too, but the application opens its connections directly.

    ** How the code is modelled

    Fallible calls return [result]; a [&mut self] method that may leave early is a function
    of the state monad [st] below, which keeps what was written before the error.  What a
    call cannot decide is an argument of it: the clock, random bytes, the answer of the
    database, of the file system, of a socket or a child process, one value per call, so
    that a theorem quantifies over every failure.  Tasks ([tokio::spawn] around a
    [select!] loop) are step functions over the events their select yields, folded over an
    arbitrary list of events.  HashMap is [gmap], HashSet is [gset], a Vec and an SQL table
    are lists; the order in which a HashMap yields its entries is an argument where the code
    depends on it.  Integers are [Z] kept in the range of their Rust type by the parsers and
    casts that produce them; instants are nanoseconds.  Strings are UTF-8 byte strings.
    The trait ManagedService is the class [ManagedService], with the laws its clients rely
    on in [ManagedServiceLaws]; each of the five services discharges the laws, and [App]
    instantiates the supervisor with their sum [AnyService].

    - [Prelude]: results, the state monad, casts and big-endian bytes, tactics, hints.
    - [RustStr], [Paths], [Json]: what the program uses of str, of the integer parsers, of
      std::path, std::net, tokio::fs and serde_json::Value.
    - [Config]: one record and one [from_env] per configuration struct, and [write_config].
    - [Supervisor]: [handle_start], [handle_stop], [handle_restart], the command loop and the
      shutdown of [spawn], and the four methods of the handle; the abstract specification
      is the four-phase [lifecycle] and [spec_run].
    - [KeyManagement]: every statement on broadcast_keys as a function on the table, the
      rotation, the sweep, the token and its over-the-air form.
    - [Ca]: both files of infra/ca, statement by statement, over [CaDb]; rcgen is the class
      [Rcgen].
    - [MqttClient], [Brokerage], [CloudGateway], [GatewayMqtt]: options, tasks and the
      managed service of each.
    - [Registry]: the registry's methods, the sweep step by step with its three await
      points, and the message loop; live connections are part of the state.
    - [Timeouts]: the timer of the sweep and the message loop with the clock.
    - [HttpGateway]: parsing of the two requests, the three handlers, routing, TLS setup and
      the managed service.
    - [Interleave], [Handshakes]: steps that commute up to an equivalence, and with them the
      handshake handler cut at its await points, several at a time under any schedule.
    - [Connections]: the listener, plain or TLS, as a transition system of its accept loop
      and the connection tasks it spawned; the request passed upstream; the peer client.
      What the answers should be is the relation [Answers].
    - [App]: capability detection, [initialize] in the order of the source with the managers'
      register and start functions, the broadcast cycle and its sleeps.
    - [Pipeline]: who waits for whom among the four tasks around the MQTT client, as a
      transition system over the bounded channels and the lock of the topic list; the same
      for the task of the gateway link.
    - [System]: [main], and the handlers, the message loop and the broadcast loop as one
      state machine [node_step] over all they share.

    ** What the theorems show

    - The node (C2, C3): a completed handshake leads to broadcasts, whatever else happens
      meanwhile; and the invariant of every state [main] can reach, above all that the list
      of broadcast topics is the one of the registered beacons.  Both are proved from the
      lemmas of the components.
    - Supervisor (C1, C5, C6): refinement of the lifecycle by every run, independence of the
      services, truthful statuses for lawful services.  App instantiates them for the real
      services (C23), shows that the shutdown reaches all that these ever spawned (C7), and
      follows the start without a broker (C24).
    - Beacons (C8-C11, C39, C40): connections belong to exactly one beacon in every reachable
      state, a sweep removes exactly the silent beacons and all that was theirs, a heard
      beacon stays and a silent one goes in time; and two ways in which the code loses a
      gateway for good.
    - Handshakes (C4, C12, C38): effects of each answer; concurrent handshakes of different
      devices are as good as serial ones, those of one host name are not.
    - Connections (C27, C28): under any interleaving every request is answered as its
      headers say, once and in order, with TLS as without; and a stop of the gateway ends
      the accept loop but not the connections it spawned.
    - Certificates (C13-C15, C35): the device table refines a map in every reachable state,
      the root key and the node's identity survive restarts, the broker's files fit together.
    - Broadcast keys (C16-C18, C21, C22, C36): the table invariant under every failure,
      stability until rotation, recovery, what a cycle publishes and how long what it
      announced is kept, and that the token tells keys and time slots apart and nothing else.
    - Tasks waiting for each other (C19, C20, C37): they come to rest, with everything
      answered unless more messages and commands come in than the channels hold; and the
      deadlock that is possible then.
    - Gateways (C25, C26, C29): the two connection tasks in every run, their pauses, the
      logins whose credentials they use and the addresses.
    - Configuration and options (C30, C31); tasks and processes (C32-C34), among them that
      no Mosquitto process but the child held runs, through stops that time out, failed
      kills, drops and crashes.

    Theorems that are not numbered complete these groups: for instance
    [Supervisor.unavailable_untouched], [Config.config_in_range], [Ca.resigning_clears_revocation],
    [HttpGateway.handshake_registers_beacon], [CloudGateway.compute_ws_url_correct],
    [CloudGateway.message_roundtrip], [GatewayMqtt.login_outcomes],
    [GatewayMqtt.login_trusts_like_broker], [KeyManagement.ota_fields_readable],
    [MqttClient.command_replies], [Connections.send_message_outcomes],
    [Pipeline.gateway_link_blocks], [Pipeline.no_client_blocks],
    [Brokerage.crash_blocks_start].

    ** Bounds and fuel

    No theorem is about a bounded run: lists of commands, events and operations are
    arbitrary.  Fuel occurs in three functions.  [show_uint] prints with 20 digits of fuel,
    enough for every u64, and its lemmas ask for a value below 10^20.  [strip_all], behind
    [trim], has the length of the string as fuel and every step removes at least one byte.
    The readers of [Paths] take the digit bounds std itself sets.  Everything else is
    structural recursion.

    ** What is not modelled

    The libraries (tokio, rcgen, rustls, rumqttc, hyper, tokio-tungstenite, sqlx, HMAC-SHA256,
    the text of JSON) are parameters or environment arguments; hypotheses on them state
    documented behaviour (a key survives PEM, a MAC has 32 bytes) and each has an instance
    at the end of its file.  The bytes on sockets and logging are left out.  A handler, a
    step of the message loop and a broadcast cycle are one step of the node in [System];
    that handlers may be taken one after the other is C4, for devices with different host
    names, and a cycle holds the lock of the topic list from its first topic to its end.
    [Connections] takes a handler as one step too; a handler that is dropped at one of its
    own awaits because its client went away is not modelled.
    [Pipeline] leaves out what the messages say and has the broker connected.  Time passes
    through the instants given to the operations; how late the loop takes a tick is an
    argument of C11.  When [main] returns, the runtime drops its tasks where they wait, which
    ends the child process (the drop of C34) but does not run the shutdown of C7.

    ** Plan

    Next: client registrations and several cycles in the interleaving of [Handshakes];
    fairness of the pipeline with jitter pauses as time; TLS setup with rustls' certificate
    checks as hypotheses. *)

From Stdlib Require Export Ascii.
From Stdlib Require Export Strings.Byte.
From Stdlib Require Import String.
From stdpp Require Export base tactics list gmap sets strings numbers option.
From stdpp Require Import options.

(** ** Results

    Rust's [Result<A, E>], with the source's constructor names. *)

Inductive result (E A : Type) : Type :=
| Ok (a : A)
| Err (e : E).
Arguments Ok {E A} a.
Arguments Err {E A} e.

#[global] Instance result_ret {E} : MRet (result E) := λ A a, Ok a.
#[global] Instance result_bind {E} : MBind (result E) := λ A B f m,
  match m with Ok a => f a | Err e => Err e end.
#[global] Instance result_fmap {E} : FMap (result E) := λ A B f m,
  match m with Ok a => Ok (f a) | Err e => Err e end.

Definition map_err {E F A} (f : E → F) (r : result E A) : result F A :=
  match r with Ok a => Ok a | Err e => Err (f e) end.

Definition ok_or {E A} (e : E) (o : option A) : result E A :=
  match o with Some a => Ok a | None => Err e end.

Definition result_ok {E A} (r : result E A) : option A :=
  match r with Ok a => Some a | Err _ => None end.

Definition is_ok {E A} (r : result E A) : bool :=
  match r with Ok _ => true | Err _ => false end.

Definition unwrap_or {E A} (d : A) (r : result E A) : A :=
  match r with Ok a => a | Err _ => d end.

#[global] Instance result_eq_dec {E A} `{!EqDecision E, !EqDecision A} : EqDecision (result E A).
Proof. solve_decision. Defined.

(** ** Computations over a mutable state

    [&mut self] methods that may return early with [?]: the state written before
    the error stays written. *)

Definition st (S E A : Type) : Type := S → result E A * S.

#[global] Instance st_ret {S E} : MRet (st S E) := λ A a s, (Ok a, s).
#[global] Instance st_bind {S E} : MBind (st S E) := λ A B f m s,
  match m s with
  | (Ok a, s') => f a s'
  | (Err e, s') => (Err e, s')
  end.
#[global] Instance st_fmap {S E} : FMap (st S E) := λ A B f m s,
  match m s with
  | (Ok a, s') => (Ok (f a), s')
  | (Err e, s') => (Err e, s')
  end.

Definition st_get {S E} : st S E S := λ s, (Ok s, s).
Definition st_put {S E} (s' : S) : st S E unit := λ _, (Ok (), s').
Definition st_lift {S E A} (r : result E A) : st S E A := λ s, (r, s).

(** ** Machine integers

    A [w]-bit integer is a [Z]; [as] casts wrap, as in Rust. *)

Definition u16_max : Z := 65535.
Definition u32_max : Z := 4294967295.
Definition as_u64 (z : Z) : Z := (z `mod` 2 ^ 64)%Z.
Definition as_i64 (z : Z) : Z :=
  let m := (z `mod` 2 ^ 64)%Z in if (m <? 2 ^ 63)%Z then m else (m - 2 ^ 64)%Z.
Definition in_u16 (z : Z) : Prop := (0 ≤ z ≤ u16_max)%Z.
Definition in_u32 (z : Z) : Prop := (0 ≤ z ≤ u32_max)%Z.
Definition in_i64 (z : Z) : Prop := (- 2 ^ 63 ≤ z < 2 ^ 63)%Z.

(** [u64::to_be_bytes]: [n] bytes of [z], most significant first. *)
Definition byte_of_Z (z : Z) : byte := default Byte.x00 (Byte.of_N (Z.to_N (z `mod` 256))).

Fixpoint be_bytes (n : nat) (z : Z) : list byte :=
  match n with
  | O => []
  | S n => be_bytes n (z / 256) ++ [byte_of_Z z]
  end.

Definition byte_val (b : byte) : Z := Z.of_N (Byte.to_N b).

Fixpoint of_be_bytes (acc : Z) (bs : list byte) : Z :=
  match bs with
  | [] => acc
  | b :: bs => of_be_bytes (acc * 256 + byte_val b) bs
  end.

#[global] Instance byte_eq_decision : EqDecision byte := Byte.byte_eq_dec.

#[global] Instance byte_countable : Countable byte :=
  inj_countable Byte.to_N Byte.of_N Byte.of_to_N.

(** ** Automation *)

Create HintDb hamlet.
Create Rewrite HintDb hamlet.

(** Splits every [match] and [if] of the goal, simplifying after each split. *)
Ltac split_matches := repeat (case_match; simplify_eq/=).

(** Turns boolean tests of the code into the propositions they decide. *)
Ltac bools :=
  repeat match goal with
  | H : (_ <? _)%Z = true |- _ => apply Z.ltb_lt in H
  | H : (_ <? _)%Z = false |- _ => apply Z.ltb_ge in H
  | H : (_ <=? _)%Z = true |- _ => apply Z.leb_le in H
  | H : (_ <=? _)%Z = false |- _ => apply Z.leb_gt in H
  | H : (_ =? _)%Z = true |- _ => apply Z.eqb_eq in H
  | H : (_ =? _)%Z = false |- _ => apply Z.eqb_neq in H
  | H : bool_decide _ = true |- _ => apply bool_decide_eq_true in H
  | H : bool_decide _ = false |- _ => apply bool_decide_eq_false in H
  | H : (_ && _) = true |- _ => apply andb_true_iff in H as [??]
  | H : negb _ = true |- _ => apply negb_true_iff in H
  | H : negb _ = false |- _ => apply negb_false_iff in H
  end.

(** ** Generic lemmas: integers and bytes *)

Lemma as_u64_small z : (0 ≤ z < 2 ^ 64)%Z → as_u64 z = z.
Proof. intros. by apply Z.mod_small. Qed.

Lemma as_i64_small z : (0 ≤ z < 2 ^ 63)%Z → as_i64 z = z.
Proof.
  intros Hz. unfold as_i64. rewrite Z.mod_small by lia.
  by rewrite (proj2 (Z.ltb_lt _ _)) by lia.
Qed.

Lemma byte_val_range b : (0 ≤ byte_val b < 256)%Z.
Proof. unfold byte_val. pose proof (Byte.to_N_bounded b). lia. Qed.

Lemma byte_val_of_Z z : byte_val (byte_of_Z z) = (z `mod` 256)%Z.
Proof.
  unfold byte_val, byte_of_Z.
  pose proof (Z.mod_pos_bound z 256 ltac:(lia)) as Hz.
  destruct (Byte.of_N _) as [b|] eqn:Hb; cbn.
  - apply Byte.to_of_N in Hb. rewrite Hb. lia.
  - apply Byte.of_N_None_iff in Hb. lia.
Qed.

Lemma byte_val_inj a b : byte_val a = byte_val b → a = b.
Proof.
  unfold byte_val. intros H%N2Z.inj.
  pose proof (Byte.of_to_N a). pose proof (Byte.of_to_N b). congruence.
Qed.

Lemma be_bytes_length n z : length (be_bytes n z) = n.
Proof.
  revert z; induction n as [|n IH]; intros z; simpl; [done|].
  rewrite length_app, IH. simpl. lia.
Qed.

Lemma of_be_bytes_app acc xs ys : of_be_bytes acc (xs ++ ys) = of_be_bytes (of_be_bytes acc xs) ys.
Proof. revert acc; induction xs; intros; simpl; auto. Qed.

Lemma of_be_bytes_be_bytes n z : of_be_bytes 0 (be_bytes n z) = (z `mod` 256 ^ Z.of_nat n)%Z.
Proof.
  revert z; induction n as [|n IH]; intros z; [by rewrite Z.mod_1_r|].
  cbn [be_bytes]. rewrite of_be_bytes_app, IH. cbn [of_be_bytes].
  rewrite byte_val_of_Z, Nat2Z.inj_succ, Z.pow_succ_r, Z.rem_mul_r by lia.
  lia.
Qed.

(** The eight bytes of a [u64] determine it. *)
Lemma be_bytes_inj z z' : (0 ≤ z < 2 ^ 64)%Z → (0 ≤ z' < 2 ^ 64)%Z →
  be_bytes 8 z = be_bytes 8 z' → z = z'.
Proof.
  intros Hz Hz' Heq. apply (f_equal (of_be_bytes 0)) in Heq.
  rewrite !of_be_bytes_be_bytes in Heq.
  change (256 ^ Z.of_nat 8)%Z with (2 ^ 64)%Z in Heq.
  by rewrite !Z.mod_small in Heq by lia.
Qed.

(** ** Generic lemmas: lists *)

Lemma filter_comm {A} (P Q : A → Prop) `{∀ x, Decision (P x), ∀ x, Decision (Q x)} (l : list A) :
  filter P (filter Q l) = filter Q (filter P l).
Proof.
  induction l as [|x l IH]; [done|].
  rewrite !filter_cons. do 2 case_decide; rewrite ?filter_cons;
    repeat (case_decide; try done); by rewrite IH.
Qed.

Lemma sublist_map {A B} (f : A → B) l1 l2 : l1 `sublist_of` l2 → f <$> l1 `sublist_of` f <$> l2.
Proof. induction 1; cbn; by constructor. Qed.

Lemma Forall_filter_r {A} (P Q : A → Prop) `{∀ x, Decision (P x)} l : Forall Q l → Forall Q (filter P l).
Proof.
  rewrite !list.Forall_forall. intros HQ x [_ Hx]%list_elem_of_filter. auto.
Qed.

Lemma filter_true {A} (P : A → Prop) `{∀ x, Decision (P x)} (l : list A) : (∀ x, x ∈ l → P x) → filter P l = l.
Proof.
  induction l as [|x l IH]; intros Hl; [done|]. rewrite filter_cons_True by (apply Hl; by left).
  f_equal. apply IH. intros y Hy. apply Hl. by right.
Qed.

(** In a list with at most one element satisfying [P], that element is the one. *)
Lemma one_filtered {A} (P : A → Prop) `{∀ x, Decision (P x)} l x y :
  length (filter P l) ≤ 1 → x ∈ l → P x → y ∈ l → P y → x = y.
Proof.
  intros Hl Hx Px Hy Py.
  assert (x ∈ filter P l) as Hx' by (by apply list_elem_of_filter).
  assert (y ∈ filter P l) as Hy' by (by apply list_elem_of_filter).
  destruct (filter P l) as [|z [|]]; cbn in Hl; [set_solver| |lia].
  apply list_elem_of_singleton in Hx', Hy'. congruence.
Qed.

(** ** Generic lemmas: computations *)

Lemma st_bind_Ok {S A B} (f : A → st S string B) (m : st S string A) s b s' : (m ≫= f) s = (Ok b, s') →
  ∃ a s1, m s = (Ok a, s1) ∧ f a s1 = (Ok b, s').
Proof. unfold mbind, st_bind. destruct (m s) as [[a|] s1]; [eauto|done]. Qed.

Lemma st_lift_Ok {S A} (r : result string A) (s : S) a s' : st_lift r s = (Ok a, s') → r = Ok a ∧ s' = s.
Proof. by intros [= -> <-]. Qed.

(** ** Generic lemmas: sums over lists *)

Lemma sum_list_insert {A} (f : A → nat) l i x y : l !! i = Some x →
  sum_list_with f (<[i := y]> l) + f x = sum_list_with f l + f y.
Proof.
  intros (l1 & l2 & -> & ->)%list_elem_of_split_length. rewrite insert_app_r_alt, Nat.sub_diag by done.
  rewrite !sum_list_with_app. cbn. lia.
Qed.

Lemma sum_list_lookup {A} (f : A → nat) l i x : l !! i = Some x → f x ≤ sum_list_with f l.
Proof.
  intros (l1 & l2 & -> & _)%list_elem_of_split_length. rewrite sum_list_with_app. cbn. lia.
Qed.

(** What an update at one index leaves at each. *)
Lemma alter_lookup_inv {A} (f : A → A) (l : list A) i j y : alter f i l !! j = Some y →
  ∃ x, l !! j = Some x ∧ (j ≠ i ∧ y = x ∨ j = i ∧ y = f x).
Proof.
  rewrite list_lookup_alter. case_decide as Hij; [|intros Hl; exists y; auto].
  subst. intros (x & Hx & ->)%fmap_Some. eauto.
Qed.

(** ** Tasks with a shutdown sender

    Tasks spawned so far, each with whether it was not yet told to stop; a sender is the
    number of its task.  Only the task whose sender is held can be going on. *)
Definition only_held {A} (tx : option nat) (tasks : list (A * bool)) : Prop :=
  ∀ i t, tasks !! i = Some t → t.2 = true → tx = Some i.

Definition all_told {A} (tasks : list (A * bool)) : Prop := Forall (λ t, t.2 = false) tasks.

Lemma only_held_nil {A} (tx : option nat) : only_held tx ([] : list (A * bool)).
Proof. intros i t Ht. by rewrite lookup_nil in Ht. Qed.

Lemma only_held_spawn {A} (a : A) tasks : only_held None tasks → only_held (Some (length tasks)) (tasks ++ [(a, true)]).
Proof.
  intros Ho i t [[_ Ht]|[-> _]]%lookup_snoc_Some Htrue; [|done]. by specialize (Ho i t Ht Htrue).
Qed.

Lemma only_held_none {A} (tasks : list (A * bool)) : only_held None tasks ↔ all_told tasks.
Proof.
  unfold all_told. rewrite Forall_lookup. split.
  - intros Ho i t Ht. destruct (t.2) eqn:E; [|done]. by specialize (Ho i t Ht E).
  - intros Ha i t Ht E. specialize (Ha i t Ht). cbn in Ha. congruence.
Qed.

Lemma only_held_stop {A} i (tasks : list (A * bool)) : only_held (Some i) tasks → all_told (alter (λ t, (t.1, false)) i tasks).
Proof.
  intros Ho. apply only_held_none. intros j t (x & Hx & [[Hne ->]|[_ ->]])%alter_lookup_inv E; [|done].
  specialize (Ho j x Hx E). congruence.
Qed.
