(* ===== verification/RustStr.v ===== *)
(** * Rust strings

    The operations of [str], [String] and the integer parsers of Rust's standard
    library that the program uses, on UTF-8 byte strings: [strip_prefix],
    [strip_suffix], [split_once], [rsplit_once], [trim], [trim_end_matches],
    [replacen], [split], [eq_ignore_ascii_case], [parse], decimal and
    hexadecimal formatting and [String::from_utf8_lossy], with the lemmas the
    components share. *)

From S2P Require Import Prelude.
From stdpp Require Import options.

(** ** Searching *)

Fixpoint strip_prefix (p s : string) : option string :=
  match p, s with
  | "", _ => Some s
  | String a p, String b s => if decide (a = b) then strip_prefix p s else None
  | String _ _, "" => None
  end.

Definition strip_suffix (p s : string) : option string :=
  String.rev <$> strip_prefix (String.rev p) (String.rev s).

Definition starts_with (p s : string) : bool := bool_decide (is_Some (strip_prefix p s)).
Definition ends_with (p s : string) : bool := bool_decide (is_Some (strip_suffix p s)).

(** [s.split_once(pat)]: around the first occurrence. *)
Fixpoint split_once (pat s : string) : option (string * string) :=
  match strip_prefix pat s with
  | Some r => Some ("", r)
  | None =>
      match s with
      | "" => None
      | String c s => (λ ab, (String c ab.1, ab.2)) <$> split_once pat s
      end
  end.

(** [s.rsplit_once(c)]: around the last occurrence of a character. *)
Fixpoint rsplit_once (c : ascii) (s : string) : option (string * string) :=
  match s with
  | "" => None
  | String d s =>
      match rsplit_once c s with
      | Some (a, b) => Some (String d a, b)
      | None => if decide (c = d) then Some ("", s) else None
      end
  end.

(** [s.find(c)] as the two halves [(&s[..i], &s[i..])]. *)
Fixpoint find_split (c : ascii) (s : string) : option (string * string) :=
  match s with
  | "" => None
  | String d t =>
      if decide (c = d) then Some ("", s)
      else (λ ab, (String d ab.1, ab.2)) <$> find_split c t
  end.

(** [s.replacen(pat, to, 1)]. *)
Definition replacen1 (pat to s : string) : string :=
  match split_once pat s with
  | Some (a, b) => a +:+ to +:+ b
  | None => s
  end.

(** [s.split(c)]: always at least one piece. *)
Fixpoint split (c : ascii) (s : string) : list string :=
  match s with
  | "" => [""]
  | String d s =>
      if decide (c = d) then "" :: split c s
      else match split c s with
           | p :: ps => String d p :: ps
           | [] => [String d ""]
           end
  end.

Fixpoint drop_while (P : ascii → bool) (s : string) : string :=
  match s with
  | "" => ""
  | String c s' => if P c then drop_while P s' else s
  end.

(** [s.trim_end_matches(c)]. *)
Definition trim_end_matches (c : ascii) (s : string) : string :=
  String.rev (drop_while (λ d, bool_decide (c = d)) (String.rev s)).

(** ** Trimming white space

    The UTF-8 encodings of the code points with the Unicode property
    [White_Space], which [str::trim] removes. *)

Definition bytes_str (l : list N) : string :=
  String.string_of_list_ascii (ascii_of_N <$> l).

Definition white_space : list string :=
  bytes_str <$>
    [[9]; [10]; [11]; [12]; [13]; [32]; [194; 133]; [194; 160]; [225; 154; 128];
     [226; 128; 128]; [226; 128; 129]; [226; 128; 130]; [226; 128; 131]; [226; 128; 132];
     [226; 128; 133]; [226; 128; 134]; [226; 128; 135]; [226; 128; 136]; [226; 128; 137];
     [226; 128; 138]; [226; 128; 168]; [226; 128; 169]; [226; 128; 175]; [226; 129; 159];
     [227; 128; 128]]%N.

Definition strip_one (ws : list string) (s : string) : option string :=
  head (omap (λ w, strip_prefix w s) ws).

Fixpoint strip_all (ws : list string) (fuel : nat) (s : string) : string :=
  match fuel with
  | O => s
  | S fuel => match strip_one ws s with
              | Some r => strip_all ws fuel r
              | None => s
              end
  end.

Definition trim_start (s : string) : string := strip_all white_space (String.length s) s.
Definition trim_end (s : string) : string :=
  String.rev (strip_all (String.rev <$> white_space) (String.length s) (String.rev s)).
Definition trim (s : string) : string := trim_end (trim_start s).

(** ** Case folding *)

Definition to_ascii_lowercase (c : ascii) : ascii :=
  let n := N_of_ascii c in
  if ((65 <=? n) && (n <=? 90))%N then ascii_of_N (n + 32) else c.

Fixpoint eq_ignore_ascii_case (a b : string) : bool :=
  match a, b with
  | "", "" => true
  | String c a, String d b =>
      bool_decide (to_ascii_lowercase c = to_ascii_lowercase d) && eq_ignore_ascii_case a b
  | _, _ => false
  end.

(** ** Integers *)

Definition digit_val (c : ascii) : option Z :=
  let n := N_of_ascii c in
  if ((48 <=? n) && (n <=? 57))%N then Some (Z.of_N n - 48)%Z else None.

(** The digits of an unsigned integer, with the overflow check at every digit. *)
Fixpoint parse_digits (max acc : Z) (s : string) : option Z :=
  match s with
  | "" => Some acc
  | String c s =>
      d ← digit_val c;
      let acc' := (acc * 10 + d)%Z in
      if (acc' <=? max)%Z then parse_digits max acc' s else None
  end.

(** [s.parse::<uN>()] with [max] the type's largest value: an optional [+], then
    at least one digit. *)
Definition parse_uint (max : Z) (s : string) : option Z :=
  match s with
  | "" => None
  | String c r =>
      if decide (c = "+"%char) then
        match r with "" => None | String _ _ => parse_digits max 0 r end
      else parse_digits max 0 s
  end.

Definition digit (d : Z) : ascii := ascii_of_N (Z.to_N (d + 48)).

Fixpoint show_digits (fuel : nat) (z : Z) (acc : string) : string :=
  match fuel with
  | O => acc
  | S fuel =>
      let acc' := String (digit (z `mod` 10)) acc in
      if (z <? 10)%Z then acc' else show_digits fuel (z / 10) acc'
  end.

(** [format!("{}", z)] of an unsigned integer: a [u64] has at most twenty digits. *)
Definition show_uint (z : Z) : string := show_digits 20 z "".

(** [format!("{:02x}", b)] and its concatenation over a slice. *)
Definition hex_digit (d : N) : ascii :=
  ascii_of_N (if (d <? 10)%N then 48 + d else 87 + d).

Definition hex_byte (b : byte) : string :=
  String (hex_digit (Byte.to_N b / 16)) (String (hex_digit (Byte.to_N b `mod` 16)) "").

Fixpoint concat_str (l : list string) : string :=
  match l with [] => "" | s :: l => s +:+ concat_str l end.

Fixpoint str_In (c : ascii) (s : string) : Prop :=
  match s with "" => False | String d s => d = c ∨ str_In c s end.

#[global] Arguments trim : simpl never.
#[global] Arguments parse_uint : simpl never.
#[global] Arguments show_uint : simpl never.

(** [String::from_utf8_lossy]: every maximal prefix of a well-formed sequence that
    is cut short becomes one replacement character. *)
Definition replacement : string := bytes_str [239; 191; 189]%N.

Definition in_range (lo hi : N) (c : ascii) : bool :=
  ((lo <=? N_of_ascii c) && (N_of_ascii c <=? hi))%N.

(** The second byte a lead byte allows, and how many continuation bytes follow it. *)
Definition utf8_lead (c : ascii) : option (N * N * nat) :=
  let n := N_of_ascii c in
  if ((194 <=? n) && (n <=? 223))%N then Some (128%N, 191%N, 0)
  else if (n =? 224)%N then Some (160%N, 191%N, 1)
  else if (n =? 237)%N then Some (128%N, 159%N, 1)
  else if ((225 <=? n) && (n <=? 239))%N then Some (128%N, 191%N, 1)
  else if (n =? 240)%N then Some (144%N, 191%N, 2)
  else if ((241 <=? n) && (n <=? 243))%N then Some (128%N, 191%N, 2)
  else if (n =? 244)%N then Some (128%N, 143%N, 2)
  else None.

Fixpoint from_utf8_lossy (s : string) : string :=
  match s with
  | "" => ""
  | String c s1 =>
      if (N_of_ascii c <? 128)%N then String c (from_utf8_lossy s1)
      else
        match utf8_lead c with
        | None => replacement +:+ from_utf8_lossy s1
        | Some (lo, hi, k) =>
            match s1 with
            | "" => replacement
            | String d s2 =>
                if in_range lo hi d then
                  match k with
                  | O => String c (String d (from_utf8_lossy s2))
                  | S k =>
                      match s2 with
                      | "" => replacement
                      | String e s3 =>
                          if in_range 128 191 e then
                            match k with
                            | O => String c (String d (String e (from_utf8_lossy s3)))
                            | S _ =>
                                match s3 with
                                | "" => replacement
                                | String f s4 =>
                                    if in_range 128 191 f
                                    then String c (String d (String e (String f (from_utf8_lossy s4))))
                                    else replacement +:+ from_utf8_lossy s3
                                end
                            end
                          else replacement +:+ from_utf8_lossy s2
                      end
                  end
                else replacement +:+ from_utf8_lossy s1
            end
        end
  end.

(** ** Lemmas: concatenation and reversal *)

Lemma str_app_cons c s t : String c s +:+ t = String c (s +:+ t).
Proof. done. Qed.

Lemma str_app_nil_l s : "" +:+ s = s.
Proof. done. Qed.

Lemma str_app_nil_r s : s +:+ "" = s.
Proof. induction s as [|c s IH]; [done|]. by rewrite str_app_cons, IH. Qed.

Lemma str_app_assoc a b c : (a +:+ b) +:+ c = a +:+ b +:+ c.
Proof. induction a as [|x a IH]; [done|]. by rewrite !str_app_cons, IH. Qed.

Lemma rev_app_spec s t : String.rev_app s t = String.rev s +:+ t.
Proof.
  unfold String.rev. revert t; induction s as [|c s IH]; intros t; [done|].
  cbn. rewrite IH, (IH (String c "")), str_app_assoc. done.
Qed.

Lemma str_rev_cons c s : String.rev (String c s) = String.rev s +:+ String c "".
Proof. unfold String.rev at 1. cbn. apply rev_app_spec. Qed.

Lemma str_rev_app a b : String.rev (a +:+ b) = String.rev b +:+ String.rev a.
Proof.
  induction a as [|c a IH]; [by rewrite str_app_nil_r|].
  by rewrite str_app_cons, !str_rev_cons, IH, str_app_assoc.
Qed.

Lemma str_rev_involutive s : String.rev (String.rev s) = s.
Proof. induction s as [|c s IH]; [done|]. by rewrite str_rev_cons, str_rev_app, IH. Qed.

#[export] Hint Rewrite str_app_assoc str_app_nil_l str_app_nil_r str_rev_app str_rev_involutive : hamlet.

Lemma str_app_inj_r a b s : a +:+ s = b +:+ s → a = b.
Proof.
  intros H%(f_equal String.rev). rewrite !str_rev_app in H.
  apply (inj (String.app (String.rev s))), (f_equal String.rev) in H.
  by rewrite !str_rev_involutive in H.
Qed.

(** ** Lemmas: prefixes and suffixes *)

Lemma strip_prefix_Some p s r : strip_prefix p s = Some r ↔ s = p +:+ r.
Proof.
  revert s; induction p as [|c p IH]; intros s; cbn [strip_prefix].
  - rewrite str_app_nil_l. naive_solver.
  - rewrite str_app_cons. destruct s as [|d s]; [done|].
    case_decide as Hc; [subst; rewrite IH|]; clear IH; naive_solver.
Qed.

Lemma strip_prefix_app p r : strip_prefix p (p +:+ r) = Some r.
Proof. by apply strip_prefix_Some. Qed.

Lemma strip_suffix_Some p s r : strip_suffix p s = Some r ↔ s = r +:+ p.
Proof.
  unfold strip_suffix. rewrite fmap_Some. setoid_rewrite strip_prefix_Some. split.
  - intros (x & Hs & ->). apply (f_equal String.rev) in Hs.
    by rewrite str_rev_app, !str_rev_involutive in Hs.
  - intros ->. exists (String.rev r). by rewrite str_rev_app, str_rev_involutive.
Qed.

Lemma strip_suffix_app p r : strip_suffix p (r +:+ p) = Some r.
Proof. by apply strip_suffix_Some. Qed.

Lemma starts_with_spec p s : starts_with p s = true ↔ ∃ r, s = p +:+ r.
Proof.
  unfold starts_with. rewrite bool_decide_eq_true. unfold is_Some.
  by setoid_rewrite strip_prefix_Some.
Qed.

Lemma ends_with_spec p s : ends_with p s = true ↔ ∃ r, s = r +:+ p.
Proof.
  unfold ends_with. rewrite bool_decide_eq_true. unfold is_Some.
  by setoid_rewrite strip_suffix_Some.
Qed.

Lemma ends_with_app p s : ends_with p (s +:+ p) = true.
Proof. apply ends_with_spec. eauto. Qed.

(** ** Lemmas: splitting around a character *)

#[global] Instance str_In_dec c s : Decision (str_In c s).
Proof. induction s; cbn; apply _. Defined.

Lemma str_In_app c a b : str_In c (a +:+ b) ↔ str_In c a ∨ str_In c b.
Proof.
  induction a as [|d a IH]; [rewrite str_app_nil_l; cbn; tauto|].
  rewrite str_app_cons. cbn. rewrite IH. tauto.
Qed.

Lemma find_split_Some c s a b :
  find_split c s = Some (a, b) ↔ ∃ r, b = String c r ∧ s = a +:+ b ∧ ¬ str_In c a.
Proof.
  revert a; induction s as [|d s IH]; intros a; cbn [find_split].
  - split; [done|]. intros (r & -> & H & _). by destruct a.
  - case_decide as Hd.
    + subst d. split.
      * intros [= <- <-]. eexists. repeat split; auto.
      * intros (r & -> & H & Hn). destruct a as [|x a].
        -- rewrite str_app_nil_l in H. by rewrite H.
        -- rewrite str_app_cons in H. injection H as -> _. cbn in Hn. tauto.
    + rewrite fmap_Some. split.
      * intros ([a' b'] & H & [= -> ->]). apply IH in H as (r & -> & -> & Hn).
        eexists. cbn. rewrite str_app_cons. split_and!; [done..|]. naive_solver.
      * intros (r & -> & H & Hn). destruct a as [|x a].
        { rewrite str_app_nil_l in H. congruence. }
        rewrite str_app_cons in H. injection H as -> H. exists (a, String c r).
        split; [|done]. apply IH. exists r. cbn in Hn. tauto.
Qed.

Lemma find_split_None c s : find_split c s = None ↔ ¬ str_In c s.
Proof.
  induction s as [|d s IH]; cbn; [tauto|].
  case_decide; [split; [done|]; intros []; auto|]. rewrite fmap_None, IH.
  split; [|tauto]. intros ? [?|?]; congruence.
Qed.

Lemma rsplit_once_None c s : rsplit_once c s = None ↔ ¬ str_In c s.
Proof.
  induction s as [|d s IH]; cbn; [tauto|].
  destruct (rsplit_once c s) as [[a b]|] eqn:E.
  - split; [done|]. intros Hn. destruct (str_In_dec c s); [tauto|].
    apply IH in n. done.
  - case_decide; [split; [done|]; intros []; auto|].
    split; [|done]. intros _ [?|?]; [congruence|]. by apply IH.
Qed.

Lemma rsplit_once_app c a b : ¬ str_In c b → rsplit_once c (a +:+ String c b) = Some (a, b).
Proof.
  intros Hb. induction a as [|d a IH].
  - rewrite str_app_nil_l. cbn. apply rsplit_once_None in Hb. rewrite Hb.
    by rewrite decide_True.
  - rewrite str_app_cons. cbn. by rewrite IH.
Qed.

Lemma rsplit_once_Some c s a b : rsplit_once c s = Some (a, b) → s = a +:+ String c b ∧ ¬ str_In c b.
Proof.
  revert a; induction s as [|d s IH]; intros a; cbn; [done|].
  destruct (rsplit_once c s) as [[a' b']|] eqn:E.
  - intros [= <- <-]. destruct (IH _ eq_refl) as [-> ?]. done.
  - case_decide; [|done]. intros [= <- <-]. subst. split; [done|]. by apply rsplit_once_None.
Qed.

Lemma split_once_app_prefix pat s :
  split_once pat (pat +:+ s) = Some ("", s).
Proof.
  destruct (pat +:+ s) as [|c t] eqn:E; cbn; rewrite <- E, strip_prefix_app; done.
Qed.

Lemma replacen1_prefix pat to s : replacen1 pat to (pat +:+ s) = to +:+ s.
Proof. unfold replacen1. by rewrite split_once_app_prefix. Qed.

(** ** Lemmas: trimming a trailing character *)

Lemma drop_while_spec P s :
  ∃ pre, s = pre +:+ drop_while P s ∧ (∀ c, str_In c pre → P c = true) ∧
    match drop_while P s with "" => True | String c _ => P c = false end.
Proof.
  induction s as [|c s (pre & Hs & Hpre & Hd)]; cbn [drop_while].
  - exists "". split_and!; [done| |done]. by intros c [].
  - destruct (P c) eqn:Hc.
    + exists (String c pre). rewrite str_app_cons, <- Hs. split_and!; [done| |done].
      intros d [->|]; auto.
    + exists "". split_and!; [done| |done]. by intros d [].
Qed.

Lemma trim_end_matches_no_end c s : ends_with (String c "") (trim_end_matches c s) = false.
Proof.
  destruct (ends_with _ _) eqn:E; [|done]. apply ends_with_spec in E as [r Hr].
  unfold trim_end_matches in Hr. apply (f_equal String.rev) in Hr.
  rewrite str_rev_involutive, str_rev_app in Hr.
  change (String.rev (String c "")) with (String c "") in Hr. rewrite str_app_cons in Hr.
  destruct (drop_while_spec (λ d, bool_decide (c = d)) (String.rev s)) as (_ & _ & _ & Hd).
  rewrite Hr in Hd. by case_bool_decide.
Qed.

Lemma trim_end_matches_id c s : ends_with (String c "") s = false → trim_end_matches c s = s.
Proof.
  intros Hs. unfold trim_end_matches.
  destruct (String.rev s) as [|d t] eqn:Hr; cbn.
  { apply (f_equal String.rev) in Hr. rewrite str_rev_involutive in Hr. by subst. }
  apply (f_equal String.rev) in Hr. rewrite str_rev_involutive in Hr.
  rewrite bool_decide_false; [by rewrite Hr|]. intros ->.
  rewrite Hr, str_rev_cons, ends_with_app in Hs. done.
Qed.

Lemma ends_with_last p c s d : ends_with (p +:+ String c "") (s +:+ String d "") = true → c = d.
Proof.
  rewrite ends_with_spec. intros [r Hr]. rewrite <- str_app_assoc in Hr.
  apply (f_equal String.rev) in Hr. rewrite !(str_rev_app _ (String _ "")) in Hr.
  by injection Hr.
Qed.

(** ** Lemmas: decimal integers *)

Lemma digit_range d : (0 ≤ d < 10)%Z →
  d = 0%Z ∨ d = 1%Z ∨ d = 2%Z ∨ d = 3%Z ∨ d = 4%Z ∨ d = 5%Z ∨ d = 6%Z ∨ d = 7%Z ∨ d = 8%Z ∨ d = 9%Z.
Proof. lia. Qed.

Lemma digit_val_digit d : (0 ≤ d < 10)%Z → digit_val (digit d) = Some d.
Proof. intros H%digit_range. naive_solver. Qed.

Lemma parse_show_digits max fuel z acc :
  (0 ≤ z ≤ max)%Z → (z < 10 ^ Z.of_nat fuel)%Z → (0 < fuel) →
  parse_digits max 0 (show_digits fuel z acc) = parse_digits max z acc.
Proof.
  revert z acc; induction fuel as [|fuel IH]; intros z acc Hz Hf H0; [lia|].
  pose proof (Z.mod_pos_bound z 10 ltac:(lia)). pose proof (Z_div_mod_eq_full z 10).
  cbn [show_digits]. destruct (z <? 10)%Z eqn:Hlt; bools.
  - cbn [parse_digits]. rewrite digit_val_digit by lia. rewrite Z.mod_small by lia. cbn.
    rewrite (proj2 (Z.leb_le _ _)) by lia. done.
  - rewrite Nat2Z.inj_succ, Z.pow_succ_r in Hf by lia.
    assert (fuel ≠ 0) by (intros ->; simpl in Hf; lia).
    rewrite IH by lia. cbn [parse_digits]. rewrite digit_val_digit by lia. cbn.
    replace (z / 10 * 10 + z `mod` 10)%Z with z by lia.
    rewrite (proj2 (Z.leb_le _ _)) by lia. done.
Qed.

Lemma show_digits_chars fuel z acc c : (0 ≤ z)%Z →
  str_In c (show_digits fuel z acc) → str_In c acc ∨ ∃ d, (0 ≤ d < 10)%Z ∧ c = digit d.
Proof.
  revert z acc; induction fuel as [|fuel IH]; intros z acc Hz; cbn [show_digits]; [auto|].
  pose proof (Z.mod_pos_bound z 10 ltac:(lia)).
  destruct (z <? 10)%Z eqn:Hlt; bools.
  - intros [<-|]; eauto.
  - intros [[<-|]|]%IH; eauto. apply Z.div_pos; lia.
Qed.

Lemma show_uint_chars z c : (0 ≤ z)%Z → str_In c (show_uint z) → ∃ d, (0 ≤ d < 10)%Z ∧ c = digit d.
Proof. intros ? [[]|]%show_digits_chars; auto. Qed.

(** A character that is no digit does not occur in a printed integer. *)
Lemma show_uint_no c z : (0 ≤ z)%Z → digit_val c = None → ¬ str_In c (show_uint z).
Proof. intros ? Hc (d & ? & ->)%show_uint_chars; [|done]. by rewrite digit_val_digit in Hc. Qed.

Lemma show_digits_cons fuel z acc : 0 < fuel ∨ acc ≠ "" → ∃ c s, show_digits fuel z acc = String c s.
Proof.
  revert z acc; induction fuel as [|fuel IH]; intros z acc H; cbn.
  - destruct acc; [|eauto]. destruct H; [lia|done].
  - case_match; [eauto|]. apply IH. by right.
Qed.

Lemma parse_show_uint max z : (0 ≤ z ≤ max)%Z → (max < 10 ^ 20)%Z →
  parse_uint max (show_uint z) = Some z.
Proof.
  intros Hz Hm. unfold parse_uint.
  destruct (show_digits_cons 20 z "" ltac:(left; lia)) as (c & s & E).
  unfold show_uint. rewrite E.
  rewrite decide_False.
  - rewrite <- E, parse_show_digits by (simpl; lia). done.
  - intros ->. apply (show_uint_no "+"%char z); [lia|done|].
    unfold show_uint. rewrite E. by left.
Qed.

Lemma parse_digits_bound max acc s z : parse_digits max acc s = Some z → (0 ≤ acc ≤ max)%Z → (0 ≤ z ≤ max)%Z.
Proof.
  revert acc; induction s as [|c s IH]; intros acc; cbn; [naive_solver|].
  destruct (digit_val c) as [d|] eqn:Hd; cbn; [|done].
  destruct (_ <=? _)%Z eqn:Hle; bools; [|done]. intros Hp Ha. apply (IH _ Hp).
  unfold digit_val in Hd. case_match eqn:Hc; simplify_eq.
  apply andb_true_iff in Hc as [?%N.leb_le ?%N.leb_le]. lia.
Qed.

(** A parsed integer fits its type. *)
Lemma parse_uint_bound max s z : (0 ≤ max)%Z → parse_uint max s = Some z → (0 ≤ z ≤ max)%Z.
Proof.
  intros Hm. unfold parse_uint. destruct s as [|c s]; [done|].
  case_decide; [destruct s; [done|]|]; intros Hp%parse_digits_bound; lia.
Qed.
#[export] Hint Resolve parse_uint_bound : hamlet.

(** ** Lemmas: splitting into pieces *)

Lemma split_no c s : ¬ str_In c s → split c s = [s].
Proof.
  induction s as [|d s IH]; cbn; [done|]. intros Hn. rewrite decide_False by (intros ->; tauto).
  by rewrite IH by tauto.
Qed.

Lemma split_app c a b : ¬ str_In c a → split c (a +:+ String c b) = a :: split c b.
Proof.
  induction a as [|d a IH]; intros Hn.
  - rewrite str_app_nil_l. cbn. by rewrite decide_True.
  - rewrite str_app_cons. cbn in *. rewrite decide_False by (intros ->; tauto). by rewrite IH by tauto.
Qed.

Lemma find_split_app c a b : ¬ str_In c a → find_split c (a +:+ String c b) = Some (a, String c b).
Proof. intros. apply find_split_Some. eauto. Qed.

(** The last character of a concatenation is that of its nonempty right part. *)
Lemma ends_with_char_app c p r : r ≠ "" → ends_with (String c "") (p +:+ r) = ends_with (String c "") r.
Proof.
  intros Hr. unfold ends_with, strip_suffix. rewrite str_rev_app.
  destruct (String.rev r) as [|d t] eqn:E.
  { destruct Hr. by rewrite <- (str_rev_involutive r), E. }
  rewrite str_app_cons. cbn. by destruct (decide (c = d)).
Qed.

Lemma str_length_app a b : String.length (a +:+ b) = String.length a + String.length b.
Proof. induction a as [|c a IH]; [done|]. rewrite str_app_cons. cbn. by rewrite IH. Qed.

Lemma str_length_rev s : String.length (String.rev s) = String.length s.
Proof. induction s as [|c s IH]; [done|]. rewrite str_rev_cons, str_length_app, IH. cbn. lia. Qed.

Lemma strip_prefix_app_long p x y : String.length p ≤ String.length x →
  is_Some (strip_prefix p (x +:+ y)) ↔ is_Some (strip_prefix p x).
Proof.
  revert x; induction p as [|c p IH]; intros x Hx; cbn; [by split|].
  destruct x as [|d x]; cbn in Hx; [lia|]. rewrite str_app_cons. case_decide; [|done]. apply IH. lia.
Qed.

(** Only the right part of a concatenation matters to a suffix that fits into it. *)
Lemma ends_with_app_long p a b : String.length p ≤ String.length b → ends_with p (a +:+ b) = ends_with p b.
Proof.
  intros Hp. unfold ends_with, strip_suffix. apply bool_decide_ext. rewrite !fmap_is_Some, str_rev_app.
  apply strip_prefix_app_long. by rewrite !str_length_rev.
Qed.

Lemma str_In_rev c s : str_In c (String.rev s) ↔ str_In c s.
Proof.
  induction s as [|d s IH]; [done|]. rewrite str_rev_cons, str_In_app, IH. cbn. tauto.
Qed.

Lemma drop_while_app P a b : (∀ c, str_In c a → P c = true) → drop_while P (a +:+ b) = drop_while P b.
Proof.
  induction a as [|c a IH]; intros Ha; [done|]. rewrite str_app_cons. cbn. rewrite Ha by (by left).
  apply IH. intros d Hd. apply Ha. by right.
Qed.

Lemma trim_end_matches_app c s t : (∀ d, str_In d t → d = c) → trim_end_matches c (s +:+ t) = trim_end_matches c s.
Proof.
  intros Ht. unfold trim_end_matches. rewrite str_rev_app, drop_while_app; [done|].
  intros d Hd. apply bool_decide_eq_true. symmetry. apply Ht. by apply str_In_rev.
Qed.
