(* ===== verification/Paths.v ===== *)
(** * Paths and files

    [std::path] on Unix (join, parent, absolute paths), [std::net::IpAddr]
    parsing, and the file operations of [tokio::fs] that the program uses, over an
    explicit file system whose failures are an argument. *)

From S2P Require Import Prelude RustStr.
From stdpp Require Import options.

(** ** Paths *)

Definition is_absolute (p : string) : bool := starts_with "/" p.

(** [Path::join]: an absolute argument replaces the base. *)
Definition path_join (base p : string) : string :=
  if is_absolute p then p
  else if bool_decide (base = "") || ends_with "/" base then base +:+ p
  else base +:+ "/" +:+ p.

(** [Path::components]: whether the path has a root, and its components; empty
    components and [.] are skipped, except a leading [.]. *)
Definition path_components (p : string) : bool * list string :=
  let root := is_absolute p in
  match split "/"%char p with
  | [] => (root, [])
  | c :: cs =>
      (root, (if bool_decide (c = "") then [] else [c]) ++
             filter (λ c, c ≠ "" ∧ c ≠ ".") cs)
  end.

(** Two paths are equal when their components are. *)
Definition path_eq (p q : string) : Prop := path_components p = path_components q.

Fixpoint join_components (cs : list string) : string :=
  match cs with
  | [] => ""
  | [c] => c
  | c :: cs => c +:+ "/" +:+ join_components cs
  end.

Definition path_of (rc : bool * list string) : string :=
  (if rc.1 then "/" else "") +:+ join_components rc.2.

(** [Path::parent]: nothing for the empty path and for the root; otherwise the path
    without its last component (up to path equality). *)
Definition path_parent (p : string) : option string :=
  let '(root, cs) := path_components p in
  match cs with
  | [] => None
  | _ :: _ => Some (path_of (root, removelast cs))
  end.

(** ** Files *)

Record FS := mkFS { files : gmap string string; dirs : gset string }.

Inductive FsOp :=
| CreateDirAll (p : string)
| WriteFile (p contents : string).

(** What the operating system answers: an error, if any, and what a failed
    operation leaves behind. *)
Record FsEnv := mkFsEnv {
  fs_error : FsOp → option string;
  fs_after_failure : FsOp → FS → FS
}.

Definition fs_apply (op : FsOp) (fs : FS) : FS :=
  match op with
  | CreateDirAll p => mkFS (files fs) ({[p]} ∪ dirs fs)
  | WriteFile p c => mkFS (<[p := c]> (files fs)) (dirs fs)
  end.

Definition fs_run (env : FsEnv) (op : FsOp) : st FS string () := λ fs,
  match fs_error env op with
  | Some e => (Err e, fs_after_failure env op fs)
  | None => (Ok (), fs_apply op fs)
  end.

(** [r.map_err(f)] on a computation. *)
Definition st_map_err {S A} (f : string → string) (m : st S string A) : st S string A := λ s,
  let '(r, s) := m s in (map_err f r, s).

Definition fs_exists (p : string) (fs : FS) : bool := bool_decide (is_Some (files fs !! p)).

(** No operation fails. *)
Definition fs_healthy : FsEnv := mkFsEnv (λ _, None) (λ _ fs, fs).

(** ** IP addresses *)

Inductive IpAddr :=
| V4 (octets : list Z)
| V6 (segments : list Z).

#[global] Instance IpAddr_eq_dec : EqDecision IpAddr.
Proof. solve_decision. Defined.

Definition hex_val (c : ascii) : option Z :=
  let n := N_of_ascii c in
  if ((48 <=? n) && (n <=? 57))%N then Some (Z.of_N n - 48)%Z
  else if ((97 <=? n) && (n <=? 102))%N then Some (Z.of_N n - 87)%Z
  else if ((65 <=? n) && (n <=? 70))%N then Some (Z.of_N n - 55)%Z
  else None.

(** The longest run of digits, as (value, number of digits, rest). *)
Fixpoint read_run (val : ascii → option Z) (radix acc : Z) (n : nat) (s : string) : Z * nat * string :=
  match s with
  | "" => (acc, n, "")
  | String c r =>
      match val c with
      | Some d => read_run val radix (acc * radix + d) (S n) r
      | None => (acc, n, s)
      end
  end.

(** [Parser::read_number]: at least one and at most [max_digits] digits, a value
    that fits, and no leading zero unless allowed. *)
Definition read_number (val : ascii → option Z) (radix max : Z) (max_digits : nat) (zeros : bool)
    (s : string) : option (Z * string) :=
  let '(v, n, r) := read_run val radix 0 0 s in
  if bool_decide (n = 0) || bool_decide (max_digits < n) then None
  else if negb zeros && starts_with "0" s && bool_decide (1 < n) then None
  else if (v <=? max)%Z then Some (v, r) else None.

Definition read_char (c : ascii) (s : string) : option string :=
  match s with
  | "" => None
  | String d r => if decide (c = d) then Some r else None
  end.

Definition read_octet (s : string) : option (Z * string) := read_number digit_val 10 255 3 false s.
Definition read_group (s : string) : option (Z * string) := read_number hex_val 16 65535 4 true s.

Definition read_ipv4 (s : string) : option (list Z * string) :=
  '(a, s) ← read_octet s; s ← read_char "." s;
  '(b, s) ← read_octet s; s ← read_char "." s;
  '(c, s) ← read_octet s; s ← read_char "." s;
  '(d, s) ← read_octet s;
  Some ([a; b; c; d], s).

(** [read_groups]: up to [limit] groups, [:] between them; the last two may be
    written as an IPv4 address, which ends the list ([true]). *)
Fixpoint read_groups (limit i : nat) (s : string) : list Z * bool * string :=
  match limit with
  | O => ([], false, s)
  | S limit' =>
      let s' := match i with O => Some s | S _ => read_char ":" s end in
      match (if bool_decide (0 < limit') then s' ≫= read_ipv4 else None) with
      | Some ([a; b; c; d], r) => ([a * 256 + b; c * 256 + d]%Z, true, r)
      | _ =>
          match s' ≫= read_group with
          | Some (g, r) =>
              let '(gs, v4, r) := read_groups limit' (S i) r in (g :: gs, v4, r)
          | None => ([], false, s)
          end
      end
  end.

Definition read_ipv6 (s : string) : option (list Z * string) :=
  let '(hd, v4, r) := read_groups 8 0 s in
  if bool_decide (length hd = 8) then Some (hd, r)
  else if v4 : bool then None
  else
    r ← read_char ":" r; r ← read_char ":" r;
    let '(tl, _, r) := read_groups (8 - (length hd + 1)) 0 r in
    Some (hd ++ replicate (8 - length hd - length tl) 0%Z ++ tl, r).

Definition at_end {A} (o : option (A * string)) : option A :=
  match o with Some (a, "") => Some a | _ => None end.

(** [s.parse::<IpAddr>()]: the whole input is one address. *)
Definition parse_ip (s : string) : option IpAddr :=
  at_end (match read_ipv4 s with
          | Some (o, r) => Some (V4 o, r)
          | None => (λ gr, (V6 gr.1, gr.2)) <$> read_ipv6 s
          end).

Example parse_ip_1 : parse_ip "192.168.1.50" = Some (V4 [192; 168; 1; 50]%Z).
Proof. reflexivity. Qed.
Example parse_ip_2 : parse_ip "fe80::1:2" = Some (V6 [65152; 0; 0; 0; 0; 0; 1; 2]%Z).
Proof. reflexivity. Qed.
Example parse_ip_3 : parse_ip "::ffff:10.0.0.1" = Some (V6 [0; 0; 0; 0; 0; 65535; 2560; 1]%Z).
Proof. reflexivity. Qed.
Example parse_ip_4 : parse_ip "10.0.0.01" = None ∧ parse_ip "10.0.0" = None ∧ parse_ip "1:2" = None ∧ parse_ip "::" = Some (V6 (replicate 8 0%Z)).
Proof. repeat split; reflexivity. Qed.

(** ** Lemmas *)

Lemma fs_run_Ok fse op fs fs' : fs_run fse op fs = (Ok (), fs') → fs' = fs_apply op fs.
Proof. unfold fs_run. destruct (fs_error fse op); [done|]. by intros [= <-]. Qed.

Lemma st_map_err_Ok {S A} f (m : st S string A) s a s' : st_map_err f m s = (Ok a, s') → m s = (Ok a, s').
Proof. unfold st_map_err. destruct (m s) as [[]]; cbn; [by intros [= <- <-]|done]. Qed.
