(* ===== verification/Interleave.v ===== *)
(** * Interleavings

    Steps of concurrent activities on one state, in an order the scheduler chooses.  Two
    facts about such runs, for steps that commute up to an equivalence of states: a
    schedule can be permuted, and of a sequence of operations with keys only the order
    within each key matters. *)

From S2P Require Import Prelude.
From stdpp Require Import options.

Set Default Proof Using "All".

(** ** Commuting steps *)

(** Steps with labels in [L] on states in [S]; [R] is the equivalence of states, [P] the
    invariant under which steps with different labels commute. *)
Class Commuting {S L : Type} (R : relation S) (P : S → Prop) (step : L → S → S) := {
  commuting_equiv :: Equivalence R;
  commuting_inv s s' : R s s' → P s → P s';
  commuting_step_inv l s : P s → P (step l s);
  commuting_step l s s' : P s → R s s' → R (step l s) (step l s');
  commuting_swap l l' s : l ≠ l' → P s → R (step l (step l' s)) (step l' (step l s))
}.

Definition run_steps {S L} (step : L → S → S) (ls : list L) (s : S) : S := foldl (λ s l, step l s) s ls.

Lemma run_steps_app {S L} (step : L → S → S) ls ls' s :
  run_steps step (ls ++ ls') s = run_steps step ls' (run_steps step ls s).
Proof. apply foldl_app. Qed.

Section commuting.
Context {S L : Type} `{!EqDecision L} {R : relation S} {P : S → Prop} {step : L → S → S} `{!Commuting R P step}.

Lemma run_steps_inv ls s : P s → P (run_steps step ls s).
Proof. revert s. induction ls as [|l ls IH]; intros s Hs; [done|]. by apply IH, commuting_step_inv. Qed.

Lemma run_steps_proper ls s s' : P s → R s s' → R (run_steps step ls s) (run_steps step ls s').
Proof.
  revert s s'. induction ls as [|l ls IH]; intros s s' Hs Hr; [done|].
  apply IH; [by apply commuting_step_inv|by apply commuting_step].
Qed.

(** The order of the steps does not matter. *)
Lemma run_steps_permutation ls ls' s : P s → ls ≡ₚ ls' → R (run_steps step ls s) (run_steps step ls' s).
Proof.
  intros Hs Hp. revert s Hs. induction Hp as [|l ls ls' _ IH|l l' ls|ls1 ls2 ls3 _ IH1 _ IH2]; intros s Hs.
  - done.
  - by apply IH, commuting_step_inv.
  - cbn. destruct (decide (l = l')) as [->|Hne]; [done|].
    apply run_steps_proper; [by do 2 apply commuting_step_inv|by apply commuting_swap].
  - etransitivity; [by apply IH1|by apply IH2].
Qed.

End commuting.

(** ** Operations with keys *)

(** The operations of one key, in their order. *)
Definition of_key {O K} `{!EqDecision K} (key : O → K) (k : K) (os : list O) : list O := filter (λ o, key o = k) os.

(** The same operations for every key: the lists differ only in how the keys interleave. *)
Definition same_per_key {O K} `{!EqDecision K} (key : O → K) (os os' : list O) : Prop :=
  ∀ k, of_key key k os = of_key key k os'.

Section keyed.
Context {O K : Type} `{!EqDecision K} (key : O → K).

#[global] Instance same_per_key_equiv : Equivalence (same_per_key (O:=O) key).
Proof. split; [by intros ??|by intros ????|]. intros ??? H1 H2 k. by rewrite H1, H2. Qed.

Lemma of_key_app k os os' : of_key key k (os ++ os') = of_key key k os ++ of_key key k os'.
Proof. apply list.filter_app. Qed.

Lemma same_per_key_app os1 os1' os2 os2' :
  same_per_key key os1 os1' → same_per_key key os2 os2' → same_per_key key (os1 ++ os2) (os1' ++ os2').
Proof. intros H1 H2 k. by rewrite !of_key_app, H1, H2. Qed.

Lemma same_per_key_swap o o' : key o ≠ key o' → same_per_key key [o; o'] [o'; o].
Proof.
  intros Hne k. unfold of_key. rewrite !filter_cons. repeat case_decide; congruence.
Qed.

(** The first operation of its key can be found in the other list, behind operations of
    other keys only. *)
Lemma same_per_key_cons o os os' : same_per_key key (o :: os) os' →
  ∃ pre post, os' = pre ++ o :: post ∧ Forall (λ o', key o' ≠ key o) pre ∧ same_per_key key os (pre ++ post).
Proof.
  intros Hsame. pose proof (Hsame (key o)) as Ho. unfold of_key in Ho. rewrite filter_cons, decide_True in Ho by done.
  assert (∃ pre post, os' = pre ++ o :: post ∧ Forall (λ o', key o' ≠ key o) pre) as (pre & post & -> & Hpre).
  { clear Hsame. induction os' as [|o' os' IH]; [done|]. rewrite filter_cons in Ho. case_decide as Hk.
    - injection Ho as <- _. by exists [], os'.
    - destruct IH as (pre & post & -> & Hpre); [done|]. exists (o' :: pre), post. auto. }
  exists pre, post. split_and!; [done..|]. intros k. specialize (Hsame k). revert Hsame.
  rewrite !of_key_app. unfold of_key. rewrite !filter_cons. case_decide as Hk; [|done].
  assert (filter (λ o', key o' = k) pre = []) as ->.
  { rewrite <- Hk. clear -Hpre. induction Hpre; [done|]. rewrite filter_cons. by rewrite decide_False. }
  by intros [= ->].
Qed.

Context {S : Type} {R : relation S} `{!Equivalence R} (step : O → S → S).
Context (step_proper : ∀ o s s', R s s' → R (step o s) (step o s')).
Context (step_swap : ∀ o o' s, key o ≠ key o' → R (step o (step o' s)) (step o' (step o s))).

Lemma run_steps_mono os s s' : R s s' → R (run_steps step os s) (run_steps step os s').
Proof. revert s s'. induction os as [|o os IH]; intros s s' Hr; [done|]. by apply IH, step_proper. Qed.

Lemma run_steps_hoist o pre s : Forall (λ o', key o' ≠ key o) pre →
  R (step o (run_steps step pre s)) (run_steps step pre (step o s)).
Proof.
  intros Hpre. revert s. induction Hpre as [|o' pre Ho _ IH]; intros s; [done|]. cbn. etransitivity; [apply IH|].
  apply run_steps_mono, step_swap. congruence.
Qed.

(** Only the order within each key matters. *)
Lemma run_steps_same_per_key os os' s : same_per_key key os os' → R (run_steps step os s) (run_steps step os' s).
Proof.
  revert os' s. induction os as [|o os IH]; intros os' s Hsame.
  - destruct os' as [|o' os']; [done|]. specialize (Hsame (key o')). unfold of_key in Hsame.
    by rewrite filter_cons, decide_True in Hsame.
  - apply same_per_key_cons in Hsame as (pre & post & -> & Hpre & Hsame). cbn. etransitivity; [by apply IH|].
    rewrite !run_steps_app. cbn. apply run_steps_mono. symmetry. by apply run_steps_hoist.
Qed.

End keyed.
