(* ===== verification/Config.v ===== *)
(** * Configuration (src/config.rs)

    Every configuration record and its [from_env], over the process environment,
    and the generation of [mosquitto.conf]. *)

From S2P Require Import Prelude RustStr Paths.
From stdpp Require Import options.

(** The process environment: [std::env::var] is an error exactly for the names
    that map to nothing. *)
Definition Env := string → option string.

(** [std::env::var(name).unwrap_or_else(|_| d)] *)
Definition var_or (env : Env) (name d : string) : string := default d (env name).

(** [... .trim().eq_ignore_ascii_case("true")] *)
Definition is_true_str (s : string) : bool := eq_ignore_ascii_case (trim s) "true".

(** [... .parse().unwrap_or(d)] *)
Definition parse_or (max d : Z) (s : string) : Z := default d (parse_uint max s).

#[global] Arguments is_true_str : simpl never.
#[global] Arguments parse_or : simpl never.

(** ** The local MQTT client *)

Inductive MqttTlsMode := TlsNone | ServerOnly | Mutual.

#[global] Instance MqttTlsMode_eq_dec : EqDecision MqttTlsMode.
Proof. solve_decision. Defined.

Record MqttClientConfig := mkMqttClientConfig {
  mc_client_id : string;
  mc_host : string;
  mc_port : Z;
  mc_tls_mode : MqttTlsMode;
  mc_cafile : option string;
  mc_certfile : option string;
  mc_keyfile : option string;
  mc_username : string;
  mc_password : string
}.

Definition MqttClientConfig_from_env (env : Env) (config_dir : string) : MqttClientConfig :=
  let client_id := var_or env "MQTT_CLIENT_ID" "hamlet" in
  let host := "localhost" in
  let mutual := is_true_str (var_or env "MQTT_TLS_ENABLED" "false") in
  let tls_mode := if mutual then Mutual else TlsNone in
  let port :=
    if mutual then parse_or u16_max 8883 (var_or env "MQTTS_PORT" "8883")
    else parse_or u16_max 1883 (var_or env "MQTT_PORT" "1883") in
  let cafile := Some (path_join config_dir (var_or env "MQTT_CAFILE" "certs/ca.crt")) in
  let certfile := Some (path_join config_dir (var_or env "MQTT_CLIENT_CERTFILE" "certs/client.crt")) in
  let keyfile := Some (path_join config_dir (var_or env "MQTT_CLIENT_KEYFILE" "certs/client.key")) in
  let username := var_or env "MQTT_USERNAME" "placenet" in
  let password := var_or env "MQTT_PASSWORD" "changeme" in
  mkMqttClientConfig client_id host port tls_mode cafile certfile keyfile username password.

(** ** The broker *)

Record MqttBrokerageConfig := mkMqttBrokerageConfig {
  mb_port : Z;
  mb_client_id : string;
  mb_config_file : string;
  mb_password_file : string;
  mb_username : string;
  mb_password : string;
  mb_tls_enabled : bool;
  mb_mqtts_port : Z;
  mb_cafile : string;
  mb_certfile : string;
  mb_keyfile : string;
  mb_san_ips : list IpAddr;
  mb_san_hostnames : list string
}.

Definition MqttBrokerageConfig_from_env (env : Env) (config_dir : string) : MqttBrokerageConfig :=
  let port := parse_or u16_max 1883 (var_or env "MQTT_PORT" "1883") in
  let mqtts_port := parse_or u16_max 8883 (var_or env "MQTTS_PORT" "8883") in
  let client_id := var_or env "MQTT_CLIENT_ID" "hamlet" in
  let username := var_or env "MQTT_USERNAME" "placenet" in
  let password := var_or env "MQTT_PASSWORD" "changeme" in
  let tls_enabled := is_true_str (var_or env "MQTT_TLS_ENABLED" "true") in
  let cafile := path_join config_dir (var_or env "MQTT_CAFILE" "certs/ca.crt") in
  let certfile := path_join config_dir (var_or env "MQTT_CERTFILE" "certs/broker.crt") in
  let keyfile := path_join config_dir (var_or env "MQTT_KEYFILE" "certs/broker.key") in
  let san_ips := omap (λ s, parse_ip (trim s)) (split "," (var_or env "BROKER_SAN_IPS" "")) in
  let san_hostnames :=
    filter (λ s, s ≠ "" ∧ s ≠ "localhost") (trim <$> split "," (var_or env "BROKER_SAN_HOSTNAMES" "")) in
  let config_file := path_join config_dir "mosquitto.conf" in
  let password_file := path_join config_dir "passwd" in
  mkMqttBrokerageConfig port client_id config_file password_file username password tls_enabled
    mqtts_port cafile certfile keyfile san_ips san_hostnames.

(** A line feed, which ends every line of the generated file. *)
Definition nl : string := String "010" "".

(** The text [write_config] builds. *)
Definition mosquitto_conf (cfg : MqttBrokerageConfig) : string :=
  "# Auto-generated by hamlet" +:+ nl +:+
  "persistence false" +:+ nl +:+
  "log_dest stderr" +:+ nl +:+ nl +:+
  if mb_tls_enabled cfg then
    "listener " +:+ show_uint (mb_mqtts_port cfg) +:+ nl +:+
    "protocol mqtt" +:+ nl +:+
    "cafile " +:+ mb_cafile cfg +:+ nl +:+
    "certfile " +:+ mb_certfile cfg +:+ nl +:+
    "keyfile " +:+ mb_keyfile cfg +:+ nl +:+
    "tls_version tlsv1.2" +:+ nl +:+
    "require_certificate true" +:+ nl +:+
    "use_identity_as_username true" +:+ nl
  else
    "listener " +:+ show_uint (mb_port cfg) +:+ nl +:+
    "allow_anonymous false" +:+ nl +:+
    "password_file " +:+ mb_password_file cfg +:+ nl.

Definition write_config (fse : FsEnv) (cfg : MqttBrokerageConfig) : st FS string () :=
  config_dir ← st_lift (ok_or "config_file has no parent directory" (path_parent (mb_config_file cfg)));
  _ ← st_map_err (λ e, "Failed to create config dir: " +:+ e) (fs_run fse (CreateDirAll config_dir));
  let config := mosquitto_conf cfg in
  st_map_err (λ e, "Failed to write mosquitto.conf: " +:+ e)
    (fs_run fse (WriteFile (mb_config_file cfg) config)).

(** ** The HTTP gateway *)

Record HttpConfig := mkHttpConfig {
  http_host : string;
  http_port : Z;
  http_tls_enabled : bool;
  http_upstream_port : Z
}.

Definition HttpConfig_from_env (env : Env) : HttpConfig :=
  let host := var_or env "HTTP_HOST" "0.0.0.0" in
  let port := parse_or u16_max 8080 (var_or env "HTTP_PORT" "8080") in
  let tls_enabled := is_true_str (var_or env "HTTP_TLS_ENABLED" "true") in
  let upstream_port := parse_or u16_max 3000 (var_or env "HTTP_UPSTREAM_PORT" "3000") in
  mkHttpConfig host port tls_enabled upstream_port.

(** ** Beacon management *)

Record BeaconManagementConfig := mkBeaconManagementConfig {
  bm_use_jitter : bool;
  bm_broadcast_interval : Z;
  bm_key_rotation_interval : Z;
  bm_key_expiry : Z
}.

Definition BeaconManagementConfig_from_env (env : Env) : BeaconManagementConfig :=
  let use_jitter := is_true_str (var_or env "USE_NETWORK_JITTER" "false") in
  let broadcast_interval := parse_or u16_max 60 (trim (var_or env "BROADCAST_INTERVAL" "60")) in
  let key_rotation_interval := parse_or u32_max 3600 (trim (var_or env "KEY_ROTATION_INTERVAL" "3600")) in
  let key_expiry := parse_or u32_max 7200 (trim (var_or env "KEY_EXPIRY" "7200")) in
  mkBeaconManagementConfig use_jitter broadcast_interval key_rotation_interval key_expiry.

(** ** The cloud gateway *)

Record GatewayRegistrationConfig := mkGatewayRegistrationConfig {
  gr_server_url : string;
  gr_gateway_url : option string;
  gr_username : string;
  gr_password : string;
  gr_broker_cafile : option string;
  gr_broker_tls : bool
}.

Definition GatewayRegistrationConfig_from_env (env : Env) : GatewayRegistrationConfig :=
  let server_url := var_or env "PLACENET_SERVER_URL" "http://localhost:8080" in
  let gateway_url := env "PLACENET_GATEWAY_URL" in
  let username := var_or env "PLACENET_GATEWAY_USERNAME" "" in
  let password := var_or env "PLACENET_GATEWAY_PASSWORD" "" in
  let broker_cafile := env "PLACENET_GATEWAY_MQTT_CAFILE" in
  let broker_tls := default true (is_true_str <$> env "PLACENET_GATEWAY_MQTT_TLS") in
  mkGatewayRegistrationConfig server_url gateway_url username password broker_cafile broker_tls.

(** ** The whole configuration *)

Record Config := mkConfig {
  cfg_mqtt_brokerage : MqttBrokerageConfig;
  cfg_mqtt_client : MqttClientConfig;
  cfg_http : HttpConfig;
  cfg_gateway_registration : GatewayRegistrationConfig;
  cfg_beacon_management : BeaconManagementConfig;
  cfg_config_dir : string
}.

(** [cwd] is what [current_dir] returns; without one a relative directory is a
    panic ([None]). *)
Definition Config_from_env (env : Env) (cwd : option string) : option Config :=
  let config_dir_raw := var_or env "PLACENET_CONFIG_DIR" "config" in
  config_dir ← (if is_absolute config_dir_raw then Some config_dir_raw
                else (λ d, path_join d config_dir_raw) <$> cwd);
  let mqtt_brokerage := MqttBrokerageConfig_from_env env config_dir in
  let mqtt_client := MqttClientConfig_from_env env config_dir in
  let http := HttpConfig_from_env env in
  let gateway_registration := GatewayRegistrationConfig_from_env env in
  let beacon_management := BeaconManagementConfig_from_env env in
  Some (mkConfig mqtt_brokerage mqtt_client http gateway_registration beacon_management config_dir).

(** ** Where the broker listens *)

(** The port of the one listener [mosquitto_conf] opens. *)
Definition listener_port (cfg : MqttBrokerageConfig) : Z :=
  if mb_tls_enabled cfg then mb_mqtts_port cfg else mb_port cfg.

(** ** Reading a [mosquitto.conf]

    One directive per line: the name up to the first space, then its value; blank
    lines and lines that start with [#] are skipped. *)

Definition directive (l : string) : option (string * string) :=
  if bool_decide (l = "") || starts_with "#" l then None
  else match find_split " "%char l with
       | Some (k, String _ v) => Some (k, v)
       | _ => Some (l, "")
       end.

Definition directives (s : string) : list (string * string) := omap directive (split "010"%char s).

(** ** Proofs *)

Definition no_nl (s : string) : Prop := ¬ str_In "010"%char s.

Lemma directive_pair k v c k' : k = String c k' → c ≠ "#"%char → ¬ str_In " "%char k →
  directive (k +:+ String " " v) = Some (k, v).
Proof.
  intros -> Hc Hk. unfold directive. rewrite bool_decide_false by (rewrite str_app_cons; congruence).
  replace (starts_with "#" _) with false; [by rewrite find_split_app|].
  symmetry. apply not_true_iff_false. rewrite starts_with_spec. intros [r Hr].
  rewrite !str_app_cons in Hr. congruence.
Qed.

Lemma directives_line l s : no_nl l → directives (l +:+ nl +:+ s) = option_list (directive l) ++ directives s.
Proof.
  intros Hl. unfold directives. change (nl +:+ s) with (String "010" s).
  rewrite split_app by done. cbn. by destruct (directive l).
Qed.

Lemma directives_last l : no_nl l → directives (l +:+ nl) = option_list (directive l).
Proof.
  intros Hl. rewrite <- (str_app_nil_r nl), directives_line by done. apply app_nil_r.
Qed.

Lemma no_nl_app a b : no_nl a → no_nl b → no_nl (a +:+ b).
Proof. unfold no_nl. rewrite str_In_app. tauto. Qed.

Lemma no_nl_show z : (0 ≤ z)%Z → no_nl (show_uint z).
Proof. intros. by apply show_uint_no. Qed.

Lemma no_nl_const s : bool_decide (str_In "010"%char s) = false → no_nl s.
Proof. by intros ?%bool_decide_eq_false. Qed.

#[export] Hint Resolve no_nl_app no_nl_show : hamlet.
#[export] Hint Extern 2 (no_nl _) => by apply no_nl_const : hamlet.

(** A directive with a value that is not a constant. *)
Definition key_ok (k : string) : bool :=
  negb (bool_decide (k = "")) && negb (starts_with "#" k) &&
  negb (bool_decide (str_In " "%char k)) && negb (bool_decide (str_In "010"%char k)).

Lemma directives_kv k v s : key_ok k = true → no_nl v →
  directives ((k +:+ " ") +:+ v +:+ nl +:+ s) = (k, v) :: directives s.
Proof.
  unfold key_ok. intros Hk Hv. bools.
  rewrite <- str_app_assoc, directives_line by auto using no_nl_app, no_nl_const.
  destruct k as [|c k']; [done|]. rewrite str_app_assoc.
  change (" " +:+ v) with (String " " v).
  erewrite (directive_pair (String c k') v); [done..| |done].
  intros ->. by vm_compute in *.
Qed.

Lemma directives_kv_last k v : key_ok k = true → no_nl v → directives ((k +:+ " ") +:+ v +:+ nl) = [(k, v)].
Proof. intros. rewrite <- (str_app_nil_r nl). by rewrite directives_kv. Qed.

Lemma parse_or_bound max d s : (0 ≤ d ≤ max)%Z → (0 ≤ parse_or max d s ≤ max)%Z.
Proof.
  intros. unfold parse_or. destruct (parse_uint max s) eqn:E; cbn; [|done].
  apply parse_uint_bound in E; lia.
Qed.

(** The directives the broker must see. *)
Definition broker_directives (cfg : MqttBrokerageConfig) : list (string * string) :=
  [("persistence", "false"); ("log_dest", "stderr"); ("listener", show_uint (listener_port cfg))] ++
  if mb_tls_enabled cfg then
    [("protocol", "mqtt"); ("cafile", mb_cafile cfg); ("certfile", mb_certfile cfg);
     ("keyfile", mb_keyfile cfg); ("tls_version", "tlsv1.2"); ("require_certificate", "true");
     ("use_identity_as_username", "true")]
  else [("allow_anonymous", "false"); ("password_file", mb_password_file cfg)].

Lemma mosquitto_conf_reads cfg :
  (0 ≤ listener_port cfg)%Z → no_nl (mb_cafile cfg) → no_nl (mb_certfile cfg) →
  no_nl (mb_keyfile cfg) → no_nl (mb_password_file cfg) →
  directives (mosquitto_conf cfg) = broker_directives cfg.
Proof.
  unfold mosquitto_conf, broker_directives, listener_port. intros Hp H1 H2 H3 H4.
  change "listener " with ("listener" +:+ " "). change "cafile " with ("cafile" +:+ " ").
  change "certfile " with ("certfile" +:+ " "). change "keyfile " with ("keyfile" +:+ " ").
  change "password_file " with ("password_file" +:+ " ").
  rewrite !(directives_line "# Auto-generated by hamlet"), !(directives_line "persistence false"),
    !(directives_line "log_dest stderr") by auto with hamlet.
  rewrite <- (str_app_nil_l nl) at 1. rewrite str_app_assoc, (directives_line "") by auto with hamlet.
  destruct (mb_tls_enabled cfg).
  - rewrite !directives_kv by auto with hamlet.
    rewrite !(directives_line "protocol mqtt"), !directives_kv, !(directives_line "tls_version tlsv1.2"),
      !(directives_line "require_certificate true"), directives_last by auto with hamlet.
    reflexivity.
  - rewrite !directives_kv by auto with hamlet.
    rewrite !(directives_line "allow_anonymous false"), directives_kv_last by auto with hamlet.
    reflexivity.
Qed.

Lemma write_config_Ok fse cfg fs fs' : write_config fse cfg fs = (Ok (), fs') →
  files fs' !! mb_config_file cfg = Some (mosquitto_conf cfg).
Proof.
  unfold write_config, st_lift, st_map_err, fs_run, mbind, st_bind.
  destruct (path_parent _); cbn; [|done].
  destruct (fs_error fse (CreateDirAll _)); cbn; [done|].
  destruct (fs_error fse (WriteFile _ _)); cbn; [done|].
  intros [= <-]. cbn. by simplify_map_eq.
Qed.

(** C30: When [write_config] succeeds and no path holds a line feed, the file the broker is started with says what
    the configuration means: read back directive by directive it opens exactly one
    listener, on the TLS port with required client certificates and no password
    file when TLS is on, on the plain port with anonymous access denied and the
    password file when it is off, and the printed port reads back as the number. *)
Theorem written_config_reads_back fse cfg fs fs' :
  in_u16 (listener_port cfg) →
  no_nl (mb_cafile cfg) → no_nl (mb_certfile cfg) → no_nl (mb_keyfile cfg) → no_nl (mb_password_file cfg) →
  write_config fse cfg fs = (Ok (), fs') →
  ∃ text, files fs' !! mb_config_file cfg = Some text ∧
    directives text = broker_directives cfg ∧
    (∀ v, ("listener", v) ∈ directives text ↔ v = show_uint (listener_port cfg)) ∧
    parse_uint u16_max (show_uint (listener_port cfg)) = Some (listener_port cfg).
Proof.
  intros Hp H1 H2 H3 H4 Hw%write_config_Ok. exists (mosquitto_conf cfg).
  unfold in_u16, u16_max in *.
  rewrite mosquitto_conf_reads by (done || lia). split_and!; [done..| |].
  - intros v. unfold broker_directives. destruct (mb_tls_enabled cfg); set_solver.
  - apply parse_show_uint; unfold u16_max; lia.
Qed.

Definition no_env : Env := λ _, None.

Lemma written_config_reads_back_witness :
  ∃ text, files (write_config fs_healthy (MqttBrokerageConfig_from_env no_env "/etc/hamlet") (mkFS ∅ ∅)).2
      !! "/etc/hamlet/mosquitto.conf" = Some text ∧ ("listener", "8883") ∈ directives text.
Proof.
  destruct (written_config_reads_back fs_healthy (MqttBrokerageConfig_from_env no_env "/etc/hamlet")
    (mkFS ∅ ∅) (write_config fs_healthy (MqttBrokerageConfig_from_env no_env "/etc/hamlet") (mkFS ∅ ∅)).2)
    as (text & Hf & _ & Hl & _).
  - split; vm_compute; discriminate.
  - by apply no_nl_const.
  - by apply no_nl_const.
  - by apply no_nl_const.
  - by apply no_nl_const.
  - reflexivity.
  - exists text. split; [exact Hf|]. apply Hl. reflexivity.
Defined.

(** With [MQTT_TLS_ENABLED] set, to anything, the local client and the broker
    agree: the client uses mutual TLS exactly when the broker requires client
    certificates, it connects to the port of the broker's listener, and it trusts
    the CA file the broker is configured with. *)
Theorem client_matches_broker env dir v :
  env "MQTT_TLS_ENABLED" = Some v →
  let b := MqttBrokerageConfig_from_env env dir in
  let c := MqttClientConfig_from_env env dir in
  (mc_tls_mode c = Mutual ↔ mb_tls_enabled b = true) ∧
  mc_port c = listener_port b ∧ mc_cafile c = Some (mb_cafile b) ∧
  mc_username c = mb_username b ∧ mc_password c = mb_password b.
Proof.
  intros Hv. unfold listener_port, MqttClientConfig_from_env, MqttBrokerageConfig_from_env, var_or.
  rewrite Hv. cbn. unfold id. destruct (is_true_str v); split_and!; done.
Qed.

Definition tls_on_env : Env := λ n, if bool_decide (n = "MQTT_TLS_ENABLED") then Some " True " else None.

Lemma client_matches_broker_witness :
  mc_port (MqttClientConfig_from_env tls_on_env "/etc") = 8883%Z ∧
  mc_port (MqttClientConfig_from_env tls_on_env "/etc") = listener_port (MqttBrokerageConfig_from_env tls_on_env "/etc").
Proof.
  split; [reflexivity|]. apply (client_matches_broker tls_on_env "/etc" " True "). reflexivity.
Defined.

(** With [MQTT_TLS_ENABLED] unset the two disagree: the broker is configured
    for TLS only, requiring client certificates, while the client is configured for
    plain text with a password, and with the ports unset too it connects to 1883
    while the only listener is on 8883. *)
Theorem client_misses_broker_by_default env dir :
  env "MQTT_TLS_ENABLED" = None →
  let b := MqttBrokerageConfig_from_env env dir in
  let c := MqttClientConfig_from_env env dir in
  mb_tls_enabled b = true ∧ mc_tls_mode c = TlsNone ∧
  (("require_certificate", "true") ∈ broker_directives b) ∧
  (env "MQTT_PORT" = None → env "MQTTS_PORT" = None →
    mc_port c = 1883%Z ∧ listener_port b = 8883%Z).
Proof.
  intros Hv. unfold listener_port, broker_directives, MqttClientConfig_from_env, MqttBrokerageConfig_from_env, var_or.
  rewrite Hv. cbn. split_and!; [done..| |].
  - set_solver.
  - by intros -> ->.
Qed.

Lemma client_misses_broker_by_default_witness :
  mc_port (MqttClientConfig_from_env no_env "/etc") = 1883%Z ∧
  listener_port (MqttBrokerageConfig_from_env no_env "/etc") = 8883%Z.
Proof. apply (client_misses_broker_by_default no_env "/etc"); reflexivity. Defined.

Lemma Config_from_env_inv env cwd cfg : Config_from_env env cwd = Some cfg → ∃ dir,
  cfg_config_dir cfg = dir ∧ cfg_mqtt_brokerage cfg = MqttBrokerageConfig_from_env env dir ∧
  cfg_mqtt_client cfg = MqttClientConfig_from_env env dir ∧ cfg_http cfg = HttpConfig_from_env env ∧
  cfg_beacon_management cfg = BeaconManagementConfig_from_env env.
Proof.
  unfold Config_from_env. intros H. apply bind_Some in H as (dir & _ & [= <-]). eauto 10.
Qed.

(** Whatever the environment holds, every number of the loaded configuration
    fits its type (ports and the broadcast interval 16 bits, key lifetimes 32), and
    the host names for the broker certificate are trimmed, never empty and never a
    second "localhost". *)
Theorem config_in_range env cwd cfg :
  Config_from_env env cwd = Some cfg →
  in_u16 (mb_port (cfg_mqtt_brokerage cfg)) ∧ in_u16 (mb_mqtts_port (cfg_mqtt_brokerage cfg)) ∧
  in_u16 (mc_port (cfg_mqtt_client cfg)) ∧ in_u16 (http_port (cfg_http cfg)) ∧
  in_u16 (http_upstream_port (cfg_http cfg)) ∧
  in_u16 (bm_broadcast_interval (cfg_beacon_management cfg)) ∧
  in_u32 (bm_key_rotation_interval (cfg_beacon_management cfg)) ∧
  in_u32 (bm_key_expiry (cfg_beacon_management cfg)) ∧
  Forall (λ h, h ≠ "" ∧ h ≠ "localhost" ∧ ∃ raw, h = trim raw) (mb_san_hostnames (cfg_mqtt_brokerage cfg)).
Proof.
  intros (dir & _ & Hb & Hc & Hh & Hm)%Config_from_env_inv. rewrite Hb, Hc, Hh, Hm.
  split_and!; try (by apply parse_or_bound).
  - cbn. case_match; by apply parse_or_bound.
  - apply list.Forall_forall. intros h (Hh' & Hin)%list_elem_of_filter.
    apply list_elem_of_fmap in Hin as (raw & -> & _). naive_solver.
Qed.

Lemma config_in_range_witness :
  ∃ cfg, Config_from_env no_env (Some "/home/pi") = Some cfg ∧ in_u16 (mc_port (cfg_mqtt_client cfg)).
Proof.
  eexists. split; [reflexivity|].
  apply (config_in_range no_env (Some "/home/pi")). reflexivity.
Defined.
