(* ===== verification/Supervisor.v ===== *)
(** * The supervisor (src/supervisor.rs)

    The supervisor owns the managed services and runs the commands it receives
    over its channel one at a time.  A managed service is anything with the
    operations of the trait [ManagedService]; what the outside world answers
    during one call (a port that is taken, a file that is missing, a process that
    does not start) is a value of the type [E], an argument of that call. *)

From S2P Require Import Prelude.
From stdpp Require Import options.

(** ** Data *)

(** Identifiers of the managed services. *)
Inductive ServiceId :=
| Gateway
| Mosquitto
| MqttClient
| CloudGateway
| GatewayMqttClient.

#[global] Instance ServiceId_eq_dec : EqDecision ServiceId.
Proof. solve_decision. Defined.

Definition ServiceId_index (id : ServiceId) : nat :=
  match id with Gateway => 0 | Mosquitto => 1 | MqttClient => 2 | CloudGateway => 3 | GatewayMqttClient => 4 end.
Definition ServiceId_of_index (n : nat) : option ServiceId :=
  [Gateway; Mosquitto; MqttClient; CloudGateway; GatewayMqttClient] !! n.

#[global] Instance ServiceId_countable : Countable ServiceId.
Proof. refine (inj_countable ServiceId_index ServiceId_of_index _). by intros []. Defined.

(** The derived [Debug] output, which the error messages embed. *)
Definition debug_id (id : ServiceId) : string :=
  match id with
  | Gateway => "Gateway"
  | Mosquitto => "Mosquitto"
  | MqttClient => "MqttClient"
  | CloudGateway => "CloudGateway"
  | GatewayMqttClient => "GatewayMqttClient"
  end.

Inductive ServiceStatus :=
| Unavailable
| Stopped
| Starting
| Running (pid : Z)
| Failed (reason : string).

#[global] Instance ServiceStatus_eq_dec : EqDecision ServiceStatus.
Proof. solve_decision. Defined.

Inductive SupervisorCommand :=
| Start (service : ServiceId)
| Stop (service : ServiceId)
| Restart (service : ServiceId)
| Status.

(** What a command sends back on its reply channel. *)
Inductive Reply :=
| RResult (r : result string unit)
| RStatus (m : gmap ServiceId ServiceStatus).

(** The trait [ManagedService]. *)
Class ManagedService (E S : Type) := {
  ms_start : E → S → result string Z * S;
  ms_stop : E → S → result string unit * S;
  ms_is_running : E → S → bool * S
}.

Record Supervisor (S : Type) := mkSupervisor {
  services : gmap ServiceId S;
  statuses : gmap ServiceId ServiceStatus;
  channel_buffer : nat
}.
Arguments mkSupervisor {S} _ _ _.
Arguments services {S} _.
Arguments statuses {S} _.
Arguments channel_buffer {S} _.

(** ** Operations *)

Section operations.
Context {E S : Type} `{!ManagedService E S}.
Implicit Types (s : Supervisor S) (id : ServiceId) (svc : S) (e : E).

Definition new_supervisor : Supervisor S := mkSupervisor ∅ ∅ 32.

Definition set_status id (v : ServiceStatus) s : Supervisor S :=
  mkSupervisor (services s) (<[id := v]> (statuses s)) (channel_buffer s).

Definition set_service id svc s : Supervisor S :=
  mkSupervisor (<[id := svc]> (services s)) (statuses s) (channel_buffer s).

Definition register id svc (available : bool) s : Supervisor S :=
  let initial_status := if available then Stopped else Unavailable in
  set_service id svc (set_status id initial_status s).

Definition handle_start e id s : result string unit * Supervisor S :=
  match statuses s !! id with
  | Some Unavailable => (Err (debug_id id +:+ " is not installed on this system"), s)
  | Some (Running _) => (Err (debug_id id +:+ " is already running"), s)
  | Some Starting => (Err (debug_id id +:+ " is already starting"), s)
  | None => (Err (debug_id id +:+ " is not registered"), s)
  | Some Stopped | Some (Failed _) =>
      let s := set_status id Starting s in
      match services s !! id with
      | None => (Err (debug_id id +:+ " not registered"), s)
      | Some svc =>
          let '(r, svc) := ms_start e svc in
          let s := set_service id svc s in
          match r with
          | Ok pid => (Ok (), set_status id (Running pid) s)
          | Err msg => (Err msg, set_status id (Failed msg) s)
          end
      end
  end.

Definition handle_stop e id s : result string unit * Supervisor S :=
  match statuses s !! id with
  | Some Stopped => (Err (debug_id id +:+ " is already stopped"), s)
  | Some Unavailable => (Err (debug_id id +:+ " is not available"), s)
  | Some (Running _) | Some Starting | Some (Failed _) | None =>
      match services s !! id with
      | None => (Err (debug_id id +:+ " not registered"), s)
      | Some svc =>
          let '(r, svc) := ms_stop e svc in
          let s := set_service id svc s in
          match r with
          | Ok _ => (Ok (), set_status id Stopped s)
          | Err msg => (Err msg, s)
          end
      end
  end.

(** The world answers the stop with [e1] and the start with [e2]. *)
Definition handle_restart e1 e2 id s : result string unit * Supervisor S :=
  let s := match statuses s !! id with
           | Some (Running _) => (handle_stop e1 id s).2
           | _ => s
           end in
  handle_start e2 id s.

(** One iteration of the command loop of [spawn]. *)
Definition dispatch_command (e1 e2 : E) (cmd : SupervisorCommand) s : Reply * Supervisor S :=
  match cmd with
  | Start id => let '(r, s) := handle_start e2 id s in (RResult r, s)
  | Stop id => let '(r, s) := handle_stop e1 id s in (RResult r, s)
  | Restart id => let '(r, s) := handle_restart e1 e2 id s in (RResult r, s)
  | Status => (RStatus (statuses s), s)
  end.

Fixpoint command_loop (cmds : list (E * E * SupervisorCommand)) s : list Reply * Supervisor S :=
  match cmds with
  | [] => ([], s)
  | (e1, e2, cmd) :: cmds =>
      let '(r, s) := dispatch_command e1 e2 cmd s in
      let '(rs, s) := command_loop cmds s in
      (r :: rs, s)
  end.

(** Every sender is gone: stop every service; an error is only logged. *)
Definition stop_all (es : ServiceId → E) s : Supervisor S :=
  mkSupervisor (map_imap (λ id svc, Some (ms_stop (es id) svc).2) (services s))
    (statuses s) (channel_buffer s).

(** The task [spawn] starts: the commands, in the order the channel delivers
    them, then the shutdown. *)
Definition supervisor_task (cmds : list (E * E * SupervisorCommand)) (es : ServiceId → E) s :
    list Reply * Supervisor S :=
  let '(rs, s) := command_loop cmds s in (rs, stop_all es s).

(** *** The handle's side of a request

    The channel is open and the task answers, the task is gone, or the task goes
    away before it answers. *)
Inductive ChannelState := Live | ChannelClosed | ReplyDropped.

Definition request_reply (c : ChannelState) {A} (answer : result string A) : result string A :=
  match c with
  | ChannelClosed => Err "supervisor channel closed"
  | ReplyDropped => Err "supervisor dropped reply"
  | Live => answer
  end.

Definition request_state (c : ChannelState) (s s' : Supervisor S) : Supervisor S :=
  match c with Live => s' | _ => s end.

Definition start_service c e id s : result string unit * Supervisor S :=
  let '(r, s') := handle_start e id s in (request_reply c r, request_state c s s').

Definition stop_service c e id s : result string unit * Supervisor S :=
  let '(r, s') := handle_stop e id s in (request_reply c r, request_state c s s').

Definition restart_service c e1 e2 id s : result string unit * Supervisor S :=
  let '(r, s') := handle_restart e1 e2 id s in (request_reply c r, request_state c s s').

Definition get_status c s : result string (gmap ServiceId ServiceStatus) :=
  request_reply c (Ok (statuses s)).

End operations.

(** ** Abstract specification: the lifecycle of one service

    Between commands a service is in one of four phases; a command on it is
    answered ([true]) or refused ([false]) and moves it as the relation says. *)

Inductive Phase := PUnavailable | PStopped | PRunning | PFailed.

#[global] Instance Phase_eq_dec : EqDecision Phase.
Proof. solve_decision. Defined.

Inductive Action := AStart | AStop | ARestart.

Inductive lifecycle : Action → option Phase → bool → option Phase → Prop :=
| lc_start_ok p : p = PStopped ∨ p = PFailed → lifecycle AStart (Some p) true (Some PRunning)
| lc_start_fail p : p = PStopped ∨ p = PFailed → lifecycle AStart (Some p) false (Some PFailed)
| lc_start_refused op : op = None ∨ op = Some PUnavailable ∨ op = Some PRunning →
    lifecycle AStart op false op
| lc_stop_ok p : p = PRunning ∨ p = PFailed → lifecycle AStop (Some p) true (Some PStopped)
| lc_stop_fail p : p = PRunning ∨ p = PFailed → lifecycle AStop (Some p) false (Some p)
| lc_stop_refused op : op = None ∨ op = Some PUnavailable ∨ op = Some PStopped →
    lifecycle AStop op false op
| lc_restart_running b op b' op' :
    lifecycle AStop (Some PRunning) b op → lifecycle AStart op b' op' →
    lifecycle ARestart (Some PRunning) b' op'
| lc_restart_other op b op' :
    op ≠ Some PRunning → lifecycle AStart op b op' → lifecycle ARestart op b op'.

Definition command_target (cmd : SupervisorCommand) : option (Action * ServiceId) :=
  match cmd with
  | Start id => Some (AStart, id)
  | Stop id => Some (AStop, id)
  | Restart id => Some (ARestart, id)
  | Status => None
  end.

(** How a status shows a phase: [Starting] shows none, so no related state has it. *)
Inductive shows : ServiceStatus → Phase → Prop :=
| shows_unavailable : shows Unavailable PUnavailable
| shows_stopped : shows Stopped PStopped
| shows_running pid : shows (Running pid) PRunning
| shows_failed msg : shows (Failed msg) PFailed.

(** One command against the abstract state: only the target's phase moves, and a
    [Status] reply shows the phases as they are. *)
Inductive spec_step (m : gmap ServiceId Phase) : SupervisorCommand → Reply → gmap ServiceId Phase → Prop :=
| spec_status st : (∀ id, option_Forall2 shows (st !! id) (m !! id)) → spec_step m Status (RStatus st) m
| spec_command cmd a id r op :
    command_target cmd = Some (a, id) →
    lifecycle a (m !! id) (is_ok r) op →
    spec_step m cmd (RResult r) (partial_alter (λ _, op) id m).

Inductive spec_run : gmap ServiceId Phase → list SupervisorCommand → list Reply → gmap ServiceId Phase → Prop :=
| spec_run_nil m : spec_run m [] [] m
| spec_run_cons m cmd r m' cmds rs m'' :
    spec_step m cmd r m' → spec_run m' cmds rs m'' → spec_run m (cmd :: cmds) (r :: rs) m''.

#[export] Hint Constructors lifecycle shows spec_step spec_run : hamlet.

(** ** What one component relies on: the laws of a managed service

    [active] says whether the service holds a running instance.  A start that
    succeeds leaves one, a stop that succeeds leaves none, and a stop is only
    refused when there is none, changing nothing. *)
Class ManagedServiceLaws (E S : Type) `{!ManagedService E S} := {
  active : S → bool;
  start_ok_active e svc pid svc' : ms_start e svc = (Ok pid, svc') → active svc' = true;
  stop_ok_inactive e svc svc' : ms_stop e svc = (Ok (), svc') → active svc' = false;
  stop_err_inactive e svc msg svc' : ms_stop e svc = (Err msg, svc') → active svc = false ∧ svc' = svc
}.

(** ** Proofs *)

Section proofs.
Context {E S : Type} `{!ManagedService E S}.
Implicit Types (s : Supervisor S) (id : ServiceId) (m : gmap ServiceId Phase).

(** The services and the statuses cover the same identifiers. *)
Definition same_keys s : Prop := ∀ id, is_Some (services s !! id) ↔ is_Some (statuses s !! id).

Definition phases_of s m : Prop :=
  same_keys s ∧ ∀ id, option_Forall2 shows (statuses s !! id) (m !! id).

(** Case analysis of a handler along its code. *)
Ltac handler_cases :=
  repeat (case_match; simplify_eq/=).

(** *** Locality: a handler reads and writes its own service only *)

Definition view s id : option S * option ServiceStatus := (services s !! id, statuses s !! id).

Lemma view_status s t id : view s id = view t id → statuses s !! id = statuses t !! id.
Proof. by intros [=]. Qed.
Lemma view_service s t id : view s id = view t id → services s !! id = services t !! id.
Proof. by intros [=]. Qed.

Lemma handle_start_frame e id id' s : id ≠ id' → view (handle_start e id s).2 id' = view s id'.
Proof. intros. unfold handle_start, view. handler_cases; by simplify_map_eq. Qed.

Lemma handle_stop_frame e id id' s : id ≠ id' → view (handle_stop e id s).2 id' = view s id'.
Proof. intros. unfold handle_stop, view. handler_cases; by simplify_map_eq. Qed.

Lemma handle_restart_frame e1 e2 id id' s : id ≠ id' → view (handle_restart e1 e2 id s).2 id' = view s id'.
Proof.
  intros Hne. unfold handle_restart. rewrite handle_start_frame by done.
  destruct (statuses s !! id) as [[]|]; try done. by apply handle_stop_frame.
Qed.

Lemma handle_start_local e id s t : view s id = view t id →
  (handle_start e id s).1 = (handle_start e id t).1 ∧
  view (handle_start e id s).2 id = view (handle_start e id t).2 id.
Proof.
  intros Hv. unfold handle_start, set_status. cbn [services].
  rewrite (view_status _ _ _ Hv), (view_service _ _ _ Hv).
  handler_cases; split; try done; unfold view in *; cbn; simplify_map_eq; congruence.
Qed.

Lemma handle_stop_local e id s t : view s id = view t id →
  (handle_stop e id s).1 = (handle_stop e id t).1 ∧
  view (handle_stop e id s).2 id = view (handle_stop e id t).2 id.
Proof.
  intros Hv. unfold handle_stop.
  rewrite (view_status _ _ _ Hv), (view_service _ _ _ Hv).
  handler_cases; split; try done; unfold view in *; cbn; simplify_map_eq; congruence.
Qed.

Lemma handle_restart_local e1 e2 id s t : view s id = view t id →
  (handle_restart e1 e2 id s).1 = (handle_restart e1 e2 id t).1 ∧
  view (handle_restart e1 e2 id s).2 id = view (handle_restart e1 e2 id t).2 id.
Proof.
  intros Hv. unfold handle_restart. rewrite (view_status _ _ _ Hv).
  apply handle_start_local. destruct (statuses t !! id) as [[]|]; try done.
  by apply handle_stop_local.
Qed.

Lemma dispatch_frame e1 e2 cmd s id' :
  (∀ a id, command_target cmd = Some (a, id) → id ≠ id') →
  view (dispatch_command e1 e2 cmd s).2 id' = view s id'.
Proof.
  intros Hne. destruct cmd as [id|id|id|]; cbn in *; [..|done];
    specialize (Hne _ _ eq_refl).
  - rewrite <- (handle_start_frame e2 id id' s Hne). by destruct (handle_start _ _ _).
  - rewrite <- (handle_stop_frame e1 id id' s Hne). by destruct (handle_stop _ _ _).
  - rewrite <- (handle_restart_frame e1 e2 id id' s Hne). by destruct (handle_restart _ _ _ _).
Qed.

Lemma dispatch_local e1 e2 cmd a id s t :
  command_target cmd = Some (a, id) → view s id = view t id →
  (dispatch_command e1 e2 cmd s).1 = (dispatch_command e1 e2 cmd t).1 ∧
  view (dispatch_command e1 e2 cmd s).2 id = view (dispatch_command e1 e2 cmd t).2 id.
Proof.
  intros Ht Hv. destruct cmd as [id'|id'|id'|]; cbn in *; inversion Ht; subst.
  - destruct (handle_start_local e2 id s t Hv) as [Hr Hs].
    destruct (handle_start e2 id s), (handle_start e2 id t). cbn [fst snd] in *. by subst.
  - destruct (handle_stop_local e1 id s t Hv) as [Hr Hs].
    destruct (handle_stop e1 id s), (handle_stop e1 id t). cbn [fst snd] in *. by subst.
  - destruct (handle_restart_local e1 e2 id s t Hv) as [Hr Hs].
    destruct (handle_restart e1 e2 id s), (handle_restart e1 e2 id t). cbn [fst snd] in *. by subst.
Qed.

(** *** Refinement of the lifecycle *)

Lemma phases_step s s' m id op :
  phases_of s m → same_keys s' →
  (∀ id', id ≠ id' → view s' id' = view s id') →
  option_Forall2 shows (statuses s' !! id) op →
  phases_of s' (partial_alter (λ _, op) id m).
Proof.
  intros [_ Hm] Hk Hf Hop. split; [done|]. intros id'.
  destruct (decide (id = id')) as [<-|Hne].
  - by rewrite lookup_partial_alter_eq.
  - rewrite lookup_partial_alter_ne by done.
    rewrite (view_status _ _ _ (Hf _ Hne)). apply Hm.
Qed.

Lemma handle_start_keys e id s : same_keys s → same_keys (handle_start e id s).2.
Proof.
  intros Hk id'. specialize (Hk id') as Hk'. unfold handle_start.
  handler_cases; destruct (decide (id = id')) as [<-|]; simplify_map_eq; naive_solver.
Qed.

Lemma handle_stop_keys e id s : same_keys s → same_keys (handle_stop e id s).2.
Proof.
  intros Hk id'. specialize (Hk id') as Hk'. unfold handle_stop.
  handler_cases; destruct (decide (id = id')) as [<-|]; simplify_map_eq; naive_solver.
Qed.

Lemma keys_service s id st : same_keys s → statuses s !! id = Some st →
  ∃ svc, services s !! id = Some svc.
Proof. intros Hk Hst. destruct (proj2 (Hk id)) as [svc ?]; eauto. Qed.

Lemma keys_no_service s id : same_keys s → statuses s !! id = None → services s !! id = None.
Proof.
  intros Hk Hst. destruct (services s !! id) eqn:Hsvc; [|done].
  destruct (proj1 (Hk id)) as [? ?]; [eauto|congruence].
Qed.

Lemma handle_start_phase e id s op :
  same_keys s → option_Forall2 shows (statuses s !! id) op →
  ∃ op', lifecycle AStart op (is_ok (handle_start e id s).1) op' ∧
    option_Forall2 shows (statuses (handle_start e id s).2 !! id) op'.
Proof.
  intros Hk Hop. unfold handle_start.
  destruct (statuses s !! id) as [st|] eqn:Hst; inversion Hop as [? ? Hsh|]; subst; cbn [services set_status].
  - destruct (keys_service _ _ _ Hk Hst) as [svc Hsvc]. rewrite Hsvc.
    destruct (ms_start e svc) as [[pid|msg] svc'].
    all: inversion Hsh; subst; eexists; (split; [eauto 6 with hamlet|]); cbn;
      simplify_map_eq; repeat constructor.
  - exists None. cbn. rewrite Hst. split; [auto with hamlet|constructor].
Qed.

Lemma handle_stop_phase e id s op :
  same_keys s → option_Forall2 shows (statuses s !! id) op →
  ∃ op', lifecycle AStop op (is_ok (handle_stop e id s).1) op' ∧
    option_Forall2 shows (statuses (handle_stop e id s).2 !! id) op'.
Proof.
  intros Hk Hop. unfold handle_stop.
  destruct (statuses s !! id) as [st|] eqn:Hst; inversion Hop as [? ? Hsh|]; subst.
  - destruct (keys_service _ _ _ Hk Hst) as [svc Hsvc]. rewrite Hsvc.
    destruct (ms_stop e svc) as [[[]|msg] svc'].
    all: inversion Hsh; subst; eexists; (split; [eauto 6 with hamlet|]); cbn;
      simplify_map_eq; repeat constructor.
  - rewrite (keys_no_service _ _ Hk Hst). exists None. cbn. rewrite Hst.
    split; [auto with hamlet|constructor].
Qed.

Lemma handle_restart_keys e1 e2 id s : same_keys s → same_keys (handle_restart e1 e2 id s).2.
Proof.
  intros. unfold handle_restart. apply handle_start_keys.
  destruct (statuses s !! id) as [[]|]; auto using handle_stop_keys.
Qed.

Lemma command_loop_keys cmds s : same_keys s → same_keys (command_loop cmds s).2.
Proof.
  revert s; induction cmds as [|[[e1 e2] cmd] cmds IH]; intros s Hk; cbn [command_loop]; [done|].
  assert (same_keys (dispatch_command e1 e2 cmd s).2) as Hk'.
  { destruct cmd as [id|id|id|]; cbn [dispatch_command]; [..|done].
    - pose proof (handle_start_keys e2 id s Hk). by destruct (handle_start e2 id s).
    - pose proof (handle_stop_keys e1 id s Hk). by destruct (handle_stop e1 id s).
    - pose proof (handle_restart_keys e1 e2 id s Hk). by destruct (handle_restart e1 e2 id s). }
  destruct (dispatch_command e1 e2 cmd s) as [r s1]. cbn [snd] in Hk'. specialize (IH s1 Hk').
  by destruct (command_loop cmds s1).
Qed.

Lemma handle_restart_phase e1 e2 id s op :
  same_keys s → option_Forall2 shows (statuses s !! id) op →
  ∃ op', lifecycle ARestart op (is_ok (handle_restart e1 e2 id s).1) op' ∧
    option_Forall2 shows (statuses (handle_restart e1 e2 id s).2 !! id) op'.
Proof.
  intros Hk Hop. unfold handle_restart.
  destruct (decide (op = Some PRunning)) as [->|Hop'].
  - inversion Hop as [st ? Hsh Heq|]; subst. inversion Hsh; subst.
    destruct (handle_stop_phase e1 id s (Some PRunning)) as (op1 & Hl1 & Hs1);
      [done|by rewrite <- Heq; repeat constructor|].
    destruct (handle_start_phase e2 id _ _ (handle_stop_keys e1 id s Hk) Hs1) as (op2 & Hl2 & Hs2).
    eauto with hamlet.
  - destruct (handle_start_phase e2 id s op Hk Hop) as (op' & Hl & Hs).
    destruct (statuses s !! id) as [[]|] eqn:Hst; try (by eauto with hamlet).
    inversion Hop as [? ? Hsh|]; inversion Hsh; congruence.
Qed.

(** One command is one step of the specification. *)
Lemma dispatch_refines e1 e2 cmd s m : phases_of s m →
  ∃ m', spec_step m cmd (dispatch_command e1 e2 cmd s).1 m' ∧
        phases_of (dispatch_command e1 e2 cmd s).2 m'.
Proof.
  intros Hp. pose proof Hp as [Hk Hm].
  destruct cmd as [id|id|id|]; cbn.
  - destruct (handle_start_phase e2 id s _ Hk (Hm id)) as (op & Hl & Hs).
    pose proof (handle_start_keys e2 id s Hk). pose proof (λ id' H, handle_start_frame e2 id id' s H).
    destruct (handle_start e2 id s). eexists; split; [by eapply spec_command|by eapply phases_step].
  - destruct (handle_stop_phase e1 id s _ Hk (Hm id)) as (op & Hl & Hs).
    pose proof (handle_stop_keys e1 id s Hk). pose proof (λ id' H, handle_stop_frame e1 id id' s H).
    destruct (handle_stop e1 id s). eexists; split; [by eapply spec_command|by eapply phases_step].
  - destruct (handle_restart_phase e1 e2 id s _ Hk (Hm id)) as (op & Hl & Hs).
    pose proof (handle_restart_keys e1 e2 id s Hk). pose proof (λ id' H, handle_restart_frame e1 e2 id id' s H).
    destruct (handle_restart e1 e2 id s). eexists; split; [by eapply spec_command|by eapply phases_step].
  - exists m. split; [|done]. by constructor.
Qed.

Lemma command_loop_refines cmds s m : phases_of s m →
  ∃ m', spec_run m cmds.*2 (command_loop cmds s).1 m' ∧ phases_of (command_loop cmds s).2 m'.
Proof.
  revert s m; induction cmds as [|[[e1 e2] cmd] cmds IH]; intros s m Hp; cbn.
  - eauto with hamlet.
  - destruct (dispatch_refines e1 e2 cmd s m Hp) as (m1 & H1 & Hp1).
    destruct (dispatch_command e1 e2 cmd s) as [r s1].
    destruct (IH s1 m1 Hp1) as (m2 & H2 & Hp2). destruct (command_loop cmds s1) as [rs s2].
    exists m2. split; [by econstructor|done].
Qed.

(** *** Registration *)

Definition register_all (regs : list (ServiceId * S * bool)) : Supervisor S :=
  foldl (λ s reg, register reg.1.1 reg.1.2 reg.2 s) new_supervisor regs.

Definition initial_phases (regs : list (ServiceId * S * bool)) : gmap ServiceId Phase :=
  foldl (λ m reg, <[reg.1.1 := if reg.2 : bool then PStopped else PUnavailable]> m) ∅ regs.

Lemma register_phases id svc av s m : phases_of s m →
  phases_of (register id svc av s) (<[id := if av : bool then PStopped else PUnavailable]> m).
Proof.
  intros [Hk Hm]. split; intros id'; specialize (Hk id'); specialize (Hm id');
    destruct (decide (id = id')) as [<-|]; cbn; simplify_map_eq; auto.
  - split; eauto.
  - destruct av; repeat constructor.
Qed.

Lemma register_all_phases regs : phases_of (register_all regs) (initial_phases regs).
Proof.
  unfold register_all, initial_phases.
  assert (∀ s m, phases_of s m →
    phases_of (foldl (λ s reg, register reg.1.1 reg.1.2 reg.2 s) s regs)
      (foldl (λ m reg, <[reg.1.1 := if reg.2 : bool then PStopped else PUnavailable]> m) m regs)) as H.
  { induction regs as [|reg regs IH]; intros s m Hp; cbn; [done|].
    apply IH. by apply register_phases. }
  apply H. split; intros id; cbn; [by rewrite !lookup_empty|]. rewrite !lookup_empty. constructor.
Qed.

(** C1: Whatever services are registered and whatever commands arrive, with
    whatever outcomes of the services' own operations, the supervisor's replies and
    statuses follow the four-phase lifecycle: only the target of a command moves,
    [Unavailable] and running services refuse a start, a failed start is shown as
    [Failed], a failed stop changes nothing, and [Starting] is never visible
    between two commands. *)
Theorem supervisor_refines_lifecycle (regs : list (ServiceId * S * bool))
    (cmds : list (E * E * SupervisorCommand)) :
  ∃ m', spec_run (initial_phases regs) cmds.*2 (command_loop cmds (register_all regs)).1 m' ∧
        phases_of (command_loop cmds (register_all regs)).2 m'.
Proof. apply command_loop_refines, register_all_phases. Qed.

(** *** Independence of the services *)

Definition targets (id : ServiceId) (c : E * E * SupervisorCommand) : Prop :=
  snd <$> command_target c.2 = Some id.

#[global] Instance targets_dec id c : Decision (targets id c).
Proof. unfold targets. apply _. Defined.

(** The replies to the commands that target [id]. *)
Definition replies_to (id : ServiceId) (cmds : list (E * E * SupervisorCommand)) (rs : list Reply) : list Reply :=
  (filter (λ cr, targets id cr.1) (zip cmds rs)).*2.

Lemma loop_projection id cmds s t : view s id = view t id →
  view (command_loop cmds s).2 id = view (command_loop (filter (targets id) cmds) t).2 id ∧
  replies_to id cmds (command_loop cmds s).1 = (command_loop (filter (targets id) cmds) t).1.
Proof.
  unfold replies_to. revert s t; induction cmds as [|[[e1 e2] cmd] cmds IH]; intros s t Hv; [done|].
  cbn [command_loop]. rewrite filter_cons. case_decide as Ht.
  - unfold targets in Ht. cbn in Ht. destruct (command_target cmd) as [[a id']|] eqn:Hc;
      cbn in Ht; inversion Ht; subst.
    destruct (dispatch_local e1 e2 cmd a id s t Hc Hv) as [Hr Hs]. cbn [command_loop].
    destruct (dispatch_command e1 e2 cmd s) as [r s1], (dispatch_command e1 e2 cmd t) as [r' t1].
    cbn [fst snd] in Hr, Hs. subst r'. destruct (IH s1 t1 Hs) as [H1 H2].
    destruct (command_loop cmds s1), (command_loop _ t1). cbn [fst snd zip_with] in *.
    rewrite filter_cons, decide_True by (unfold targets; cbn; by rewrite Hc).
    split; [done|]. cbn. by f_equal.
  - assert (view (dispatch_command e1 e2 cmd s).2 id = view t id) as Hs.
    { rewrite dispatch_frame; [done|]. intros a id' Hc ->. apply Ht. unfold targets. cbn. by rewrite Hc. }
    destruct (dispatch_command e1 e2 cmd s) as [r s1]. destruct (IH s1 t Hs) as [H1 H2].
    destruct (command_loop cmds s1). cbn [fst snd zip_with] in *.
    by rewrite filter_cons, decide_False by done.
Qed.

(** C5: The services are isolated from each other: the status and the state of a
    service after any sequence of commands, and every reply to a command on it,
    are what the commands that target it alone would have produced. *)
Theorem services_independent (id : ServiceId) (cmds : list (E * E * SupervisorCommand)) s :
  view (command_loop cmds s).2 id = view (command_loop (filter (targets id) cmds) s).2 id ∧
  replies_to id cmds (command_loop cmds s).1 = (command_loop (filter (targets id) cmds) s).1.
Proof. by apply loop_projection. Qed.

(** *** Unavailable services *)

Lemma dispatch_unavailable e1 e2 cmd a id s :
  statuses s !! id = Some Unavailable → command_target cmd = Some (a, id) →
  (dispatch_command e1 e2 cmd s).2 = s ∧
  ((dispatch_command e1 e2 cmd s).1 = RResult (Err (debug_id id +:+ " is not installed on this system")) ∨
   (dispatch_command e1 e2 cmd s).1 = RResult (Err (debug_id id +:+ " is not available"))).
Proof.
  intros Hst Ht. destruct cmd; cbn in *; inversion Ht; subst;
    unfold handle_restart, handle_start, handle_stop; rewrite ?Hst; cbn; rewrite ?Hst; auto.
Qed.

Lemma command_loop_unavailable id cmds s :
  statuses s !! id = Some Unavailable → Forall (targets id) cmds →
  (command_loop cmds s).2 = s ∧
  Forall (λ r, r = RResult (Err (debug_id id +:+ " is not installed on this system")) ∨
               r = RResult (Err (debug_id id +:+ " is not available"))) (command_loop cmds s).1.
Proof.
  intros Hst. induction 1 as [|[[e1 e2] cmd] cmds Ht _ IH]; cbn; [auto|].
  unfold targets in Ht. cbn in Ht. destruct (command_target cmd) as [[a id']|] eqn:Hc;
    cbn in Ht; inversion Ht; subst.
  destruct (dispatch_unavailable e1 e2 cmd a id s Hst Hc) as [Hs Hr].
  destruct (dispatch_command e1 e2 cmd s) as [r s']. cbn in Hs, Hr. subst s'.
  destruct (command_loop cmds s). cbn in *. destruct IH. auto.
Qed.

Lemma filter_targets_Forall id cmds : Forall (targets id) (filter (targets id) cmds).
Proof. apply list.Forall_forall. intros c Hc. by apply list_elem_of_filter in Hc as [??]. Qed.

(** A service whose binary was not found is never started, stopped or
    otherwise touched: under any commands its state and its status stay as they
    were, and every command on it is answered with one of the two refusals. *)
Theorem unavailable_untouched (id : ServiceId) (cmds : list (E * E * SupervisorCommand)) s :
  statuses s !! id = Some Unavailable →
  view (command_loop cmds s).2 id = view s id ∧
  Forall (λ r, r = RResult (Err (debug_id id +:+ " is not installed on this system")) ∨
               r = RResult (Err (debug_id id +:+ " is not available")))
    (replies_to id cmds (command_loop cmds s).1).
Proof.
  intros Hst. destruct (loop_projection id cmds s s eq_refl) as [-> ->].
  destruct (command_loop_unavailable id _ s Hst (filter_targets_Forall id cmds)) as [-> ?]. done.
Qed.

(** *** Statuses tell the truth *)

(** *** What holds of every service *)

(** A property that starts and stops keep, whatever the world answers, is kept by the
    supervisor; and no service is lost. *)
Section invariant.
Context (P : S → Prop).
Hypothesis start_keeps : ∀ e svc, P svc → P (ms_start e svc).2.
Hypothesis stop_keeps : ∀ e svc, P svc → P (ms_stop e svc).2.

Definition all_services s : Prop := ∀ id svc, services s !! id = Some svc → P svc.

Lemma set_service_all id svc s : P svc → all_services s → all_services (set_service id svc s).
Proof. intros Hp Hs id' svc'. cbn. rewrite lookup_insert. case_decide; [intros [= <-]; done|apply Hs]. Qed.

Lemma handle_start_all e id s : all_services s → all_services (handle_start e id s).2.
Proof using start_keeps.
  intros Hs. unfold handle_start. destruct (statuses s !! id) as [[]|]; try done;
    (cbn; destruct (services s !! id) as [svc|] eqn:Hsvc; [|done];
     pose proof (start_keeps e svc (Hs _ _ Hsvc)) as Hp; destruct (ms_start e svc) as [[] svc']; cbn in *;
     intros id' svc''; cbn; apply set_service_all; [done|exact Hs|done|exact Hs]).
Qed.

Lemma handle_stop_all e id s : all_services s → all_services (handle_stop e id s).2.
Proof using stop_keeps.
  intros Hs. unfold handle_stop. destruct (statuses s !! id) as [[]|]; try done;
    (destruct (services s !! id) as [svc|] eqn:Hsvc; [|done];
     pose proof (stop_keeps e svc (Hs _ _ Hsvc)) as Hp; destruct (ms_stop e svc) as [[] svc']; cbn in *;
     intros id' svc''; cbn; by apply set_service_all).
Qed.

Lemma command_loop_all cmds s : all_services s → all_services (command_loop cmds s).2.
Proof using start_keeps stop_keeps.
  revert s. induction cmds as [|[[e1 e2] cmd] cmds IH]; intros s Hs; cbn; [done|].
  destruct (dispatch_command e1 e2 cmd s) as [r s1] eqn:Hd. specialize (IH s1). destruct (command_loop cmds s1) as [rs s2].
  apply IH. destruct cmd as [id|id|id|]; cbn in Hd; unfold handle_restart in Hd.
  - pose proof (handle_start_all e2 id s Hs). destruct (handle_start e2 id s). by simplify_eq.
  - pose proof (handle_stop_all e1 id s Hs). destruct (handle_stop e1 id s). by simplify_eq.
  - match type of Hd with context [handle_start e2 id ?s0] => assert (all_services s0) as H0 by (repeat case_match; auto using handle_stop_all);
      pose proof (handle_start_all e2 id s0 H0); destruct (handle_start e2 id s0) end. by simplify_eq.
  - by simplify_eq.
Qed.

End invariant.

(** What a stop brings about holds of every service after the shutdown. *)
Lemma shutdown_all (P Q : S → Prop) cmds es s :
  (∀ e svc, P svc → P (ms_start e svc).2) → (∀ e svc, P svc → P (ms_stop e svc).2) → (∀ e svc, P svc → Q (ms_stop e svc).2) →
  all_services P s → all_services Q (supervisor_task cmds es s).2.
Proof.
  intros Hstart Hstop Hq Hs. pose proof (command_loop_all P Hstart Hstop cmds s Hs) as Hl. unfold supervisor_task.
  destruct (command_loop cmds s) as [rs s1]. intros id svc. cbn. rewrite map_lookup_imap. destruct (services s1 !! id) as [svc0|] eqn:Hsv; cbn; [|done].
  intros [= <-]. by eapply Hq, Hl.
Qed.

Lemma command_loop_dom cmds s : dom (services (command_loop cmds s).2) = dom (services s).
Proof.
  assert (∀ id svc s, is_Some (services s !! id) → dom (services (set_service id svc s)) = dom (services s)) as Hset.
  { intros id svc s0 Hi%elem_of_dom. cbn. rewrite dom_insert_L. set_solver. }
  assert (∀ e id s, dom (services (handle_start e id s).2) = dom (services s)) as H1.
  { intros e id s0. unfold handle_start. repeat case_match; cbn; try done; apply (Hset id _ s0); eauto. }
  assert (∀ e id s, dom (services (handle_stop e id s).2) = dom (services s)) as H2.
  { intros e id s0. unfold handle_stop. repeat case_match; cbn; try done; apply (Hset id _ s0); eauto. }
  revert s. induction cmds as [|[[e1 e2] cmd] cmds IH]; intros s; cbn; [done|].
  destruct (dispatch_command e1 e2 cmd s) as [r s1] eqn:Hd. specialize (IH s1). destruct (command_loop cmds s1) as [rs s2]. cbn in *.
  rewrite IH. destruct cmd as [id|id|id|]; cbn in Hd; unfold handle_restart in Hd.
  - specialize (H1 e2 id s). destruct (handle_start e2 id s). by simplify_eq.
  - specialize (H2 e1 id s). destruct (handle_stop e1 id s). by simplify_eq.
  - match type of Hd with context [handle_start e2 id ?s0] => assert (dom (services s0) = dom (services s)) as H0 by (repeat case_match; auto);
      specialize (H1 e2 id s0); destruct (handle_start e2 id s0) end. simplify_eq/=. congruence.
  - by simplify_eq.
Qed.

Lemma shutdown_dom cmds es s : dom (services (supervisor_task cmds es s).2) = dom (services s).
Proof.
  unfold supervisor_task. pose proof (command_loop_dom cmds s) as Hd. destruct (command_loop cmds s) as [rs s1]. cbn in *. rewrite <- Hd.
  apply set_eq. intros id. rewrite !elem_of_dom, map_lookup_imap. destruct (services s1 !! id); cbn; split; eauto; by intros [??].
Qed.

Context `{!ManagedServiceLaws E S}.

Definition consistent s : Prop :=
  ∀ id svc st, services s !! id = Some svc → statuses s !! id = Some st →
    match st with
    | Running _ => active svc = true
    | Stopped | Unavailable => active svc = false
    | Starting | Failed _ => True
    end.

Lemma handle_start_consistent e id s : consistent s → consistent (handle_start e id s).2.
Proof.
  intros Hc id'. destruct (decide (id = id')) as [<-|Hne].
  - intros svc st. specialize (Hc id). unfold handle_start, set_status, set_service. cbn.
    destruct (statuses s !! id) as [[]|] eqn:Hst; cbn; eauto;
    (destruct (services s !! id) as [svc0|] eqn:Hsvc; cbn; [|by rewrite ?Hsvc]);
    destruct (ms_start e svc0) as [[?|?] svc'] eqn:He; cbn; simplify_map_eq;
      intros; simplify_eq; eauto using start_ok_active.
    all: exact (Hc _ _ eq_refl eq_refl).
  - intros svc st. pose proof (handle_start_frame e id id' s Hne) as Hv.
    rewrite (view_service _ _ _ Hv), (view_status _ _ _ Hv). apply Hc.
Qed.

Lemma handle_stop_consistent e id s : consistent s → consistent (handle_stop e id s).2.
Proof.
  intros Hc id'. destruct (decide (id = id')) as [<-|Hne].
  - intros svc st. specialize (Hc id). unfold handle_stop, set_status, set_service.
    destruct (services s !! id) as [svc0|] eqn:Hsvc;
      [|destruct (statuses s !! id) as [[]|]; cbn; by rewrite Hsvc].
    destruct (ms_stop e svc0) as [[[]|msg] svc'] eqn:He; [apply stop_ok_inactive in He|].
    2: apply stop_err_inactive in He as [? ->].
    all: destruct (statuses s !! id) as [[]|] eqn:Hst; cbn; simplify_map_eq; intros; simplify_eq; eauto.
    all: exact (Hc _ _ eq_refl eq_refl).
  - intros svc st. pose proof (handle_stop_frame e id id' s Hne) as Hv.
    rewrite (view_service _ _ _ Hv), (view_status _ _ _ Hv). apply Hc.
Qed.

Lemma dispatch_consistent e1 e2 cmd s : consistent s → consistent (dispatch_command e1 e2 cmd s).2.
Proof.
  intros Hc. destruct cmd as [id|id|id|]; cbn; [..|done].
  - pose proof (handle_start_consistent e2 id s Hc). by destruct (handle_start e2 id s).
  - pose proof (handle_stop_consistent e1 id s Hc). by destruct (handle_stop e1 id s).
  - assert (consistent (handle_restart e1 e2 id s).2) as Hr.
    2: { destruct (handle_restart e1 e2 id s). exact Hr. }
    apply handle_start_consistent. destruct (statuses s !! id) as [[]|]; auto using handle_stop_consistent.
Qed.

Lemma command_loop_consistent cmds s : consistent s → consistent (command_loop cmds s).2.
Proof.
  revert s; induction cmds as [|[[e1 e2] cmd] cmds IH]; intros s Hc; cbn; [done|].
  pose proof (IH _ (dispatch_consistent e1 e2 cmd s Hc)) as H.
  destruct (dispatch_command e1 e2 cmd s) as [r s1]. cbn in H. by destruct (command_loop cmds s1).
Qed.

Lemma register_consistent id svc av s : active svc = false → consistent s → consistent (register id svc av s).
Proof.
  intros Ha Hc id' svc' st. cbn. destruct (decide (id = id')) as [<-|]; simplify_map_eq.
  - intros [= <-] [= <-]. by destruct av.
  - apply Hc.
Qed.

Lemma register_all_consistent regs : Forall (λ reg, active reg.1.2 = false) regs → consistent (register_all regs).
Proof.
  unfold register_all. assert (consistent new_supervisor) as H0 by (intros ??? [=]).
  revert H0. generalize (@new_supervisor S). induction regs as [|reg regs IH]; intros s Hs Hall; cbn; [done|].
  apply list.Forall_cons in Hall as [??]. apply IH; [|done]. by apply register_consistent.
Qed.

Lemma stop_running e id pid s : same_keys s → consistent s → statuses s !! id = Some (Running pid) →
  (handle_stop e id s).1 = Ok () ∧ statuses (handle_stop e id s).2 !! id = Some Stopped.
Proof.
  intros Hk Hc Hst. destruct (keys_service _ _ _ Hk Hst) as [svc Hsvc].
  specialize (Hc _ _ _ Hsvc Hst). cbn in Hc. unfold handle_stop. rewrite Hst, Hsvc.
  destruct (ms_stop e svc) as [[[]|msg] svc'] eqn:He; cbn.
  - by simplify_map_eq.
  - apply stop_err_inactive in He as [? _]. congruence.
Qed.

(** C6: If the registered services are not running at registration, then after any
    commands the statuses tell the truth: a service shown [Running] holds a running
    instance, one shown [Stopped] or [Unavailable] holds none, and stopping a
    service shown [Running] always succeeds and shows it [Stopped]. *)
Theorem statuses_truthful (regs : list (ServiceId * S * bool)) (cmds : list (E * E * SupervisorCommand)) :
  Forall (λ reg, active reg.1.2 = false) regs →
  let s := (command_loop cmds (register_all regs)).2 in
  consistent s ∧
  ∀ e id pid, statuses s !! id = Some (Running pid) →
    (handle_stop e id s).1 = Ok () ∧ statuses (handle_stop e id s).2 !! id = Some Stopped.
Proof.
  intros Hr. cbn zeta.
  pose proof (command_loop_consistent cmds _ (register_all_consistent _ Hr)) as Hc.
  destruct (command_loop_refines cmds _ _ (register_all_phases regs)) as (m & _ & [Hk _]).
  split; [done|]. intros e id pid. by apply stop_running.
Qed.

End proofs.

(** ** Witnesses

    The mock service of the repository's own supervisor tests. *)
Record MockService := mkMock { mock_running : bool; mock_fail_start : bool; mock_pid : Z }.

Definition mock_start (m : MockService) : result string Z * MockService :=
  if mock_fail_start m then (Err "mock start failure", m)
  else (Ok (mock_pid m), mkMock true (mock_fail_start m) (mock_pid m)).

Definition mock_stop (m : MockService) : result string unit * MockService :=
  (Ok (), mkMock false (mock_fail_start m) (mock_pid m)).

#[export] Instance MockService_managed : ManagedService unit MockService := {|
  ms_start _ := mock_start;
  ms_stop _ := mock_stop;
  ms_is_running _ m := (mock_running m, m)
|}.

#[export] Program Instance MockService_laws : ManagedServiceLaws unit MockService := {| active := mock_running |}.
Next Obligation. intros [] [[] [] ?] ? ?; cbn; by intros [= <- <-]. Qed.
Next Obligation. by intros [] ? ? [= <-]. Qed.
Next Obligation. done. Qed.

Definition mock_regs : list (ServiceId * MockService * bool) :=
  [(Gateway, mkMock false false 1234, true); (Mosquitto, mkMock false false 2, false)].

Lemma unavailable_untouched_witness :
  view (command_loop [((), (), Start Mosquitto)] (register_all mock_regs)).2 Mosquitto =
  view (register_all mock_regs) Mosquitto.
Proof.
  exact (proj1 (unavailable_untouched Mosquitto [((), (), Start Mosquitto)] (register_all mock_regs) eq_refl)).
Defined.

Lemma statuses_truthful_witness :
  (handle_stop () Gateway (command_loop [((), (), Start Gateway)] (register_all mock_regs)).2).1 = Ok ().
Proof.
  refine (proj1 (proj2 (statuses_truthful mock_regs [((), (), Start Gateway)] _) () Gateway 1234%Z _)).
  - repeat constructor.
  - reflexivity.
Defined.
