(* ===== verification/KeyManagement.v ===== *)
(** * Broadcast keys (src/services/beacon_management/key_management.rs)

    The table [broadcast_keys] is the list of its rows in insertion order; every SQL
    statement is a function on it.  What a call cannot control is an argument: the
    clock, the random bytes, and whether the database reports an error.
    HMAC-SHA256 is a parameter. *)

From S2P Require Import Prelude RustStr.
From stdpp Require Import options.

(** ** Data *)

(** A row of [broadcast_keys] (migrations/0004_broadcast_keys.sql). *)
Record KeyRow := mkKeyRow {
  row_key_id : list byte;
  row_key_material : list byte;
  row_created_at : Z;
  row_rotates_at : Z;
  row_expires_at : Z;
  row_is_active : Z
}.

Record BroadcastKey := mkBroadcastKey {
  key_id : list byte;
  key_material : list byte;
  rotates_at : Z;
  expires_at : Z
}.

(** The manager's own fields, in seconds; the pool is the table passed around. *)
Record BroadcastKeyManagement := mkKeyManagement {
  rotation_interval : Z;
  key_expiry : Z
}.

(** What one run of [rotate_key] meets. *)
Record RotateEnv := mkRotateEnv {
  re_clock : Z;
  re_key_material : list byte;
  re_key_id : list byte;
  re_update_error : option string;
  re_insert_error : option string;
  re_conflict : string
}.

(** What one run of [get_or_rotate_key] meets. *)
Record GetEnv := mkGetEnv {
  ge_clock : Z;
  ge_select_error : option string;
  ge_rotate : RotateEnv
}.

#[global] Instance KeyRow_eq_dec : EqDecision KeyRow.
Proof. solve_decision. Defined.

Abbreviation table := (list KeyRow) (only parsing).

(** ** Helpers *)

(** The system clock in seconds since the epoch; a clock before it counts as 0. *)
Definition unix_now (clock : Z) : Z := as_i64 (Z.max 0 clock).

Definition hex_encode (bytes : list byte) : string := concat_str (hex_byte <$> bytes).

Definition build_key (key_id_bytes key_material_bytes : list byte) (rot exp : Z) : result string BroadcastKey :=
  if decide (length key_id_bytes = 4) then
    if decide (length key_material_bytes = 16) then
      Ok (mkBroadcastKey key_id_bytes key_material_bytes rot exp)
    else Err ("Corrupt broadcast_keys row: key_material is " +:+
              show_uint (Z.of_nat (length key_material_bytes)) +:+ " bytes, expected 16")
  else Err ("Corrupt broadcast_keys row: key_id is " +:+
            show_uint (Z.of_nat (length key_id_bytes)) +:+ " bytes, expected 4").

(** ** The SQL statements *)

(** [ORDER BY rotates_at DESC LIMIT 1] *)
Fixpoint latest (rows : table) : option KeyRow :=
  match rows with
  | [] => None
  | r :: rows =>
      match latest rows with
      | Some r' => if (row_rotates_at r <? row_rotates_at r')%Z then Some r' else Some r
      | None => Some r
      end
  end.

(** [SELECT ... WHERE is_active = 1 AND rotates_at > now ORDER BY ... LIMIT 1] *)
Definition select_active (now : Z) (t : table) : option KeyRow :=
  latest (filter (λ r, row_is_active r = 1 ∧ now < row_rotates_at r)%Z t).

Definition retire (r : KeyRow) : KeyRow :=
  if decide (row_is_active r = 1%Z) then
    mkKeyRow (row_key_id r) (row_key_material r) (row_created_at r) (row_rotates_at r) (row_expires_at r) 0
  else r.

(** [UPDATE broadcast_keys SET is_active = 0 WHERE is_active = 1] *)
Definition retire_active (t : table) : table := retire <$> t.

(** [INSERT INTO broadcast_keys ...]: [key_id] is the primary key, so a row with the
    same one makes the statement fail. *)
Definition insert_key (conflict : string) (r : KeyRow) (t : table) : result string () * table :=
  if decide (row_key_id r ∈ row_key_id <$> t) then (Err conflict, t) else (Ok (), t ++ [r]).

(** [DELETE FROM broadcast_keys WHERE expires_at <= now] *)
Definition delete_expired (now : Z) (t : table) : table := filter (λ r, now < row_expires_at r)%Z t.

(** ** Operations *)

Definition rotate_key (m : BroadcastKeyManagement) (e : RotateEnv) : st table string BroadcastKey := λ t,
  let now := unix_now (re_clock e) in
  let rot := as_i64 (now + as_i64 (rotation_interval m)) in
  let exp := as_i64 (now + as_i64 (key_expiry m)) in
  match re_update_error e with
  | Some err => (Err ("Failed to retire active broadcast keys: " +:+ err), t)
  | None =>
      let t := retire_active t in
      let row := mkKeyRow (re_key_id e) (re_key_material e) now rot exp 1 in
      let '(r, t) := match re_insert_error e with
                     | Some err => (Err err, t)
                     | None => insert_key (re_conflict e) row t
                     end in
      match r with
      | Err err => (Err ("Failed to insert new broadcast key: " +:+ err), t)
      | Ok _ => (Ok (mkBroadcastKey (re_key_id e) (re_key_material e) rot exp), t)
      end
  end.

Definition get_or_rotate_key (m : BroadcastKeyManagement) (e : GetEnv) : st table string BroadcastKey := λ t,
  let now := unix_now (ge_clock e) in
  match ge_select_error e with
  | Some err => (Err ("Failed to query broadcast keys: " +:+ err), t)
  | None =>
      match select_active now t with
      | Some r => (build_key (row_key_id r) (row_key_material r) (row_rotates_at r) (row_expires_at r), t)
      | None => rotate_key m (ge_rotate e) t
      end
  end.

(** The number of rows deleted. *)
Definition sweep_expired (clock : Z) (err : option string) : st table string nat := λ t,
  let now := unix_now clock in
  match err with
  | Some e => (Err ("Failed to sweep expired broadcast keys: " +:+ e), t)
  | None => let t' := delete_expired now t in (Ok (length t - length t'), t')
  end.

Section token.
Context (hmac_sha256 : list byte → list byte → list byte).

Definition slot_of (m : BroadcastKeyManagement) (clock : Z) : Z :=
  (as_u64 (unix_now clock) / Z.max 1 (rotation_interval m))%Z.

Definition generate_token (m : BroadcastKeyManagement) (clock : Z) (k : BroadcastKey) : list byte :=
  let slot := slot_of m clock in
  take 4 (hmac_sha256 (key_material k) (be_bytes 8 slot)).

Definition ota_fields (m : BroadcastKeyManagement) (clock : Z) (k : BroadcastKey) : string * string :=
  let kid := hex_encode (key_id k) in
  let tok := hex_encode (generate_token m clock k) in
  (kid, tok).

End token.

(** ** The operations in sequence *)

Inductive KeyOp :=
| OpGet (e : GetEnv)
| OpSweep (clock : Z) (err : option string).

Definition key_op (m : BroadcastKeyManagement) (op : KeyOp) (t : table) : table :=
  match op with
  | OpGet e => (get_or_rotate_key m e t).2
  | OpSweep clock err => (sweep_expired clock err t).2
  end.

(** ** The invariant of the table *)

Definition is_active_row (r : KeyRow) : Prop := row_is_active r = 1%Z.

#[global] Instance is_active_row_dec r : Decision (is_active_row r).
Proof. unfold is_active_row. apply _. Defined.

(** The key ids are distinct, key ids and key material have their lengths, and at
    most one row is active. *)
Record table_ok (t : table) : Prop := mkTableOk {
  ok_ids : NoDup (row_key_id <$> t);
  ok_lengths : Forall (λ r, length (row_key_id r) = 4 ∧ length (row_key_material r) = 16) t;
  ok_one_active : length (filter is_active_row t) ≤ 1
}.

(** The random bytes have the lengths of the arrays they fill. *)
Definition rotate_env_ok (e : RotateEnv) : Prop :=
  length (re_key_id e) = 4 ∧ length (re_key_material e) = 16.

Definition op_ok (op : KeyOp) : Prop :=
  match op with OpGet e => rotate_env_ok (ge_rotate e) | OpSweep _ _ => True end.

(** ** Proofs *)

Lemma retire_inactive r : ¬ is_active_row (retire r).
Proof. unfold retire, is_active_row. by case_decide. Qed.

Lemma retire_active_ids t : row_key_id <$> retire_active t = row_key_id <$> t.
Proof.
  unfold retire_active. rewrite <- list_fmap_compose. apply list_fmap_ext.
  intros _ r _. cbn. unfold retire. by case_decide.
Qed.

Lemma retire_active_none t : filter is_active_row (retire_active t) = [].
Proof.
  induction t as [|r t IH]; [done|].
  change (retire_active (r :: t)) with (retire r :: retire_active t).
  by rewrite filter_cons, decide_False by apply retire_inactive.
Qed.

Lemma retire_active_ok t : table_ok t → table_ok (retire_active t).
Proof.
  intros [H1 H2 H3]. split.
  - by rewrite retire_active_ids.
  - apply Forall_fmap. eapply list.Forall_impl; [exact H2|]. intros r ?. cbn. unfold retire. by case_decide.
  - rewrite retire_active_none. cbn. lia.
Qed.

Lemma filter_ok P `{∀ r, Decision (P r)} t : table_ok t → table_ok (filter P t).
Proof.
  intros [H1 H2 H3]. split.
  - eapply sublist_NoDup; [exact H1|]. apply sublist_map, sublist_filter.
  - by apply Forall_filter_r.
  - rewrite filter_comm. etrans; [apply length_filter|exact H3].
Qed.

(** The row a rotation inserts. *)
Definition new_row (m : BroadcastKeyManagement) (e : RotateEnv) : KeyRow :=
  let now := unix_now (re_clock e) in
  mkKeyRow (re_key_id e) (re_key_material e) now (as_i64 (now + as_i64 (rotation_interval m)))
    (as_i64 (now + as_i64 (key_expiry m))) 1.

Definition key_of (r : KeyRow) : BroadcastKey :=
  mkBroadcastKey (row_key_id r) (row_key_material r) (row_rotates_at r) (row_expires_at r).

Lemma rotate_key_inv m e t r t' : rotate_key m e t = (r, t') →
  match r with
  | Ok k => k = key_of (new_row m e) ∧ t' = retire_active t ++ [new_row m e] ∧
            re_key_id e ∉ row_key_id <$> t
  | Err _ => t' = t ∨ t' = retire_active t
  end.
Proof.
  unfold rotate_key, insert_key. cbn.
  destruct (re_update_error e); [intros [= <- <-]; auto|].
  destruct (re_insert_error e); [intros [= <- <-]; auto|].
  rewrite retire_active_ids. case_decide; intros [= <- <-]; auto.
Qed.

Lemma rotate_key_ok m e t : rotate_env_ok e → table_ok t → table_ok (rotate_key m e t).2.
Proof.
  intros [He1 He2] Ht. destruct (rotate_key m e t) as [r t'] eqn:E. apply rotate_key_inv in E. cbn.
  pose proof (retire_active_ok t Ht) as Hr.
  destruct r as [k|]; [|destruct E as [->| ->]; done].
  destruct E as (_ & -> & Hid). destruct Hr as [H1 H2 H3]. split.
  - rewrite fmap_app. apply list.NoDup_app. split_and!; [done| |apply NoDup_singleton].
    intros i Hi Hi'. apply list_elem_of_singleton in Hi'. cbn in Hi'. subst.
    by rewrite retire_active_ids in Hi.
  - apply Forall_app. split; [done|]. by repeat constructor.
  - rewrite list.filter_app, retire_active_none, app_nil_l, filter_cons. case_decide; cbn; lia.
Qed.

Lemma get_ok m e t : rotate_env_ok (ge_rotate e) → table_ok t → table_ok (get_or_rotate_key m e t).2.
Proof.
  intros He Ht. unfold get_or_rotate_key. destruct (ge_select_error e); [done|].
  destruct (select_active _ t); [done|]. by apply rotate_key_ok.
Qed.

Lemma sweep_ok clock err t : table_ok t → table_ok (sweep_expired clock err t).2.
Proof. intros Ht. unfold sweep_expired. destruct err; [done|]. by apply filter_ok. Qed.

Lemma table_ok_nil : table_ok [].
Proof. split; cbn; [constructor|constructor|lia]. Qed.
#[export] Hint Resolve table_ok_nil : hamlet.

(** C16: Whatever sequence of key lookups, rotations and sweeps runs, at whatever
    times and with whatever database errors in between (a failed insert after the
    old key was retired included), the key table keeps distinct key ids, full-length
    keys, and at most one active key. *)
Theorem key_table_invariant m (ops : list KeyOp) :
  Forall op_ok ops → table_ok (foldl (λ t op, key_op m op t) [] ops).
Proof.
  pose proof table_ok_nil as H0. revert H0. generalize ([] : table). induction ops as [|op ops IH]; intros t Ht Hops; [done|].
  apply list.Forall_cons in Hops as [Hop Hops]. cbn. apply IH; [|done].
  destruct op; cbn; auto using get_ok, sweep_ok.
Qed.

(** *** Which key a lookup returns *)

Lemma latest_None rows : latest rows = None ↔ rows = [].
Proof. destruct rows as [|r rows]; cbn; [done|]. split; [|done]. by repeat case_match. Qed.

Lemma latest_elem rows r : latest rows = Some r → r ∈ rows.
Proof.
  revert r; induction rows as [|r0 rows IH]; intros r; cbn; [done|].
  destruct (latest rows) as [r'|]; [case_match|]; intros [= ->]; set_solver.
Qed.

Lemma select_active_Some now t r : select_active now t = Some r →
  r ∈ t ∧ is_active_row r ∧ (now < row_rotates_at r)%Z.
Proof. intros [[??] ?]%latest_elem%list_elem_of_filter. done. Qed.

Lemma select_active_None now t : select_active now t = None →
  ∀ r, r ∈ t → is_active_row r → (row_rotates_at r ≤ now)%Z.
Proof.
  unfold select_active. rewrite latest_None. intros Hf r Hr Ha.
  destruct (decide (now < row_rotates_at r)%Z); [|lia].
  exfalso. apply (not_elem_of_nil r). rewrite <- Hf. by apply list_elem_of_filter.
Qed.

(** With one active row, the lookup finds it exactly while it has not rotated. *)
Lemma select_active_unique now t r : table_ok t → r ∈ t → is_active_row r → (now < row_rotates_at r)%Z →
  select_active now t = Some r.
Proof.
  intros [_ _ H1] Hr Ha Hn. destruct (select_active now t) as [r'|] eqn:E.
  - apply select_active_Some in E as (? & ? & _). f_equal. by eapply one_filtered.
  - specialize (select_active_None _ _ E r Hr Ha). lia.
Qed.

Lemma build_key_ok r t : table_ok t → r ∈ t →
  build_key (row_key_id r) (row_key_material r) (row_rotates_at r) (row_expires_at r) = Ok (key_of r).
Proof.
  intros [_ H2 _] Hr. rewrite list.Forall_forall in H2. destruct (H2 r Hr).
  unfold build_key. by rewrite !decide_True.
Qed.

Lemma get_finds m e t r : table_ok t → r ∈ t → is_active_row r →
  (unix_now (ge_clock e) < row_rotates_at r)%Z → ge_select_error e = None →
  get_or_rotate_key m e t = (Ok (key_of r), t).
Proof.
  intros Ht Hr Ha Hn He. unfold get_or_rotate_key. rewrite He.
  erewrite select_active_unique by done. by erewrite build_key_ok by done.
Qed.

(** *** Times *)

(** The intervals come from 32-bit settings, and the clock is well before the end
    of 64-bit time. *)
Definition intervals_ok (m : BroadcastKeyManagement) : Prop :=
  in_u32 (rotation_interval m) ∧ in_u32 (key_expiry m).

Definition clock_ok (c : Z) : Prop := (0 ≤ c < 2 ^ 62)%Z.

Lemma unix_now_ok c : clock_ok c → unix_now c = c.
Proof. unfold clock_ok, unix_now. intros. rewrite Z.max_r by lia. apply as_i64_small. lia. Qed.

Lemma new_row_times m e : intervals_ok m → clock_ok (re_clock e) →
  row_rotates_at (new_row m e) = (re_clock e + rotation_interval m)%Z ∧
  row_expires_at (new_row m e) = (re_clock e + key_expiry m)%Z.
Proof.
  intros [Hr Hx] Hc. unfold in_u32, u32_max in *. cbn.
  rewrite !unix_now_ok by done. unfold clock_ok in Hc.
  rewrite !(as_i64_small (rotation_interval m)), !(as_i64_small (key_expiry m)), !as_i64_small by lia.
  done.
Qed.

(** *** Stability of the active key *)

Definition run_ops (m : BroadcastKeyManagement) (ops : list KeyOp) (t : table) : table :=
  foldl (λ t op, key_op m op t) t ops.

Definition op_clock (op : KeyOp) : Z :=
  match op with OpGet e => ge_clock e | OpSweep c _ => c end.

(** No row expires before it rotates. *)
Definition timed (t : table) : Prop := Forall (λ r, row_rotates_at r ≤ row_expires_at r)%Z t.

Definition timed_op (op : KeyOp) : Prop :=
  match op with
  | OpGet e => rotate_env_ok (ge_rotate e) ∧ clock_ok (re_clock (ge_rotate e))
  | OpSweep _ _ => True
  end.

Lemma timed_op_ok op : timed_op op → op_ok op.
Proof. destruct op; cbn; tauto. Qed.
#[export] Hint Resolve timed_op_ok : hamlet.

(** What holds of every row a rotation inserts, and of retired rows, holds of the table. *)
Lemma key_op_Forall (P : KeyRow → Prop) m op t : (∀ r, P r → P (retire r)) →
  (∀ e, op = OpGet e → P (new_row m (ge_rotate e))) → Forall P t → Forall P (key_op m op t).
Proof.
  intros Hret Hnew Ht. destruct op as [e|c err]; cbn.
  - unfold get_or_rotate_key. destruct (ge_select_error e); [done|].
    destruct (select_active _ t); [done|].
    assert (Forall P (retire_active t)) as Hr by (apply Forall_fmap; eapply list.Forall_impl; [exact Ht|exact Hret]).
    destruct (rotate_key m (ge_rotate e) t) as [r t'] eqn:E. apply rotate_key_inv in E. cbn.
    destruct r; [|by destruct E as [->| ->]].
    destruct E as (_ & -> & _). apply Forall_app. split; [done|]. constructor; [by apply Hnew|constructor].
  - unfold sweep_expired. destruct err; [done|]. by apply Forall_filter_r.
Qed.

Lemma key_op_timed m op t : intervals_ok m → (rotation_interval m ≤ key_expiry m)%Z →
  timed_op op → timed t → timed (key_op m op t).
Proof.
  intros Hm Hle Hop. apply key_op_Forall; [intros r; unfold retire; by case_decide|].
  intros e ->. destruct Hop as [_ Hc]. destruct (new_row_times m (ge_rotate e) Hm Hc) as [-> ->]. lia.
Qed.

(** Rows expire as long after their rotation time as the settings say. *)
Definition spaced (m : BroadcastKeyManagement) (t : table) : Prop :=
  Forall (λ r, row_expires_at r = row_rotates_at r + (key_expiry m - rotation_interval m))%Z t.

Lemma run_ops_spaced m ops t : intervals_ok m → Forall timed_op ops → spaced m t → spaced m (run_ops m ops t).
Proof.
  intros Hm Hops. revert t. induction Hops as [|op ops Hop _ IH]; intros t Ht; [done|]. apply IH.
  apply key_op_Forall; [intros r; unfold retire; by case_decide| |done].
  intros e ->. destruct Hop as [_ Hc]. destruct (new_row_times m (ge_rotate e) Hm Hc) as [-> ->]. lia.
Qed.

Lemma run_ops_ok m ops t : Forall timed_op ops → table_ok t → table_ok (run_ops m ops t).
Proof.
  intros Hops. revert t. induction Hops as [|op ops Hop _ IH]; intros t Ht; [done|]. apply IH.
  destruct op; [apply get_ok|apply sweep_ok]; [apply Hop|done..].
Qed.

Lemma run_ops_inv m ops t : intervals_ok m → (rotation_interval m ≤ key_expiry m)%Z →
  Forall timed_op ops → table_ok t → timed t → table_ok (run_ops m ops t) ∧ timed (run_ops m ops t).
Proof.
  intros Hm Hle Hops Ht Htt. split; [by apply run_ops_ok|]. clear Ht. revert t Htt.
  induction Hops as [|op ops Hop _ IH]; intros t Htt; [done|]. by apply IH, key_op_timed.
Qed.

Lemma get_Ok_row m e t k t' : table_ok t → get_or_rotate_key m e t = (Ok k, t') →
  ∃ r, r ∈ t' ∧ is_active_row r ∧ k = key_of r.
Proof.
  intros Ht. unfold get_or_rotate_key. destruct (ge_select_error e); [done|].
  destruct (select_active _ t) as [r|] eqn:E.
  - apply select_active_Some in E as (Hr & Ha & _). erewrite build_key_ok by done.
    intros [= <- <-]. eauto.
  - intros (-> & -> & _)%rotate_key_inv. exists (new_row m (ge_rotate e)). split; [set_solver|done].
Qed.

(** An active row survives every operation before its rotation time. *)
Lemma active_row_survives m ops t r :
  Forall timed_op ops → Forall (λ op, unix_now (op_clock op) < row_rotates_at r)%Z ops →
  table_ok t → r ∈ t → is_active_row r → (row_rotates_at r ≤ row_expires_at r)%Z →
  r ∈ run_ops m ops t ∧ table_ok (run_ops m ops t).
Proof.
  intros Hops Hclk. revert t. induction Hops as [|op ops Hop _ IH]; intros t Ht Hr Ha Hle; [done|].
  apply list.Forall_cons in Hclk as [Hc Hclk]. cbn. apply (IH Hclk).
  - destruct op; [apply get_ok|apply sweep_ok]; [apply Hop|done..].
  - destruct op as [e|c err]; cbn in *.
    + destruct (ge_select_error e) eqn:He; [unfold get_or_rotate_key; by rewrite He|].
      by erewrite get_finds.
    + unfold sweep_expired. destruct err; [done|]. apply list_elem_of_filter. split; [lia|done].
  - done.
  - done.
Qed.

(** C17: As long as the configured expiry is not shorter than the rotation interval,
    the key a broadcast cycle obtained stays the key of every later cycle until its
    rotation time: no sequence of lookups and sweeps before that time, failing or
    not, replaces, retires or deletes it. *)
Theorem key_stable_until_rotation m (ops later : list KeyOp) e e' k t' :
  intervals_ok m → (rotation_interval m ≤ key_expiry m)%Z →
  Forall timed_op ops → timed_op (OpGet e) → Forall timed_op later →
  get_or_rotate_key m e (run_ops m ops []) = (Ok k, t') →
  Forall (λ op, unix_now (op_clock op) < rotates_at k)%Z later →
  (unix_now (ge_clock e') < rotates_at k)%Z → ge_select_error e' = None →
  get_or_rotate_key m e' (run_ops m later t') = (Ok k, run_ops m later t').
Proof.
  intros Hm Hle Hops He Hlater Hget Hclk He' Hsel.
  destruct (run_ops_inv m (ops ++ [OpGet e]) [] Hm Hle) as [Ht Htt]; [by apply Forall_app; auto|auto with hamlet|constructor|].
  unfold run_ops in Ht, Htt. rewrite foldl_app in Ht, Htt. cbn in Ht, Htt.
  fold (run_ops m ops []) in Ht, Htt. rewrite Hget in Ht, Htt. cbn in Ht, Htt.
  destruct (run_ops_inv m ops [] Hm Hle Hops) as [Ht0 _]; [auto with hamlet|constructor|].
  destruct (get_Ok_row m e _ k t' Ht0 Hget) as (r & Hr & Ha & ->).
  assert (row_rotates_at r ≤ row_expires_at r)%Z by (by eapply list.Forall_forall in Htt).
  destruct (active_row_survives m later t' r) as [Hr' Ht']; try done.
  by apply get_finds.
Qed.

(** With an expiry shorter than the rotation interval, which no setting is
    checked against, the sweep deletes the key in use: a key generated at time [c]
    is gone from a sweep at [c + key_expiry] on, before its rotation time, and the
    next lookup generates another one. *)
Theorem short_expiry_drops_active_key m e t k t' sweep e' :
  intervals_ok m → clock_ok (re_clock e) → clock_ok sweep → table_ok t → rotate_env_ok e →
  rotate_key m e t = (Ok k, t') →
  (re_clock e + key_expiry m ≤ sweep < re_clock e + rotation_interval m)%Z →
  let t'' := (sweep_expired sweep None t').2 in
  (sweep < rotates_at k)%Z ∧ (k ∉ (key_of <$> t'')) ∧
  (ge_select_error e' = None → get_or_rotate_key m e' t'' = rotate_key m (ge_rotate e') t'').
Proof.
  intros Hm Hc Hs Ht Henv Hrot Hrange. cbn zeta.
  pose proof (rotate_key_ok m e t Henv Ht) as Ht'. rewrite Hrot in Ht'. cbn in Ht'.
  apply rotate_key_inv in Hrot as (-> & -> & Hid).
  destruct (new_row_times m e Hm Hc) as [Hr Hx].
  assert (∀ r, r ∈ (sweep_expired sweep None (retire_active t ++ [new_row m e])).2 →
            is_active_row r → False) as Hno.
  { intros r [Hlt Hin]%list_elem_of_filter Ha. rewrite unix_now_ok in Hlt by done.
    assert (r = new_row m e) as ->; [|lia].
    eapply one_filtered; [apply Ht'|done|done|set_solver|done]. }
  split; [cbn [rotates_at key_of]; lia|]. split.
  - intros (r & Hk & Hin)%list_elem_of_fmap.
    apply list_elem_of_filter in Hin as [Hlt _]. rewrite unix_now_ok in Hlt by done.
    apply (f_equal expires_at) in Hk. cbn [expires_at key_of] in Hk. lia.
  - intros Hsel. unfold get_or_rotate_key. rewrite Hsel.
    destruct (select_active _ _) as [r|] eqn:E; [|done].
    apply select_active_Some in E as (? & ? & _). exfalso. by eapply Hno.
Qed.

Lemma key_of_retire r : key_of (retire r) = key_of r.
Proof. unfold retire. by case_decide. Qed.

Lemma key_op_keeps m op t k :
  match op with OpSweep c _ => clock_ok c ∧ (c < expires_at k)%Z | _ => True end →
  k ∈ (key_of <$> t) → k ∈ (key_of <$> key_op m op t).
Proof.
  intros Hop (r & -> & Hr)%list_elem_of_fmap.
  assert (key_of r ∈ key_of <$> retire_active t) as Hret.
  { apply list_elem_of_fmap. exists (retire r). rewrite key_of_retire. split; [done|].
    by apply list_elem_of_fmap_2. }
  destruct op as [e|c err]; cbn.
  - unfold get_or_rotate_key. destruct (ge_select_error e); [by apply list_elem_of_fmap_2|].
    destruct (select_active _ t); [by apply list_elem_of_fmap_2|].
    destruct (rotate_key m (ge_rotate e) t) as [res t'] eqn:E. apply rotate_key_inv in E. cbn.
    destruct res; [|destruct E as [->| ->]; [by apply list_elem_of_fmap_2|done]].
    destruct E as (_ & -> & _). rewrite fmap_app. apply elem_of_app. by left.
  - unfold sweep_expired. destruct err; [by apply list_elem_of_fmap_2|].
    destruct Hop as [Hc Hlt]. apply list_elem_of_fmap_2, list_elem_of_filter.
    rewrite unix_now_ok by done. done.
Qed.

Lemma run_ops_keeps m ops t k :
  Forall (λ op, match op with OpSweep c _ => clock_ok c ∧ (c < expires_at k)%Z | _ => True end) ops →
  k ∈ (key_of <$> t) → k ∈ (key_of <$> run_ops m ops t).
Proof.
  intros Hops. revert t. induction Hops as [|op ops Hop _ IH]; intros t Hin; [done|]. by apply IH, key_op_keeps.
Qed.

(** The key a lookup returns expires no earlier than [key_expiry - rotation_interval] seconds
    after the lookup. *)
Lemma get_key_lasts m ops e k t' :
  intervals_ok m → (0 < rotation_interval m)%Z → Forall timed_op ops → timed_op (OpGet e) →
  clock_ok (ge_clock e) → (ge_clock e ≤ re_clock (ge_rotate e))%Z →
  get_or_rotate_key m e (run_ops m ops []) = (Ok k, t') →
  k ∈ (key_of <$> t') ∧ (ge_clock e + (key_expiry m - rotation_interval m) < expires_at k)%Z.
Proof.
  intros Hm Hpos Hops [Henv Hrc] Hc Hmono. pose proof (run_ops_spaced m ops [] Hm Hops (list.Forall_nil_2 _)) as Hsp.
  pose proof (run_ops_ok m ops [] Hops table_ok_nil) as Ht.
  revert Ht Hsp. generalize (run_ops m ops []). intros t Ht Hsp. unfold get_or_rotate_key.
  destruct (ge_select_error e); [done|]. destruct (select_active _ t) as [r|] eqn:E.
  - apply select_active_Some in E as (Hr & _ & Hlt). erewrite build_key_ok by done. intros [= <- <-].
    split; [by apply list_elem_of_fmap_2|]. eapply list.Forall_forall in Hsp; [|exact Hr].
    rewrite unix_now_ok in Hlt by done. cbn [expires_at key_of]. cbn in Hsp. lia.
  - intros (-> & -> & _)%rotate_key_inv. split; [apply list_elem_of_fmap_2, elem_of_app; right; by apply list_elem_of_singleton|].
    destruct (new_row_times m (ge_rotate e) Hm Hrc) as [_ Hx]. cbn [expires_at key_of]. lia.
Qed.

(** A key is kept for [key_expiry] seconds counted from its creation, not from
    its retirement: while the clock of every sweep is before that moment the key
    stays in the table under any operations, rotations included, and the first
    sweep at or after it removes it, however recently the key was retired. *)
Theorem key_kept_from_creation m e t k t' :
  intervals_ok m → clock_ok (re_clock e) → rotate_key m e t = (Ok k, t') →
  (∀ ops, Forall (λ op, match op with OpSweep c _ => clock_ok c ∧ (c < re_clock e + key_expiry m)%Z | _ => True end) ops →
     k ∈ (key_of <$> run_ops m ops t')) ∧
  (∀ ops c, clock_ok c → (re_clock e + key_expiry m ≤ c)%Z →
     k ∉ (key_of <$> (sweep_expired c None (run_ops m ops t')).2)).
Proof.
  intros Hm Hc (-> & -> & _)%rotate_key_inv. destruct (new_row_times m e Hm Hc) as [_ Hx]. split.
  - intros ops Hops.
    assert (key_of (new_row m e) ∈ key_of <$> retire_active t ++ [new_row m e]) as Hin
      by (apply list_elem_of_fmap_2, elem_of_app; right; by apply list_elem_of_singleton).
    apply run_ops_keeps; [|done]. eapply list.Forall_impl; [exact Hops|]. intros [|c err]; [done|].
    cbn [expires_at key_of]. by rewrite Hx.
  - intros ops c Hcc Hle (r & Hk & [Hlt _]%list_elem_of_filter)%list_elem_of_fmap.
    rewrite unix_now_ok in Hlt by done. apply (f_equal expires_at) in Hk.
    cbn [expires_at key_of] in Hk. lia.
Qed.

(** C18: A failed cycle loses nothing and heals: when the lookup returns an error,
    even one raised after the old key was retired and before the new one was stored,
    no row is lost, and the next cycle without database errors and with a fresh key
    id gets a key, stored and active. *)
Theorem failed_rotation_recovers m e t msg t' e' :
  table_ok t → rotate_env_ok (ge_rotate e) → get_or_rotate_key m e t = (Err msg, t') →
  rotate_env_ok (ge_rotate e') → ge_select_error e' = None →
  re_update_error (ge_rotate e') = None → re_insert_error (ge_rotate e') = None →
  re_key_id (ge_rotate e') ∉ row_key_id <$> t' →
  row_key_id <$> t' = row_key_id <$> t ∧
  ∃ k t'', get_or_rotate_key m e' t' = (Ok k, t'') ∧
    ∃ r, r ∈ t'' ∧ is_active_row r ∧ key_of r = k.
Proof.
  intros Ht Henv Hget Henv' Hsel Hup Hins Hfresh.
  pose proof (get_ok m e t Henv Ht) as Ht'. rewrite Hget in Ht'. cbn in Ht'. split.
  - unfold get_or_rotate_key in Hget. destruct (ge_select_error e); [by simplify_eq|].
    destruct (select_active _ t) as [r|] eqn:E; [by simplify_eq|].
    apply rotate_key_inv in Hget as [->| ->]; [done|]. apply retire_active_ids.
  - unfold get_or_rotate_key. rewrite Hsel. destruct (select_active _ t') as [r|] eqn:E.
    + apply select_active_Some in E as (? & ? & _). erewrite build_key_ok by done. eauto 8.
    + unfold rotate_key, insert_key. cbn. rewrite Hup, Hins, retire_active_ids, decide_False by done.
      do 2 eexists. split; [done|]. exists (new_row m (ge_rotate e')). split; [set_solver|done].
Qed.

(** *** What a beacon receives *)

(** The reading of a lowercase hexadecimal string, as a beacon does it. *)
Definition hex_digit_val (a : ascii) : option N :=
  let n := N_of_ascii a in
  if ((48 <=? n) && (n <=? 57))%N then Some (n - 48)%N
  else if ((97 <=? n) && (n <=? 102))%N then Some (n - 87)%N
  else None.

Fixpoint hex_decode (s : string) : option (list byte) :=
  match s with
  | "" => Some []
  | String a (String b s) =>
      x ← hex_digit_val a; y ← hex_digit_val b; h ← Byte.of_N (16 * x + y); t ← hex_decode s; Some (h :: t)
  | _ => None
  end.

Lemma hex_decode_byte b s : hex_decode (hex_byte b +:+ s) = (λ t, b :: t) <$> hex_decode s.
Proof.
  change (hex_byte b +:+ s) with
    (String (hex_digit (Byte.to_N b / 16)) (String (hex_digit (Byte.to_N b `mod` 16)) s)).
  destruct b; cbn; by destruct (hex_decode s).
Qed.

Lemma hex_decode_encode bs : hex_decode (hex_encode bs) = Some bs.
Proof.
  induction bs as [|b bs IH]; [done|]. change (hex_encode (b :: bs)) with (hex_byte b +:+ hex_encode bs).
  by rewrite hex_decode_byte, IH.
Qed.

Lemma hex_encode_length bs : String.length (hex_encode bs) = 2 * length bs.
Proof.
  induction bs as [|b bs IH]; [done|]. change (hex_encode (b :: bs)) with (hex_byte b +:+ hex_encode bs).
  change (String.length (hex_byte b +:+ hex_encode bs)) with (S (S (String.length (hex_encode bs)))).
  rewrite IH. cbn [length]. lia.
Qed.

Section received.
Context (hmac_sha256 : list byte → list byte → list byte).
Context (hmac_length : ∀ key data, length (hmac_sha256 key data) = 32).

(** The two fields put on the air are strings of eight lowercase hexadecimal
    digits from which a beacon recovers exactly the key id and the token, so two
    keys, or two tokens, never look alike. *)
Theorem ota_fields_readable m clock k kid tok : length (key_id k) = 4 →
  ota_fields hmac_sha256 m clock k = (kid, tok) →
  String.length kid = 8 ∧ String.length tok = 8 ∧
  hex_decode kid = Some (key_id k) ∧
  hex_decode tok = Some (generate_token hmac_sha256 m clock k).
Proof using hmac_length.
  intros Hk [= <- <-]. rewrite !hex_encode_length, !hex_decode_encode, Hk.
  unfold generate_token. rewrite length_take, hmac_length. done.
Qed.

End received.

Lemma slot_of_wide m c : (0 ≤ c < 2 ^ 63)%Z → slot_of m c = (c / Z.max 1 (rotation_interval m))%Z.
Proof.
  intros Hc. unfold slot_of, unix_now. rewrite Z.max_r, as_i64_small by lia. by rewrite as_u64_small by lia.
Qed.

Lemma slot_of_clock m c : clock_ok c → slot_of m c = (c / Z.max 1 (rotation_interval m))%Z.
Proof. unfold clock_ok. intros Hc. apply slot_of_wide. lia. Qed.

Lemma slot_of_range m c : clock_ok c → (0 ≤ slot_of m c < 2 ^ 64)%Z.
Proof.
  intros Hc. rewrite slot_of_clock by done. unfold clock_ok in Hc. split.
  - apply Z.div_pos; lia.
  - apply Z.le_lt_trans with c; [|lia]. apply Z.div_le_upper_bound; nia.
Qed.

(** Functions with the width of HMAC-SHA256's output. *)
Definition mac_width (mac : list byte → list byte → list byte) : Prop := ∀ key data, length (mac key data) = 32.

(** A MAC that tells one pair of a key and a message from all others. *)
Definition telling (key data : list byte) (key' data' : list byte) : list byte :=
  if decide (key' = key ∧ data' = data) then repeat Byte.x01 32 else repeat Byte.x00 32.

Lemma telling_width key data : mac_width (telling key data).
Proof. intros key' data'. unfold telling. by case_decide. Qed.

(** Tokens agree under every MAC exactly when key and slot do. *)
Lemma token_determines m c c' k k' : clock_ok c → clock_ok c' →
  (∀ mac, mac_width mac → generate_token mac m c k = generate_token mac m c' k') ↔
  key_material k = key_material k' ∧ slot_of m c = slot_of m c'.
Proof.
  intros Hc Hc'. unfold generate_token. split; [|by intros [-> ->]].
  intros Hall. specialize (Hall _ (telling_width (key_material k) (be_bytes 8 (slot_of m c)))).
  unfold telling in Hall. rewrite decide_True in Hall by done. case_decide as Hd; [|done].
  destruct Hd as [-> Hb]. split; [done|]. symmetry. eapply be_bytes_inj; [by apply slot_of_range..|done].
Qed.

(** C36: The token is an authenticator of the key and of the time slot, and of nothing else:
    whatever MAC is used, two tokens of one key agree for any two times of one slot of
    [rotation_interval] seconds, and for times of different slots some MAC tells them
    apart, as it does for keys with different material; and during its active life, from
    its creation to its rotation time, a key announces at most two tokens, the one of its
    first and the one of its last second. *)
Theorem token_slots m e t k t' c c' :
  intervals_ok m → clock_ok (re_clock e) → clock_ok c → clock_ok c' →
  rotate_key m e t = (Ok k, t') →
  ((∀ mac, mac_width mac → generate_token mac m c k = generate_token mac m c' k) ↔
   (c / Z.max 1 (rotation_interval m) = c' / Z.max 1 (rotation_interval m))%Z) ∧
  (∀ k', (∀ mac, mac_width mac → generate_token mac m c k = generate_token mac m c k') ↔ key_material k = key_material k') ∧
  ((re_clock e ≤ c < rotates_at k)%Z → ∀ mac,
   generate_token mac m c k = generate_token mac m (re_clock e) k ∨
   generate_token mac m c k = generate_token mac m (rotates_at k - 1) k).
Proof.
  intros Hm Hce Hc Hc' (-> & _ & _)%rotate_key_inv. split_and!.
  - rewrite token_determines, !slot_of_clock by done. tauto.
  - intros k'. rewrite token_determines by done. tauto.
  - cbn [rotates_at key_of]. rewrite (proj1 (new_row_times m e Hm Hce)). intros Hrange mac.
    unfold clock_ok, intervals_ok, in_u32, u32_max in *.
    assert (slot_of m c = slot_of m (re_clock e) ∨ slot_of m c = slot_of m (re_clock e + rotation_interval m - 1)) as [E|E];
      [|unfold generate_token; rewrite E; auto..].
    rewrite !slot_of_wide by lia. set (r := Z.max 1 (rotation_interval m)).
    assert (re_clock e / r ≤ c / r)%Z by (apply Z.div_le_mono; lia).
    assert (c / r ≤ (re_clock e + rotation_interval m - 1) / r)%Z by (apply Z.div_le_mono; lia).
    assert ((re_clock e + rotation_interval m - 1) / r ≤ (re_clock e + 1 * r) / r)%Z as Hup by (apply Z.div_le_mono; lia).
    rewrite Z.div_add in Hup by lia. lia.
Qed.

(** *** Concrete runs *)

Definition ex_manager : BroadcastKeyManagement := mkKeyManagement 3600 7200.

Definition ex_rotate (clock : Z) (b : byte) : RotateEnv :=
  mkRotateEnv clock (repeat b 16) (repeat b 4) None None "UNIQUE constraint failed".

Definition ex_get (clock : Z) (b : byte) : GetEnv := mkGetEnv clock None (ex_rotate clock b).

Definition ex_hmac (key data : list byte) : list byte := take 32 (data ++ key ++ repeat Byte.x00 32).

Lemma ex_hmac_length key data : length (ex_hmac key data) = 32.
Proof. unfold ex_hmac. rewrite length_take, !length_app, repeat_length. lia. Qed.

Lemma ex_get_timed clock b : clock_ok clock → timed_op (OpGet (ex_get clock b)).
Proof. done. Qed.

Ltac concrete := repeat constructor; vm_compute; try done; intuition congruence.

Lemma key_table_invariant_witness :
  table_ok (foldl (λ t op, key_op ex_manager op t) []
    [OpGet (ex_get 1000 Byte.x01); OpSweep 2000 None; OpGet (ex_get 5000 Byte.x02)]).
Proof. apply key_table_invariant. concrete. Defined.

Lemma key_stable_until_rotation_witness : let k := key_of (new_row ex_manager (ex_rotate 1000 Byte.x01)) in
  get_or_rotate_key ex_manager (ex_get 4000 Byte.x03)
    (run_ops ex_manager [OpSweep 2000 None; OpGet (ex_get 3000 Byte.x02)] [new_row ex_manager (ex_rotate 1000 Byte.x01)])
  = (Ok k, run_ops ex_manager [OpSweep 2000 None; OpGet (ex_get 3000 Byte.x02)] [new_row ex_manager (ex_rotate 1000 Byte.x01)]).
Proof.
  apply (key_stable_until_rotation ex_manager [] _ (ex_get 1000 Byte.x01)); concrete.
Defined.

Lemma short_expiry_drops_active_key_witness :
  let m := mkKeyManagement 3600 60 in
  let t'' := (sweep_expired 1060 None [new_row m (ex_rotate 1000 Byte.x01)]).2 in
  get_or_rotate_key m (ex_get 1100 Byte.x02) t'' = rotate_key m (ex_rotate 1100 Byte.x02) t''.
Proof.
  apply (short_expiry_drops_active_key (mkKeyManagement 3600 60) (ex_rotate 1000 Byte.x01) []
    (key_of (new_row (mkKeyManagement 3600 60) (ex_rotate 1000 Byte.x01))) _ 1060 (ex_get 1100 Byte.x02));
    [concrete..|done].
Defined.

Lemma key_kept_from_creation_witness :
  let t' := [new_row ex_manager (ex_rotate 1000 Byte.x01)] in
  key_of (new_row ex_manager (ex_rotate 1000 Byte.x01)) ∈
    (key_of <$> run_ops ex_manager [OpGet (ex_get 8100 Byte.x02); OpSweep 8150 None] t') ∧
  key_of (new_row ex_manager (ex_rotate 1000 Byte.x01)) ∉
    (key_of <$> (sweep_expired 8200 None (run_ops ex_manager [OpGet (ex_get 8100 Byte.x02)] t')).2).
Proof.
  pose proof (key_kept_from_creation ex_manager (ex_rotate 1000 Byte.x01) []
    (key_of (new_row ex_manager (ex_rotate 1000 Byte.x01))) [new_row ex_manager (ex_rotate 1000 Byte.x01)]
    ltac:(concrete) ltac:(concrete) eq_refl) as [H1 H2].
  split; [apply H1|apply H2]; concrete.
Defined.

Lemma failed_rotation_recovers_witness :
  let t := [new_row ex_manager (ex_rotate 1000 Byte.x01)] in
  let bad := mkGetEnv 5000 None (mkRotateEnv 5000 (repeat Byte.x02 16) (repeat Byte.x02 4) None (Some "disk I/O error") "") in
  let t' := (get_or_rotate_key ex_manager bad t).2 in
  row_key_id <$> t' = row_key_id <$> t ∧
  ∃ k t'', get_or_rotate_key ex_manager (ex_get 5060 Byte.x03) t' = (Ok k, t'') ∧
    ∃ r, r ∈ t'' ∧ is_active_row r ∧ key_of r = k.
Proof.
  intros t bad t'.
  apply (failed_rotation_recovers ex_manager bad t "Failed to insert new broadcast key: disk I/O error" t'
    (ex_get 5060 Byte.x03)); try done.
  - split; [apply NoDup_singleton|by apply Forall_singleton|vm_compute; lia].
  - apply (bool_decide_unpack _). vm_compute. done.
Defined.

Lemma ota_fields_readable_witness :
  let k := key_of (new_row ex_manager (ex_rotate 1000 Byte.xab)) in
  (ota_fields ex_hmac ex_manager 1000 k).1 = "abababab" ∧
  hex_decode (ota_fields ex_hmac ex_manager 1000 k).2 = Some (generate_token ex_hmac ex_manager 1000 k).
Proof.
  intros k. split; [reflexivity|].
  apply (ota_fields_readable ex_hmac ex_hmac_length ex_manager 1000 k "abababab"
           (ota_fields ex_hmac ex_manager 1000 k).2); reflexivity.
Defined.

Lemma token_slots_witness :
  let k := key_of (new_row ex_manager (ex_rotate 1000 Byte.x01)) in
  ¬ (∀ mac, mac_width mac → generate_token mac ex_manager 3000 k = generate_token mac ex_manager 4000 k) ∧
  ∀ mac, generate_token mac ex_manager 4000 k = generate_token mac ex_manager 1000 k ∨
         generate_token mac ex_manager 4000 k = generate_token mac ex_manager 4599 k.
Proof.
  intros k. split.
  - intros Hall.
    pose proof (proj1 (token_slots ex_manager (ex_rotate 1000 Byte.x01) [] k [new_row ex_manager (ex_rotate 1000 Byte.x01)] 3000 4000
      ltac:(concrete) ltac:(concrete) ltac:(concrete) ltac:(concrete) eq_refl)) as H1.
    apply H1 in Hall. revert Hall. vm_compute. discriminate.
  - apply (token_slots ex_manager (ex_rotate 1000 Byte.x01) [] k [new_row ex_manager (ex_rotate 1000 Byte.x01)] 4000 0); concrete.
Defined.
