(* ===== verification/Ca.v ===== *)
(** * The certificate authority (src/infra/ca/)

    The root CA, the device certificates and the node's own identity, over their
    three database tables.  The certificate library (rcgen) is a parameter; the
    certificate parameters the program fills in are modelled field by field.  A
    database statement that fails is an argument of the call that runs it. *)

From S2P Require Import Prelude RustStr Paths.
From stdpp Require Import options.

(** ** Data *)

Inductive KeyUsagePurpose := KeyCertSign | CrlSign.
Inductive ExtendedKeyUsagePurpose := ClientAuth | ServerAuth.
Inductive DnType := CommonName | OrganizationName.
Inductive SanType := SanIpAddress (ip : IpAddr) | SanDnsName (name : string).

(** [rcgen::CertificateParams]: the fields the program sets. *)
Record CertificateParams := mkParams {
  is_ca : bool;
  key_usages : list KeyUsagePurpose;
  distinguished_name : list (DnType * string);
  extended_key_usages : list ExtendedKeyUsagePurpose;
  subject_alt_names : list SanType
}.

Definition CA_CN : string := "PlaceNet Root CA".

(** A row of [device_certs]; [revoked] is the stored integer. *)
Record DeviceRow := mkDeviceRow {
  dr_device_id : string;
  dr_cert_pem : string;
  dr_issued_at : Z;
  dr_expires_at : Z;
  dr_revoked : Z
}.

Record DeviceCertRecord := mkDeviceCertRecord {
  dc_device_id : string;
  dc_cert_pem : string;
  dc_issued_at : Z;
  dc_expires_at : Z;
  dc_revoked : bool
}.

(** The tables: [ca_keys] and [node_identity] have at most the row with id 1. *)
Record CaDb := mkCaDb {
  ca_keys : option (string * string);
  device_certs : list DeviceRow;
  node_identity : option (string * string * Z * Z)
}.

Definition empty_db : CaDb := mkCaDb None [] None.

(** [INSERT INTO device_certs ... ON CONFLICT(device_id) DO UPDATE SET ...] *)
Fixpoint upsert (r : DeviceRow) (t : list DeviceRow) : list DeviceRow :=
  match t with
  | [] => [r]
  | r' :: t => if decide (dr_device_id r' = dr_device_id r) then r :: t else r' :: upsert r t
  end.

(** [WHERE device_id = ?] *)
Definition find_device (id : string) (t : list DeviceRow) : option DeviceRow :=
  head (filter (λ r, dr_device_id r = id) t).

Definition revoke_row (id : string) (r : DeviceRow) : DeviceRow :=
  if decide (dr_device_id r = id)
  then mkDeviceRow (dr_device_id r) (dr_cert_pem r) (dr_issued_at r) (dr_expires_at r) 1
  else r.

(** [UPDATE device_certs SET revoked = 1 WHERE device_id = ?], with the number of rows
    it changed. *)
Definition revoke_rows (id : string) (t : list DeviceRow) : nat * list DeviceRow :=
  (length (filter (λ r, dr_device_id r = id) t), revoke_row id <$> t).

(** [Ia5String::try_from]: ASCII strings only. *)
Fixpoint is_ascii (s : string) : bool :=
  match s with "" => true | String c s => (N_of_ascii c <? 128)%N && is_ascii s end.

Definition ca_params : CertificateParams :=
  mkParams true [KeyCertSign; CrlSign] [(CommonName, CA_CN); (OrganizationName, "PlaceNet")] [] [].

Definition node_params : CertificateParams :=
  mkParams false [] [(CommonName, "hamlet"); (OrganizationName, "PlaceNet")] [ClientAuth] [].

Definition broker_params (san_ips : list IpAddr) (san_hostnames : list string) : CertificateParams :=
  mkParams false [] [(CommonName, "placenet-broker"); (OrganizationName, "PlaceNet")] [ServerAuth]
    ((SanIpAddress <$> san_ips) ++ (SanDnsName <$> filter (λ n, is_ascii n = true) san_hostnames)).

(** Seconds since the epoch, and one year later. *)
Definition now_secs (clock : Z) : Z := as_i64 (Z.max 0 clock).
Definition one_year : Z := 365 * 24 * 60 * 60.

(** ** The certificate library *)

(** [Rand] is the randomness of one call: keys and ECDSA signatures use some. *)
Class Rcgen (KeyPair Certificate Rand : Type) := {
  keypair_generate : Rand → result string KeyPair;
  keypair_from_pem : string → result string KeyPair;
  keypair_serialize_pem : KeyPair → string;
  cert_pem : Certificate → string;
  params_from_ca_cert_pem : string → result string CertificateParams;
  self_signed : Rand → CertificateParams → KeyPair → result string Certificate;
  signed_by : Rand → CertificateParams → KeyPair → Certificate → KeyPair → result string Certificate;
  (** parsing a CSR, and signing it with the CA *)
  csr_from_pem : string → result string string;
  csr_signed_by : Rand → string → Certificate → KeyPair → result string Certificate
}.

(** ** Operations *)

Section operations.
Context {KeyPair Certificate Rand : Type} `{!Rcgen KeyPair Certificate Rand}.

Record CaState := mkCaState {
  subject_cn : string;
  ca_cert : Certificate;
  ca_key_pair : KeyPair
}.

(** The service: the loaded CA, and the database behind its pool. *)
Record CaService := mkCaService { ca_state : option CaState; ca_db : CaDb }.

(** What one call meets: the clock, its randomness, and the database errors of its
    read and of its write statement. *)
Record CaEnv := mkCaEnv {
  ce_clock : Z;
  ce_rand : Rand;
  ce_rand' : Rand;
  ce_migrate_error : option string;
  ce_read_error : option string;
  ce_write_error : option string
}.

Definition load_ca_from_db (e : CaEnv) (db : CaDb) : result string (option CaState) :=
  match ce_read_error e with
  | Some err => Err ("Failed to query CA from database: " +:+ err)
  | None =>
      match ca_keys db with
      | None => Ok None
      | Some (pem, key_pem) =>
          key ← map_err (λ e, "Failed to parse CA private key: " +:+ e) (keypair_from_pem key_pem);
          params ← map_err (λ e, "Failed to parse CA certificate: " +:+ e) (params_from_ca_cert_pem pem);
          cert ← map_err (λ e, "Failed to reconstruct CA cert: " +:+ e) (self_signed (ce_rand e) params key);
          Ok (Some (mkCaState CA_CN cert key))
      end
  end.

Definition generate_and_persist_ca (e : CaEnv) : st CaDb string CaState := λ db,
  match map_err (λ e, "Failed to generate CA key pair: " +:+ e) (keypair_generate (ce_rand e)) with
  | Err err => (Err err, db)
  | Ok key =>
      match map_err (λ e, "Failed to self-sign CA certificate: " +:+ e) (self_signed (ce_rand' e) ca_params key) with
      | Err err => (Err err, db)
      | Ok cert =>
          match ce_write_error e with
          | Some err => (Err ("Failed to persist CA to database: " +:+ err), db)
          | None =>
              match ca_keys db with
              | Some _ => (Err "Failed to persist CA to database: UNIQUE constraint failed: ca_keys.id", db)
              | None =>
                  (Ok (mkCaState CA_CN cert key),
                   mkCaDb (Some (cert_pem cert, keypair_serialize_pem key)) (device_certs db) (node_identity db))
              end
          end
      end
  end.

Definition load_or_generate_ca (e : CaEnv) : st CaDb string CaState := λ db,
  match load_ca_from_db e db with
  | Err err => (Err err, db)
  | Ok (Some s) => (Ok s, db)
  | Ok None => generate_and_persist_ca e db
  end.

Definition init (e : CaEnv) : st CaService string () := λ s,
  match ce_migrate_error e with
  | Some err => (Err ("Failed to run CA migrations: " +:+ err), s)
  | None =>
      let '(r, db) := load_or_generate_ca e (ca_db s) in
      match r with
      | Err err => (Err err, mkCaService (ca_state s) db)
      | Ok c => (Ok (), mkCaService (Some c) db)
      end
  end.

(** [CaService::register] on the database of an earlier run; [open] is the outcome of
    parsing the URL and opening the file. *)
Definition ca_register (open : result string ()) (e : CaEnv) (db : CaDb) : result string CaService * CaDb :=
  match open with
  | Err err => (Err err, db)
  | Ok _ =>
      let '(r, s) := init e (mkCaService None db) in
      ((λ _, s) <$> r, ca_db s)
  end.

Definition operations_sign_csr (e : CaEnv) (ca : CaState) (csr_pem : string) : result string (string * Z * Z) :=
  csr ← map_err (λ e, "Invalid CSR: " +:+ e) (csr_from_pem csr_pem);
  signed ← map_err (λ e, "Failed to sign CSR: " +:+ e) (csr_signed_by (ce_rand e) csr (ca_cert ca) (ca_key_pair ca));
  let now := now_secs (ce_clock e) in
  Ok (cert_pem signed, now, as_i64 (now + one_year)).

Definition sign_csr (e : CaEnv) (device_id csr_pem : string) : st CaService string string := λ s,
  match ca_state s with
  | None => (Err "CA not initialised", s)
  | Some ca =>
      match operations_sign_csr e ca csr_pem with
      | Err err => (Err err, s)
      | Ok (pem, issued_at, expires_at) =>
          match ce_write_error e with
          | Some err => (Err ("Failed to persist device cert: " +:+ err), s)
          | None =>
              let row := mkDeviceRow device_id pem issued_at expires_at 0 in
              let db := ca_db s in
              (Ok pem, mkCaService (ca_state s) (mkCaDb (ca_keys db) (upsert row (device_certs db)) (node_identity db)))
          end
      end
  end.

Definition get_cert (e : CaEnv) (device_id : string) (s : CaService) : result string (option string) :=
  match ce_read_error e with
  | Some err => Err ("Failed to query device cert: " +:+ err)
  | None => Ok (dr_cert_pem <$> find_device device_id (device_certs (ca_db s)))
  end.

Definition list_devices (e : CaEnv) (s : CaService) : result string (list DeviceCertRecord) :=
  match ce_read_error e with
  | Some err => Err ("Failed to list device certs: " +:+ err)
  | None =>
      Ok ((λ r, mkDeviceCertRecord (dr_device_id r) (dr_cert_pem r) (dr_issued_at r) (dr_expires_at r)
                  (negb (dr_revoked r =? 0)%Z)) <$> device_certs (ca_db s))
  end.

Definition revoke (e : CaEnv) (device_id : string) : st CaService string () := λ s,
  match ce_write_error e with
  | Some err => (Err ("Failed to revoke device cert: " +:+ err), s)
  | None =>
      let db := ca_db s in
      let '(rows_affected, t) := revoke_rows device_id (device_certs db) in
      let s := mkCaService (ca_state s) (mkCaDb (ca_keys db) t (node_identity db)) in
      if decide (rows_affected = 0) then (Err ("Unknown device: " +:+ device_id), s) else (Ok (), s)
  end.

Definition ca_cert_pem (s : CaService) : result string string :=
  match ca_state s with
  | None => Err "CA not initialised"
  | Some ca => Ok (cert_pem (ca_cert ca))
  end.

Definition generate_broker_identity (e : CaEnv) (ca : CaState) (san_ips : list IpAddr) (san_hostnames : list string) :
    result string (string * string) :=
  key ← map_err (λ e, "Failed to generate broker key pair: " +:+ e) (keypair_generate (ce_rand e));
  cert ← map_err (λ e, "Failed to sign broker certificate: " +:+ e)
    (signed_by (ce_rand' e) (broker_params san_ips san_hostnames) key (ca_cert ca) (ca_key_pair ca));
  Ok (cert_pem cert, keypair_serialize_pem key).

Definition generate_broker_cert (e : CaEnv) (san_ips : list IpAddr) (san_hostnames : list string) (s : CaService) :
    result string (string * string) :=
  match ca_state s with
  | None => Err "CA not initialised"
  | Some ca => generate_broker_identity e ca san_ips san_hostnames
  end.

Definition generate_node_identity (e : CaEnv) (ca : CaState) : result string (string * string * Z * Z) :=
  key ← map_err (λ e, "Failed to generate node identity key pair: " +:+ e) (keypair_generate (ce_rand e));
  cert ← map_err (λ e, "Failed to sign node identity certificate: " +:+ e)
    (signed_by (ce_rand' e) node_params key (ca_cert ca) (ca_key_pair ca));
  let now := now_secs (ce_clock e) in
  Ok (cert_pem cert, keypair_serialize_pem key, now, as_i64 (now + one_year)).

Definition ensure_node_identity (e : CaEnv) : st CaService string (string * string) := λ s,
  match ce_read_error e with
  | Some err => (Err ("Failed to query node identity: " +:+ err), s)
  | None =>
      let db := ca_db s in
      match node_identity db with
      | Some (cert, key, _, _) => (Ok (cert, key), s)
      | None =>
          match ca_state s with
          | None => (Err "CA not initialised", s)
          | Some ca =>
              match generate_node_identity e ca with
              | Err err => (Err err, s)
              | Ok (cert, key, issued_at, expires_at) =>
                  match ce_write_error e with
                  | Some err => (Err ("Failed to persist node identity: " +:+ err), s)
                  | None =>
                      (Ok (cert, key), mkCaService (ca_state s)
                         (mkCaDb (ca_keys db) (device_certs db) (Some (cert, key, issued_at, expires_at))))
                  end
              end
          end
      end
  end.

Definition is_revoked (e : CaEnv) (device_id : string) (s : CaService) : result string bool :=
  match ce_read_error e with
  | Some err => Err ("Failed to query revocation status: " +:+ err)
  | None =>
      Ok (default false ((λ r, negb (dr_revoked r =? 0)%Z) <$> find_device device_id (device_certs (ca_db s))))
  end.

End operations.
Arguments CaState : clear implicits.
Arguments CaService : clear implicits.
Arguments CaEnv : clear implicits.

(** ** What the rest of the program sees: a map from devices to certificates *)

(** A device's certificate, and whether it is revoked. *)
Abbreviation Issued := (gmap string (string * bool)).

Definition issued_of (t : list DeviceRow) : Issued :=
  list_to_map ((λ r, (dr_device_id r, (dr_cert_pem r, negb (dr_revoked r =? 0)%Z))) <$> t).

(** ** Proofs *)

Section proofs.
Context {KeyPair Certificate Rand : Type} `{!Rcgen KeyPair Certificate Rand}.
Implicit Types (s : CaService KeyPair Certificate) (e : CaEnv Rand) (t : list DeviceRow).

(** *** The device table *)

Definition devices_ok t : Prop := NoDup (dr_device_id <$> t).

Lemma issued_of_cons r t : issued_of (r :: t) =
  <[dr_device_id r := (dr_cert_pem r, negb (dr_revoked r =? 0)%Z)]> (issued_of t).
Proof. done. Qed.

Lemma upsert_ids r t : (∀ id, id ∈ dr_device_id <$> upsert r t ↔ id = dr_device_id r ∨ id ∈ dr_device_id <$> t).
Proof.
  intros id. induction t as [|r' t IH]; cbn; [set_solver|].
  case_decide as Hd; cbn; rewrite !elem_of_cons, ?IH, ?Hd; tauto.
Qed.

Lemma upsert_ok r t : devices_ok t → devices_ok (upsert r t).
Proof.
  unfold devices_ok. induction t as [|r' t IH]; cbn; intros Ht; [apply NoDup_singleton|].
  apply list.NoDup_cons in Ht as [Hn Ht]. case_decide as Hd; cbn; apply list.NoDup_cons; [by rewrite <- Hd|].
  split; [|auto]. rewrite upsert_ids. intros [?|?]; auto.
Qed.

Lemma upsert_issued r t : devices_ok t →
  issued_of (upsert r t) = <[dr_device_id r := (dr_cert_pem r, negb (dr_revoked r =? 0)%Z)]> (issued_of t).
Proof.
  unfold devices_ok. induction t as [|r' t IH]; cbn [upsert]; intros Ht; [done|].
  rewrite fmap_cons in Ht. apply list.NoDup_cons in Ht as [Hn Ht]. case_decide as Hd; rewrite !issued_of_cons.
  - rewrite Hd.
    by rewrite insert_insert_eq.
  - rewrite IH by done. by apply insert_insert_ne.
Qed.

Lemma find_device_issued id t :
  issued_of t !! id = (λ r, (dr_cert_pem r, negb (dr_revoked r =? 0)%Z)) <$> find_device id t.
Proof.
  unfold find_device. induction t as [|r t IH]; [done|]. rewrite issued_of_cons, filter_cons.
  case_decide as Hd; cbn; [by rewrite Hd, lookup_insert_eq|]. by rewrite lookup_insert_ne.
Qed.

Lemma revoke_ids id t : dr_device_id <$> (revoke_rows id t).2 = dr_device_id <$> t.
Proof.
  cbn. rewrite <- list_fmap_compose. apply list_fmap_ext. intros _ r _. cbn. unfold revoke_row. by case_decide.
Qed.

Lemma revoke_issued id t :
  issued_of (revoke_rows id t).2 = alter (λ ci, (ci.1, true)) id (issued_of t).
Proof.
  cbn [revoke_rows snd]. induction t as [|r t IH]; [symmetry; apply alter_empty|].
  rewrite fmap_cons, !issued_of_cons, IH. unfold revoke_row. case_decide as Hd; cbn.
  - rewrite <- Hd. by rewrite alter_insert_eq, insert_alter_eq.
  - by rewrite alter_insert_ne.
Qed.

Lemma revoke_rows_count id t : (revoke_rows id t).1 = 0 ↔ issued_of t !! id = None.
Proof.
  rewrite find_device_issued. unfold find_device. cbn. by destruct (filter _ t).
Qed.

(** *** Histories *)

Inductive CaOp :=
| CaRestart (open : result string ()) (e : CaEnv Rand)
| CaSign (e : CaEnv Rand) (device_id csr_pem : string)
| CaRevoke (e : CaEnv Rand) (device_id : string)
| CaIdentity (e : CaEnv Rand).

(** A restart that fails ends the program; the database stays. *)
Definition ca_op (op : CaOp) s : CaService KeyPair Certificate :=
  match op with
  | CaRestart open e =>
      match ca_register open e (ca_db s) with
      | (Ok s', _) => s'
      | (Err _, db) => mkCaService None db
      end
  | CaSign e id csr => (sign_csr e id csr s).2
  | CaRevoke e id => (revoke e id s).2
  | CaIdentity e => (ensure_node_identity e s).2
  end.

Definition ca_run (ops : list CaOp) s : CaService KeyPair Certificate := foldl (λ s op, ca_op op s) s ops.

Lemma ca_register_db open e db r db' : ca_register (KeyPair := KeyPair) (Certificate := Certificate) open e db = (r, db') →
  device_certs db' = device_certs db ∧ node_identity db' = node_identity db ∧
  (is_Some (ca_keys db) → db' = db) ∧ (∀ s, r = Ok s → ca_db s = db').
Proof.
  unfold ca_register, init, load_or_generate_ca, generate_and_persist_ca.
  destruct open; [|by intros [= <- <-]].
  destruct (ce_migrate_error e); [by intros [= <- <-]|]. cbn [ca_db ca_state].
  destruct (load_ca_from_db e db) as [[c|]|] eqn:Hload; [by intros [= <- <-]; split_and!; try done; intros ? [= <-]| |by intros [= <- <-]].
  assert (ca_keys db = None) as Hk.
  { revert Hload. unfold load_ca_from_db. destruct (ce_read_error e); [done|].
    destruct (ca_keys db) as [[pem key]|]; [|done]. unfold mbind, result_bind. by repeat case_match. }
  rewrite Hk. repeat case_match; intros [= <- <-]; simplify_eq/=; split_and!; try done; try (by intros [? [=]]); by intros ? [= <-].
Qed.

Lemma sign_csr_inv e id csr s : match sign_csr e id csr s with
  | (Ok pem, s') => ca_state s' = ca_state s ∧ ca_keys (ca_db s') = ca_keys (ca_db s) ∧
      node_identity (ca_db s') = node_identity (ca_db s) ∧
      ∃ i x, device_certs (ca_db s') = upsert (mkDeviceRow id pem i x 0) (device_certs (ca_db s))
  | (Err _, s') => s' = s
  end.
Proof.
  unfold sign_csr. destruct (ca_state s) eqn:Hs; [|done].
  destruct (operations_sign_csr _ _ _) as [[[pem i] x]|]; [|done].
  destruct (ce_write_error e); [done|]. cbn. eauto 8.
Qed.

Lemma revoke_rows_none id t : issued_of t !! id = None → revoke_row id <$> t = t.
Proof.
  rewrite find_device_issued. unfold find_device. induction t as [|r t IH]; [done|].
  rewrite filter_cons, fmap_cons. unfold revoke_row at 1. case_decide; [done|]. intros Hn. f_equal. by apply IH.
Qed.

Lemma revoke_inv e id s : match revoke e id s with
  | (Ok _, s') => ca_state s' = ca_state s ∧ ca_keys (ca_db s') = ca_keys (ca_db s) ∧
      node_identity (ca_db s') = node_identity (ca_db s) ∧
      device_certs (ca_db s') = (revoke_rows id (device_certs (ca_db s))).2 ∧
      is_Some (issued_of (device_certs (ca_db s)) !! id)
  | (Err _, s') => s' = s
  end.
Proof.
  unfold revoke. destruct (ce_write_error e); [done|].
  pose proof (revoke_rows_count id (device_certs (ca_db s))) as Hc.
  destruct (revoke_rows _ _) as [n t] eqn:Hr. cbn in Hc. case_decide as Hn.
  - injection Hr as _ <-. rewrite revoke_rows_none by (by apply Hc).
    destruct s as [c [k d ni]]. done.
  - cbn. split_and!; try done. apply not_eq_None_Some. by rewrite <- Hc.
Qed.

Lemma ensure_inv e s : match ensure_node_identity e s with
  | (Ok (cert, key), s') => ca_state s' = ca_state s ∧ ca_keys (ca_db s') = ca_keys (ca_db s) ∧
      device_certs (ca_db s') = device_certs (ca_db s) ∧
      (∃ i x, node_identity (ca_db s') = Some (cert, key, i, x)) ∧
      (is_Some (node_identity (ca_db s)) → s' = s)
  | (Err _, s') => s' = s
  end.
Proof.
  unfold ensure_node_identity. destruct (ce_read_error e); [done|].
  destruct (node_identity (ca_db s)) as [[[[cert key] i] x]|] eqn:Hn; [eauto 10|].
  destruct (ca_state s) eqn:Hs; [|done].
  destruct (generate_node_identity _ _) as [[[[cert key] i] x]|]; [|done].
  destruct (ce_write_error e); [done|]. cbn. split_and!; try done; eauto.
Qed.

Lemma ca_op_devices_ok op s : devices_ok (device_certs (ca_db s)) → devices_ok (device_certs (ca_db (ca_op op s))).
Proof.
  intros Hs. destruct op as [open e|e id csr|e id|e]; cbn.
  - destruct (ca_register open e (ca_db s)) as [[s'|] db'] eqn:Hr; apply ca_register_db in Hr as (Hd & _ & _ & Hs').
    + by rewrite (Hs' s'), Hd.
    + cbn. by rewrite Hd.
  - pose proof (sign_csr_inv e id csr s) as H. destruct (sign_csr e id csr s) as [[pem|] s']; cbn; [|by rewrite H].
    destruct H as (_ & _ & _ & i & x & ->). by apply upsert_ok.
  - pose proof (revoke_inv e id s) as H. destruct (revoke e id s) as [[?|] s']; cbn; [|by rewrite H].
    destruct H as (_ & _ & _ & -> & _). unfold devices_ok. by rewrite revoke_ids.
  - pose proof (ensure_inv e s) as H. destruct (ensure_node_identity e s) as [[[c k]|] s']; cbn; [|by rewrite H].
    destruct H as (_ & _ & -> & _). done.
Qed.

Lemma ca_run_devices_ok ops s : devices_ok (device_certs (ca_db s)) → devices_ok (device_certs (ca_db (ca_run ops s))).
Proof. revert s; induction ops as [|op ops IH]; intros s Hs; [done|]. by apply IH, ca_op_devices_ok. Qed.

Definition issued s : Issued := issued_of (device_certs (ca_db s)).

(** C13: The certificate table behaves as a map from device ids to certificates, in every
    state a history of restarts, signings, revocations and identity requests can reach:
    signing replaces the device's entry with the new, unrevoked certificate, or
    changes nothing when it fails; revoking marks the entry of a known device and
    fails, changing nothing, on an unknown one; the queries read the map. *)
Theorem device_certs_refine_map ops e id csr :
  let s := ca_run ops (mkCaService None empty_db) in
  match sign_csr e id csr s with
  | (Ok pem, s') => issued s' = <[id := (pem, false)]> (issued s)
  | (Err _, s') => s' = s
  end ∧
  match revoke e id s with
  | (Ok _, s') => is_Some (issued s !! id) ∧ issued s' = alter (λ ci, (ci.1, true)) id (issued s)
  | (Err _, s') => (ce_write_error e = None → issued s !! id = None) ∧ s' = s
  end ∧
  (ce_read_error e = None →
     get_cert e id s = Ok (fst <$> issued s !! id) ∧
     is_revoked e id s = Ok (default false (snd <$> issued s !! id))).
Proof.
  intros s. assert (devices_ok (device_certs (ca_db s))) as Hok by (apply ca_run_devices_ok; constructor).
  split_and!.
  - pose proof (sign_csr_inv e id csr s) as H. destruct (sign_csr e id csr s) as [[pem|] s']; [|done].
    destruct H as (_ & _ & _ & i & x & H). unfold issued. by rewrite H, upsert_issued.
  - pose proof (revoke_inv e id s) as H. destruct (revoke e id s) as [[?|] s'] eqn:Hrev.
    + destruct H as (_ & _ & _ & H & ?). split; [done|]. unfold issued. by rewrite H, revoke_issued.
    + split; [|done]. intros Hw. revert Hrev. unfold revoke. rewrite Hw.
      pose proof (revoke_rows_count id (device_certs (ca_db s))) as Hc.
      destruct (revoke_rows _ _) as [n t]. case_decide; [|done]. intros _. by apply Hc.
  - intros He. unfold get_cert, is_revoked, issued. rewrite He, find_device_issued.
    by destruct (find_device id _).
Qed.

(** The queries on any table. *)
Lemma is_revoked_issued e id s : ce_read_error e = None →
  is_revoked e id s = Ok (default false (snd <$> issued s !! id)).
Proof.
  intros He. unfold is_revoked, issued. rewrite He, find_device_issued. by destruct (find_device id _).
Qed.

(** Signing forgets a revocation and never asks for one: for a device that was
    just revoked, signing answers as it would have without the revocation, and after
    it the device counts as not revoked. *)
Theorem resigning_clears_revocation ops e1 e2 e3 id csr s' :
  let s := ca_run ops (mkCaService None empty_db) in
  revoke e1 id s = (Ok (), s') → ce_read_error e3 = None →
  is_revoked e3 id s' = Ok true ∧
  (sign_csr e2 id csr s').1 = (sign_csr e2 id csr s).1 ∧
  (∀ pem s'', sign_csr e2 id csr s' = (Ok pem, s'') → is_revoked e3 id s'' = Ok false).
Proof.
  intros s Hrev He3. assert (devices_ok (device_certs (ca_db s))) as Hok by (apply ca_run_devices_ok; constructor).
  pose proof (revoke_inv e1 id s) as H. rewrite Hrev in H. destruct H as (Hst & _ & _ & Hd & [[pem b] Hid]).
  assert (devices_ok (device_certs (ca_db s'))) as Hok'.
  { rewrite Hd. unfold devices_ok. by rewrite revoke_ids. }
  split_and!.
  - rewrite is_revoked_issued by done. unfold issued. rewrite Hd, revoke_issued, lookup_alter_eq, Hid. done.
  - unfold sign_csr. rewrite Hst. by repeat case_match.
  - intros pem' s'' Hsign. pose proof (sign_csr_inv e2 id csr s') as H. rewrite Hsign in H.
    destruct H as (_ & _ & _ & i & x & H). rewrite is_revoked_issued by done. unfold issued.
    rewrite H, upsert_issued by done. cbn. by rewrite lookup_insert_eq.
Qed.

Lemma ca_op_identity op s id i x : node_identity (ca_db s) = Some (id, i, x) →
  node_identity (ca_db (ca_op op s)) = Some (id, i, x).
Proof.
  intros Hs. destruct op as [open e|e d csr|e d|e]; cbn.
  - destruct (ca_register open e (ca_db s)) as [[s'|] db'] eqn:Hr; apply ca_register_db in Hr as (_ & Hn & _ & Hs').
    + by rewrite (Hs' s'), Hn.
    + cbn. by rewrite Hn.
  - pose proof (sign_csr_inv e d csr s) as H. destruct (sign_csr e d csr s) as [[pem|] s']; cbn; [|by rewrite H].
    by destruct H as (_ & _ & -> & _).
  - pose proof (revoke_inv e d s) as H. destruct (revoke e d s) as [[?|] s']; cbn; [|by rewrite H].
    by destruct H as (_ & _ & -> & _).
  - pose proof (ensure_inv e s) as H. destruct (ensure_node_identity e s) as [[[c k]|] s']; cbn; [|by rewrite H].
    destruct H as (_ & _ & _ & _ & H). by rewrite H by (by rewrite Hs).
Qed.

(** C15: The node keeps one identity: once [ensure_node_identity] has returned a
    certificate and key, every later call that can read the database returns the same
    ones and stores nothing new, across restarts, signings and revocations. *)
Theorem node_identity_stable s e id s' ops e' :
  ensure_node_identity e s = (Ok id, s') → ce_read_error e' = None →
  ensure_node_identity e' (ca_run ops s') = (Ok id, ca_run ops s').
Proof.
  intros Hens He'. pose proof (ensure_inv e s) as H. rewrite Hens in H. destruct id as [cert key].
  destruct H as (_ & _ & _ & (i & x & Hn) & _).
  assert (node_identity (ca_db (ca_run ops s')) = Some (cert, key, i, x)) as Hn'.
  { clear Hens. revert s' Hn. induction ops as [|op ops IH]; intros s' Hn; [done|]. by apply IH, ca_op_identity. }
  unfold ensure_node_identity. by rewrite He', Hn'.
Qed.

(** *** The root key *)

(** A key pair written as PEM reads back as itself. *)
Context (pem_roundtrip : ∀ k : KeyPair, keypair_from_pem (keypair_serialize_pem k) = Ok k).

(** The stored key is [k], and the loaded CA, if any, uses it. *)
Definition root_key (k : KeyPair) s : Prop :=
  (∃ pem, ca_keys (ca_db s) = Some (pem, keypair_serialize_pem k)) ∧
  ∀ c, ca_state s = Some c → ca_key_pair c = k ∧ subject_cn c = CA_CN.

Lemma load_root_key e db pem k c : ca_keys db = Some (pem, keypair_serialize_pem k) →
  load_ca_from_db e db = Ok (Some c) → ca_key_pair c = k ∧ subject_cn c = CA_CN.
Proof using pem_roundtrip.
  intros Hk. unfold load_ca_from_db. rewrite Hk. destruct (ce_read_error e); [done|].
  rewrite pem_roundtrip. unfold mbind, result_bind. cbn.
  destruct (params_from_ca_cert_pem pem); [|done]. cbn. destruct (self_signed _ _ _); [|done]. cbn.
  by intros [= <-].
Qed.

Lemma load_none_keys e db : load_ca_from_db (KeyPair := KeyPair) (Certificate := Certificate) e db = Ok None → ca_keys db = None.
Proof.
  unfold load_ca_from_db. destruct (ce_read_error e); [done|].
  destruct (ca_keys db) as [[pem key]|]; [|done]. unfold mbind, result_bind. by repeat case_match.
Qed.

Lemma ca_op_root_key op k s : root_key k s → root_key k (ca_op op s).
Proof using pem_roundtrip.
  intros [[pem Hk] Hst]. destruct op as [open e|e d csr|e d|e]; cbn.
  - unfold ca_register, init, load_or_generate_ca. destruct open; [|split; [by exists pem|done]].
    destruct (ce_migrate_error e); [split; [by exists pem|done]|]. cbn [ca_db ca_state].
    destruct (load_ca_from_db e (ca_db s)) as [[c|]|] eqn:Hl; cbn.
    + split; [by exists pem|]. intros ? [= <-]. by eapply load_root_key.
    + apply load_none_keys in Hl. congruence.
    + split; [by exists pem|done].
  - pose proof (sign_csr_inv e d csr s) as H. destruct (sign_csr e d csr s) as [[?|] s']; cbn; [|subst; split; eauto].
    destruct H as (H1 & H2 & _). split; [rewrite H2; eauto|by rewrite H1].
  - pose proof (revoke_inv e d s) as H. destruct (revoke e d s) as [[?|] s']; cbn; [|subst; split; eauto].
    destruct H as (H1 & H2 & _). split; [rewrite H2; eauto|by rewrite H1].
  - pose proof (ensure_inv e s) as H. destruct (ensure_node_identity e s) as [[[??]|] s']; cbn; [|subst; split; eauto].
    destruct H as (H1 & H2 & _). split; [rewrite H2; eauto|by rewrite H1].
Qed.

(** C14: The root key is generated once and kept: after a first start on an empty
    database, every later state of the program, restarts included, either has no CA
    loaded (a restart that failed) or signs with that first key. *)
Theorem root_key_survives_restarts open e s c ops c' :
  ca_register open e empty_db = (Ok s, ca_db s) → ca_state s = Some c →
  ca_state (ca_run ops s) = Some c' → ca_key_pair c' = ca_key_pair c ∧ subject_cn c' = CA_CN.
Proof using pem_roundtrip.
  intros Hreg Hc Hc'. assert (root_key (ca_key_pair c) s) as Hroot.
  { revert Hreg. unfold ca_register, init, load_or_generate_ca, generate_and_persist_ca.
    destruct open; [|done]. destruct (ce_migrate_error e); [done|]. unfold load_ca_from_db. cbn [ca_db ca_keys empty_db].
    destruct (ce_read_error e); [done|].
    destruct (keypair_generate (ce_rand e)) as [k|]; cbn; [|done].
    destruct (self_signed (ce_rand' e) ca_params k) as [cert|]; cbn; [|done].
    destruct (ce_write_error e); cbn; [done|]. intros [= <-]. cbn in Hc. injection Hc as <-. split; cbn; [eauto|].
    by intros ? [= <-]. }
  clear Hreg Hc. assert (root_key (ca_key_pair c) (ca_run ops s)) as [_ Hr]; [|by apply Hr].
  clear Hc'. revert s Hroot. induction ops as [|op ops IH]; intros s Hroot; [done|]. by apply IH, ca_op_root_key.
Qed.

End proofs.

(** ** Concrete runs: keys and certificates as their own PEM text *)

Definition toy_rcgen : Rcgen string string string := {|
  keypair_generate r := Ok ("key-" +:+ r);
  keypair_from_pem pem := Ok pem;
  keypair_serialize_pem k := k;
  cert_pem c := c;
  params_from_ca_cert_pem pem := Ok ca_params;
  self_signed r p k := Ok ("cert(" +:+ k +:+ ")");
  signed_by r p k c ck := Ok ("cert(" +:+ k +:+ ") by " +:+ ck);
  csr_from_pem pem := if decide (pem = "") then Err "empty" else Ok pem;
  csr_signed_by r csr c ck := Ok ("cert(" +:+ csr +:+ ") by " +:+ ck)
|}.

#[local] Existing Instance toy_rcgen.

Definition ex_ca_env (clock : Z) (r : string) : CaEnv string := mkCaEnv clock r r None None None.

Definition ex_first_start : CaOp (Rand := string) := CaRestart (Ok ()) (ex_ca_env 1000 "a").

Definition ex_ca : CaService string string := ca_run [ex_first_start] (mkCaService None empty_db).

Lemma resigning_clears_revocation_witness :
  let s := ca_run [ex_first_start; CaSign (ex_ca_env 1 "b") "beacon" "csr"] (mkCaService None empty_db) in
  let s' := (revoke (ex_ca_env 2 "") "beacon" s).2 in
  is_revoked (ex_ca_env 3 "") "beacon" s' = Ok true ∧
  is_revoked (ex_ca_env 3 "") "beacon" (sign_csr (ex_ca_env 3 "c") "beacon" "csr2" s').2 = Ok false.
Proof.
  cbv zeta.
  pose proof (resigning_clears_revocation [ex_first_start; CaSign (ex_ca_env 1 "b") "beacon" "csr"]
    (ex_ca_env 2 "") (ex_ca_env 3 "c") (ex_ca_env 3 "") "beacon" "csr2" _ eq_refl eq_refl) as (H1 & _ & H3).
  split; [exact H1|]. eapply H3. reflexivity.
Defined.

Lemma node_identity_stable_witness :
  let s' := (ensure_node_identity (ex_ca_env 5 "n") ex_ca).2 in
  ensure_node_identity (ex_ca_env 9 "m") (ca_run [CaRestart (Ok ()) (ex_ca_env 7 "z")] s') =
  (Ok ("cert(key-n) by key-a", "key-n"), ca_run [CaRestart (Ok ()) (ex_ca_env 7 "z")] s').
Proof.
  apply (node_identity_stable ex_ca (ex_ca_env 5 "n")); reflexivity.
Defined.

Lemma toy_roundtrip (k : string) : keypair_from_pem (keypair_serialize_pem k) = Ok k.
Proof. reflexivity. Qed.

Lemma root_key_survives_restarts_witness :
  ∃ c', ca_state (ca_run [CaRestart (Ok ()) (ex_ca_env 7 "z")] ex_ca) = Some c' ∧
    ca_key_pair c' = "key-a" ∧ subject_cn c' = CA_CN.
Proof.
  eexists. split; [reflexivity|].
  apply (root_key_survives_restarts toy_roundtrip (Ok ()) (ex_ca_env 1000 "a") ex_ca
    (mkCaState CA_CN "cert(key-a)" "key-a") [CaRestart (Ok ()) (ex_ca_env 7 "z")]); reflexivity.
Defined.
