(* ===== verification/MqttClient.v ===== *)
(** * The local MQTT client (src/services/mqtt_client/)

    The client's handle and its commands, the service the supervisor manages, its
    two tasks, and the connection options built from the configuration.  The MQTT
    library is represented by what it answers: the result of a client call, the
    events its event loop yields.  The certificate parsing of rustls is a parameter. *)

From S2P Require Import Prelude RustStr Paths Config Supervisor Ca.
From stdpp Require Import options.

(** ** Data (internals/types.rs) *)

Inductive QoS := AtMostOnce | AtLeastOnce | ExactlyOnce.

#[global] Instance QoS_eq_dec : EqDecision QoS.
Proof. solve_decision. Defined.

Record MqttMessage := mkMqttMessage { msg_topic : string; msg_payload : string }.

#[global] Instance MqttMessage_eq_dec : EqDecision MqttMessage.
Proof. solve_decision. Defined.

Record TopicSubscription := mkTopicSubscription { sub_topic : string; sub_qos : QoS }.

(** A command, without the channel its reply goes to. *)
Inductive MqttCommand :=
| Subscribe (topic : string) (qos : QoS)
| Unsubscribe (topic : string)
| Publish (topic : string) (qos : QoS) (payload : string).

#[global] Instance MqttCommand_eq_dec : EqDecision MqttCommand.
Proof. solve_decision. Defined.

(** ** Commands *)

(** What becomes of a command put on the channel, where the caller hears of it: the task is
    gone, it goes away with the command still queued, or it passes the command to the
    client, which answers.  A caller whose command is never taken, because the client was
    never started or the tasks block each other, does not continue: such waits are the
    subject of [Pipeline]. *)
Inductive CommandFate :=
| TaskGone
| TaskDropped
| TaskAnswers (client : result string ()).

(** The reply of the command task to a command the client answered. *)
Definition run_command (cmd : MqttCommand) (client : result string ()) : result string () :=
  match cmd with
  | Subscribe _ _ => map_err (λ e, "subscribe failed: " +:+ e) client
  | Unsubscribe _ => map_err (λ e, "unsubscribe failed: " +:+ e) client
  | Publish _ _ _ => map_err (λ e, "publish failed: " +:+ e) client
  end.

(** The commands the client accepted, in order. *)
Abbreviation client_log := (list MqttCommand) (only parsing).

Definition request (cmd : MqttCommand) (fate : CommandFate) : st client_log string () := λ log,
  match fate with
  | TaskGone => (Err "mqtt client channel closed", log)
  | TaskDropped => (Err "mqtt client dropped reply", log)
  | TaskAnswers client =>
      (run_command cmd client, match client with Ok _ => log ++ [cmd] | Err _ => log end)
  end.

Definition subscribe (fate : CommandFate) (topic : string) (qos : QoS) : st client_log string () :=
  request (Subscribe topic qos) fate.

Definition unsubscribe (fate : CommandFate) (topic : string) : st client_log string () :=
  request (Unsubscribe topic) fate.

Definition publish (fate : CommandFate) (topic : string) (qos : QoS) (payload : string) : st client_log string () :=
  request (Publish topic qos payload) fate.

Fixpoint subscribe_all (fate : nat → CommandFate) (subs : list TopicSubscription) : st client_log string () :=
  match subs with
  | [] => mret ()
  | sub :: subs =>
      _ ← subscribe (fate 0) (sub_topic sub) (sub_qos sub);
      subscribe_all (λ i, fate (S i)) subs
  end.

Definition required_subscriptions : list TopicSubscription :=
  [mkTopicSubscription "registration" AtLeastOnce; mkTopicSubscription "key-bridge" AtLeastOnce].

(** ** Connection options *)

Section options.
Context {Cert Anchor : Type}.
(** [rustls_pemfile::certs], [RootCertStore::add] and [webpki_roots]. *)
Context (pem_certs : string → list (result string Cert)).
Context (trust_anchor : Cert → result string Anchor).
Context (webpki_roots : list Anchor).

Inductive Transport :=
| Tcp
| Tls (roots : list Anchor)
| TlsClientAuth (ca cert key : string).

Record MqttOptions := mkMqttOptions {
  mo_client_id : string;
  mo_host : string;
  mo_port : Z;
  mo_keep_alive : Z;
  mo_transport : Transport;
  mo_credentials : option (string * string)
}.

Fixpoint add_roots (roots : list Anchor) (certs : list (result string Cert)) : result string (list Anchor) :=
  match certs with
  | [] => Ok roots
  | cert :: certs =>
      cert ← map_err (λ e, "Failed to parse gateway CA: " +:+ e) cert;
      anchor ← map_err (λ e, "Failed to add gateway CA: " +:+ e) (trust_anchor cert);
      add_roots (roots ++ [anchor]) certs
  end.

(** [read] is what [tokio::fs::read] answers for a path. *)
Definition build_server_tls (read : string → result string string) (cafile : option string) : result string Transport :=
  match cafile with
  | Some cafile =>
      pem ← map_err (λ e, "Failed to read gateway CA '" +:+ cafile +:+ "': " +:+ e) (read cafile);
      roots ← add_roots [] (pem_certs pem);
      Ok (Tls roots)
  | None => Ok (Tls webpki_roots)
  end.

Definition build_mqtt_opts (read : string → result string string) (config : MqttClientConfig) : result string MqttOptions :=
  let opts := mkMqttOptions (mc_client_id config) (mc_host config) (mc_port config) 30 in
  let credentials := Some (mc_username config, mc_password config) in
  match mc_tls_mode config with
  | TlsNone => Ok (opts Tcp credentials)
  | ServerOnly =>
      tls ← build_server_tls read (mc_cafile config);
      Ok (opts tls credentials)
  | Mutual =>
      cafile ← ok_or "Mutual TLS requires a CA file" (mc_cafile config);
      certfile ← ok_or "Mutual TLS requires a client cert" (mc_certfile config);
      keyfile ← ok_or "Mutual TLS requires a client key" (mc_keyfile config);
      ca ← map_err (λ e, "Failed to read CA cert '" +:+ cafile +:+ "': " +:+ e) (read cafile);
      cert ← map_err (λ e, "Failed to read client cert '" +:+ certfile +:+ "': " +:+ e) (read certfile);
      key ← map_err (λ e, "Failed to read client key '" +:+ keyfile +:+ "': " +:+ e) (read keyfile);
      Ok (opts (TlsClientAuth ca cert key) None)
  end.

(** ** The service *)

(** The ends of the channels the service holds until it hands them to its tasks;
    a shutdown sender is the number of the task at its other end.  [eventloops] and
    [command_tasks] are the tasks spawned so far and whether each is still to be
    shut down. *)
Record MqttClientService := mkMqttClientService {
  mcs_config : MqttClientConfig;
  cmd_rx : option ();
  shutdown_tx : option nat;
  cmd_shutdown_tx : option nat;
  out_rx : option ();
  connected_tx : option ();
  eventloops : list (MqttOptions * bool);
  command_tasks : list bool
}.

Definition new_mqtt_client (config : MqttClientConfig) : MqttClientService :=
  mkMqttClientService config (Some ()) None None (Some ()) (Some ()) [] [].

Definition take_channels : st MqttClientService string () := λ s,
  match cmd_rx s with
  | None => (Err "MqttClientService command receiver already consumed", s)
  | Some _ =>
      let s := mkMqttClientService (mcs_config s) None (shutdown_tx s) (cmd_shutdown_tx s) (out_rx s)
                 (connected_tx s) (eventloops s) (command_tasks s) in
      match out_rx s with
      | None => (Err "MqttClientService outbound receiver already consumed", s)
      | Some _ =>
          let s := mkMqttClientService (mcs_config s) None (shutdown_tx s) (cmd_shutdown_tx s) None
                     (connected_tx s) (eventloops s) (command_tasks s) in
          match connected_tx s with
          | None => (Err "MqttClientService connected sender already consumed", s)
          | Some _ =>
              (Ok (), mkMqttClientService (mcs_config s) None (shutdown_tx s) (cmd_shutdown_tx s) None
                        None (eventloops s) (command_tasks s))
          end
      end
  end.

(** The file reads a start sees are its environment. *)
Definition mqtt_client_start (read : string → result string string) : st MqttClientService string Z := λ s,
  match shutdown_tx s with
  | Some _ => (Err "MqttClientService is already running", s)
  | None =>
      match take_channels s with
      | (Err e, s) => (Err e, s)
      | (Ok _, s) =>
          match build_mqtt_opts read (mcs_config s) with
          | Err e => (Err e, s)
          | Ok opts =>
              (Ok 0%Z, mkMqttClientService (mcs_config s) (cmd_rx s)
                         (Some (length (eventloops s))) (Some (length (command_tasks s)))
                         (out_rx s) (connected_tx s)
                         (eventloops s ++ [(opts, true)]) (command_tasks s ++ [true]))
          end
      end
  end.

Definition mqtt_client_stop : st MqttClientService string () := λ s,
  match shutdown_tx s with
  | Some i =>
      let loops := alter (λ t, (t.1, false)) i (eventloops s) in
      let cmds := match cmd_shutdown_tx s with
                  | Some j => <[j := false]> (command_tasks s)
                  | None => command_tasks s
                  end in
      (Ok (), mkMqttClientService (mcs_config s) (cmd_rx s) None None (out_rx s) (connected_tx s) loops cmds)
  | None => (Err "MqttClientService is not running", s)
  end.

Definition mqtt_client_is_running (s : MqttClientService) : bool := bool_decide (is_Some (shutdown_tx s)).

#[global] Instance mqtt_client_managed : ManagedService (string → result string string) MqttClientService := {
  ms_start := mqtt_client_start;
  ms_stop _ := mqtt_client_stop;
  ms_is_running _ s := (mqtt_client_is_running s, s)
}.

End options.
Arguments Transport : clear implicits.
Arguments MqttOptions : clear implicits.
Arguments MqttClientService : clear implicits.

(** ** The node's identity (manager.rs) *)

Section identity.
Context {KeyPair Certificate Rand : Type} `{!Rcgen KeyPair Certificate Rand}.

(** Over the CA, whose database may get the identity, and the files. *)
Definition provision_node_identity (fse : FsEnv) (e : CaEnv Rand) (cfg : MqttClientConfig) :
    st (CaService KeyPair Certificate * FS) string () := λ '(ca, fs),
  match mc_certfile cfg with
  | None => (Err "provision_node_identity requires a client cert path", (ca, fs))
  | Some certfile =>
      match mc_keyfile cfg with
      | None => (Err "provision_node_identity requires a client key path", (ca, fs))
      | Some keyfile =>
          match ensure_node_identity e ca with
          | (Err err, ca) => (Err err, (ca, fs))
          | (Ok (cert, key), ca) =>
              let write : st FS string () :=
                _ ← match path_parent certfile with
                    | Some parent => st_map_err (λ e, "Failed to create cert dir: " +:+ e) (fs_run fse (CreateDirAll parent))
                    | None => mret ()
                    end;
                _ ← st_map_err (λ e, "Failed to write node cert: " +:+ e) (fs_run fse (WriteFile certfile cert));
                st_map_err (λ e, "Failed to write node key: " +:+ e) (fs_run fse (WriteFile keyfile key)) in
              let '(r, fs) := write fs in (r, (ca, fs))
          end
      end
  end.

End identity.

(** ** The tasks (tasks.rs) *)

(** What the select loop of the event-loop task can see next.  [queue_open] says
    whether the inbound queue still has its receiver, [accepted] whether the client
    takes the message. *)
Inductive LoopEvent :=
| LShutdown
| LOutbound (m : MqttMessage) (accepted : bool)
| LPublish (m : MqttMessage) (queue_open : bool)
| LConnAck
| LDisconnect
| LOther
| LError.

#[global] Instance LoopEvent_eq_dec : EqDecision LoopEvent.
Proof. solve_decision. Defined.

Record EventLoop := mkEventLoop {
  el_connected_tx : bool;
  el_signals : nat;
  el_forwarded : list MqttMessage;
  el_published : client_log;
  el_slept : Z;
  el_disconnected : bool
}.

Definition new_eventloop : EventLoop := mkEventLoop true 0 [] [] 0 false.

(** One iteration; [false] when the loop is left. *)
Definition eventloop_step (ev : LoopEvent) (l : EventLoop) : bool * EventLoop :=
  match ev with
  | LShutdown =>
      (false, mkEventLoop (el_connected_tx l) (el_signals l) (el_forwarded l) (el_published l) (el_slept l) true)
  | LOutbound m accepted =>
      let out := if accepted : bool then [Publish (msg_topic m) AtLeastOnce (msg_payload m)] else [] in
      (true, mkEventLoop (el_connected_tx l) (el_signals l) (el_forwarded l) (el_published l ++ out)
               (el_slept l) (el_disconnected l))
  | LPublish m queue_open =>
      let fwd := if queue_open : bool then [m] else [] in
      (true, mkEventLoop (el_connected_tx l) (el_signals l) (el_forwarded l ++ fwd) (el_published l)
               (el_slept l) (el_disconnected l))
  | LConnAck =>
      (true, if el_connected_tx l
             then mkEventLoop false (S (el_signals l)) (el_forwarded l) (el_published l) (el_slept l) (el_disconnected l)
             else l)
  | LDisconnect | LOther => (true, l)
  | LError =>
      (true, mkEventLoop (el_connected_tx l) (el_signals l) (el_forwarded l) (el_published l)
               (el_slept l + 5) (el_disconnected l))
  end.

Fixpoint eventloop_task (evs : list LoopEvent) (l : EventLoop) : EventLoop :=
  match evs with
  | [] => l
  | ev :: evs =>
      let '(continue, l) := eventloop_step ev l in
      if continue : bool then eventloop_task evs l else l
  end.

(** The command task sees the shutdown, a command and the client's answer to it, or
    the end of the channel; it sends one reply per command. *)
Inductive CommandEvent :=
| CShutdown
| CCommand (cmd : MqttCommand) (client : result string ())
| CClosed.

Fixpoint command_task (evs : list CommandEvent) (log : client_log) : list (result string ()) * client_log :=
  match evs with
  | [] => ([], log)
  | CShutdown :: _ | CClosed :: _ => ([], log)
  | CCommand cmd client :: evs =>
      let '(r, log) := request cmd (TaskAnswers client) log in
      let '(rs, log) := command_task evs log in
      (r :: rs, log)
  end.

(** ** Proofs *)

(** *** Options *)

Section proofs.
Context {Cert Anchor : Type}.
Context (pem_certs : string → list (result string Cert)).
Context (trust_anchor : Cert → result string Anchor).
Context (webpki_roots : list Anchor).

Abbreviation opts_of := (build_mqtt_opts pem_certs trust_anchor webpki_roots).
Abbreviation start := (mqtt_client_start pem_certs trust_anchor webpki_roots).

Lemma add_roots_Ok roots certs roots' : add_roots trust_anchor roots certs = Ok roots' →
  ∃ added, roots' = roots ++ added ∧
    Forall2 (λ c a, ∃ cert, c = Ok cert ∧ trust_anchor cert = Ok a) certs added.
Proof.
  revert roots; induction certs as [|c certs IH]; intros roots; cbn.
  { intros [= ->]. exists []. by rewrite app_nil_r. }
  destruct c as [cert|]; cbn; [|done]. destruct (trust_anchor cert) as [a|] eqn:Ha; cbn; [|done].
  intros (added & -> & Hadd)%IH. exists (a :: added). rewrite <- app_assoc. split; [done|].
  constructor; eauto.
Qed.

(** The identity given to the broker and the transport are tied as follows: no TLS
    and a password, a verified server and a password, or a client certificate and
    no password. *)
Inductive axes (read : string → result string string) (config : MqttClientConfig) (o : MqttOptions Anchor) : Prop :=
| axes_plain :
    mc_tls_mode config = TlsNone → mo_transport o = Tcp →
    mo_credentials o = Some (mc_username config, mc_password config) → axes read config o
| axes_server roots :
    mc_tls_mode config = ServerOnly → mo_transport o = Tls roots →
    (mc_cafile config = None → roots = webpki_roots) →
    (∀ ca, mc_cafile config = Some ca → ∃ pem, read ca = Ok pem ∧
       Forall2 (λ c a, ∃ cert, c = Ok cert ∧ trust_anchor cert = Ok a) (pem_certs pem) roots) →
    mo_credentials o = Some (mc_username config, mc_password config) → axes read config o
| axes_mutual cafile certfile keyfile ca cert key :
    mc_tls_mode config = Mutual →
    mc_cafile config = Some cafile → mc_certfile config = Some certfile → mc_keyfile config = Some keyfile →
    read cafile = Ok ca → read certfile = Ok cert → read keyfile = Ok key →
    mo_transport o = TlsClientAuth ca cert key → mo_credentials o = None → axes read config o.

(** C31: Options are only ever built with the axes documented for the TLS mode: the
    password goes out in plain text only with TLS off, a verifying TLS transport
    trusts the public roots or exactly the certificates of the configured CA file
    and nothing else, and with client certificates no password is sent; the address
    and client id are the configured ones. *)
Theorem mqtt_opts_axes read config o : opts_of read config = Ok o →
  mo_client_id o = mc_client_id config ∧ mo_host o = mc_host config ∧ mo_port o = mc_port config ∧
  axes read config o.
Proof.
  unfold build_mqtt_opts, build_server_tls. destruct (mc_tls_mode config) eqn:Hmode.
  - intros [= <-]. repeat split. by apply axes_plain.
  - destruct (mc_cafile config) as [ca|] eqn:Hca; cbn.
    + destruct (read ca) as [pem|] eqn:Hread; cbn; [|done].
      destruct (add_roots _ _ _) as [roots|] eqn:Hadd; cbn; [|done]. intros [= <-]. repeat split.
      apply add_roots_Ok in Hadd as (added & -> & Hadd).
      eapply axes_server; [done|done|by rewrite Hca| |done].
      rewrite Hca. intros ? [= <-]. eauto.
    + intros [= <-]. repeat split. eapply axes_server; [done|done|done|by rewrite Hca|done].
  - destruct (mc_cafile config) as [cafile|] eqn:H1; cbn; [|done].
    destruct (mc_certfile config) as [certfile|] eqn:H2; cbn; [|done].
    destruct (mc_keyfile config) as [keyfile|] eqn:H3; cbn; [|done].
    destruct (read cafile) eqn:H4; cbn; [|done].
    destruct (read certfile) eqn:H5; cbn; [|done].
    destruct (read keyfile) eqn:H6; cbn; [|done].
    intros [= <-]. repeat split. by eapply axes_mutual.
Qed.

(** *** The service *)

#[global] Instance mqtt_client_laws : @ManagedServiceLaws _ _ (mqtt_client_managed pem_certs trust_anchor webpki_roots).
Proof.
  refine {| active (s : MqttClientService Anchor) := mqtt_client_is_running s |}.
  - intros read s pid s'. cbn. unfold mqtt_client_start. split_matches; try done. by intros [= <- <-].
  - intros ? s s'. cbn. unfold mqtt_client_stop. case_match; [|done]. by intros [= <-].
  - intros ? s msg s'. cbn. unfold mqtt_client_stop, mqtt_client_is_running.
    destruct (shutdown_tx s); [done|]. by intros [= _ <-].
Defined.

(** The operations, in any order. *)
Inductive ClientOp := DoStart (read : string → result string string) | DoStop.

Definition client_op (op : ClientOp) (s : MqttClientService Anchor) : MqttClientService Anchor :=
  match op with
  | DoStart read => (start read s).2
  | DoStop => (mqtt_client_stop s).2
  end.

Definition client_ops (ops : list ClientOp) (s : MqttClientService Anchor) : MqttClientService Anchor :=
  foldl (λ s op, client_op op s) s ops.

Definition fresh (s : MqttClientService Anchor) : Prop :=
  cmd_rx s = Some () ∧ out_rx s = Some () ∧ connected_tx s = Some () ∧
  shutdown_tx s = None ∧ cmd_shutdown_tx s = None ∧ eventloops s = [] ∧ command_tasks s = [].

(** Not started yet, or the channels are gone; then at most one pair of tasks was
    spawned, and the service holds the shutdown senders exactly while the pair
    runs. *)
Definition client_inv (s : MqttClientService Anchor) : Prop :=
  fresh s ∨
  cmd_rx s = None ∧
  ((∃ o, shutdown_tx s = Some 0 ∧ cmd_shutdown_tx s = Some 0 ∧ eventloops s = [(o, true)] ∧ command_tasks s = [true]) ∨
   shutdown_tx s = None ∧ cmd_shutdown_tx s = None ∧
   (eventloops s = [] ∧ command_tasks s = [] ∨ ∃ o, eventloops s = [(o, false)] ∧ command_tasks s = [false])).

Lemma client_op_inv op s : client_inv s → client_inv (client_op op s).
Proof.
  destruct s as [cfg cr sh csh orx ct els cts]. unfold client_inv, fresh. cbn.
  intros [(-> & -> & -> & -> & -> & -> & ->)|(-> & [(o & -> & -> & -> & ->)|(-> & -> & H)])].
  - destruct op; cbn; [|by left; repeat split]. unfold mqtt_client_start. cbn.
    right. destruct (opts_of read cfg); cbn; split_and!; try done; [left; eauto|right; auto].
  - destruct op; cbn; right; split; try done; [left; eauto|]. right. eauto 8.
  - destruct op; cbn; right; split; try done; right; done.
Qed.

Lemma client_ops_inv ops s : client_inv s → client_inv (client_ops ops s).
Proof. revert s; induction ops as [|op ops IH]; intros s Hs; [done|]. by apply IH, client_op_inv. Qed.

(** Once the command receiver is gone it never comes back. *)
Lemma consumed_stays ops s : cmd_rx s = None → cmd_rx (client_ops ops s) = None.
Proof.
  revert s; induction ops as [|op ops IH]; intros s Hs; [done|]. apply IH.
  destruct op; cbn; unfold mqtt_client_start, take_channels, mqtt_client_stop; rewrite ?Hs; by repeat case_match.
Qed.

Lemma consumed_refuses read s : cmd_rx s = None → ∃ msg, start read s = (Err msg, s).
Proof.
  intros Hs. unfold mqtt_client_start, take_channels. rewrite Hs. case_match; eauto.
Qed.

Lemma fresh_start_consumes read s : fresh s → cmd_rx (start read s).2 = None.
Proof.
  intros (H1 & H2 & H3 & H4 & _).
  unfold mqtt_client_start, take_channels. rewrite H4, H1. cbn. rewrite H2. cbn. rewrite H3. cbn. by case_match.
Qed.

(** C32: The service owns at most one pair of tasks in its whole life, and is running
    exactly while that pair has not been told to shut down; a stop tells both. *)
Theorem mqtt_client_tasks config ops : let s := client_ops ops (new_mqtt_client config) in
  length (eventloops s) ≤ 1 ∧
  (eventloops s).*2 = command_tasks s ∧
  (mqtt_client_is_running s = true ↔ (eventloops s).*2 = [true]).
Proof.
  intros s. assert (client_inv s) as Hinv by (apply client_ops_inv; by left).
  unfold mqtt_client_is_running. rewrite bool_decide_eq_true.
  destruct Hinv as [(? & ? & ? & Hs & ? & He & Hc)|(_ & [(o & Hs & ? & He & Hc)|(Hs & ? & [[He Hc]|(o & He & Hc)])])];
    rewrite He, Hc, Hs; cbn; split_and!; try done; try lia; split; try done; by intros [? ?].
Qed.

(** The client can be started once: after a first start, successful or not, every
    later start is refused, whatever was done in between.  A restart of the service
    through the supervisor therefore always fails. *)
Theorem mqtt_client_starts_once config read ops read' :
  let s := client_ops ops (start read (new_mqtt_client config)).2 in
  ∃ msg, start read' s = (Err msg, s).
Proof. intros s. apply consumed_refuses, consumed_stays, fresh_start_consumes. done. Qed.

End proofs.

(** *** The event loop *)

(** The events the loop gets to see: those before the first shutdown. *)
Fixpoint before_shutdown (evs : list LoopEvent) : list LoopEvent :=
  match evs with
  | [] | LShutdown :: _ => []
  | ev :: evs => ev :: before_shutdown evs
  end.

Definition inbound_of (ev : LoopEvent) : list MqttMessage :=
  match ev with LPublish m true => [m] | _ => [] end.

Definition outbound_of (ev : LoopEvent) : client_log :=
  match ev with LOutbound m true => [Publish (msg_topic m) AtLeastOnce (msg_payload m)] | _ => [] end.

Lemma bool_decide_cons {A} `{!EqDecision A} (x y : A) l :
  bool_decide (x ∈ y :: l) = bool_decide (x = y) || bool_decide (x ∈ l).
Proof. repeat case_bool_decide; set_solver. Qed.

Lemma eventloop_task_spec evs l : let b := before_shutdown evs in let l' := eventloop_task evs l in
  el_forwarded l' = el_forwarded l ++ (b ≫= inbound_of) ∧
  el_published l' = el_published l ++ (b ≫= outbound_of) ∧
  el_signals l' = el_signals l + (if el_connected_tx l && bool_decide (LConnAck ∈ b) then 1 else 0) ∧
  el_disconnected l' = el_disconnected l || bool_decide (LShutdown ∈ evs).
Proof.
  cbn zeta. revert l; induction evs as [|ev evs IH]; intros l.
  { cbn. rewrite !app_nil_r, andb_false_r, orb_false_r, Nat.add_0_r. done. }
  destruct ev as [|m acc|m op| | | |]; cbn [eventloop_task before_shutdown eventloop_step].
  { cbn. rewrite !app_nil_r, andb_false_r, Nat.add_0_r, bool_decide_cons, orb_true_r. done. }
  all: rewrite ?bind_cons, !bool_decide_cons.
  all: match goal with IH : ∀ _ : EventLoop, _ |- context [eventloop_task _ ?l0] => destruct (IH l0) as (-> & -> & -> & ->) end.
  all: repeat match goal with b : bool |- _ => destruct b end; cbn; rewrite ?app_nil_r, <- ?app_assoc; try done.
  destruct (el_connected_tx l) eqn:Hc; cbn; rewrite ?Hc; split_and!; try done; lia.
Qed.

(** C33: While it runs, the event loop forwards every message the broker delivers, in
    order and once, publishes every outbound message the client takes, signals the
    connection on the first ConnAck and never again, and after the shutdown it
    handles nothing more and disconnects. *)
Theorem eventloop_delivers evs : let l := eventloop_task evs new_eventloop in
  let b := before_shutdown evs in
  el_forwarded l = b ≫= inbound_of ∧
  el_published l = b ≫= outbound_of ∧
  el_signals l = (if bool_decide (LConnAck ∈ b) then 1 else 0) ∧
  (el_disconnected l = true ↔ LShutdown ∈ evs).
Proof.
  destruct (eventloop_task_spec evs new_eventloop) as (H1 & H2 & H3 & H4). cbn in *.
  rewrite H4, bool_decide_eq_true. done.
Qed.

(** *** Commands *)

(** The commands before the loop is left, with the client's answers. *)
Fixpoint commands_before (evs : list CommandEvent) : list (MqttCommand * result string ()) :=
  match evs with
  | CCommand cmd a :: evs => (cmd, a) :: commands_before evs
  | _ => []
  end.

(** The replies an iteration over the required topics gets: the first refusal ends
    it, and what was accepted before stays accepted. *)
Fixpoint accepted_prefix (fate : nat → CommandFate) (subs : list TopicSubscription) : list TopicSubscription :=
  match subs with
  | [] => []
  | sub :: subs =>
      match fate 0 with
      | TaskAnswers (Ok _) => sub :: accepted_prefix (λ i, fate (S i)) subs
      | _ => []
      end
  end.

Definition subscribe_cmd (s : TopicSubscription) : MqttCommand := Subscribe (sub_topic s) (sub_qos s).

Lemma subscribe_all_spec fate subs log :
  (subscribe_all fate subs log).2 = log ++ (subscribe_cmd <$> accepted_prefix fate subs) ∧
  (is_ok (subscribe_all fate subs log).1 = true ↔ accepted_prefix fate subs = subs).
Proof.
  revert fate log; induction subs as [|sub subs IH]; intros fate log; cbn; [by rewrite app_nil_r|].
  unfold mbind, st_bind, subscribe, request. destruct (fate 0) as [| |[[]|e]]; cbn; rewrite ?app_nil_r; try done.
  destruct (IH (λ i, fate (S i)) (log ++ [Subscribe (sub_topic sub) (sub_qos sub)])) as [-> ->].
  rewrite <- app_assoc. cbn. split; [done|]. split; congruence.
Qed.

(** Every command gets exactly one reply, in the order the commands came, the
    client's own verdict with the operation's name in front of its error, and the
    broker sees exactly the accepted commands in that order. *)
Theorem command_replies evs log :
  command_task evs log =
  ((λ ca, run_command ca.1 ca.2) <$> commands_before evs,
   log ++ (filter (λ ca, is_ok ca.2 = true) (commands_before evs)).*1).
Proof.
  revert log; induction evs as [|[|cmd a|] evs IH]; intros log; cbn [command_task commands_before];
    rewrite ?app_nil_r; try done.
  cbn. rewrite IH. destruct a; cbn; rewrite <- ?app_assoc; done.
Qed.

(** *** Concrete runs *)

Definition ex_certs (pem : string) : list (result string string) := [Ok pem].
Definition ex_anchor (cert : string) : result string string := Ok cert.
Definition ex_read (path : string) : result string string := Ok ("contents of " +:+ path).
Definition ex_client_config : MqttClientConfig :=
  mkMqttClientConfig "hamlet" "gw.example" 8883 ServerOnly (Some "ca.pem") None None "node" "secret".

Lemma mqtt_opts_axes_witness :
  ∃ o, build_mqtt_opts ex_certs ex_anchor [] ex_read ex_client_config = Ok o ∧
    axes ex_certs ex_anchor [] ex_read ex_client_config o.
Proof. eexists. split; [reflexivity|]. by apply (mqtt_opts_axes ex_certs ex_anchor []). Defined.
