(* ===== verification/Brokerage.v ===== *)
(** * The MQTT broker (src/services/mqtt_brokerage/)

    The Mosquitto child process as a managed service, its accounts through
    [mosquitto_passwd], and the certificate files of the broker and of the devices.
    The operating system is represented by its answers: whether a process could be
    spawned, how waiting for it ended, what a command printed, which addresses the
    interfaces have. *)

From S2P Require Import Prelude RustStr Paths Config Supervisor Ca.
From stdpp Require Import options.

(** ** Local addresses *)

(** The address of one entry of [getifaddrs]. *)
Inductive SockAddr :=
| SinAddr (octets : list Z)
| Sin6Addr (segments : list Z)
| OtherFamily.

Definition is_loopback (ip : IpAddr) : bool :=
  match ip with
  | V4 (a :: _) => (a =? 127)%Z
  | V4 [] => false
  | V6 segments => bool_decide (segments = [0; 0; 0; 0; 0; 0; 0; 1]%Z)
  end.

Definition ip_of_sockaddr (a : SockAddr) : option IpAddr :=
  match a with
  | SinAddr o => Some (V4 o)
  | Sin6Addr s => Some (V6 s)
  | OtherFamily => None
  end.

Definition LOCALHOST : IpAddr := V4 [127; 0; 0; 1]%Z.

(** [ifaddrs] is the list of entries, each with or without an address, or nothing when
    the call fails. *)
Definition get_local_ips (ifaddrs : option (list (option SockAddr))) : list IpAddr :=
  let ips :=
    match ifaddrs with
    | None => []
    | Some l => filter (λ ip, is_loopback ip = false) (omap (λ a, a ≫= ip_of_sockaddr) l)
    end in
  ips ++ [LOCALHOST].

(** ** Certificate files *)

Section files.
Context {KeyPair Certificate Rand : Type} `{!Rcgen KeyPair Certificate Rand}.

Definition broker_san_ips (ifaddrs : option (list (option SockAddr))) (cfg : MqttBrokerageConfig) : list IpAddr :=
  match mb_san_ips cfg with [] => get_local_ips ifaddrs | ips => ips end.

Definition provision_mqtt_broker_cert (fse : FsEnv) (e : CaEnv Rand) (ifaddrs : option (list (option SockAddr)))
    (ca : CaService KeyPair Certificate) (cfg : MqttBrokerageConfig) : st FS string () :=
  _ ← match path_parent (mb_certfile cfg) with
      | Some parent => st_map_err (λ e, "Failed to create broker cert dir: " +:+ e) (fs_run fse (CreateDirAll parent))
      | None => mret ()
      end;
  pem ← st_lift (ca_cert_pem ca);
  _ ← st_map_err (λ e, "Failed to write broker CA cert: " +:+ e) (fs_run fse (WriteFile (mb_cafile cfg) pem));
  let san_ips := broker_san_ips ifaddrs cfg in
  let san_hostnames := "localhost" :: mb_san_hostnames cfg in
  '(cert, key) ← st_lift (generate_broker_cert e san_ips san_hostnames ca);
  _ ← st_map_err (λ e, "Failed to write broker cert: " +:+ e) (fs_run fse (WriteFile (mb_certfile cfg) cert));
  st_map_err (λ e, "Failed to write broker key: " +:+ e) (fs_run fse (WriteFile (mb_keyfile cfg) key)).

End files.

(** [MqttBrokerageHandle::register_cert_identity]; the handle is the configuration it
    shares with the service. *)
Definition register_cert_identity (fse : FsEnv) (config : MqttBrokerageConfig) (hostname pem : string) : st FS string () :=
  certs_dir ← st_lift (ok_or "cafile has no parent directory" (path_parent (mb_cafile config)));
  let cert_path := path_join certs_dir (hostname +:+ ".crt") in
  st_map_err (λ e, "Failed to write device cert '" +:+ cert_path +:+ "': " +:+ e) (fs_run fse (WriteFile cert_path pem)).

(** ** The service *)

(** A child process as the operating system has it: its pid where it is known, whether it has
    not ended, the signals sent to it, and whether its handle kills it when dropped. *)
Inductive Signal := SIGTERM | SIGKILL.

Record Process := mkProcess {
  proc_pid : option Z;
  proc_alive : bool;
  proc_signals : list Signal;
  proc_kill_on_drop : bool
}.

(** The processes spawned so far, in order; the child held is the number of one. *)
Record MosquittoBrokerageService := mkMosquitto {
  binary_path : string;
  password_binary : option string;
  mosq_config : MqttBrokerageConfig;
  child : option nat;
  processes : list Process
}.

Definition new_mosquitto (bin : string) (passwd : option string) (config : MqttBrokerageConfig) : MosquittoBrokerageService :=
  mkMosquitto bin passwd config None [].

Definition set_child (c : option nat) (ps : list Process) (s : MosquittoBrokerageService) : MosquittoBrokerageService :=
  mkMosquitto (binary_path s) (password_binary s) (mosq_config s) c ps.

(** *** Accounts *)

Record Output := mkOutput { out_success : bool; out_stderr : string }.

(** The commands run so far. *)
Abbreviation command_log := (list (list string)) (only parsing).

Definition run_passwd (output : result string Output) (argv : list string) : st command_log string () := λ log,
  let log := log ++ [argv] in
  match output with
  | Err e => (Err ("Failed to run mosquitto_passwd: " +:+ e), log)
  | Ok o =>
      if out_success o then (Ok (), log)
      else (Err ("mosquitto_passwd failed: " +:+ from_utf8_lossy (out_stderr o)), log)
  end.

(** [exists_] is the answer of [password_file.exists()]. *)
Definition set_password (exists_ : bool) (output : result string Output) (s : MosquittoBrokerageService)
    (username password : string) : st command_log string () :=
  passwd_bin ← st_lift (ok_or "mosquitto_passwd is not installed" (password_binary s));
  let password_file := mb_password_file (mosq_config s) in
  if negb exists_
  then run_passwd output [passwd_bin; "-c"; "-b"; password_file; username; password]
  else run_passwd output [passwd_bin; "-b"; password_file; username; password].

Definition delete_user (exists_ : bool) (output : result string Output) (s : MosquittoBrokerageService)
    (username : string) : st command_log string () :=
  passwd_bin ← st_lift (ok_or "mosquitto_passwd is not installed" (password_binary s));
  let password_file := mb_password_file (mosq_config s) in
  if negb exists_ then st_lift (Err "Password file does not exist")
  else run_passwd output [passwd_bin; "-D"; password_file; username].

(** *** The child process *)

(** No process survives SIGKILL; what SIGTERM does is up to the process. *)
Definition deliver (sig : Signal) (p : Process) : Process :=
  mkProcess (proc_pid p) (match sig with SIGKILL => false | SIGTERM => proc_alive p end) (proc_signals p ++ [sig]) (proc_kill_on_drop p).

(** The process ends by itself. *)
Definition exit_process (p : Process) : Process := mkProcess (proc_pid p) false (proc_signals p) (proc_kill_on_drop p).

(** The handle of a process that was not waited for is dropped. *)
Definition drop_child (p : Process) : Process := if proc_kill_on_drop p then deliver SIGKILL p else p.

(** How the five seconds after SIGTERM end. *)
Inductive WaitOutcome := Exited | WaitError | TimedOut.

(** The spawned child's pid, how the wait ends, whether [child.kill()] succeeds and whether
    [try_wait] fails. *)
Record MosquittoEnv := mkMosquittoEnv {
  me_config_exists : bool;
  me_spawn : result string (option Z);
  me_wait : WaitOutcome;
  me_kill : result string ();
  me_try_wait_error : option string
}.

(** Waiting for a process that has ended does not time out. *)
Definition wait_outcome (e : MosquittoEnv) (p : Process) : WaitOutcome :=
  match me_wait e with
  | TimedOut => if proc_alive p then TimedOut else Exited
  | w => w
  end.

Definition mosquitto_start (e : MosquittoEnv) : st MosquittoBrokerageService string Z := λ s,
  match child s with
  | Some _ => (Err "Mosquitto is already running", s)
  | None =>
      if negb (me_config_exists e)
      then (Err ("Config file not found at " +:+ mb_config_file (mosq_config s) +:+ ". Call write_config() first."), s)
      else
        match me_spawn e with
        | Err err => (Err ("Failed to spawn mosquitto: " +:+ err), s)
        | Ok None => (Err "Failed to get mosquitto PID", set_child None (processes s ++ [drop_child (mkProcess None true [] true)]) s)
        | Ok (Some pid) => (Ok pid, set_child (Some (length (processes s))) (processes s ++ [mkProcess (Some pid) true [] true]) s)
        end
  end.

(** What [stop] does to the process: SIGTERM, at most five seconds, then [child.kill()]; a
    child whose wait or kill failed is dropped without having been waited for. *)
Definition stop_process (e : MosquittoEnv) (p : Process) : Process :=
  let p := deliver SIGTERM p in
  match wait_outcome e p with
  | Exited => exit_process p
  | WaitError => drop_child p
  | TimedOut =>
      match me_kill e with
      | Ok _ => deliver SIGKILL p
      | Err _ => drop_child p
      end
  end.

Definition mosquitto_stop (e : MosquittoEnv) : st MosquittoBrokerageService string () := λ s,
  match child s with
  | Some i => (Ok (), set_child None (alter (stop_process e) i (processes s)) s)
  | None => (Err "Mosquitto is not running", s)
  end.

Definition mosquitto_is_running (e : MosquittoEnv) (s : MosquittoBrokerageService) : bool * MosquittoBrokerageService :=
  match child s with
  | None => (false, s)
  | Some i =>
      match me_try_wait_error e, proc_alive <$> processes s !! i with
      | Some _, _ => (false, s)
      | None, Some true => (true, s)
      | None, _ => (false, set_child None (processes s) s)
      end
  end.

(** The service is dropped, as at the end of the program, and its child with it. *)
Definition mosquitto_drop (s : MosquittoBrokerageService) : list Process :=
  match child s with Some i => alter drop_child i (processes s) | None => processes s end.

#[global] Instance mosquitto_managed : ManagedService MosquittoEnv MosquittoBrokerageService := {
  ms_start := mosquitto_start;
  ms_stop := mosquitto_stop;
  ms_is_running := mosquitto_is_running
}.

#[global] Instance mosquitto_laws : ManagedServiceLaws MosquittoEnv MosquittoBrokerageService.
Proof.
  refine {| active s := bool_decide (is_Some (child s)) |}.
  - intros e s pid s'. cbn. unfold mosquitto_start. repeat case_match; intros [= <- <-]. done.
  - intros e s s'. cbn. unfold mosquitto_stop. repeat case_match; intros [= <-]; done.
  - intros e s msg s'. cbn. unfold mosquitto_stop. destruct (child s) eqn:Hc; [by repeat case_match|].
    by intros [= _ <-].
Defined.

(** ** Proofs *)

(** *** One broker process *)

(** Calls on the service, and a process that ends by itself. *)
Inductive MosqOp := MStart (e : MosquittoEnv) | MStop (e : MosquittoEnv) | MProbe (e : MosquittoEnv) | MDies (i : nat).

Definition mosq_op (op : MosqOp) (s : MosquittoBrokerageService) : MosquittoBrokerageService :=
  match op with
  | MStart e => (mosquitto_start e s).2
  | MStop e => (mosquitto_stop e s).2
  | MProbe e => (mosquitto_is_running e s).2
  | MDies i => set_child (child s) (alter exit_process i (processes s)) s
  end.

Definition mosq_ops (ops : list MosqOp) (s : MosquittoBrokerageService) : MosquittoBrokerageService :=
  foldl (λ s op, mosq_op op s) s ops.

(** A process that has not ended is the child held, which no signal was sent to; and every
    handle kills its process when dropped. *)
Record only_child (s : MosquittoBrokerageService) : Prop := {
  oc_alive : ∀ i p, processes s !! i = Some p → proc_alive p = true → child s = Some i;
  oc_child : ∀ i, child s = Some i → ∃ p, processes s !! i = Some p ∧ proc_signals p = [];
  oc_kill : ∀ i p, processes s !! i = Some p → proc_kill_on_drop p = true
}.

Lemma new_mosquitto_only bin pw cfg : only_child (new_mosquitto bin pw cfg).
Proof. by split. Qed.

(** What becomes of a process that is stopped or whose handle is dropped. *)
Lemma stop_process_spec e p : proc_kill_on_drop p = true →
  proc_alive (stop_process e p) = false ∧ proc_kill_on_drop (stop_process e p) = true ∧
  proc_signals (stop_process e p) = proc_signals p ++ match wait_outcome e p with Exited => [SIGTERM] | _ => [SIGTERM; SIGKILL] end.
Proof.
  intros Hk. unfold stop_process, wait_outcome, drop_child. destruct p as [pid alive sigs kod]. cbn in *. subst kod.
  destruct (me_wait e), alive; cbn; try destruct (me_kill e); cbn; split_and!; by rewrite <- ?app_assoc.
Qed.

(** A process is spawned, and held or ended at once. *)
Lemma only_child_spawn s p c : only_child s → child s = None → proc_kill_on_drop p = true →
  (c = None ∧ proc_alive p = false ∨ c = Some (length (processes s)) ∧ proc_signals p = []) →
  only_child (set_child c (processes s ++ [p]) s).
Proof.
  intros [H1 H2 H3] Hc Hk Hp. split; cbn.
  - intros i q [Hi|[-> ->]]%lookup_snoc_Some Ha; [destruct Hi as [_ Hi]; specialize (H1 _ _ Hi Ha); congruence|].
    destruct Hp as [[_ ?]|[-> _]]; [congruence|done].
  - intros i ->. destruct Hp as [[? _]|[[= ->] Hs]]; [done|]. exists p. split; [|done]. apply lookup_snoc_Some. by right.
  - intros i q [[_ Hi]|[-> <-]]%lookup_snoc_Some; [by eapply H3|done].
Qed.

(** The child held ends and is given up. *)
Lemma only_child_end s i f : only_child s → child s = Some i →
  (∀ p, proc_kill_on_drop p = true → proc_alive (f p) = false ∧ proc_kill_on_drop (f p) = true) →
  only_child (set_child None (alter f i (processes s)) s).
Proof.
  intros [H1 H2 H3] Hc Hf. split; cbn; [|done|].
  - intros j q (p & Hp & [[Hne ->]|[-> ->]])%alter_lookup_inv Ha; [rewrite (H1 _ _ Hp Ha) in Hc; congruence|].
    destruct (Hf p (H3 _ _ Hp)). congruence.
  - intros j q (p & Hp & [[_ ->]|[_ ->]])%alter_lookup_inv; [by eapply H3|]. by apply Hf, (H3 j).
Qed.

Lemma only_child_dies s i : only_child s → only_child (set_child (child s) (alter exit_process i (processes s)) s).
Proof.
  intros [H1 H2 H3]. split; cbn.
  - intros j q (p & Hp & [[_ ->]|[_ ->]])%alter_lookup_inv Ha; [by eapply H1|done].
  - intros j (p & Hp & Hs)%H2. rewrite list_lookup_alter. case_decide; [subst; rewrite Hp; cbn; eauto|eauto].
  - intros j q (p & Hp & [[_ ->]|[_ ->]])%alter_lookup_inv; [by eapply H3|]. exact (H3 _ _ Hp).
Qed.

Lemma only_child_probe s i p : only_child s → child s = Some i → processes s !! i = Some p → proc_alive p = false →
  only_child (set_child None (processes s) s).
Proof.
  intros [H1 H2 H3] Hc Hp Ha. split; cbn; [|done|done]. intros j q Hq Hq'. specialize (H1 _ _ Hq Hq'). congruence.
Qed.

Lemma mosq_op_only_child op s : only_child s → only_child (mosq_op op s).
Proof.
  intros Hs. destruct op as [e|e|e|i]; cbn; unfold mosquitto_start, mosquitto_stop, mosquitto_is_running; [..|by apply only_child_dies].
  - destruct (child s) eqn:Hc; [done|]. destruct (negb _); [done|]. destruct (me_spawn e) as [[pid|]|]; [..|done];
      (apply only_child_spawn; [done..|auto]).
  - destruct (child s) as [i|] eqn:Hc; [|done]. apply only_child_end; [done..|].
    intros p Hk. by destruct (stop_process_spec e p Hk) as (? & ? & _).
  - destruct (child s) as [i|] eqn:Hc; [|done]. destruct (me_try_wait_error e); [done|].
    destruct (oc_child _ Hs i Hc) as (p & Hp & _). rewrite Hp. cbn. destruct (proc_alive p) eqn:Ha; [done|].
    by eapply only_child_probe.
Qed.

Lemma mosq_ops_only_child bin passwd config ops : only_child (mosq_ops ops (new_mosquitto bin passwd config)).
Proof.
  unfold mosq_ops. generalize (new_mosquitto_only bin passwd config). generalize (new_mosquitto bin passwd config).
  induction ops as [|op ops IH]; intros s0 H0; [done|]. by apply IH, mosq_op_only_child.
Qed.

(** No process has not ended. *)
Definition all_ended (ps : list Process) : Prop := ∀ i p, ps !! i = Some p → proc_alive p = false.

Lemma only_child_ended s i f : only_child s → child s = Some i →
  (∀ p, proc_kill_on_drop p = true → proc_alive (f p) = false) → all_ended (alter f i (processes s)).
Proof.
  intros [H1 _ H3] Hc Hf j q (p & Hp & [[Hne ->]|[_ ->]])%alter_lookup_inv; [|by apply Hf, (H3 j)].
  destruct (proc_alive p) eqn:Ha; [|done]. specialize (H1 _ _ Hp Ha). congruence.
Qed.

Lemma stop_all_ended e s : only_child s → all_ended (processes (mosquitto_stop e s).2).
Proof.
  intros Hs. unfold mosquitto_stop. destruct (child s) as [i|] eqn:Hc.
  - apply only_child_ended; [done..|]. intros p Hk. apply (stop_process_spec e p Hk).
  - intros j p Hp. destruct (proc_alive p) eqn:Ha; [|done]. pose proof (oc_alive _ Hs _ _ Hp Ha). cbn in *. congruence.
Qed.

(** C34: However starts, stops, liveness checks and crashes of Mosquitto follow each other, the
    only process that can be running is the child the service holds, so no start leaves a
    second broker behind; the liveness check, when it can ask, tells whether that process
    runs; after a stop, or when the service is dropped, no process it ever spawned runs,
    however waiting and killing end; and a stop first sends SIGTERM, and SIGKILL only when
    the process was not seen to end within the five seconds. *)
Theorem one_broker_process bin passwd config ops : let s := mosq_ops ops (new_mosquitto bin passwd config) in
  (∀ i p, processes s !! i = Some p → proc_alive p = true → child s = Some i) ∧
  (∀ e, me_try_wait_error e = None →
     (mosquitto_is_running e s).1 = true ↔ ∃ i p, processes s !! i = Some p ∧ proc_alive p = true) ∧
  (∀ e, all_ended (processes (mosquitto_stop e s).2)) ∧ all_ended (mosquitto_drop s) ∧
  (∀ e i p, child s = Some i → processes s !! i = Some p →
     proc_signals <$> processes (mosquitto_stop e s).2 !! i =
     Some match wait_outcome e p with Exited => [SIGTERM] | WaitError | TimedOut => [SIGTERM; SIGKILL] end).
Proof.
  intros s. pose proof (mosq_ops_only_child bin passwd config ops : only_child s) as Hs. split_and!.
  - apply Hs.
  - intros e He. unfold mosquitto_is_running. rewrite He. destruct (child s) as [i|] eqn:Hc; cbn.
    + destruct (oc_child _ Hs i Hc) as (p & Hp & _). rewrite Hp. cbn. destruct (proc_alive p) eqn:Ha; cbn; [by split; eauto|]. split; [done|].
      intros (j & q & Hq & Hq'). pose proof (oc_alive _ Hs _ _ Hq Hq'). congruence.
    + split; [done|]. intros (j & q & Hq & Hq'). pose proof (oc_alive _ Hs _ _ Hq Hq'). congruence.
  - intros e. by apply stop_all_ended.
  - unfold mosquitto_drop. destruct (child s) as [i|] eqn:Hc.
    + apply only_child_ended; [done..|]. intros p Hk. unfold drop_child. by rewrite Hk.
    + intros j p Hp. destruct (proc_alive p) eqn:Ha; [|done]. pose proof (oc_alive _ Hs _ _ Hp Ha). congruence.
  - intros e i p Hc Hp. unfold mosquitto_stop. rewrite Hc. cbn. rewrite list_lookup_alter_eq, Hp. cbn.
    destruct (stop_process_spec e p (oc_kill _ Hs _ _ Hp)) as (_ & _ & ->).
    destruct (oc_child _ Hs i Hc) as (p' & Hp' & Hsig). simplify_eq. rewrite Hsig. by destruct (wait_outcome e p).
Qed.

(** A crash goes unnoticed: after the child held has ended by itself, every start is still
    refused as if it ran, until a stop or a liveness check; and nothing in the program asks
    for the latter. *)
Theorem crash_blocks_start bin passwd config ops i e : let s := mosq_ops ops (new_mosquitto bin passwd config) in
  child s = Some i →
  let s' := mosq_op (MDies i) s in
  all_ended (processes s') ∧ mosquitto_start e s' = (Err "Mosquitto is already running", s').
Proof.
  intros s Hc s'. pose proof (mosq_ops_only_child bin passwd config ops : only_child s) as Hs. split.
  - by apply only_child_ended.
  - unfold mosquitto_start, s'. cbn. by rewrite Hc.
Qed.

(** *** Files *)

Section broker_files.
Context {KeyPair Certificate Rand : Type} `{!Rcgen KeyPair Certificate Rand}.

(** C35: A successful provisioning of three different paths leaves files that fit together: the CA file holds
    the CA's certificate, and certificate and key file hold the two halves of one
    identity that this CA signed, valid at least for [localhost] and, when no addresses
    are configured, for 127.0.0.1. *)
Theorem broker_cert_provisioned fse (e : CaEnv Rand) ifaddrs (ca : CaService KeyPair Certificate) cfg fs fs' :
  provision_mqtt_broker_cert fse e ifaddrs ca cfg fs = (Ok (), fs') →
  mb_cafile cfg ≠ mb_certfile cfg → mb_cafile cfg ≠ mb_keyfile cfg → mb_certfile cfg ≠ mb_keyfile cfg →
  ∃ c key cert san_ips names,
    ca_state ca = Some c ∧
    keypair_generate (ce_rand e) = Ok key ∧
    signed_by (ce_rand' e) (broker_params san_ips names) key (ca_cert c) (ca_key_pair c) = Ok cert ∧
    files fs' !! mb_cafile cfg = Some (cert_pem (ca_cert c)) ∧
    files fs' !! mb_certfile cfg = Some (cert_pem cert) ∧
    files fs' !! mb_keyfile cfg = Some (keypair_serialize_pem key) ∧
    SanDnsName "localhost" ∈ subject_alt_names (broker_params san_ips names) ∧
    (mb_san_ips cfg = [] → SanIpAddress LOCALHOST ∈ subject_alt_names (broker_params san_ips names)).
Proof.
  unfold provision_mqtt_broker_cert. intros Hp H1 H2 H3.
  apply st_bind_Ok in Hp as (_ & fs1 & _ & Hp).
  apply st_bind_Ok in Hp as (pem & fs2 & [Hpem ->]%st_lift_Ok & Hp).
  apply st_bind_Ok in Hp as ([] & fs3 & ->%st_map_err_Ok%fs_run_Ok & Hp).
  apply st_bind_Ok in Hp as ([cert key] & fs4 & [Hgen ->]%st_lift_Ok & Hp).
  apply st_bind_Ok in Hp as ([] & fs5 & ->%st_map_err_Ok%fs_run_Ok & ->%st_map_err_Ok%fs_run_Ok).
  unfold ca_cert_pem in Hpem. unfold generate_broker_cert in Hgen. destruct (ca_state ca) as [c|]; [|done].
  injection Hpem as <-. unfold generate_broker_identity, mbind, result_bind in Hgen.
  destruct (keypair_generate (ce_rand e)) as [k|]; cbn in Hgen; [|done].
  destruct (signed_by _ _ _ _ _) as [c'|] eqn:Hs; cbn in Hgen; [|done]. injection Hgen as <- <-.
  exists c, k, c', (broker_san_ips ifaddrs cfg), ("localhost" :: mb_san_hostnames cfg).
  split_and!; try done; cbn [fs_apply files]; [by simplify_map_eq..| |].
  - apply elem_of_app. right. apply list_elem_of_fmap_2, list_elem_of_filter. split; [done|]. by left.
  - intros Hips. apply elem_of_app. left. apply list_elem_of_fmap_2. unfold broker_san_ips. rewrite Hips.
    apply elem_of_app. right. by apply list_elem_of_singleton.
Qed.

End broker_files.

(** A device is free to name itself after the CA file: with the CA certificate stored
    as [ca.crt], the handshake of a device called [ca] replaces it with the device's
    own certificate. *)
Theorem device_named_ca_replaces_ca fse config dir pem fs :
  path_parent (mb_cafile config) = Some dir → mb_cafile config = path_join dir "ca.crt" →
  fs_error fse (WriteFile (mb_cafile config) pem) = None →
  ∃ fs', register_cert_identity fse config "ca" pem fs = (Ok (), fs') ∧
    files fs' !! mb_cafile config = Some pem.
Proof.
  intros Hdir Hca Herr. unfold register_cert_identity. rewrite Hdir.
  unfold mbind, st_bind, st_lift, ok_or. change ("ca" +:+ ".crt") with "ca.crt". rewrite <- Hca.
  unfold st_map_err, fs_run. rewrite Herr. eexists. split; [done|].
  cbn. by rewrite lookup_insert_eq.
Qed.

(** *** Concrete runs *)

Definition ex_broker_config : MqttBrokerageConfig := MqttBrokerageConfig_from_env no_env "/home/pi/.config/hamlet".

Definition ex_provision : result string () * FS :=
  @provision_mqtt_broker_cert _ _ _ toy_rcgen fs_healthy (ex_ca_env 1 "b") None ex_ca ex_broker_config (mkFS ∅ ∅).

Lemma broker_cert_provisioned_witness :
  ex_provision.1 = Ok () ∧ ∃ cert, files ex_provision.2 !! mb_certfile ex_broker_config = Some cert.
Proof.
  assert (ex_provision = (Ok (), ex_provision.2)) as Hp by (vm_compute; reflexivity).
  split; [rewrite Hp; reflexivity|].
  destruct (@broker_cert_provisioned _ _ _ toy_rcgen fs_healthy (ex_ca_env 1 "b") None ex_ca ex_broker_config (mkFS ∅ ∅) _ Hp)
    as (c & key & cert & ips & names & _ & _ & _ & _ & Hc & _); [by vm_compute..|].
  exists cert. exact Hc.
Defined.

Lemma device_named_ca_replaces_ca_witness :
  ∃ fs', register_cert_identity fs_healthy ex_broker_config "ca" "device cert" (mkFS ∅ ∅) = (Ok (), fs') ∧
    files fs' !! "/home/pi/.config/hamlet/certs/ca.crt" = Some "device cert".
Proof.
  apply (device_named_ca_replaces_ca fs_healthy ex_broker_config "/home/pi/.config/hamlet/certs"); reflexivity.
Defined.

Definition ex_mosq_env : MosquittoEnv := mkMosquittoEnv true (Ok (Some 77%Z)) TimedOut (Err "no such process") None.

Lemma crash_blocks_start_witness :
  let s := mosq_op (MDies 0) (mosq_ops [MStart ex_mosq_env] (new_mosquitto "mosquitto" None ex_broker_config)) in
  all_ended (processes s) ∧ mosquitto_start ex_mosq_env s = (Err "Mosquitto is already running", s).
Proof. apply (crash_blocks_start "mosquitto" None ex_broker_config [MStart ex_mosq_env] 0 ex_mosq_env). reflexivity. Defined.
