(* ===== verification/Json.v ===== *)
(** * JSON values

    [serde_json::Value] and its accessors.  A number is kept as its text.  An object
    is the list of its entries; serde_json's map has each key once.  Parsing text is
    serde_json's own work, and a class here. *)

From S2P Require Import Prelude RustStr.
From stdpp Require Import options.

#[local] Set Warnings "-register-all".

Inductive Json :=
| JNull
| JBool (b : bool)
| JNumber (repr : string)
| JString (s : string)
| JArray (items : list Json)
| JObject (entries : list (string * Json)).

(** [Map::get] *)
Fixpoint map_get (key : string) (entries : list (string * Json)) : option Json :=
  match entries with
  | [] => None
  | (k, v) :: entries => if decide (k = key) then Some v else map_get key entries
  end.

Definition as_object (v : Json) : option (list (string * Json)) :=
  match v with JObject m => Some m | _ => None end.

Definition as_str (v : Json) : option string :=
  match v with JString s => Some s | _ => None end.

Definition as_bool (v : Json) : option bool :=
  match v with JBool b => Some b | _ => None end.

(** [serde_json::from_slice::<Value>]: nothing for text that is not JSON. *)
Class JsonText := from_slice : string → option Json.

(** A required string field of a struct. *)
Definition str_field (key : string) (m : list (string * Json)) : option string :=
  map_get key m ≫= as_str.

(** A struct is read from an object, or from an array with its fields in order. *)
Definition struct_field (arity i : nat) (key : string) (v : Json) : option Json :=
  match v with
  | JObject m => map_get key m
  | JArray items => if decide (length items = arity) then items !! i else None
  | _ => None
  end.

Definition as_u16 (v : Json) : option Z :=
  match v with JNumber repr => parse_uint u16_max repr | _ => None end.
