(* ===== verification/CloudGateway.v ===== *)
(** * The cloud gateway over WebSocket (src/services/cloud_gateway/)

    The frames exchanged with a gateway, the address derived from its URL, the
    managed service, and the connection task that [connect_to_gateway] spawns for
    every gateway a beacon advertises.  What the network does is the sequence of
    events the task meets. *)

From S2P Require Import Prelude RustStr Supervisor Json.
From stdpp Require Import options.

(** ** Frames (messages.rs) *)

Inductive GatewayMessage :=
| Register (server_url : string)
| Connect (target : string)
| ConnectRequest (from : string)
| BeaconRegistration (server_url : string) (payload : Json)
| Relay (from to : string) (payload : Json)
| Ack (ok : bool) (message : option string).

(** The derived serialisation: an object tagged with the variant in snake case. *)
Definition message_to_json (m : GatewayMessage) : Json :=
  match m with
  | Register server_url => JObject [("type", JString "register"); ("server_url", JString server_url)]
  | Connect target => JObject [("type", JString "connect"); ("target", JString target)]
  | ConnectRequest from => JObject [("type", JString "connect_request"); ("from", JString from)]
  | BeaconRegistration server_url payload =>
      JObject [("type", JString "beacon_registration"); ("server_url", JString server_url); ("payload", payload)]
  | Relay from to payload =>
      JObject [("type", JString "relay"); ("from", JString from); ("to", JString to); ("payload", payload)]
  | Ack ok message =>
      JObject ([("type", JString "ack"); ("ok", JBool ok)] ++
               match message with Some s => [("message", JString s)] | None => [] end)
  end.

(** The derived parser, on a value: missing and ill-typed fields are errors, unknown
    ones are ignored, and an absent or null [message] is [None]. *)
Definition message_from_json (v : Json) : option GatewayMessage :=
  m ← as_object v;
  tag ← str_field "type" m;
  if decide (tag = "register") then Register <$> str_field "server_url" m
  else if decide (tag = "connect") then Connect <$> str_field "target" m
  else if decide (tag = "connect_request") then ConnectRequest <$> str_field "from" m
  else if decide (tag = "beacon_registration") then
    url ← str_field "server_url" m; payload ← map_get "payload" m; Some (BeaconRegistration url payload)
  else if decide (tag = "relay") then
    from ← str_field "from" m; to ← str_field "to" m; payload ← map_get "payload" m; Some (Relay from to payload)
  else if decide (tag = "ack") then
    ok ← map_get "ok" m ≫= as_bool;
    match map_get "message" m with
    | None | Some JNull => Some (Ack ok None)
    | Some v => (λ s, Ack ok (Some s)) <$> as_str v
    end
  else None.

(** ** Addresses *)

Definition compute_ws_url (gateway_url : string) : string :=
  let base := trim_end_matches "/" gateway_url in
  let base :=
    if starts_with "https://" base then replacen1 "https://" "wss://" base
    else if starts_with "http://" base then replacen1 "http://" "ws://" base
    else base in
  if ends_with "/ws" base then base else base +:+ "/ws".

(** ** Inbound frames *)

(** What [handle_inbound] writes to the log. *)
Inductive InboundLog :=
| LogConnectRequest (from : string)
| LogRelay (from : string)
| LogAckOk
| LogAckError (message : option string)
| LogUnexpected (m : GatewayMessage)
| LogUnparsable (raw : string).

Definition handle_inbound `{!JsonText} (text : string) : InboundLog :=
  match from_slice text ≫= message_from_json with
  | Some (ConnectRequest from) => LogConnectRequest from
  | Some (Relay from _ _) => LogRelay from
  | Some (Ack ok message) => if ok then LogAckOk else LogAckError message
  | Some other => LogUnexpected other
  | None => LogUnparsable text
  end.

(** ** The connection task *)

Definition OUTBOUND_CAPACITY : nat := 64.
Definition INITIAL_RECONNECT_DELAY : Z := 2.
Definition MAX_RECONNECT_DELAY : Z := 60.

(** What the task puts on a connection. *)
Inductive Frame :=
| FMessage (m : GatewayMessage)
| FPong (data : string)
| FClose.

(** Where the task waits: in the connect select, in the select of an open connection,
    or nowhere any more. *)
Inductive TaskPhase := Connecting | Online | Ended.

#[global] Instance TaskPhase_eq_dec : EqDecision TaskPhase.
Proof. solve_decision. Defined.

(** The task: its phase and delay, the messages queued for it, the connections so
    far, each with the frames put on it, the messages taken from the queue and
    whether each was put on a connection, and the delays it slept. *)
Record ConnTask := mkConnTask {
  ct_server_url : string;
  ct_phase : TaskPhase;
  ct_delay : Z;
  ct_queue : list GatewayMessage;
  ct_connections : list (list Frame);
  ct_taken : list (GatewayMessage * bool);
  ct_slept : list Z;
  ct_inbound : list InboundLog
}.

Definition new_task (server_url : string) : ConnTask :=
  mkConnTask server_url Connecting INITIAL_RECONNECT_DELAY [] [] [] [] [].

(** What can become ready next. *)
Inductive NetEvent :=
| EvShutdown
| EvQueued (m : GatewayMessage)
| EvConnectFailed
| EvConnected (register_sent : bool)
| EvOutbound (sent : bool)
| EvText (text : string)
| EvPing (data : string)
| EvClosed
| EvStreamError
| EvOtherFrame.

(** Sleep for the current delay, double it up to the maximum, and connect again. *)
Definition back_off (t : ConnTask) : ConnTask :=
  mkConnTask (ct_server_url t) Connecting (Z.min (ct_delay t * 2) MAX_RECONNECT_DELAY) (ct_queue t)
    (ct_connections t) (ct_taken t) (ct_slept t ++ [ct_delay t]) (ct_inbound t).

Definition add_frame (f : Frame) (t : ConnTask) : ConnTask :=
  mkConnTask (ct_server_url t) (ct_phase t) (ct_delay t) (ct_queue t)
    (match ct_connections t with [] => [] | c :: cs => (c ++ [f]) :: cs end)
    (ct_taken t) (ct_slept t) (ct_inbound t).

Definition set_phase (p : TaskPhase) (t : ConnTask) : ConnTask :=
  mkConnTask (ct_server_url t) p (ct_delay t) (ct_queue t) (ct_connections t) (ct_taken t) (ct_slept t) (ct_inbound t).

(** A new connection, the latest one first; the delay starts over. *)
Definition open_connection (t : ConnTask) : ConnTask :=
  mkConnTask (ct_server_url t) (ct_phase t) INITIAL_RECONNECT_DELAY (ct_queue t) ([] :: ct_connections t)
    (ct_taken t) (ct_slept t) (ct_inbound t).

Definition enqueue (m : GatewayMessage) (t : ConnTask) : ConnTask :=
  mkConnTask (ct_server_url t) (ct_phase t) (ct_delay t) (ct_queue t ++ [m]) (ct_connections t) (ct_taken t)
    (ct_slept t) (ct_inbound t).

Definition take_outbound (m : GatewayMessage) (rest : list GatewayMessage) (sent : bool) (t : ConnTask) : ConnTask :=
  mkConnTask (ct_server_url t) (ct_phase t) (ct_delay t) rest (ct_connections t) (ct_taken t ++ [(m, sent)])
    (ct_slept t) (ct_inbound t).

Definition log_inbound (l : InboundLog) (t : ConnTask) : ConnTask :=
  mkConnTask (ct_server_url t) (ct_phase t) (ct_delay t) (ct_queue t) (ct_connections t) (ct_taken t)
    (ct_slept t) (ct_inbound t ++ [l]).

(** One event of the task; an event that the task does not wait for in its phase is not
    a step.  Serialising a frame does not fail. *)
Definition task_step `{!JsonText} (ev : NetEvent) (t : ConnTask) : option ConnTask :=
  match ct_phase t, ev with
  | Ended, _ => None
  | _, EvQueued m => if decide (length (ct_queue t) < OUTBOUND_CAPACITY) then Some (enqueue m t) else None
  | Connecting, EvShutdown => Some (set_phase Ended t)
  | Connecting, EvConnectFailed => Some (back_off t)
  | Connecting, EvConnected register_sent =>
      let t := open_connection t in
      if register_sent : bool
      then Some (set_phase Online (add_frame (FMessage (Register (ct_server_url t))) t))
      else Some t
  | Online, EvShutdown => Some (set_phase Ended (add_frame FClose t))
  | Online, EvOutbound sent =>
      match ct_queue t with
      | [] => None
      | m :: rest =>
          let t := take_outbound m rest sent t in
          if sent : bool then Some (add_frame (FMessage m) t) else Some (back_off t)
      end
  | Online, EvText text => Some (log_inbound (handle_inbound text) t)
  | Online, EvPing data => Some (add_frame (FPong data) t)
  | Online, EvClosed | Online, EvStreamError => Some (back_off t)
  | Online, EvOtherFrame => Some t
  | Connecting, _ | Online, _ => None
  end.

Fixpoint task_run `{!JsonText} (evs : list NetEvent) (t : ConnTask) : option ConnTask :=
  match evs with
  | [] => Some t
  | ev :: evs => task_step ev t ≫= task_run evs
  end.

(** [connect_to_gateway]: the address and the task it is given. *)
Definition connect_to_gateway (server_url gateway_url : string) : string * ConnTask :=
  (compute_ws_url gateway_url, new_task server_url).

(** ** The managed service *)

(** The outbound receiver until it is handed to the task; a shutdown sender is the
    number of its task; the tasks spawned, with their address and whether they are
    still to be shut down. *)
Record CloudGatewayService := mkCloudGateway {
  cgs_server_url : string;
  cgs_gateway_url : string;
  cgs_outbound_rx : option ();
  cgs_shutdown_tx : option nat;
  cgs_tasks : list (string * bool)
}.

Definition new_cloud_gateway (server_url gateway_url : string) : CloudGatewayService :=
  mkCloudGateway server_url gateway_url (Some ()) None [].

Definition cloud_gateway_start : st CloudGatewayService string Z := λ s,
  match cgs_outbound_rx s with
  | None => (Err "CloudGatewayService already started", s)
  | Some _ =>
      (Ok 0%Z, mkCloudGateway (cgs_server_url s) (cgs_gateway_url s) None (Some (length (cgs_tasks s)))
                 (cgs_tasks s ++ [(compute_ws_url (cgs_gateway_url s), true)]))
  end.

Definition cloud_gateway_stop : st CloudGatewayService string () := λ s,
  match cgs_shutdown_tx s with
  | Some i =>
      (Ok (), mkCloudGateway (cgs_server_url s) (cgs_gateway_url s) (cgs_outbound_rx s) None
                (alter (λ t, (t.1, false)) i (cgs_tasks s)))
  | None => (Ok (), s)
  end.

Definition cloud_gateway_is_running (s : CloudGatewayService) : bool := bool_decide (is_Some (cgs_shutdown_tx s)).

#[global] Instance cloud_gateway_managed : ManagedService () CloudGatewayService := {
  ms_start _ := cloud_gateway_start;
  ms_stop _ := cloud_gateway_stop;
  ms_is_running _ s := (cloud_gateway_is_running s, s)
}.

#[global] Instance cloud_gateway_laws : ManagedServiceLaws () CloudGatewayService.
Proof.
  refine {| active s := cloud_gateway_is_running s |}.
  - intros e s pid s'. cbn. unfold cloud_gateway_start. case_match; intros [= <- <-]; done.
  - intros e s s'. cbn. unfold cloud_gateway_stop, cloud_gateway_is_running.
    destruct (cgs_shutdown_tx s) eqn:Hs; intros [= <-]; cbn; [done|]. by rewrite Hs.
  - intros e s msg s'. cbn. unfold cloud_gateway_stop. by case_match.
Defined.

(** [register_onto]: without a gateway URL nothing is registered. *)
Definition register_cloud_gateway {S} (inj : CloudGatewayService → S) (server_url : string)
    (gateway_url : option string) (sup : Supervisor S) : option CloudGatewayService * Supervisor S :=
  match gateway_url with
  | None => (None, sup)
  | Some url =>
      let service := new_cloud_gateway server_url url in
      (Some service, register CloudGateway (inj service) true sup)
  end.

(** ** Proofs *)

(** Every frame reads back as itself: the parser of a gateway that mirrors the message
    type recovers exactly the message that was serialised. *)
Theorem message_roundtrip m : message_from_json (message_to_json m) = Some m.
Proof. destruct m as [| | | | |ok [msg|]]; reflexivity. Qed.

(** *** Addresses *)

Lemma ws_no_slash s : ends_with "/" (s +:+ "/ws") = false.
Proof.
  destruct (ends_with _ _) eqn:E; [|done]. exfalso.
  change (s +:+ "/ws") with (s +:+ ("/w" +:+ String "s" "")) in E. rewrite <- str_app_assoc in E.
  change "/" with ("" +:+ String "/" "") in E. by apply ends_with_last in E.
Qed.

Lemma starts_with_app p s t : starts_with p s = true → starts_with p (s +:+ t) = true.
Proof. rewrite !starts_with_spec. intros [r ->]. exists (r +:+ t). by rewrite str_app_assoc. Qed.

(** A scheme prefix of [base/ws] was one of [base], when [base] has no trailing slash. *)
Lemma starts_with_ws sch s : ends_with "/" s = false →
  starts_with (sch +:+ "://") (s +:+ "/ws") = true → starts_with (sch +:+ "://") s = true.
Proof.
  rewrite !starts_with_spec. intros Hs [r Hr].
  revert s Hs Hr. induction sch as [|c sch IH]; intros s Hs Hr.
  - rewrite str_app_nil_l in *. destruct s as [|a [|b [|d s]]]; cbn in Hr; try done.
    + injection Hr as -> -> _. by vm_compute in Hs.
    + injection Hr as -> -> -> _. exists s. done.
  - rewrite str_app_cons in Hr. destruct s as [|a s]; [by destruct sch as [|? [|? [|]]]; vm_compute in Hr; congruence|].
    rewrite !str_app_cons in Hr. injection Hr as -> Hr.
    destruct (IH s) as [r' ->]; [|done|by exists r'].
    destruct (ends_with "/" s) eqn:E; [|done]. apply ends_with_spec in E as [q ->].
    rewrite <- str_app_cons, ends_with_app in Hs. done.
Qed.

(** The scheme rewriting of [compute_ws_url]. *)
Definition ws_scheme (base : string) : string :=
  if starts_with "https://" base then replacen1 "https://" "wss://" base
  else if starts_with "http://" base then replacen1 "http://" "ws://" base
  else base.

Lemma compute_ws_url_unfold url : compute_ws_url url =
  let b := ws_scheme (trim_end_matches "/" url) in if ends_with "/ws" b then b else b +:+ "/ws".
Proof. done. Qed.

Lemma replaced_no_slash sch sch' r : ends_with "/" ((sch +:+ "://") +:+ r) = false →
  ends_with "/" ((sch' +:+ "://") +:+ r) = false.
Proof.
  intros Hb. destruct (decide (r = "")) as [->|Hr].
  - rewrite str_app_nil_r in Hb. change "://" with (":/" +:+ "/") in Hb.
    rewrite <- str_app_assoc, ends_with_app in Hb. done.
  - rewrite ends_with_char_app in * by done. done.
Qed.

Lemma ws_scheme_spec base : ends_with "/" base = false →
  ends_with "/" (ws_scheme base) = false ∧
  starts_with "https://" (ws_scheme base) = false ∧ starts_with "http://" (ws_scheme base) = false.
Proof.
  intros Hb. unfold ws_scheme. destruct (starts_with "https://" base) eqn:H1; [|destruct (starts_with "http://" base) eqn:H2].
  - apply starts_with_spec in H1 as [r ->]. rewrite replacen1_prefix. split_and!; [|done|done].
    by apply (replaced_no_slash "https" "wss").
  - apply starts_with_spec in H2 as [r ->]. rewrite replacen1_prefix. split_and!; [|done|done].
    by apply (replaced_no_slash "http" "ws").
  - done.
Qed.

Lemma ws_scheme_id b : starts_with "https://" b = false → starts_with "http://" b = false → ws_scheme b = b.
Proof. unfold ws_scheme. by intros -> ->. Qed.

(** The address has no scheme left to rewrite and ends in [/ws]. *)
Lemma compute_ws_url_spec url : let w := compute_ws_url url in
  (∃ r, w = r +:+ "/ws") ∧ starts_with "https://" w = false ∧ starts_with "http://" w = false.
Proof.
  cbn zeta. rewrite compute_ws_url_unfold. cbn zeta.
  destruct (ws_scheme_spec (trim_end_matches "/" url)) as (H1 & H2 & H3); [apply trim_end_matches_no_end|].
  destruct (ends_with "/ws" _) eqn:E; [by apply ends_with_spec in E|].
  split; [eauto|]. split; apply not_true_is_false; intros Hs.
  - apply (starts_with_ws "https") in Hs; [|done]. change ("https" +:+ "://") with "https://" in Hs. congruence.
  - apply (starts_with_ws "http") in Hs; [|done]. change ("http" +:+ "://") with "http://" in Hs. congruence.
Qed.

Lemma compute_ws_url_plain sch sch' host slashes : 
  (∀ c, str_In c slashes → c = "/"%char) → host ≠ "" → ends_with "/" host = false →
  (sch = "https" ∧ sch' = "wss") ∨ (sch = "http" ∧ sch' = "ws") →
  compute_ws_url ((sch +:+ "://") +:+ host +:+ slashes) =
  let b := (sch' +:+ "://") +:+ host in if ends_with "/ws" b then b else b +:+ "/ws".
Proof.
  intros Hsl Hne Hh Hsch. rewrite compute_ws_url_unfold. cbn zeta.
  rewrite <- str_app_assoc, trim_end_matches_app, trim_end_matches_id by (rewrite ?ends_with_char_app by done; done).
  unfold ws_scheme. destruct Hsch as [[-> ->]|[-> ->]].
  - change ("https" +:+ "://") with "https://". rewrite (proj2 (starts_with_spec _ _)) by eauto.
    by rewrite replacen1_prefix.
  - change ("http" +:+ "://") with "http://". rewrite replacen1_prefix.
    rewrite (proj2 (starts_with_spec "http://" _)) by eauto. done.
Qed.

(** The WebSocket address of a gateway always ends in [/ws] and is a fixed point of
    the computation, and for an [https] or [http] URL it is the same host and path
    with [wss] or [ws], trailing slashes dropped and the path added once. *)
Theorem compute_ws_url_correct url host slashes :
  ends_with "/ws" (compute_ws_url url) = true ∧
  compute_ws_url (compute_ws_url url) = compute_ws_url url ∧
  ((∀ c, str_In c slashes → c = "/"%char) → host ≠ "" →
   ends_with "/" host = false → ends_with "/ws" ("://" +:+ host) = false →
   compute_ws_url ("https://" +:+ host +:+ slashes) = "wss://" +:+ host +:+ "/ws" ∧
   compute_ws_url ("http://" +:+ host +:+ slashes) = "ws://" +:+ host +:+ "/ws").
Proof.
  destruct (compute_ws_url_spec url) as ([r Hr] & H2 & H3). split_and!.
  - rewrite Hr. apply ends_with_app.
  - rewrite (compute_ws_url_unfold (compute_ws_url url)), trim_end_matches_id by (rewrite Hr; apply ws_no_slash).
    rewrite ws_scheme_id by done. cbn zeta. by rewrite Hr, ends_with_app.
  - intros Hsl Hne Hh Hws.
    assert (∀ sch, ends_with "/ws" ((sch +:+ "://") +:+ host) = false) as Hno.
    { intros sch. rewrite str_app_assoc, ends_with_app_long; [done|]. rewrite str_length_app. cbn. lia. }
    split; [change "https://" with ("https" +:+ "://")|change "http://" with ("http" +:+ "://")];
      erewrite compute_ws_url_plain by eauto; cbn zeta; by rewrite Hno, str_app_assoc.
Qed.

Lemma compute_ws_url_correct_witness :
  compute_ws_url "https://gateway.example//" = "wss://gateway.example/ws" ∧
  compute_ws_url "http://10.0.0.7:8080" = "ws://10.0.0.7:8080/ws".
Proof.
  split.
  - apply (compute_ws_url_correct "" "gateway.example" "//"); try done. intros c [<-|[<-|[]]]; done.
  - apply (compute_ws_url_correct "" "10.0.0.7:8080" ""); done.
Defined.

(** *** The connection task *)

Definition frame_message (f : Frame) : option GatewayMessage :=
  match f with FMessage m => Some m | _ => None end.

(** The messages put on a connection after its first frame. *)
Definition relayed (c : list Frame) : list GatewayMessage := omap frame_message (tail c).

Definition sent_of (mb : GatewayMessage * bool) : option GatewayMessage :=
  if mb.2 then Some mb.1 else None.

(** A connection starts with the Register frame, unless sending it failed. *)
Definition registers_first (url : string) (c : list Frame) : Prop :=
  c = [] ∨ ∃ rest, c = FMessage (Register url) :: rest.

(** The messages queued by a run. *)
Definition queued_of (ev : NetEvent) : option GatewayMessage :=
  match ev with EvQueued m => Some m | _ => None end.

Record task_ok (url : string) (queued : list GatewayMessage) (t : ConnTask) : Prop := mkTaskOk {
  tok_url : ct_server_url t = url;
  tok_delay : (INITIAL_RECONNECT_DELAY ≤ ct_delay t ≤ MAX_RECONNECT_DELAY)%Z;
  tok_slept : Forall (λ d, INITIAL_RECONNECT_DELAY ≤ d ≤ MAX_RECONNECT_DELAY)%Z (ct_slept t);
  tok_register : Forall (registers_first url) (ct_connections t);
  tok_online : ct_phase t = Online → ∃ c cs, ct_connections t = (FMessage (Register url) :: c) :: cs;
  tok_queue : queued = (ct_taken t).*1 ++ ct_queue t;
  tok_relayed : mjoin (relayed <$> reverse (ct_connections t)) = omap sent_of (ct_taken t);
  tok_lost : length (filter (λ mb, mb.2 = false) (ct_taken t)) ≤ length (ct_slept t);
  tok_bounded : length (ct_queue t) ≤ OUTBOUND_CAPACITY
}.

Lemma new_task_ok url : task_ok url [] (new_task url).
Proof. split; cbn; try done; unfold INITIAL_RECONNECT_DELAY, MAX_RECONNECT_DELAY, OUTBOUND_CAPACITY; try constructor; lia. Qed.

Lemma mjoin_snoc {A} (ls : list (list A)) l : mjoin (ls ++ [l]) = mjoin ls ++ l.
Proof.
  induction ls as [|k ls IH]; [apply app_nil_r|].
  change (k ++ mjoin (ls ++ [l]) = (k ++ mjoin ls) ++ l). by rewrite IH, app_assoc.
Qed.

Lemma relayed_cons c cs :
  mjoin (relayed <$> reverse (c :: cs)) = mjoin (relayed <$> reverse cs) ++ relayed c.
Proof. by rewrite reverse_cons, fmap_app, fmap_cons, fmap_nil, mjoin_snoc. Qed.

#[local] Arguments reverse : simpl never.
#[local] Arguments app : simpl nomatch.

Lemma relayed_snoc g c cs f :
  mjoin (relayed <$> reverse (((g :: c) ++ [f]) :: cs)) =
  mjoin (relayed <$> reverse ((g :: c) :: cs)) ++ option_list (frame_message f).
Proof.
  rewrite !relayed_cons, <- app_assoc. f_equal. unfold relayed. cbn [tail app]. rewrite omap_app. cbn. by destruct (frame_message f).
Qed.

Lemma add_frame_ok url q t f : ct_phase t = Online → frame_message f = None →
  task_ok url q t → task_ok url q (add_frame f t).
Proof.
  intros Hp Hf [H1 H2 H3 H4 H5 H6 H7 H8 H9]. destruct (H5 Hp) as (c & cs & Hc).
  split; cbn; try done; rewrite ?Hc in *.
  - apply list.Forall_cons in H4 as [_ H4]. constructor; [|done]. right. eexists. done.
  - intros _. do 2 eexists. done.
  - rewrite relayed_snoc, Hf. cbn. by rewrite app_nil_r.
Qed.

Lemma back_off_ok url q t : task_ok url q t → task_ok url q (back_off t).
Proof.
  intros [H1 H2 H3 H4 H5 H6 H7 H8 H9]. unfold INITIAL_RECONNECT_DELAY, MAX_RECONNECT_DELAY in *.
  split; cbn; try done; unfold INITIAL_RECONNECT_DELAY, MAX_RECONNECT_DELAY.
  - lia.
  - apply Forall_app. split; [done|]. constructor; [lia|constructor].
  - rewrite length_app. lia.
Qed.

Lemma set_phase_ok url q p t : p ≠ Online → task_ok url q t → task_ok url q (set_phase p t).
Proof. intros Hp [H1 H2 H3 H4 H5 H6 H7 H8 H9]. split; cbn; try done. Qed.

Lemma open_ok url q t : task_ok url q t → ct_phase t = Connecting → task_ok url q (open_connection t).
Proof.
  intros [H1 H2 H3 H4 H5 H6 H7 H8 H9] Hp. split; cbn; try done.
  - constructor; [by left|done].
  - congruence.
  - rewrite relayed_cons, H7. by rewrite app_nil_r.
Qed.

Lemma register_ok url q t : task_ok url q (open_connection t) → ct_phase t = Connecting →
  task_ok url q (set_phase Online (add_frame (FMessage (Register (ct_server_url t))) (open_connection t))).
Proof.
  intros [H1 H2 H3 H4 H5 H6 H7 H8 H9] Hp. cbn in *. split; cbn; try done.
  - apply list.Forall_cons in H4 as [_ H4]. constructor; [|done]. right. exists []. by rewrite H1.
  - rewrite H1. eauto.
  - by rewrite <- H7, !relayed_cons.
Qed.

Lemma outbound_ok url q t m rest : task_ok url q t → ct_phase t = Online → ct_queue t = m :: rest →
  task_ok url q (add_frame (FMessage m) (take_outbound m rest true t)).
Proof.
  intros [H1 H2 H3 H4 H5 H6 H7 H8 H9] Hp Hq. destruct (H5 Hp) as (c & cs & Hc).
  split; cbn; try done; rewrite ?Hc in *.
  - apply list.Forall_cons in H4 as [_ H4]. constructor; [|done]. right. eexists. done.
  - eauto.
  - rewrite H6, Hq, fmap_app, <- app_assoc. done.
  - rewrite relayed_snoc, H7, omap_app. done.
  - rewrite list.filter_app, length_app, filter_cons_False, filter_nil by done. cbn [length]. lia.
  - rewrite Hq in H9. cbn in H9. lia.
Qed.

Lemma lost_ok url q t m rest : task_ok url q t → ct_queue t = m :: rest →
  task_ok url q (back_off (take_outbound m rest false t)).
Proof.
  intros [H1 H2 H3 H4 H5 H6 H7 H8 H9] Hq. unfold INITIAL_RECONNECT_DELAY, MAX_RECONNECT_DELAY in *.
  split; cbn; try done; unfold INITIAL_RECONNECT_DELAY, MAX_RECONNECT_DELAY.
  - lia.
  - apply Forall_app. split; [done|]. constructor; [lia|constructor].
  - rewrite H6, Hq, fmap_app, <- app_assoc. done.
  - rewrite H7, omap_app. cbn. by rewrite app_nil_r.
  - rewrite list.filter_app, !length_app, filter_cons_True, filter_nil by done. cbn [length]. lia.
  - rewrite Hq in H9. cbn in H9. lia.
Qed.

Lemma enqueue_ok url q t m : task_ok url q t → length (ct_queue t) < OUTBOUND_CAPACITY →
  task_ok url (q ++ [m]) (enqueue m t).
Proof.
  intros [H1 H2 H3 H4 H5 H6 H7 H8 H9] Hl. split; cbn; try done.
  - rewrite H6, <- app_assoc. done.
  - rewrite length_app. cbn. lia.
Qed.

Lemma log_inbound_ok url q t l : task_ok url q t → task_ok url q (log_inbound l t).
Proof. intros [H1 H2 H3 H4 H5 H6 H7 H8 H9]. split; cbn; try done. Qed.

#[export] Hint Resolve new_task_ok back_off_ok open_ok register_ok outbound_ok lost_ok enqueue_ok log_inbound_ok
  add_frame_ok set_phase_ok : hamlet.

Lemma task_step_ok `{!JsonText} url q ev t t' : task_ok url q t → task_step ev t = Some t' →
  task_ok url (q ++ option_list (queued_of ev)) t'.
Proof.
  intros Ht. unfold task_step.
  destruct (ct_phase t) eqn:Hp; destruct ev as [|m| |sent|sent|text|data| | |]; cbn; rewrite ?app_nil_r; try done.
  all: repeat case_match; intros Hs; simplify_eq; eauto 6 with hamlet.
Qed.

Lemma task_run_ok `{!JsonText} url q evs t t' : task_ok url q t → task_run evs t = Some t' →
  task_ok url (q ++ omap queued_of evs) t'.
Proof.
  revert q t; induction evs as [|ev evs IH]; intros q t Ht; cbn.
  { intros [= <-]. by rewrite app_nil_r. }
  destruct (task_step ev t) as [t1|] eqn:Hs; cbn; [|done]. intros Hr.
  eapply task_step_ok in Hs; [|done]. eapply IH in Hr; [|done].
  rewrite <- app_assoc in Hr. by destruct (queued_of ev).
Qed.

(** C25: Whatever the network does, every connection to the gateway starts with the
    Register frame of this server; the messages queued for the gateway are put on its
    connections in the order they were queued and at most once, what is still queued
    follows them, and a message is lost only together with a connection that failed
    while sending it; every pause between attempts lasts between 2 and 60 seconds. *)
Theorem gateway_task_behaviour `{!JsonText} url evs t : task_run evs (new_task url) = Some t →
  Forall (registers_first url) (ct_connections t) ∧
  omap queued_of evs = (ct_taken t).*1 ++ ct_queue t ∧
  mjoin (relayed <$> reverse (ct_connections t)) = omap sent_of (ct_taken t) ∧
  length (filter (λ mb, mb.2 = false) (ct_taken t)) ≤ length (ct_slept t) ∧
  Forall (λ d, 2 ≤ d ≤ 60)%Z (ct_slept t).
Proof.
  intros Hr. eapply task_run_ok in Hr; [|apply new_task_ok]. by destruct Hr.
Qed.

Definition failing (n : nat) : list NetEvent := replicate n EvConnectFailed.

Lemma failing_run `{!JsonText} n t : ct_phase t = Connecting →
  ∃ t', task_run (failing n) t = Some t' ∧ ct_phase t' = Connecting ∧
    length (ct_slept t') = length (ct_slept t) + n ∧
    (∀ i, i < length (ct_slept t) → ct_slept t' !! i = ct_slept t !! i) ∧
    (∀ i, i < n → (0 < ct_delay t ≤ 60)%Z →
       ct_slept t' !! (length (ct_slept t) + i) = Some (Z.min (ct_delay t * 2 ^ Z.of_nat i) 60)).
Proof.
  revert t; induction n as [|n IH]; intros t Hp; cbn.
  { exists t. split_and!; try done; lia. }
  unfold task_step. rewrite Hp. cbn. destruct (IH (back_off t)) as (t' & Hr & Hp' & Hl & Hold & Hnew); [done|].
  cbn in *. rewrite length_app in *. cbn in *. exists t'. split_and!; try done; [lia| |].
  - intros i Hi. rewrite Hold by lia. by apply lookup_app_l.
  - intros [|i] Hi Hd.
    + rewrite Hold, lookup_app_r, Nat.add_0_r, Nat.sub_diag by lia. cbn. f_equal. lia.
    + replace (length (ct_slept t) + S i) with (length (ct_slept t) + 1 + i) by lia.
      rewrite Hnew by (unfold MAX_RECONNECT_DELAY; lia). f_equal. rewrite Nat2Z.inj_succ, Z.pow_succ_r by lia.
      unfold MAX_RECONNECT_DELAY. pose proof (Z.pow_pos_nonneg 2 (Z.of_nat i)). nia.
Qed.

(** While the gateway cannot be reached the task keeps trying, with pauses of 2, 4, 8,
    16 and 32 seconds and then of 60 seconds for ever. *)
Theorem reconnect_schedule `{!JsonText} url n i : i < n →
  ∃ t, task_run (failing n) (new_task url) = Some t ∧ ct_phase t = Connecting ∧
    length (ct_slept t) = n ∧ ct_slept t !! i = Some (Z.min (2 ^ Z.of_nat (S i)) 60).
Proof.
  intros Hi. destruct (failing_run n (new_task url)) as (t & Hr & Hp & Hl & _ & Hs); [done|].
  exists t. split_and!; [done..|]. specialize (Hs i Hi). cbn in Hs. rewrite Hs by (unfold INITIAL_RECONNECT_DELAY; lia).
  rewrite Nat2Z.inj_succ, Z.pow_succ_r by lia. done.
Qed.

(** A gateway that accepts the connection and then refuses the Register frame is
    retried at once: any number of such attempts follow each other without a single
    pause. *)
Theorem register_failure_never_pauses `{!JsonText} url n :
  ∃ t, task_run (replicate n (EvConnected false)) (new_task url) = Some t ∧
    ct_phase t = Connecting ∧ length (ct_connections t) = n ∧ ct_slept t = [].
Proof.
  assert (∀ t0, ct_phase t0 = Connecting →
    ∃ t, task_run (replicate n (EvConnected false)) t0 = Some t ∧ ct_phase t = Connecting ∧
      length (ct_connections t) = length (ct_connections t0) + n ∧ ct_slept t = ct_slept t0) as Hrec.
  { induction n as [|n IH]; intros t0 H0; cbn; [exists t0; split_and!; try done; lia|].
    unfold task_step. rewrite H0. cbn. destruct (IH (open_connection t0)) as (t & Hr & Hp & Hl & Hs); [done|].
    exists t. cbn in *. split_and!; try done. lia. }
  apply (Hrec (new_task url)). done.
Qed.

(** *** The service *)

(** The service starts once: a start succeeds on a new service, spawning the task for
    the computed address, and every later start, also after a stop, is refused. *)
Theorem cloud_gateway_starts_once server_url gateway_url (stops : nat) :
  let '(r, s) := cloud_gateway_start (new_cloud_gateway server_url gateway_url) in
  r = Ok 0%Z ∧ cgs_tasks s = [(compute_ws_url gateway_url, true)] ∧
  let s' := Nat.iter stops (λ s, (cloud_gateway_stop s).2) s in
  cloud_gateway_start s' = (Err "CloudGatewayService already started", s').
Proof.
  cbn. split_and!; [done..|]. unfold cloud_gateway_start at 1.
  match goal with |- context [Nat.iter stops _ ?s0] => set (s1 := s0) end.
  assert (cgs_outbound_rx (Nat.iter stops (λ s, (cloud_gateway_stop s).2) s1) = None) as ->; [|done].
  induction stops as [|n IH]; [done|]. cbn. unfold cloud_gateway_stop at 1. by case_match.
Qed.

(** *** Concrete runs *)

Definition ex_json : JsonText := λ _, None.

Lemma gateway_task_behaviour_witness :
  let m := Connect "peer" in
  let evs := [EvQueued m; EvConnectFailed; EvConnected true; EvOutbound true] in
  ∃ t, @task_run ex_json evs (new_task "https://me") = Some t ∧
    mjoin (relayed <$> reverse (ct_connections t)) = omap sent_of (ct_taken t) ∧
    ct_connections t = [[FMessage (Register "https://me"); FMessage m]] ∧ ct_slept t = [2%Z].
Proof.
  eexists. split; [reflexivity|]. split; [|split; reflexivity].
  eapply (@gateway_task_behaviour ex_json "https://me"
    [EvQueued (Connect "peer"); EvConnectFailed; EvConnected true; EvOutbound true]). reflexivity.
Defined.

Lemma reconnect_schedule_witness :
  ∃ t, @task_run ex_json (failing 8) (new_task "https://me") = Some t ∧ ct_slept t !! 4 = Some 32%Z.
Proof.
  destruct (@reconnect_schedule ex_json "https://me" 8 4) as (t & H1 & _ & _ & H2); [lia|].
  exists t. split; [exact H1|exact H2].
Defined.
