(* ===== verification/Registry.v ===== *)
(** * Beacons and the gateways they advertise
    (src/services/beacon_management/registry.rs and the message loop of src/app.rs)

    The registry of beacons, with the list of broadcast topics it shares with the
    broadcast loop, the MQTT client it sends commands to, and the gateway connections
    its records keep alive: a connection lives as long as the shutdown sender it was
    created with, so dropping a sender removes its connection. *)

From S2P Require Import Prelude RustStr Json MqttClient CloudGateway.
From stdpp Require Import options.

#[local] Arguments strip_suffix : simpl never.

(** ** Data *)

(** Instants and durations are in nanoseconds. *)
Definition BEACON_TIMEOUT : Z := 120 * 1000000000.

Inductive TopicType := Listen | Broadcast | Hybrid.

Record MqttTopicConfig := mkTopicConfig { tc_topic : string; tc_qos : Z }.

Record TopicChannel := mkTopicChannel {
  ch_beacon_id : string;
  ch_topic : MqttTopicConfig;
  ch_topic_type : TopicType
}.

(** A shutdown sender is the number of the connection it keeps alive. *)
Record BeaconRecord := mkBeaconRecord {
  listen_topic : string;
  broadcast_topic : string;
  last_seen : Z;
  gateway_url : option string;
  gateway_shutdown_tx : option nat
}.

(** A connection task spawned by [connect_to_gateway]. *)
Record Connection := mkConnection {
  conn_gateway : string;
  conn_ws_url : string;
  conn_task : ConnTask
}.

(** The registry's fields, what the shared ones refer to, and the live connections. *)
Record BeaconRegistry := mkRegistry {
  records : gmap string BeaconRecord;
  known_gateways : gset string;
  broadcast_topics : list string;
  mqtt_log : list MqttCommand;
  connections : gmap nat Connection;
  next_connection : nat
}.

Definition new_registry (own_gateway_url : option string) : BeaconRegistry :=
  mkRegistry ∅ (match own_gateway_url with Some url => {[url]} | None => ∅ end) [] [] ∅ 0.

Definition qos_from_u8 (qos : Z) : QoS :=
  if (qos =? 0)%Z then AtMostOnce else if (qos =? 2)%Z then ExactlyOnce else AtLeastOnce.

(** ** Updates *)

Definition set_records (f : gmap string BeaconRecord → gmap string BeaconRecord) (s : BeaconRegistry) : BeaconRegistry :=
  mkRegistry (f (records s)) (known_gateways s) (broadcast_topics s) (mqtt_log s) (connections s) (next_connection s).

Definition set_topics (f : list string → list string) (s : BeaconRegistry) : BeaconRegistry :=
  mkRegistry (records s) (known_gateways s) (f (broadcast_topics s)) (mqtt_log s) (connections s) (next_connection s).

Definition set_known (f : gset string → gset string) (s : BeaconRegistry) : BeaconRegistry :=
  mkRegistry (records s) (f (known_gateways s)) (broadcast_topics s) (mqtt_log s) (connections s) (next_connection s).

Definition set_log (l : list MqttCommand) (s : BeaconRegistry) : BeaconRegistry :=
  mkRegistry (records s) (known_gateways s) (broadcast_topics s) l (connections s) (next_connection s).

(** Dropping a sender ends its connection. *)
Definition drop_tx (tx : option nat) (s : BeaconRegistry) : BeaconRegistry :=
  mkRegistry (records s) (known_gateways s) (broadcast_topics s) (mqtt_log s)
    (match tx with Some i => delete i (connections s) | None => connections s end) (next_connection s).

(** ** Operations *)

Definition empty_record (now : Z) : BeaconRecord := mkBeaconRecord "" "" now None None.

Definition set_listen (topic : string) (r : BeaconRecord) : BeaconRecord :=
  mkBeaconRecord topic (broadcast_topic r) (last_seen r) (gateway_url r) (gateway_shutdown_tx r).
Definition set_broadcast (topic : string) (r : BeaconRecord) : BeaconRecord :=
  mkBeaconRecord (listen_topic r) topic (last_seen r) (gateway_url r) (gateway_shutdown_tx r).

(** [fate] is what becomes of the subscribe command. *)
Definition register_channel (now : Z) (fate : CommandFate) (channel : TopicChannel) (s : BeaconRegistry) : BeaconRegistry :=
  let topic := tc_topic (ch_topic channel) in
  let beacon_id := ch_beacon_id channel in
  let s := set_records (λ m, match m !! beacon_id with Some _ => m | None => <[beacon_id := empty_record now]> m end) s in
  let qos := qos_from_u8 (tc_qos (ch_topic channel)) in
  match ch_topic_type channel with
  | Listen =>
      let '(r, log) := subscribe fate topic qos (mqtt_log s) in
      let s := set_log log s in
      match r with
      | Err _ => s
      | Ok _ => set_records (alter (set_listen topic) beacon_id) s
      end
  | Broadcast =>
      let s := set_topics (λ l, l ++ [topic]) s in
      set_records (alter (set_broadcast topic) beacon_id) s
  | Hybrid =>
      let '(r, log) := subscribe fate topic qos (mqtt_log s) in
      let s := set_log log s in
      match r with
      | Err _ => s
      | Ok _ =>
          let s := set_topics (λ l, l ++ [topic]) s in
          set_records (alter (λ r, set_broadcast topic (set_listen topic r)) beacon_id) s
      end
  end.

Definition is_stale (now : Z) (r : BeaconRecord) : Prop := (BEACON_TIMEOUT < Z.max 0 (now - last_seen r))%Z.

#[global] Instance is_stale_dec now r : Decision (is_stale now r).
Proof. unfold is_stale. apply _. Defined.

(** The ids the sweep collects, in an unspecified order. *)
Definition stale_ids (now : Z) (s : BeaconRegistry) : gset string := dom (filter (λ ir, is_stale now ir.2) (records s)).

(** Up to the end of the unsubscribe request. *)
Definition sweep_unsubscribe (fate : CommandFate) (r : BeaconRecord) (s : BeaconRegistry) : BeaconRegistry :=
  if decide (listen_topic r = "") then s else set_log (unsubscribe fate (listen_topic r) (mqtt_log s)).2 s.

Definition sweep_topics (r : BeaconRecord) (s : BeaconRegistry) : BeaconRegistry :=
  if decide (broadcast_topic r = "") then s else set_topics (filter (λ t, t ≠ broadcast_topic r)) s.

Definition sweep_gateway (r : BeaconRecord) (s : BeaconRegistry) : BeaconRegistry :=
  match gateway_url r with Some url => set_known (λ k, k ∖ {[url]}) s | None => s end.

(** One iteration of the sweep. *)
Definition sweep_one (fate : CommandFate) (beacon_id : string) (s : BeaconRegistry) : BeaconRegistry :=
  match records s !! beacon_id with
  | None => s
  | Some r =>
      let s := set_records (delete beacon_id) s in
      let s := sweep_unsubscribe fate r s in
      let s := sweep_topics r s in
      let s := sweep_gateway r s in
      drop_tx (gateway_shutdown_tx r) s
  end.

Fixpoint sweep (fates : string → CommandFate) (stale : list string) (s : BeaconRegistry) : BeaconRegistry :=
  match stale with
  | [] => s
  | beacon_id :: stale => sweep fates stale (sweep_one (fates beacon_id) beacon_id s)
  end.

(** [check_timeouts] after its tick; [order] is the order the map was iterated in. *)
Definition check_timeouts (now : Z) (order : list string) (fates : string → CommandFate) (s : BeaconRegistry) : BeaconRegistry :=
  sweep fates (filter (λ id, id ∈ stale_ids now s) order) s.

(** The sweep runs inside the [select!] of the message loop and is dropped when another
    branch becomes ready.  It can then be suspended in the iteration of [beacon_id],
    waiting for the reply to the unsubscribe request (accepted by the client or not) or
    for the lock of the topic list; the record it took out is dropped with it. *)
Inductive Suspended := AtUnsubscribe (fate : CommandFate) | AtTopicLock (fate : CommandFate).

Definition sweep_suspended (beacon_id : string) (at_ : Suspended) (s : BeaconRegistry) : BeaconRegistry :=
  match records s !! beacon_id with
  | None => s
  | Some r =>
      let s := set_records (delete beacon_id) s in
      let s := sweep_unsubscribe (match at_ with AtUnsubscribe f | AtTopicLock f => f end) r s in
      drop_tx (gateway_shutdown_tx r) s
  end.

(** The record is one that waits at that point. *)
Definition can_suspend (at_ : Suspended) (r : BeaconRecord) : bool :=
  match at_ with
  | AtUnsubscribe _ => bool_decide (listen_topic r ≠ "")
  | AtTopicLock _ => bool_decide (broadcast_topic r ≠ "")
  end.

(** A sweep dropped in the iteration of [beacon_id], after the iterations of [done_]. *)
Definition check_timeouts_cancelled (now : Z) (done_ : list string) (beacon_id : string) (at_ : Suspended)
    (fates : string → CommandFate) (s : BeaconRegistry) : BeaconRegistry :=
  match records s !! beacon_id with
  | Some r =>
      if bool_decide (is_stale now r) && can_suspend at_ r then
        sweep_suspended beacon_id at_ (sweep fates (filter (λ id, id ∈ stale_ids now s ∧ id ≠ beacon_id) done_) s)
      else s
  | None => s
  end.

Definition update_last_seen (now : Z) (beacon_id : string) (s : BeaconRegistry) : BeaconRegistry :=
  set_records (alter (λ r, mkBeaconRecord (listen_topic r) (broadcast_topic r) now (gateway_url r)
                             (gateway_shutdown_tx r)) beacon_id) s.

Definition is_gateway_known (gw_url : string) (s : BeaconRegistry) : bool := bool_decide (gw_url ∈ known_gateways s).

Definition insert_gateway (gw_url : string) (s : BeaconRegistry) : BeaconRegistry := set_known (λ k, {[gw_url]} ∪ k) s.

(** Storing a sender drops the one stored before; without a record the sender itself is
    dropped. *)
Definition associate_gateway (beacon_id gw_url : string) (tx : nat) (s : BeaconRegistry) : BeaconRegistry :=
  match records s !! beacon_id with
  | Some r =>
      let s := drop_tx (gateway_shutdown_tx r) s in
      set_records (<[beacon_id := mkBeaconRecord (listen_topic r) (broadcast_topic r) (last_seen r) (Some gw_url) (Some tx)]>) s
  | None => drop_tx (Some tx) s
  end.

(** ** The message loop *)

(** Spawns the connection, with the registration queued on it. *)
Definition spawn_connection (server_url gw_url : string) (registration : GatewayMessage) (s : BeaconRegistry) : nat * BeaconRegistry :=
  let i := next_connection s in
  let '(ws_url, task) := connect_to_gateway server_url gw_url in
  (i, mkRegistry (records s) (known_gateways s) (broadcast_topics s) (mqtt_log s)
        (<[i := mkConnection gw_url ws_url (enqueue registration task)]> (connections s)) (S i)).

Section message_loop.
Context `{!JsonText}.

Definition beacon_payload (payload : string) : Json :=
  default (JString (from_utf8_lossy payload)) (from_slice payload).

Definition advertised_gateway (v : Json) : option string :=
  m ← as_object v; url ← map_get "gateway_url" m; as_str url.

(** One inbound message. *)
Definition handle_message (server_url : string) (now : Z) (msg : MqttMessage) (s : BeaconRegistry) : BeaconRegistry :=
  let s := match strip_suffix "/rec" (msg_topic msg) with
           | Some beacon_id => update_last_seen now beacon_id s
           | None => s
           end in
  let payload := beacon_payload (msg_payload msg) in
  match advertised_gateway payload with
  | None => s
  | Some gw_url =>
      if is_gateway_known gw_url s then s
      else
        let s := insert_gateway gw_url s in
        let registration := BeaconRegistration server_url payload in
        let '(tx, s) := spawn_connection server_url gw_url registration s in
        match strip_suffix "/rec" (msg_topic msg) with
        | Some bid => associate_gateway bid gw_url tx s
        | None => drop_tx (Some tx) s
        end
  end.

(** What the select of the loop can see. *)
Inductive AppEvent :=
| EvChannel (now : Z) (fate : CommandFate) (channel : TopicChannel)
| EvSweep (now : Z) (order : list string) (fates : string → CommandFate)
| EvSweepCancelled (now : Z) (done_ : list string) (beacon_id : string) (at_ : Suspended) (fates : string → CommandFate)
| EvMessage (now : Z) (msg : MqttMessage).

Definition app_step (server_url : string) (ev : AppEvent) (s : BeaconRegistry) : BeaconRegistry :=
  match ev with
  | EvChannel now fate channel => register_channel now fate channel s
  | EvSweep now order fates => check_timeouts now order fates s
  | EvSweepCancelled now done_ beacon_id at_ fates => check_timeouts_cancelled now done_ beacon_id at_ fates s
  | EvMessage now msg => handle_message server_url now msg s
  end.

(** [run_beacon_message_loop] over a history of events.  The history ends where the loop
    does: when the channel of inbound messages is closed ([None => break]). *)
Definition run_beacon_message_loop (own_gateway_url : option string) (server_url : string) (evs : list AppEvent) : BeaconRegistry :=
  foldl (λ s ev, app_step server_url ev s) (new_registry own_gateway_url) evs.

End message_loop.

(** ** Proofs *)

(** *** The links between beacons and connections *)

Definition link (r : BeaconRecord) : option string * option nat := (gateway_url r, gateway_shutdown_tx r).

Definition links (s : BeaconRegistry) (id : string) : option string * option nat :=
  default (None, None) (link <$> records s !! id).

(** A record has a gateway and the sender of a live connection to it, or neither; the
    gateway is known, not our own, and no other record has it; and every live
    connection belongs to a record. *)
Record linked (own : option string) (s : BeaconRegistry) : Prop := mkLinked {
  lk_own : ∀ u, own = Some u → u ∈ known_gateways s;
  lk_record : ∀ id, match links s id with
    | (None, None) => True
    | (Some u, Some i) => u ∈ known_gateways s ∧ own ≠ Some u ∧
        ∃ c, connections s !! i = Some c ∧ conn_gateway c = u
    | _ => False
    end;
  lk_inj : ∀ id id' u, (links s id).1 = Some u → (links s id').1 = Some u → id = id';
  lk_conn : ∀ i c, connections s !! i = Some c →
    i < next_connection s ∧ ∃ id, links s id = (Some (conn_gateway c), Some i)
}.

Lemma new_registry_linked own : linked own (new_registry own).
Proof.
  assert (∀ id, links (new_registry own) id = (None, None)) as Hl.
  { intros id. unfold links. cbn. by rewrite lookup_empty. }
  split.
  - intros u ->. cbn. set_solver.
  - intros id. by rewrite Hl.
  - intros id id' u. by rewrite Hl.
  - intros i c. cbn. by rewrite lookup_empty.
Qed.

(** Only the links, the known gateways and the connections matter. *)
Lemma linked_ext own s s' : linked own s → (∀ id, links s' id = links s id) →
  known_gateways s' = known_gateways s → connections s' = connections s →
  next_connection s' = next_connection s → linked own s'.
Proof.
  intros [H1 H2 H3 H4] Hl Hk Hc Hn. split; rewrite ?Hk, ?Hc, ?Hn; try done.
  - intros id. rewrite Hl. apply H2.
  - intros id id' u. rewrite !Hl. apply H3.
  - intros i c Hi. destruct (H4 i c Hi) as [? [id Hid]]. split; [done|]. exists id. by rewrite Hl.
Qed.

(** A beacon loses its gateway: its connection ends, and its gateway may be forgotten. *)
Lemma linked_detach own s s' id : linked own s →
  (∀ id', links s' id' = if decide (id' = id) then (None, None) else links s id') →
  (∀ u, u ∈ known_gateways s → (links s id).1 ≠ Some u → u ∈ known_gateways s') →
  connections s' = match (links s id).2 with Some i => delete i (connections s) | None => connections s end →
  next_connection s' = next_connection s → linked own s'.
Proof.
  intros [H1 H2 H3 H4] Hl Hk Hc Hn. pose proof (H2 id) as Hid. split.
  - intros u Hu. apply Hk; [auto|]. intros E. destruct (links s id) as [[v|] [i|]]; simplify_eq/=; naive_solver.
  - intros id'. rewrite Hl. case_decide as Hd; [done|]. specialize (H2 id').
    destruct (links s id') as [[u|] [i|]] eqn:Hli; try done. destruct H2 as (Hu & Ho & c & Hic & Hcu).
    split_and!; [|done|].
    + apply Hk; [done|]. intros E. apply Hd. apply (H3 id' id u); [by rewrite Hli|done].
    + exists c. split; [|done]. rewrite Hc. destruct (links s id) as [[v|] [j|]] eqn:Hlid; cbn; try done.
      rewrite lookup_delete_ne; [done|]. intros ->. apply Hd, (H3 id' id u); [by rewrite Hli|].
      rewrite Hlid. cbn. f_equal. destruct Hid as (_ & _ & c' & Hc' & <-). congruence.
  - intros a b u. rewrite !Hl. repeat case_decide; try done. apply H3.
  - intros i c Hi. assert (connections s !! i = Some c) as Hi'.
    { rewrite Hc in Hi. destruct (links s id).2; [by apply lookup_delete_Some in Hi as [_ ?]|done]. }
    destruct (H4 i c Hi') as [Hlt [id' Hid']]. rewrite Hn. split; [done|]. exists id'. rewrite Hl.
    rewrite decide_False; [done|]. intros ->. rewrite Hc, Hid' in Hi. cbn in Hi. by rewrite lookup_delete_eq in Hi.
Qed.

(** A beacon without a gateway gets one that was not known. *)
Lemma linked_attach own s s' id u c : linked own s → links s id = (None, None) →
  u ∉ known_gateways s → conn_gateway c = u →
  (∀ id', links s' id' = if decide (id' = id) then (Some u, Some (next_connection s)) else links s id') →
  known_gateways s' = {[u]} ∪ known_gateways s →
  connections s' = <[next_connection s := c]> (connections s) →
  next_connection s' = S (next_connection s) → linked own s'.
Proof.
  intros [H1 H2 H3 H4] Hid Hu Hcu Hl Hk Hc Hn. split.
  - intros v Hv. rewrite Hk. apply elem_of_union. right. auto.
  - intros id'. rewrite Hl. case_decide as Hd.
    + rewrite Hk, Hc, lookup_insert_eq. split_and!; [set_solver| |eauto]. intros Ho. by apply Hu, H1.
    + specialize (H2 id'). destruct (links s id') as [[v|] [i|]]; try done.
      destruct H2 as (Hv & Ho & c' & Hi & Hcv). split_and!; [rewrite Hk; set_solver|done|].
      exists c'. split; [|done]. rewrite Hc, lookup_insert_ne; [done|].
      apply H4 in Hi as [Hi _]. lia.
  - assert (∀ id', (links s id').1 ≠ Some u) as Hno.
    { intros id' E. specialize (H2 id'). destruct (links s id') as [[v|] [i|]]; simplify_eq/=; [|done].
      by destruct H2. }
    intros a b v. rewrite !Hl. repeat case_decide; subst; try done; cbn.
    + intros [= <-] E. by apply Hno in E.
    + intros E [= <-]. by apply Hno in E.
    + apply H3.
  - intros i c'. rewrite Hc, Hn. rewrite lookup_insert. case_decide as Hi.
    + intros [= <-]. split; [lia|]. exists id. rewrite Hl, decide_True by done. by rewrite Hcu, Hi.
    + intros Hi'. destruct (H4 i c' Hi') as [Hlt [id' Hid']]. split; [lia|]. exists id'.
      rewrite Hl, decide_False; [done|]. intros ->. congruence.
Qed.

(** Gateways may become known and connection numbers be used up without a connection. *)
Lemma linked_grow own s s' : linked own s → (∀ id, links s' id = links s id) →
  known_gateways s ⊆ known_gateways s' → connections s' = connections s →
  next_connection s ≤ next_connection s' → linked own s'.
Proof.
  intros [H1 H2 H3 H4] Hl Hk Hc Hn. split.
  - intros u Hu. auto.
  - intros id. rewrite Hl. specialize (H2 id). destruct (links s id) as [[u|] [i|]]; try done.
    rewrite Hc. destruct H2 as (? & ? & ?). split_and!; auto.
  - intros id id' u. rewrite !Hl. apply H3.
  - intros i c. rewrite Hc. intros Hi. destruct (H4 i c Hi) as [? [id Hid]]. split; [lia|]. exists id. by rewrite Hl.
Qed.

(** *** The operations keep the links *)

Lemma links_set_records f s id : links (set_records f s) id = default (None, None) (link <$> f (records s) !! id).
Proof. done. Qed.

Lemma links_alter f beacon s id : (∀ r, link (f r) = link r) →
  links (set_records (alter f beacon) s) id = links s id.
Proof.
  intros Hf. rewrite links_set_records, lookup_alter. unfold links. case_decide; [subst|done].
  destruct (records s !! id); [|done]. cbn. by rewrite Hf.
Qed.

Lemma links_delete beacon s id :
  links (set_records (delete beacon) s) id = if decide (id = beacon) then (None, None) else links s id.
Proof.
  rewrite links_set_records, lookup_delete. unfold links. repeat case_decide; try done; congruence.
Qed.

Lemma links_ensure now beacon s id :
  links (set_records (λ m, match m !! beacon with Some _ => m | None => <[beacon := empty_record now]> m end) s) id = links s id.
Proof.
  rewrite links_set_records. unfold links. destruct (records s !! beacon) eqn:Hb; [done|].
  rewrite lookup_insert. case_decide; [subst|done]. by rewrite Hb.
Qed.

(** What an operation that touches no connection leaves alone. *)
Definition same_links (s s' : BeaconRegistry) : Prop :=
  (∀ id, links s' id = links s id) ∧ known_gateways s' = known_gateways s ∧
  connections s' = connections s ∧ next_connection s' = next_connection s.

#[global] Instance same_links_preorder : PreOrder same_links.
Proof.
  split; [done|]. intros s1 s2 s3 (A1 & A2 & A3 & A4) (B1 & B2 & B3 & B4).
  split_and!; [intros id; by rewrite B1|congruence..].
Qed.

Lemma same_links_linked own s s' : same_links s s' → linked own s → linked own s'.
Proof. intros (? & ? & ? & ?) Hs. by eapply linked_ext. Qed.

Lemma register_channel_same now fate ch s : same_links s (register_channel now fate ch s).
Proof.
  unfold register_channel.
  set (s0 := set_records (λ m, match m !! ch_beacon_id ch with Some _ => m | None => _ end) s).
  assert (same_links s s0) as H0 by (split_and!; [intros; apply links_ensure|done..]).
  destruct (ch_topic_type ch).
  - destruct (subscribe _ _ _ _) as [[]]; (etrans; [exact H0|]); [|done].
    split_and!; try done. intros id. etrans; [by apply links_alter|done].
  - etrans; [exact H0|]. split_and!; try done. intros id. etrans; [by apply links_alter|done].
  - destruct (subscribe _ _ _ _) as [[]]; (etrans; [exact H0|]); [|done].
    split_and!; try done. intros id. etrans; [by apply links_alter|done].
Qed.

Lemma update_last_seen_same now beacon s : same_links s (update_last_seen now beacon s).
Proof. split_and!; try done. intros id. by apply links_alter. Qed.

Lemma sweep_unsubscribe_same fate r s : same_links s (sweep_unsubscribe fate r s).
Proof. unfold sweep_unsubscribe. by case_decide. Qed.

Lemma sweep_topics_same r s : same_links s (sweep_topics r s).
Proof. unfold sweep_topics. by case_decide. Qed.

(** The state in which one iteration has taken the record out and said so. *)
Lemma removed_links fate r beacon s : let s1 := sweep_unsubscribe fate r (set_records (delete beacon) s) in
  (∀ id, links s1 id = if decide (id = beacon) then (None, None) else links s id) ∧
  known_gateways s1 = known_gateways s ∧ connections s1 = connections s ∧ next_connection s1 = next_connection s.
Proof.
  destruct (sweep_unsubscribe_same fate r (set_records (delete beacon) s)) as (H1 & H2 & H3 & H4).
  cbn zeta. rewrite H2, H3, H4. split_and!; try done. intros id. rewrite H1. apply links_delete.
Qed.

Lemma links_record s id r : records s !! id = Some r → links s id = link r.
Proof. intros H. unfold links. by rewrite H. Qed.

Lemma sweep_one_linked own fate beacon s : linked own s → linked own (sweep_one fate beacon s).
Proof.
  intros Hs. unfold sweep_one. destruct (records s !! beacon) as [r|] eqn:Hr; [|done].
  pose proof (links_record _ _ _ Hr) as Hlr.
  destruct (removed_links fate r beacon s) as (H1 & H2 & H3 & H4).
  set (s1 := sweep_unsubscribe fate r (set_records (delete beacon) s)) in *.
  destruct (sweep_topics_same r s1) as (T1 & T2 & T3 & T4). set (s2 := sweep_topics r s1) in *.
  eapply (linked_detach own s _ beacon Hs).
  - intros id. change (links (drop_tx (gateway_shutdown_tx r) (sweep_gateway r s2)) id)
      with (links (sweep_gateway r s2) id).
    transitivity (links s2 id); [by unfold sweep_gateway; case_match|]. by rewrite T1, H1.
  - intros u Hu Hne. cbn. unfold sweep_gateway. rewrite Hlr in Hne. cbn in Hne.
    destruct (gateway_url r) as [v|]; cbn; rewrite T2, H2; [|done]. set_solver.
  - rewrite Hlr. cbn. assert (connections (sweep_gateway r s2) = connections s) as ->; [|done].
    unfold sweep_gateway. case_match; cbn; congruence.
  - cbn. unfold sweep_gateway. case_match; cbn; congruence.
Qed.

Lemma sweep_linked own fates ids s : linked own s → linked own (sweep fates ids s).
Proof. revert s; induction ids as [|id ids IH]; intros s Hs; [done|]. by apply IH, sweep_one_linked. Qed.

Lemma sweep_suspended_linked own beacon at_ s : linked own s → linked own (sweep_suspended beacon at_ s).
Proof.
  intros Hs. unfold sweep_suspended. destruct (records s !! beacon) as [r|] eqn:Hr; [|done].
  pose proof (links_record _ _ _ Hr) as Hlr.
  destruct (removed_links (match at_ with AtUnsubscribe f | AtTopicLock f => f end) r beacon s) as (H1 & H2 & H3 & H4).
  eapply (linked_detach own s _ beacon Hs); [exact H1| |by cbn; rewrite Hlr, H3|exact H4].
  intros u Hu _. cbn. by rewrite H2.
Qed.

Lemma check_timeouts_cancelled_linked own now done_ beacon at_ fates s :
  linked own s → linked own (check_timeouts_cancelled now done_ beacon at_ fates s).
Proof.
  intros Hs. unfold check_timeouts_cancelled. repeat case_match; [|done..].
  by apply sweep_suspended_linked, sweep_linked.
Qed.

(** The new connection, put on a record that may have had another one before. *)
Lemma associate_linked own s u c beacon r : linked own s → records s !! beacon = Some r →
  u ∉ known_gateways s → conn_gateway c = u →
  linked own (associate_gateway beacon u (next_connection s)
    (mkRegistry (records s) ({[u]} ∪ known_gateways s) (broadcast_topics s) (mqtt_log s)
       (<[next_connection s := c]> (connections s)) (S (next_connection s)))).
Proof.
  intros Hs Hr Hu Hc. unfold associate_gateway. cbn. rewrite Hr. pose proof (links_record _ _ _ Hr) as Hlr.
  set (s1 := drop_tx (gateway_shutdown_tx r) (set_records (delete beacon) s)).
  assert (linked own s1) as Hs1.
  { eapply (linked_detach own s _ beacon Hs); [intros id; apply links_delete|done|by rewrite Hlr|done]. }
  eapply (linked_attach own s1 _ beacon u c Hs1); [|done|done| |done| |done].
  - unfold s1. transitivity (links (set_records (delete beacon) s) beacon); [done|].
    by rewrite links_delete, decide_True.
  - intros id. rewrite links_set_records. cbn. rewrite lookup_insert.
    change (links s1 id) with (links (set_records (delete beacon) s) id). rewrite links_delete.
    repeat case_decide; try done; congruence.
  - cbn. destruct (gateway_shutdown_tx r) as [i|] eqn:Htx; [|done]. cbn. rewrite delete_insert_ne; [done|].
    destruct Hs as [_ H2 _ H4]. specialize (H2 beacon). rewrite Hlr in H2. unfold link in H2. rewrite Htx in H2.
    destruct (gateway_url r); [|done]. destruct H2 as (_ & _ & c' & Hi & _). apply H4 in Hi as [? _]. lia.
Qed.

Lemma unassociated_linked own s u c : linked own s →
  linked own (drop_tx (Some (next_connection s))
    (mkRegistry (records s) ({[u]} ∪ known_gateways s) (broadcast_topics s) (mqtt_log s)
       (<[next_connection s := c]> (connections s)) (S (next_connection s)))).
Proof.
  intros Hs. eapply linked_grow; [exact Hs|done|cbn; set_solver| |cbn; lia].
  cbn. rewrite delete_insert_id; [done|]. destruct (connections s !! next_connection s) eqn:E; [|done].
  apply Hs in E as [? _]. lia.
Qed.

Lemma handle_message_linked `{!JsonText} own server_url now msg s :
  linked own s → linked own (handle_message server_url now msg s).
Proof.
  intros Hs. unfold handle_message.
  set (s1 := match strip_suffix "/rec" (msg_topic msg) with Some b => update_last_seen now b s | None => s end).
  assert (linked own s1) as Hs1.
  { unfold s1. case_match; [|done]. eapply same_links_linked; [apply update_last_seen_same|done]. }
  clearbody s1. destruct (advertised_gateway _) as [u|]; [|done].
  unfold is_gateway_known. case_bool_decide as Hu; [done|].
  unfold spawn_connection. cbn. destruct (strip_suffix "/rec" (msg_topic msg)) as [b|]; [|by apply unassociated_linked].
  destruct (records s1 !! b) as [r|] eqn:Hr; [by eapply associate_linked|].
  unfold associate_gateway. cbn. rewrite Hr. by apply unassociated_linked.
Qed.

Lemma app_step_linked `{!JsonText} own server_url ev s : linked own s → linked own (app_step server_url ev s).
Proof.
  intros Hs. destruct ev; cbn.
  - eapply same_links_linked; [apply register_channel_same|done].
  - by apply sweep_linked.
  - by apply check_timeouts_cancelled_linked.
  - by apply handle_message_linked.
Qed.

Lemma run_linked `{!JsonText} own server_url evs : linked own (run_beacon_message_loop own server_url evs).
Proof.
  unfold run_beacon_message_loop. generalize (new_registry_linked own). generalize (new_registry own).
  induction evs as [|ev evs IH]; intros s Hs; [done|]. by apply IH, app_step_linked.
Qed.

(** C8: Whatever happens, sweeps cut short included, a live gateway connection belongs to
    exactly one registered beacon, the one that advertised it; there is at most one
    connection per gateway and none to the gateway configured as our own. *)
Theorem gateway_connections_sound `{!JsonText} own server_url evs :
  let s := run_beacon_message_loop own server_url evs in
  (∀ i c, connections s !! i = Some c → own ≠ Some (conn_gateway c) ∧
     ∃ id r, records s !! id = Some r ∧ gateway_url r = Some (conn_gateway c) ∧ gateway_shutdown_tx r = Some i) ∧
  (∀ i j c c', connections s !! i = Some c → connections s !! j = Some c' →
     conn_gateway c = conn_gateway c' → i = j).
Proof.
  intros s. destruct (run_linked own server_url evs : linked own s) as [_ H2 H3 H4]. split.
  - intros i c Hi. destruct (H4 i c Hi) as [_ [id Hid]]. specialize (H2 id). rewrite Hid in H2.
    split; [apply H2|]. unfold links in Hid. destruct (records s !! id) as [r|] eqn:Hr; [|done]. cbn in Hid.
    unfold link in Hid. injection Hid as ? ?. by exists id, r.
  - intros i j c c' Hi Hj Hc. destruct (H4 i c Hi) as [_ [id Hid]], (H4 j c' Hj) as [_ [id' Hid']].
    assert (id = id') as ->; [|congruence]. apply (H3 id id' (conn_gateway c)); [by rewrite Hid|].
    rewrite Hid'. cbn. by rewrite Hc.
Qed.

(** *** What a sweep does *)

(** A value of the records with the given ids. *)
Definition swept {A} (f : BeaconRecord → option A) (ids : list string) (s : BeaconRegistry) : list A :=
  omap (λ id, records s !! id ≫= f) ids.

Definition topic_of (r : BeaconRecord) : option string :=
  if decide (broadcast_topic r = "") then None else Some (broadcast_topic r).

Lemma elem_of_swept {A} (f : BeaconRecord → option A) ids s x :
  x ∈ swept f ids s ↔ ∃ id r, id ∈ ids ∧ records s !! id = Some r ∧ f r = Some x.
Proof.
  unfold swept. rewrite list_elem_of_omap. split.
  - intros (id & Hid & Hx). destruct (records s !! id) as [r|] eqn:Hr; [|done]. eauto.
  - intros (id & r & Hid & Hr & Hx). exists id. split; [done|]. by rewrite Hr.
Qed.

Lemma sweep_one_records fate id s : records (sweep_one fate id s) = delete id (records s).
Proof.
  unfold sweep_one. destruct (records s !! id) as [r|] eqn:Hr; [|by rewrite delete_id].
  cbn. unfold sweep_gateway, sweep_topics, sweep_unsubscribe. repeat case_match; done.
Qed.

Lemma swept_cons {A} (f : BeaconRecord → option A) fate id ids s x :
  x ∈ swept f (id :: ids) s ↔ x ∈ swept f [id] s ∨ x ∈ swept f ids (sweep_one fate id s).
Proof.
  rewrite !elem_of_swept, sweep_one_records. split.
  - intros (id' & r & Hid & Hr & Hx). destruct (decide (id' = id)) as [->|Hne].
    + left. exists id, r. split_and!; [by left|done..].
    + right. apply elem_of_cons in Hid as [?|Hid]; [done|]. exists id', r. by rewrite lookup_delete_ne.
  - intros [(id' & r & ->%list_elem_of_singleton & ?)|(id' & r & ? & [? ?]%lookup_delete_Some & ?)].
    + exists id, r. split; [by left|done].
    + exists id', r. split; [by right|done].
Qed.

Lemma sweep_one_effect fate id s : let s' := sweep_one fate id s in
  broadcast_topics s' = filter (λ t, t ∉ swept topic_of [id] s) (broadcast_topics s) ∧
  (∀ u, u ∈ known_gateways s' ↔ u ∈ known_gateways s ∧ u ∉ swept gateway_url [id] s) ∧
  (∀ i, connections s' !! i = if decide (i ∈ swept gateway_shutdown_tx [id] s) then None else connections s !! i).
Proof.
  cbn zeta. unfold sweep_one, swept. cbn. destruct (records s !! id) as [r|]; cbn; cycle 1.
  { split_and!; [|intros; set_solver|intros; by rewrite decide_False by set_solver].
    symmetry. apply filter_true. set_solver. }
  split_and!.
  - unfold sweep_gateway, sweep_topics, sweep_unsubscribe, topic_of.
    destruct (gateway_url r); cbn; destruct (decide (broadcast_topic r = "")); cbn; destruct (decide (listen_topic r = "")); cbn;
      first [apply list_filter_iff; set_solver | symmetry; apply filter_true; set_solver].
  - intros u. unfold sweep_gateway, sweep_topics, sweep_unsubscribe.
    destruct (gateway_url r); cbn; do 2 case_decide; cbn; set_solver.
  - intros i. destruct (gateway_shutdown_tx r) as [j|]; cbn.
    + rewrite lookup_delete. assert (connections (sweep_gateway r (sweep_topics r (sweep_unsubscribe fate r (set_records (delete id) s)))) = connections s) as ->
        by (unfold sweep_gateway, sweep_topics, sweep_unsubscribe; repeat case_match; done).
      repeat case_decide; set_solver.
    + rewrite decide_False by set_solver. unfold sweep_gateway, sweep_topics, sweep_unsubscribe; repeat case_match; done.
Qed.

Lemma sweep_records fates ids s id :
  records (sweep fates ids s) !! id = if decide (id ∈ ids) then None else records s !! id.
Proof.
  revert s; induction ids as [|id' ids IH]; intros s; cbn [sweep]; [done|].
  rewrite IH, sweep_one_records, lookup_delete. repeat case_decide; set_solver.
Qed.

Lemma sweep_effect fates ids s : let s' := sweep fates ids s in
  broadcast_topics s' = filter (λ t, t ∉ swept topic_of ids s) (broadcast_topics s) ∧
  (∀ u, u ∈ known_gateways s' ↔ u ∈ known_gateways s ∧ u ∉ swept gateway_url ids s) ∧
  (∀ i, connections s' !! i = if decide (i ∈ swept gateway_shutdown_tx ids s) then None else connections s !! i).
Proof.
  cbn zeta. revert s; induction ids as [|id ids IH]; intros s; cbn [sweep].
  { split_and!; [|intros; set_solver|done]. symmetry. apply filter_true. set_solver. }
  destruct (IH (sweep_one (fates id) id s)) as (I1 & I2 & I3).
  destruct (sweep_one_effect (fates id) id s) as (O1 & O2 & O3).
  split_and!.
  - rewrite I1, O1, list_filter_filter. apply list_filter_iff. intros t.
    pose proof (swept_cons topic_of (fates id) id ids s t). tauto.
  - intros u. rewrite I2, O2. pose proof (swept_cons gateway_url (fates id) id ids s u). tauto.
  - intros i. rewrite I3, O3. pose proof (swept_cons gateway_shutdown_tx (fates id) id ids s i).
    repeat case_decide; try done; tauto.
Qed.

(** The values of the stale records, whatever the order. *)
Definition stale_values {A} `{Countable A} (f : BeaconRecord → option A) (now : Z) (s : BeaconRegistry) : gset A :=
  list_to_set (omap (λ ir, f ir.2) (map_to_list (filter (λ ir, is_stale now ir.2) (records s)))).

Lemma elem_of_stale_ids now s id : id ∈ stale_ids now s ↔ ∃ r, records s !! id = Some r ∧ is_stale now r.
Proof.
  unfold stale_ids. rewrite elem_of_dom. split.
  - intros [r [? ?]%map_lookup_filter_Some]. eauto.
  - intros (r & ? & ?). exists r. by apply map_lookup_filter_Some.
Qed.

Lemma elem_of_stale_values {A} `{Countable A} (f : BeaconRecord → option A) now s order x :
  (∀ id, id ∈ stale_ids now s → id ∈ order) →
  x ∈ stale_values f now s ↔ x ∈ swept f (filter (λ id, id ∈ stale_ids now s) order) s.
Proof.
  intros Hord. unfold stale_values. rewrite elem_of_list_to_set, list_elem_of_omap, elem_of_swept. split.
  - intros ([id r] & [Hr Hst]%elem_of_map_to_list%map_lookup_filter_Some & Hx). exists id, r.
    split_and!; [|done..]. assert (id ∈ stale_ids now s) by (apply elem_of_stale_ids; eauto).
    apply list_elem_of_filter. auto.
  - intros (id & r & [Hst _]%list_elem_of_filter & Hr & Hx). apply elem_of_stale_ids in Hst as (r' & Hr' & Hst).
    exists (id, r). split; [|done]. apply elem_of_map_to_list, map_lookup_filter_Some. simplify_eq. done.
Qed.

(** C9: A completed sweep removes exactly the beacons silent for more than 120 seconds and
    everything that was theirs, in whatever order the map yields them: their topics
    leave the broadcast list, which keeps its order otherwise, their gateways can be
    connected to again, their connections end, and nothing else changes. *)
Theorem check_timeouts_spec now order fates s :
  (∀ id, id ∈ stale_ids now s → id ∈ order) →
  let s' := check_timeouts now order fates s in
  records s' = filter (λ ir, ¬ is_stale now ir.2) (records s) ∧
  broadcast_topics s' = filter (λ t, t ∉ stale_values topic_of now s) (broadcast_topics s) ∧
  known_gateways s' = known_gateways s ∖ stale_values gateway_url now s ∧
  (∀ i, connections s' !! i = if decide (i ∈ stale_values gateway_shutdown_tx now s) then None else connections s !! i).
Proof.
  intros Hord. cbn zeta. unfold check_timeouts. set (ids := filter (λ id, id ∈ stale_ids now s) order).
  destruct (sweep_effect fates ids s) as (E1 & E2 & E3). split_and!.
  - apply map_eq. intros id. rewrite sweep_records.
    assert (id ∈ ids ↔ ∃ r, records s !! id = Some r ∧ is_stale now r) as Hids.
    { unfold ids. rewrite list_elem_of_filter, <- elem_of_stale_ids. naive_solver. }
    destruct (filter _ (records s) !! id) as [r|] eqn:Hf.
    + apply map_lookup_filter_Some in Hf as [Hr Hst]. rewrite decide_False; [done|].
      rewrite Hids. intros (r' & ? & ?). simplify_eq. done.
    + case_decide as Hd; [done|]. rewrite map_lookup_filter_None in Hf. destruct Hf as [?|Hf]; [done|].
      destruct (records s !! id) as [r|] eqn:Hr; [|done]. exfalso. apply Hd, Hids. exists r. split; [done|].
      specialize (Hf r eq_refl). cbn in Hf. by apply dec_stable.
  - rewrite E1. apply list_filter_iff. intros t. by rewrite elem_of_stale_values.
  - apply set_eq. intros u. rewrite E2, elem_of_difference. by rewrite elem_of_stale_values.
  - intros i. rewrite E3. pose proof (elem_of_stale_values gateway_shutdown_tx now s order i Hord) as Hi.
    fold ids in Hi. repeat case_decide; try done; tauto.
Qed.

(** *** A beacon that is heard stays *)

Definition event_time (ev : AppEvent) : Z :=
  match ev with
  | EvChannel now _ _ | EvSweep now _ _ | EvSweepCancelled now _ _ _ _ | EvMessage now _ => now
  end.

Definition is_sweep (ev : AppEvent) : bool :=
  match ev with EvSweep _ _ _ | EvSweepCancelled _ _ _ _ _ => true | _ => false end.

(** The beacon is registered and was heard at [t] or later. *)
Definition heard_since (t : Z) (id : string) (s : BeaconRegistry) : Prop :=
  ∃ r, records s !! id = Some r ∧ (t ≤ last_seen r)%Z.

Lemma heard_alter t id f b s : (∀ r, t ≤ last_seen r → t ≤ last_seen (f r))%Z →
  heard_since t id s → heard_since t id (set_records (alter f b) s).
Proof.
  intros Hf (r & Hr & Ht). unfold heard_since. cbn. rewrite lookup_alter. case_decide; subst.
  - rewrite Hr. cbn. eauto.
  - eauto.
Qed.

Lemma heard_not_stale t now id s : heard_since t id s → (now ≤ t + BEACON_TIMEOUT)%Z → id ∉ stale_ids now s.
Proof.
  intros (r & Hr & Ht) Hn (r' & Hr' & Hs)%elem_of_stale_ids. simplify_eq. unfold is_stale, BEACON_TIMEOUT in *. lia.
Qed.

Lemma heard_sweep t id fates ids s : id ∉ ids → heard_since t id s → heard_since t id (sweep fates ids s).
Proof. intros Hid (r & Hr & Ht). exists r. by rewrite sweep_records, decide_False. Qed.

Lemma heard_register t now fate ch id s : heard_since t id s → heard_since t id (register_channel now fate ch s).
Proof.
  intros (r & Hr & Ht). unfold register_channel.
  set (s0 := set_records (λ m, match m !! ch_beacon_id ch with Some _ => m | None => _ end) s).
  assert (heard_since t id s0) as H0.
  { exists r. split; [|done]. cbn. case_match eqn:Hm; [done|]. rewrite lookup_insert_ne; [done|]. congruence. }
  clearbody s0. destruct (ch_topic_type ch).
  - destruct (subscribe _ _ _ _) as [[] log]; [|done]. by apply heard_alter.
  - by apply heard_alter.
  - destruct (subscribe _ _ _ _) as [[] log]; [|done]. by apply heard_alter.
Qed.

Lemma heard_message `{!JsonText} t server_url now msg id s : (t ≤ now)%Z →
  heard_since t id s → heard_since t id (handle_message server_url now msg s).
Proof.
  intros Hn Hs. unfold handle_message.
  set (s1 := match strip_suffix "/rec" (msg_topic msg) with Some b => update_last_seen now b s | None => s end).
  assert (heard_since t id s1) as (r & Hr & Ht).
  { unfold s1. case_match; [|done]. by apply heard_alter. }
  clearbody s1. unfold spawn_connection. destruct (advertised_gateway _) as [u|]; [|by exists r].
  case_match; [by exists r|]. cbn. destruct (strip_suffix _ _) as [b|]; [|by exists r].
  unfold associate_gateway. cbn. destruct (records s1 !! b) as [rb|] eqn:Hb; [|by exists r].
  unfold heard_since. cbn. rewrite lookup_insert. case_decide; subst; [|by exists r]. simplify_eq. eauto.
Qed.

Lemma heard_step `{!JsonText} t server_url ev id s :
  (t ≤ event_time ev)%Z → (is_sweep ev = true → event_time ev ≤ t + BEACON_TIMEOUT)%Z →
  heard_since t id s → heard_since t id (app_step server_url ev s).
Proof.
  intros Ht Hsw Hs. destruct ev as [now fate ch|now order fates|now done_ b at_ fates|now msg]; cbn in *.
  - by apply heard_register.
  - apply heard_sweep; [|done]. intros [Hst _]%list_elem_of_filter. revert Hst. by apply (heard_not_stale t); [|apply Hsw].
  - unfold check_timeouts_cancelled. destruct (records s !! b) as [r|] eqn:Hb; [|done].
    case_match eqn:Hc; [|done]. bools. assert (id ≠ b) as Hne.
    { intros ->. apply (heard_not_stale t now b s); [done|auto|]. apply elem_of_stale_ids. eauto. }
    set (ids := filter _ done_). assert (heard_since t id (sweep fates ids s)) as (r' & Hr' & Ht').
    { apply heard_sweep; [|done]. intros [[Hst _] _]%list_elem_of_filter. revert Hst. by apply (heard_not_stale t); [|apply Hsw]. }
    unfold sweep_suspended. case_match; [|by exists r']. exists r'. split; [|done]. unfold sweep_unsubscribe.
    case_match; cbn; by rewrite lookup_delete_ne.
  - by apply heard_message.
Qed.

(** C10: A beacon that sends a message at time [t] is still registered after any later events
    as long as no sweep among them runs more than 120 seconds after [t]. *)
Theorem heard_beacon_stays `{!JsonText} server_url t id msg evs s :
  msg_topic msg = id +:+ "/rec" → is_Some (records s !! id) →
  Forall (λ ev, t ≤ event_time ev ∧ (is_sweep ev = true → event_time ev ≤ t + BEACON_TIMEOUT))%Z evs →
  is_Some (records (foldl (λ s ev, app_step server_url ev s) s (EvMessage t msg :: evs)) !! id).
Proof.
  intros Htop [r Hr] Hevs. cbn [foldl].
  assert (heard_since t id (app_step server_url (EvMessage t msg) s)) as Hh.
  { cbn. unfold handle_message. rewrite Htop, strip_suffix_app. cbn zeta.
    assert (heard_since t id (update_last_seen t id s)) as (r1 & Hr1 & Ht1).
    { unfold heard_since. cbn. rewrite lookup_alter_eq, Hr. eexists. split; [done|cbn; lia]. }
    unfold spawn_connection. destruct (advertised_gateway _) as [u|]; [|by exists r1].
    case_match; [by exists r1|]. cbn in Hr1. unfold associate_gateway. cbn. rewrite Hr1.
    unfold heard_since. cbn. rewrite lookup_insert_eq. eexists. split; [done|exact Ht1]. }
  clear Hr. generalize dependent (app_step server_url (EvMessage t msg) s).
  induction Hevs as [|ev evs [Ht Hsw] _ IH]; intros s' Hh; cbn; [destruct Hh as (r' & -> & _); eauto|].
  by apply IH, heard_step.
Qed.

(** *** Gateways that are lost *)

(** Known, so never connected to again, and of no beacon, so never forgotten. *)
Definition orphan (u : string) (s : BeaconRegistry) : Prop :=
  u ∈ known_gateways s ∧ ∀ id, (links s id).1 ≠ Some u.

Lemma orphan_same u s s' : same_links s s' → orphan u s → orphan u s'.
Proof. intros (Hl & Hk & _) [H1 H2]. split; [by rewrite Hk|]. intros id. by rewrite Hl. Qed.

Lemma sweep_one_links fate beacon s id :
  links (sweep_one fate beacon s) id = if decide (id = beacon) then (None, None) else links s id.
Proof. unfold links at 1. rewrite sweep_one_records. apply (links_delete beacon s id). Qed.

Lemma orphan_sweep u fates ids s : orphan u s → orphan u (sweep fates ids s).
Proof.
  revert s; induction ids as [|id ids IH]; intros s [H1 H2]; [done|]. apply IH. split.
  - apply (sweep_one_effect (fates id) id s). split; [done|].
    intros (id' & r & _ & Hr & Hu)%elem_of_swept. apply (H2 id'). by rewrite (links_record _ _ _ Hr).
  - intros id'. rewrite sweep_one_links. by case_decide.
Qed.

Lemma orphan_suspended u beacon at_ s : orphan u s → orphan u (sweep_suspended beacon at_ s).
Proof.
  intros [H1 H2]. unfold sweep_suspended. destruct (records s !! beacon) as [r|]; [|done].
  destruct (removed_links (match at_ with AtUnsubscribe f | AtTopicLock f => f end) r beacon s) as (L1 & L2 & _).
  split; [cbn; by rewrite L2|]. intros id.
  change ((links (sweep_unsubscribe (match at_ with AtUnsubscribe f | AtTopicLock f => f end) r (set_records (delete beacon) s)) id).1 ≠ Some u).
  rewrite L1. by case_decide.
Qed.

Lemma orphan_message `{!JsonText} u server_url now msg s : orphan u s → orphan u (handle_message server_url now msg s).
Proof.
  intros Hs. unfold handle_message.
  set (s1 := match strip_suffix "/rec" (msg_topic msg) with Some b => update_last_seen now b s | None => s end).
  assert (orphan u s1) as [H1 H2].
  { unfold s1. case_match; [|done]. eapply orphan_same; [apply update_last_seen_same|done]. }
  clearbody s1. destruct (advertised_gateway _) as [v|]; [|done].
  unfold is_gateway_known. case_bool_decide as Hv; [done|]. assert (u ≠ v) as Hne by (by intros ->).
  unfold spawn_connection. cbn. destruct (strip_suffix _ _) as [b|]; [|split; [cbn; set_solver|done]].
  unfold associate_gateway. cbn. destruct (records s1 !! b) as [r|]; [|split; [cbn; set_solver|done]].
  split; [cbn; set_solver|]. intros id. rewrite links_set_records. cbn. rewrite lookup_insert.
  case_decide; [cbn; congruence|apply H2].
Qed.

Lemma orphan_step `{!JsonText} u server_url ev s : orphan u s → orphan u (app_step server_url ev s).
Proof.
  intros Hs. destruct ev; cbn.
  - eapply orphan_same; [apply register_channel_same|done].
  - by apply orphan_sweep.
  - unfold check_timeouts_cancelled. repeat case_match; [|done..]. by apply orphan_suspended, orphan_sweep.
  - by apply orphan_message.
Qed.

Lemma orphan_no_connection own u s i c : linked own s → orphan u s → connections s !! i = Some c → conn_gateway c ≠ u.
Proof. intros [_ _ _ H4] [_ H2] Hi. apply H4 in Hi as [_ [id Hid]]. intros <-. apply (H2 id). by rewrite Hid. Qed.

Lemma orphan_forever `{!JsonText} own server_url evs later u :
  orphan u (run_beacon_message_loop own server_url evs) →
  let s := run_beacon_message_loop own server_url (evs ++ later) in
  u ∈ known_gateways s ∧ ∀ i c, connections s !! i = Some c → conn_gateway c ≠ u.
Proof.
  intros Ho. cbn zeta. assert (orphan u (run_beacon_message_loop own server_url (evs ++ later))) as Ho'.
  { unfold run_beacon_message_loop in *. rewrite foldl_app. revert Ho. generalize (foldl (λ s ev, app_step server_url ev s) (new_registry own) evs).
    induction later as [|ev later IH]; intros s Hs; [done|]. by apply IH, orphan_step. }
  split; [apply Ho'|]. intros i c. eapply orphan_no_connection; [apply run_linked|done].
Qed.

(** C39: A gateway that is not yet known and is advertised on a topic that is not of the form [id/rec], such as the
    [registration] topic every node subscribes to, is lost: the connection opened for
    it is closed at once, and no event ever opens another one, because the gateway
    stays marked as known. *)
Theorem unattributed_gateway_lost `{!JsonText} own server_url evs now msg u later :
  strip_suffix "/rec" (msg_topic msg) = None →
  advertised_gateway (beacon_payload (msg_payload msg)) = Some u →
  u ∉ known_gateways (run_beacon_message_loop own server_url evs) →
  let s := run_beacon_message_loop own server_url (evs ++ EvMessage now msg :: later) in
  u ∈ known_gateways s ∧ ∀ i c, connections s !! i = Some c → conn_gateway c ≠ u.
Proof.
  intros Htop Hadv Hu. rewrite cons_middle, app_assoc. apply orphan_forever.
  pose proof (run_linked own server_url evs) as [_ H2 _ _].
  unfold run_beacon_message_loop in *. rewrite foldl_app. set (s := foldl _ (new_registry own) evs) in *.
  cbn. unfold handle_message. rewrite Htop, Hadv. unfold is_gateway_known. rewrite bool_decide_false by done. cbn.
  split; [cbn; set_solver|]. intros id E. specialize (H2 id). change (links _ id) with (links s id) in E.
  destruct (links s id) as [[v|] [i|]]; simplify_eq/=; [|done]. by destruct H2.
Qed.

(** C40: A sweep that is cut short leaks: when it is dropped while it handles a stale beacon,
    the beacon's record and connection are gone, but its gateway stays marked as known
    and is never connected to again, whatever follows. *)
Theorem cancelled_sweep_loses_gateway `{!JsonText} own server_url evs now done_ id at_ fates r u later :
  let s0 := run_beacon_message_loop own server_url evs in
  records s0 !! id = Some r → is_stale now r → can_suspend at_ r = true → gateway_url r = Some u →
  let s := run_beacon_message_loop own server_url (evs ++ EvSweepCancelled now done_ id at_ fates :: later) in
  u ∈ known_gateways s ∧ ∀ i c, connections s !! i = Some c → conn_gateway c ≠ u.
Proof.
  intros s0 Hr Hst Hcan Hu. rewrite cons_middle, app_assoc. apply orphan_forever.
  pose proof (run_linked own server_url evs : linked own s0) as Hl.
  unfold run_beacon_message_loop in *. rewrite foldl_app. fold s0. cbn.
  unfold check_timeouts_cancelled. rewrite Hr, bool_decide_true, Hcan by done. cbn [andb].
  set (ids := filter (λ x, x ∈ stale_ids now s0 ∧ x ≠ id) done_).
  assert (id ∉ ids) as Hid by (intros [[_ ?] _]%list_elem_of_filter; done).
  set (s1 := sweep fates ids s0). assert (records s1 !! id = Some r) as Hr1 by (by unfold s1; rewrite sweep_records, decide_False).
  assert (linked own s1) as Hl1 by (by apply sweep_linked). clearbody s1.
  unfold sweep_suspended. rewrite Hr1.
  destruct (removed_links (match at_ with AtUnsubscribe f | AtTopicLock f => f end) r id s1) as (L1 & L2 & _).
  pose proof (links_record _ _ _ Hr1) as Hlr. unfold link in Hlr. rewrite Hu in Hlr.
  destruct Hl1 as [_ H2 H3 _]. split.
  - cbn. rewrite L2. specialize (H2 id). rewrite Hlr in H2. destruct (gateway_shutdown_tx r); [apply H2|done].
  - intros id' E.
    change ((links (sweep_unsubscribe (match at_ with AtUnsubscribe f | AtTopicLock f => f end) r (set_records (delete id) s1)) id').1 = Some u) in E.
    rewrite L1 in E. case_decide as Hne; [done|]. apply Hne, (H3 id' id u); [done|]. by rewrite Hlr.
Qed.

(** *** Concrete runs *)

(** One text that is JSON: the advertisement of a gateway. *)
Definition ex_text : JsonText := λ s,
  if decide (s = "gw") then Some (JObject [("gateway_url", JString "https://gw")]) else None.

#[local] Existing Instance ex_text.

Definition secs (n : Z) : Z := n * 1000000000.

Definition ex_channels : list AppEvent :=
  [EvChannel (secs 0) (TaskAnswers (Ok ())) (mkTopicChannel "b1" (mkTopicConfig "b1/rec" 1) Listen);
   EvChannel (secs 0) (TaskAnswers (Ok ())) (mkTopicChannel "b1" (mkTopicConfig "b1/cast" 1) Broadcast)].

Definition ex_advert (now : Z) : AppEvent := EvMessage now (mkMqttMessage "b1/rec" "gw").

Definition ex_run (evs : list AppEvent) : BeaconRegistry := run_beacon_message_loop (Some "https://own") "https://me" evs.

Example ex_advert_connects :
  conn_ws_url <$> (connections (ex_run (ex_channels ++ [ex_advert (secs 5)])) !! 0) = Some "wss://gw/ws".
Proof. vm_compute. reflexivity. Qed.

Lemma check_timeouts_spec_witness :
  let s := ex_run (ex_channels ++ [ex_advert (secs 5)]) in
  let s' := check_timeouts (secs 200) ["b1"] (λ _, TaskAnswers (Ok ())) s in
  records s' = filter (λ ir, ¬ is_stale (secs 200) ir.2) (records s) ∧ broadcast_topics s' = [].
Proof.
  intros s s'. destruct (check_timeouts_spec (secs 200) ["b1"] (λ _, TaskAnswers (Ok ())) s) as (H1 & H2 & _).
  - intros id Hid. assert (stale_ids (secs 200) s = {["b1"]}) as Hs by (vm_compute; reflexivity).
    rewrite Hs in Hid. apply elem_of_singleton in Hid. subst. by left.
  - split; [exact H1|]. vm_compute. reflexivity.
Defined.

Lemma heard_beacon_stays_witness :
  is_Some (records (foldl (λ s ev, app_step "https://me" ev s) (ex_run ex_channels)
    (EvMessage (secs 100) (mkMqttMessage "b1/rec" "hello") :: [EvSweep (secs 210) ["b1"] (λ _, TaskGone)])) !! "b1").
Proof.
  apply (heard_beacon_stays "https://me" (secs 100) "b1" (mkMqttMessage "b1/rec" "hello")).
  - reflexivity.
  - vm_compute. eexists. reflexivity.
  - constructor; [|constructor]. split; [done|]. intros _. done.
Defined.

Lemma unattributed_gateway_lost_witness :
  let s := ex_run (ex_channels ++ EvMessage (secs 1) (mkMqttMessage "registration" "gw") :: [ex_advert (secs 5)]) in
  "https://gw" ∈ known_gateways s ∧ (∀ i c, connections s !! i = Some c → conn_gateway c ≠ "https://gw") ∧
  connections s = ∅.
Proof.
  intros s.
  destruct (unattributed_gateway_lost (Some "https://own") "https://me" ex_channels (secs 1)
    (mkMqttMessage "registration" "gw") "https://gw" [ex_advert (secs 5)]) as [H1 H2];
    [reflexivity|reflexivity|by apply (bool_decide_unpack _); vm_compute|].
  split; [exact H1|]. split; [exact H2|]. vm_compute. reflexivity.
Defined.

Lemma cancelled_sweep_loses_gateway_witness :
  let evs := ex_channels ++ [ex_advert (secs 5)] in
  let s := ex_run (evs ++ EvSweepCancelled (secs 200) [] "b1" (AtTopicLock (TaskAnswers (Ok ()))) (λ _, TaskGone) :: []) in
  "https://gw" ∈ known_gateways s ∧ records s = ∅ ∧ broadcast_topics s = ["b1/cast"].
Proof.
  intros evs s.
  destruct (cancelled_sweep_loses_gateway (Some "https://own") "https://me" evs (secs 200) [] "b1"
    (AtTopicLock (TaskAnswers (Ok ()))) (λ _, TaskGone)
    (mkBeaconRecord "b1/rec" "b1/cast" (secs 5) (Some "https://gw") (Some 0)) "https://gw" []) as [H1 _];
    [vm_compute; reflexivity|done|reflexivity|reflexivity|].
  split; [exact H1|]. split; vm_compute; reflexivity.
Defined.
