(* ===== verification/Timeouts.v ===== *)
(** * The timer of the sweep (src/services/beacon_management/registry.rs)

    [check_timeouts] waits for the tick of an interval of 30 seconds before it sweeps.  The
    message loop with this timer is the loop of [Registry] in which a sweep starts only when
    its tick is due, and the clock does not go back. *)

From S2P Require Import Prelude RustStr Json MqttClient CloudGateway Registry.
From stdpp Require Import options.

#[local] Arguments strip_suffix : simpl never.

Definition BEACON_TIMEOUT_CHECK_INTERVAL : Z := 30 * 1000000000.

Record TimedRegistry := mkTimed {
  td_registry : BeaconRegistry;
  td_timeout_tick : Z;
  td_clock : Z
}.

(** [BeaconRegistry::new] at [now]: the first tick is due at once. *)
Definition new_timed (own_gateway_url : option string) (now : Z) : TimedRegistry :=
  mkTimed (new_registry own_gateway_url) now now.

Section timed.
Context `{!JsonText}.

(** Whether the tick due at a moment counts as late when it is taken at another; the timer
    decides. *)
Context (late : Z → Z → bool).

(** The deadline after the tick of [deadline] is taken at [now], with
    [MissedTickBehavior::Delay]. *)
Definition next_tick (deadline now : Z) : Z :=
  if late deadline now then now + BEACON_TIMEOUT_CHECK_INTERVAL else deadline + BEACON_TIMEOUT_CHECK_INTERVAL.

(** One event of the loop, nothing when it cannot happen yet. *)
Definition timed_step (server_url : string) (ev : AppEvent) (s : TimedRegistry) : option TimedRegistry :=
  let now := event_time ev in
  let reg := app_step server_url ev (td_registry s) in
  if (now <? td_clock s)%Z then None
  else if is_sweep ev then
    if (now <? td_timeout_tick s)%Z then None else Some (mkTimed reg (next_tick (td_timeout_tick s) now) now)
  else Some (mkTimed reg (td_timeout_tick s) now).

Fixpoint timed_run (server_url : string) (evs : list AppEvent) (s : TimedRegistry) : option TimedRegistry :=
  match evs with
  | [] => Some s
  | ev :: evs => timed_step server_url ev s ≫= timed_run server_url evs
  end.

(** ** Proofs *)

(** The loop takes a due tick within [delay], and a sweep it starts runs to its end over the
    whole map. *)
Definition punctual (delay : Z) (ev : AppEvent) (s : TimedRegistry) : Prop :=
  (event_time ev ≤ td_timeout_tick s + delay)%Z ∧
  match ev with
  | EvSweep now order _ => ∀ id, id ∈ stale_ids now (td_registry s) → id ∈ order
  | EvSweepCancelled _ _ _ _ _ => False
  | _ => True
  end.

Fixpoint punctual_run (delay : Z) (server_url : string) (evs : list AppEvent) (s : TimedRegistry) : Prop :=
  match evs with
  | [] => True
  | ev :: evs => punctual delay ev s ∧ ∀ s', timed_step server_url ev s = Some s' → punctual_run delay server_url evs s'
  end.

(** No record is older than the last sweep allows. *)
Record timed_ok (s : TimedRegistry) : Prop := {
  to_clock : (td_timeout_tick s ≤ td_clock s + BEACON_TIMEOUT_CHECK_INTERVAL)%Z;
  to_seen : ∀ id r, records (td_registry s) !! id = Some r →
    (td_timeout_tick s - BEACON_TIMEOUT_CHECK_INTERVAL - BEACON_TIMEOUT ≤ last_seen r)%Z
}.

(** A lower bound on the moments of the records. *)
Definition seen_from (t : Z) (s : BeaconRegistry) : Prop := ∀ id r, records s !! id = Some r → (t ≤ last_seen r)%Z.

Lemma seen_from_register t now fate ch s : (t ≤ now)%Z → seen_from t s → seen_from t (register_channel now fate ch s).
Proof.
  intros Hn Hs. unfold register_channel.
  set (s0 := set_records (λ m, match m !! ch_beacon_id ch with Some _ => m | None => _ end) s).
  assert (seen_from t s0) as H0.
  { intros id r. cbn. case_match eqn:Hm; [apply Hs|]. rewrite lookup_insert. case_decide; [|apply Hs].
    by intros [= <-]. }
  assert (∀ f s, (∀ r, last_seen (f r) = last_seen r) → seen_from t s → seen_from t (set_records (alter f (ch_beacon_id ch)) s)) as Halter.
  { intros f s1 Hf H1 id r. cbn. rewrite lookup_alter. case_decide; [|apply H1]. intros (r' & Hr & ->)%fmap_Some.
    rewrite Hf. by eapply H1. }
  clearbody s0. destruct (ch_topic_type ch).
  - destruct (subscribe _ _ _ _) as [[] log]; [|done]. by apply Halter.
  - by apply Halter.
  - destruct (subscribe _ _ _ _) as [[] log]; [|done]. by apply Halter.
Qed.

Lemma seen_from_message t server_url now msg s : (t ≤ now)%Z → seen_from t s → seen_from t (handle_message server_url now msg s).
Proof.
  intros Hn Hs. unfold handle_message.
  set (s1 := match strip_suffix "/rec" (msg_topic msg) with Some b => update_last_seen now b s | None => s end).
  assert (seen_from t s1) as H1.
  { unfold s1. case_match; [|done]. intros id r. cbn. rewrite lookup_alter. case_decide; [|apply Hs].
    by intros (r' & Hr & ->)%fmap_Some. }
  clearbody s1. unfold spawn_connection. destruct (advertised_gateway _) as [u|]; [|done].
  case_match; [done|]. cbn. destruct (strip_suffix _ _) as [b|]; [|done].
  unfold associate_gateway. cbn. destruct (records s1 !! b) as [rb|] eqn:Hb; [|done].
  intros id r. cbn. rewrite lookup_insert. case_decide; [|apply H1]. intros [= <-]. cbn. by eapply H1.
Qed.

Lemma seen_from_sweep now order fates s : (∀ id, id ∈ stale_ids now s → id ∈ order) →
  seen_from (now - BEACON_TIMEOUT) (check_timeouts now order fates s).
Proof.
  intros Ho id r. unfold check_timeouts. rewrite sweep_records. case_decide as Hd; [done|]. intros Hr.
  assert (¬ is_stale now r) as Hst.
  { intros Hst. apply Hd. assert (id ∈ stale_ids now s) by (apply elem_of_stale_ids; eauto). apply list_elem_of_filter. auto. }
  unfold is_stale in Hst. lia.
Qed.

Lemma timed_step_ok delay server_url ev s s' : punctual delay ev s → timed_ok s → timed_step server_url ev s = Some s' →
  timed_ok s'.
Proof.
  intros [_ Hp] [H1 H2]. unfold timed_step. destruct (_ <? td_clock s)%Z eqn:Hc; [done|]. bools.
  assert (td_timeout_tick s - BEACON_TIMEOUT_CHECK_INTERVAL - BEACON_TIMEOUT ≤ event_time ev)%Z as Hev
    by (unfold BEACON_TIMEOUT; lia).
  destruct ev as [now fate ch|now order fates|now done_ id at_ fates|now msg]; cbn in *.
  - intros [= <-]. split; cbn; [lia|]. by apply seen_from_register.
  - destruct (_ <? td_timeout_tick s)%Z eqn:Hd; [done|]. bools. intros [= <-].
    assert (next_tick (td_timeout_tick s) now ≤ now + BEACON_TIMEOUT_CHECK_INTERVAL)%Z as Hn
      by (unfold next_tick; case_match; lia).
    split; cbn; [done|]. intros id r Hr. apply (seen_from_sweep now order fates _ Hp) in Hr. lia.
  - done.
  - intros [= <-]. split; cbn; [lia|]. by apply seen_from_message.
Qed.

Lemma timed_run_ok delay server_url evs s s' : punctual_run delay server_url evs s → timed_ok s →
  timed_run server_url evs s = Some s' → timed_ok s'.
Proof.
  revert s. induction evs as [|ev evs IH]; intros s Hp Hs; cbn; [by intros [= <-]|].
  intros (s1 & H1 & H2)%bind_Some. destruct Hp as [Hp Hps]. eapply IH; [by apply Hps| |exact H2]. by eapply timed_step_ok.
Qed.

(** C11: A silent beacon does not stay: when the loop takes every due tick within [delay] and no
    sweep is dropped, then at any moment before the next tick is overdue a registered beacon
    was heard less than 150 seconds and [delay] ago, so one that fell silent is gone with its
    topics and its gateway by then. *)
Theorem silent_beacon_removed delay server_url own start evs s m id :
  timed_run server_url evs (new_timed own start) = Some s →
  punctual_run delay server_url evs (new_timed own start) →
  (td_clock s ≤ m ≤ td_timeout_tick s + delay)%Z →
  (∀ r, records (td_registry s) !! id = Some r → m - last_seen r ≤ BEACON_TIMEOUT + BEACON_TIMEOUT_CHECK_INTERVAL + delay)%Z.
Proof.
  intros Hrun Hp Hm r Hr. assert (timed_ok (new_timed own start)) as H0.
  { split; cbn; [unfold BEACON_TIMEOUT_CHECK_INTERVAL; lia|]. intros ??. by rewrite lookup_empty. }
  destruct (timed_run_ok _ _ _ _ _ Hp H0 Hrun) as [_ Hs]. apply Hs in Hr. lia.
Qed.

End timed.

(** ** Concrete runs *)

#[local] Existing Instance ex_text.

Definition ex_timed_events : list AppEvent :=
  EvSweep (secs 0) [] (λ _, TaskGone) :: ex_channels ++
  [EvSweep (secs 30) ["b1"] (λ _, TaskGone); EvSweep (secs 61) ["b1"] (λ _, TaskGone); EvSweep (secs 92) ["b1"] (λ _, TaskGone);
   EvSweep (secs 123) ["b1"] (λ _, TaskGone)].

Lemma stale_covered now s order : bool_decide (stale_ids now s ⊆ list_to_set order) = true →
  ∀ id, id ∈ stale_ids now s → id ∈ order.
Proof. intros Hs%bool_decide_eq_true id Hid. apply Hs in Hid. by apply elem_of_list_to_set in Hid. Qed.

(** A timer with a tolerance of five milliseconds. *)
Definition ex_late (deadline now : Z) : bool := (deadline + 5 * 1000000 <? now)%Z.

Lemma silent_beacon_removed_witness : ∃ s, timed_run ex_late "https://me" ex_timed_events (new_timed None 0) = Some s ∧
  records (td_registry s) = ∅ ∧ td_timeout_tick s = secs 153 ∧
  (∀ r, records (td_registry s) !! "b1" = Some r → secs 150 - last_seen r ≤ BEACON_TIMEOUT + BEACON_TIMEOUT_CHECK_INTERVAL + secs 2)%Z.
Proof.
  eexists. split; [vm_compute; reflexivity|]. split; [vm_compute; reflexivity|]. split; [reflexivity|].
  apply (silent_beacon_removed ex_late (secs 2) "https://me" None 0 ex_timed_events).
  - vm_compute. reflexivity.
  - unfold ex_timed_events, ex_channels. cbn [app].
    repeat (split; [split; [vm_compute; done|first [exact I|apply stale_covered; vm_compute; reflexivity]]|];
            let s := fresh in let E := fresh in intros s E; vm_compute in E; injection E as <-).
    exact I.
  - vm_compute. done.
Defined.
