(* ===== verification/HttpGateway.v ===== *)
(** * The HTTP gateway (src/services/beacon_management/: internals/, gateway_service.rs,
    manager.rs)

    Routing, the device handshake and client registration over the CA, the broker's
    certificate directory and the channel to the message loop, and the managed service.  A request is its headers and what reading its body yields;
    serde_json and rustls are parameters. *)

From S2P Require Import Prelude RustStr Paths Config Supervisor Ca Brokerage Json MqttClient CloudGateway Registry.
From stdpp Require Import options.

(** ** Data (internals/types.rs) *)

Definition SUPPORTED_VERSION : string := "0.0.1".
Definition HEADER_INIT : string := "x-placenet-init".
Definition HEADER_REGISTER : string := "x-placenet-register".
Definition HEADER_HEALTH : string := "x-placenet-health".
Definition PROXY_BODY_LIMIT : nat := 64 * 1024.

Record MdnsConfig := mkMdns { mdns_hostname : string; mdns_port : Z }.

Record DeviceInfo := mkDeviceInfo {
  dev_address : string;
  dev_mdns : MdnsConfig;
  dev_csr_pem : string
}.

Record MqttBrokerageInfo := mkBrokerageInfo {
  bi_address : string;
  bi_port : Z;
  bi_ca_cert_pem : string
}.

(** Header names are stored in lower case; a body is read to the end or fails. *)
Record Request := mkRequest {
  headers : list (string * string);
  body : result string string
}.

Inductive Payload := PText (s : string) | PJson (v : Json).

Record Response := mkResponse {
  status : Z;
  content_type : option string;
  payload : Payload
}.

Definition text_response (st : Z) (msg : string) : Response := mkResponse st None (PText msg).
Definition json_response (st : Z) (v : Json) : Response := mkResponse st (Some "application/json") (PJson v).

(** ** Requests (internals/requests.rs) *)

Fixpoint header_get (name : string) (hs : list (string * string)) : option string :=
  match hs with
  | [] => None
  | (k, v) :: hs => if decide (k = name) then Some v else header_get name hs
  end.

Definition contains_key (name : string) (r : Request) : bool := bool_decide (is_Some (header_get name (headers r))).

(** [HeaderValue::to_str]: visible ASCII, space and tab. *)
Fixpoint visible_ascii (s : string) : bool :=
  match s with
  | "" => true
  | String c s => let n := N_of_ascii c in (((32 <=? n) && (n <? 127)) || (n =? 9))%N && visible_ascii s
  end.

Definition to_str (v : string) : option string := if visible_ascii v then Some v else None.

(** [Limited::new(body, limit).collect()] *)
Definition collect_limited (limit : nat) (b : result string string) : result string string :=
  s ← b; if decide (String.length s ≤ limit) then Ok s else Err "length limit exceeded".

Definition strip_port (h : string) : string :=
  match rsplit_once ":" h with
  | Some (host, _) => if starts_with "[" h then h else host
  | None => h
  end.

Definition mdns_from_json (v : Json) : option MdnsConfig :=
  hostname ← struct_field 2 0 "hostname" v ≫= as_str;
  port ← struct_field 2 1 "port" v ≫= as_u16;
  Some (mkMdns hostname port).

Definition device_from_json (v : Json) : option DeviceInfo :=
  address ← struct_field 3 0 "address" v ≫= as_str;
  mdns ← struct_field 3 1 "mdns" v ≫= mdns_from_json;
  csr ← struct_field 3 2 "csr_pem" v ≫= as_str;
  Some (mkDeviceInfo address mdns csr).

Record DeviceInitRequest := mkInitRequest {
  init_version : string;
  broker_host : string;
  init_device : DeviceInfo
}.

Section requests.
Context `{!JsonText}.

Definition init_process_request (req : Request) : result Response DeviceInitRequest :=
  match header_get HEADER_INIT (headers req) ≫= to_str with
  | None => Err (text_response 400 "Invalid X-PlaceNet-Init header")
  | Some version =>
      if decide (version ≠ SUPPORTED_VERSION) then Err (text_response 400 "Unsupported version")
      else
        let host := default "localhost" (strip_port <$> (header_get "host" (headers req) ≫= to_str)) in
        match collect_limited PROXY_BODY_LIMIT (body req) with
        | Err _ => Err (text_response 400 "Failed to read request body")
        | Ok bytes =>
            match from_slice bytes ≫= device_from_json with
            | None => Err (text_response 422 "Invalid JSON body")
            | Some device => Ok (mkInitRequest version host device)
            end
        end
  end.

Definition register_process_request (req : Request) : result Response string :=
  match collect_limited PROXY_BODY_LIMIT (body req) with
  | Err _ => Err (text_response 400 "Failed to read request body")
  | Ok bytes =>
      match from_slice bytes ≫= (λ v, struct_field 1 0 "csr_pem" v ≫= as_str) with
      | None => Err (text_response 422 "Invalid JSON body")
      | Some csr_pem => Ok csr_pem
      end
  end.

(** ** Handlers (internals/handlers.rs) *)

Context {KeyPair Certificate Rand : Type} `{!Rcgen KeyPair Certificate Rand}.

(** What the handlers share and change: the CA, the file system, and the channel to the
    message loop, with the receiver's end open or not. *)
Record Shared := mkShared {
  sh_ca : CaService KeyPair Certificate;
  sh_fs : FS;
  sh_topics : list TopicChannel;
  sh_topics_open : bool
}.

(** The fields of [AppState] that do not change. *)
Record AppState := mkAppState {
  brokerage_info : MqttBrokerageInfo;
  brokerage : option MqttBrokerageConfig;
  upstream_port : Z;
  has_topic_tx : bool
}.

Definition TOPIC_CAPACITY : nat := 64.

(** [tx.try_send]: dropped when the channel is full or closed. *)
Definition try_send (ch : TopicChannel) (s : Shared) : Shared :=
  if sh_topics_open s && bool_decide (length (sh_topics s) < TOPIC_CAPACITY)
  then mkShared (sh_ca s) (sh_fs s) (sh_topics s ++ [ch]) (sh_topics_open s)
  else s.

Definition with_ca (ca : CaService KeyPair Certificate) (s : Shared) : Shared :=
  mkShared ca (sh_fs s) (sh_topics s) (sh_topics_open s).
Definition with_fs (fs : FS) (s : Shared) : Shared :=
  mkShared (sh_ca s) fs (sh_topics s) (sh_topics_open s).

Definition brokerage_to_json (b : MqttBrokerageInfo) : Json :=
  JObject [("address", JString (bi_address b)); ("port", JNumber (show_uint (bi_port b)));
           ("ca_cert_pem", JString (bi_ca_cert_pem b))].

Definition handle_health (req : Request) : Response := text_response 200 "OK".

(** [uuid] is the fresh identifier. *)
Definition handle_device_init (fse : FsEnv) (e : CaEnv Rand) (uuid : string) (state : AppState) (req : Request)
    (s : Shared) : Response * Shared :=
  match init_process_request req with
  | Err r => (r, s)
  | Ok request =>
      let device := init_device request in
      let hostname := mdns_hostname (dev_mdns device) in
      match sign_csr e hostname (dev_csr_pem device) (sh_ca s) with
      | (Err _, ca) => (text_response 500 "Failed to sign device certificate", with_ca ca s)
      | (Ok pem, ca) =>
          let s := with_ca ca s in
          let '(registered, s) :=
            match brokerage state with
            | Some config =>
                let '(r, fs) := register_cert_identity fse config hostname pem (sh_fs s) in (r, with_fs fs s)
            | None => (Ok (), s)
            end in
          match registered with
          | Err _ => (text_response 500 "Failed to register device MQTT identity", s)
          | Ok _ =>
              let beacon_id := uuid in
              let cast := beacon_id +:+ "/cast" in
              let rec := beacon_id +:+ "/rec" in
              let s :=
                if has_topic_tx state then
                  let s := try_send (mkTopicChannel beacon_id (mkTopicConfig rec 1) Listen) s in
                  try_send (mkTopicChannel beacon_id (mkTopicConfig cast 1) Broadcast) s
                else s in
              let info := mkBrokerageInfo (broker_host request) (bi_port (brokerage_info state))
                            (bi_ca_cert_pem (brokerage_info state)) in
              (json_response 200 (JObject [("cert_pem", JString pem); ("brokerage", brokerage_to_json info);
                                           ("beacon_id", JString beacon_id)]), s)
          end
      end
  end.

Definition handle_client_register (e : CaEnv Rand) (uuid : string) (req : Request) (s : Shared) : Response * Shared :=
  match register_process_request req with
  | Err r => (r, s)
  | Ok csr_pem =>
      let client_id := uuid in
      match sign_csr e client_id csr_pem (sh_ca s) with
      | (Err _, ca) => (text_response 500 "Failed to sign client certificate", with_ca ca s)
      | (Ok pem, ca) =>
          let s := with_ca ca s in
          match ca_cert_pem ca with
          | Err _ => (text_response 500 "Failed to retrieve CA certificate", s)
          | Ok ca_pem =>
              (json_response 201 (JObject [("client_id", JString client_id); ("cert_pem", JString pem);
                                           ("ca_cert_pem", JString ca_pem)]), s)
          end
      end
  end.

(** ** Routing (internals/proxy.rs) *)

(** [forward] is what the upstream server answers to a request sent to a port. *)
Definition dispatch (fse : FsEnv) (e : CaEnv Rand) (uuid : string) (forward : Z → Request → result string Response)
    (state : AppState) (req : Request) (s : Shared) : Response * Shared :=
  if contains_key HEADER_HEALTH req then (handle_health req, s)
  else if contains_key HEADER_INIT req then handle_device_init fse e uuid state req s
  else if contains_key HEADER_REGISTER req then handle_client_register e uuid req s
  else
    match forward (upstream_port state) req with
    | Ok resp => (resp, s)
    | Err _ => (text_response 502 "Bad Gateway", s)
    end.

End requests.
Arguments Shared : clear implicits.
Arguments sh_ca {KeyPair Certificate} _.
Arguments sh_fs {KeyPair Certificate} _.
Arguments sh_topics {KeyPair Certificate} _.
Arguments sh_topics_open {KeyPair Certificate} _.

(** ** The service (gateway_service.rs, internals/tls.rs) *)

Section tls.
Context {KeyPair Certificate Rand Cert Key TlsConfig : Type} `{!Rcgen KeyPair Certificate Rand}.
Context (parse_certs : string → result string (list Cert)).
Context (parse_keys : string → result string (list Key)).
Context (server_config : list Cert → Key → result string TlsConfig).

Definition build_tls_config (ca : CaService KeyPair Certificate) : result string TlsConfig :=
  match ca_state ca with
  | None => Err "CA not initialised"
  | Some c =>
      chain ← map_err (λ e, "Failed to parse CA cert PEM: " +:+ e) (parse_certs (cert_pem (ca_cert c)));
      keys ← map_err (λ e, "Failed to parse CA private key PEM: " +:+ e)
        (parse_keys (keypair_serialize_pem (ca_key_pair c)));
      key ← ok_or "No PKCS8 private key found in CA PEM" (head keys);
      map_err (λ e, "Failed to build TLS server config: " +:+ e) (server_config chain key)
  end.

End tls.

(** The managed service: its listeners, each with whether it uses TLS and whether it is
    still to be shut down; a shutdown sender is the number of its listener, or of none
    when the listener is gone. *)
Record GatewayService := mkGateway {
  gw_config : HttpConfig;
  gw_shutdown_tx : option (option nat);
  gw_listeners : list (bool * bool)
}.

(** The outcome of binding (with the local address) and of [build_tls_config]. *)
Record GatewayEnv := mkGatewayEnv {
  ge_bind : result string ();
  ge_local_addr : result string ();
  ge_tls : result string ()
}.

Definition new_gateway (config : HttpConfig) : GatewayService := mkGateway config None [].

Definition gateway_initialize (e : GatewayEnv) (s : GatewayService) : result string () :=
  let addr := http_host (gw_config s) +:+ ":" +:+ show_uint (http_port (gw_config s)) in
  _ ← map_err (λ err, "Failed to bind listener on " +:+ addr +:+ ": " +:+ err) (ge_bind e);
  map_err (λ err, "Failed to get local address: " +:+ err) (ge_local_addr e).

Definition gateway_start (e : GatewayEnv) : st GatewayService string Z := λ s,
  match gw_shutdown_tx s with
  | Some _ => (Err "GatewayService is already running", s)
  | None =>
      match gateway_initialize e s with
      | Err err => (Err err, s)
      | Ok _ =>
          let running := mkGateway (gw_config s) (Some (Some (length (gw_listeners s))))
                           (gw_listeners s ++ [(http_tls_enabled (gw_config s), true)]) in
          if http_tls_enabled (gw_config s) then
            match ge_tls e with
            | Err err => (Err err, mkGateway (gw_config s) (Some None) (gw_listeners s))
            | Ok _ => (Ok 0%Z, running)
            end
          else (Ok 0%Z, running)
      end
  end.

Definition gateway_stop : st GatewayService string () := λ s,
  match gw_shutdown_tx s with
  | Some (Some i) => (Ok (), mkGateway (gw_config s) None (alter (λ l, (l.1, false)) i (gw_listeners s)))
  | Some None => (Ok (), mkGateway (gw_config s) None (gw_listeners s))
  | None => (Err "GatewayService is not running", s)
  end.

Definition gateway_is_running (s : GatewayService) : bool := bool_decide (is_Some (gw_shutdown_tx s)).

#[global] Instance gateway_managed : ManagedService GatewayEnv GatewayService := {
  ms_start := gateway_start;
  ms_stop _ := gateway_stop;
  ms_is_running _ s := (gateway_is_running s, s)
}.

#[global] Instance gateway_laws : ManagedServiceLaws GatewayEnv GatewayService.
Proof.
  refine {| active s := gateway_is_running s |}.
  - intros e s pid s'. cbn. unfold gateway_start. repeat case_match; intros [= <- <-]; done.
  - intros e s s'. cbn. unfold gateway_stop. repeat case_match; intros [= <-]; done.
  - intros e s msg s'. cbn. unfold gateway_stop, gateway_is_running. destruct (gw_shutdown_tx s); [by case_match|].
    by intros [= _ <-].
Defined.

(** ** The manager (manager.rs) *)

Definition build_brokerage_info (config : MqttBrokerageConfig) (ca_pem : string) : MqttBrokerageInfo :=
  let port := if mb_tls_enabled config then mb_mqtts_port config else mb_port config in
  mkBrokerageInfo "localhost" port ca_pem.

(** ** Proofs *)

(** *** The Host header *)

Lemma starts_with_char_cons c d s : starts_with (String c "") (String d s) = bool_decide (c = d).
Proof.
  unfold starts_with. cbn. destruct (decide (c = d)).
  - rewrite !bool_decide_true; [done..|]. eexists. done.
  - rewrite !bool_decide_false; [done..|]. by intros [? [=]].
Qed.

(** The broker address told to a device is the host it addressed without the port; but a
    bracketed IPv6 host keeps its port, which the comment in the code says is
    stripped. *)
Theorem strip_port_correct host port : ¬ str_In ":" port →
  (¬ str_In ":" host → strip_port host = host) ∧
  (starts_with "[" host = false → host ≠ "" → strip_port (host +:+ ":" +:+ port) = host) ∧
  strip_port ("[" +:+ host +:+ "]:" +:+ port) = "[" +:+ host +:+ "]:" +:+ port.
Proof.
  intros Hp. split_and!.
  - intros Hh. unfold strip_port. apply rsplit_once_None in Hh. by rewrite Hh.
  - intros Hb Hne. unfold strip_port. change (":" +:+ port) with (String ":" port).
    rewrite rsplit_once_app by done. destruct host as [|c host]; [done|].
    rewrite str_app_cons, starts_with_char_cons in *. by rewrite Hb.
  - unfold strip_port. change ("]:" +:+ port) with ("]" +:+ String ":" port).
    rewrite <- (str_app_assoc host), <- (str_app_assoc "["), rsplit_once_app by done.
    change (("[" +:+ host +:+ "]") +:+ String ":" port) with (String "[" ((host +:+ "]") +:+ String ":" port)).
    by rewrite starts_with_char_cons.
Qed.

(** *** The handshake *)

Section handshake.
Context `{!JsonText} {KeyPair Certificate Rand : Type} `{!Rcgen KeyPair Certificate Rand}.
Implicit Types (s : Shared KeyPair Certificate).

(** A request that gets past the checks. *)
Definition acceptable (req : Request) (host : string) (device : DeviceInfo) : Prop :=
  (header_get HEADER_INIT (headers req) ≫= to_str) = Some SUPPORTED_VERSION ∧
  host = default "localhost" (strip_port <$> (header_get "host" (headers req) ≫= to_str)) ∧
  ∃ bytes, body req = Ok bytes ∧ String.length bytes ≤ PROXY_BODY_LIMIT ∧
    (from_slice bytes ≫= device_from_json) = Some device.

Lemma init_process_inv req : match init_process_request req with
  | Ok r => acceptable req (broker_host r) (init_device r)
  | Err resp => (status resp = 400%Z ∨ status resp = 422%Z) ∧ ∀ host device, ¬ acceptable req host device
  end.
Proof.
  unfold init_process_request, acceptable. destruct (header_get HEADER_INIT _ ≫= to_str) as [v|] eqn:Hv; [|split; [by left|naive_solver]].
  case_decide as Hsv; [split; [by left|naive_solver]|]. subst v.
  unfold collect_limited. destruct (body req) as [b|]; cbn [mbind result_bind]; [|split; [by left|naive_solver]].
  case_decide as Hlen; [|split; [by left|naive_solver]].
  destruct (from_slice b ≫= device_from_json) as [d|] eqn:Hd; [|split; [by right|]].
  - cbn [broker_host init_device]. split_and!; [done..|]. by exists b.
  - intros host device (_ & _ & bytes & [= <-] & _ & Hdev). congruence.
Qed.

(** The channels a handshake announces. *)
Definition beacon_channels (uuid : string) : list TopicChannel :=
  [mkTopicChannel uuid (mkTopicConfig (uuid +:+ "/rec") 1) Listen;
   mkTopicChannel uuid (mkTopicConfig (uuid +:+ "/cast") 1) Broadcast].

#[local] Arguments TOPIC_CAPACITY : simpl never.

Lemma try_send_ca ch s : sh_ca (try_send ch s) = sh_ca s.
Proof. unfold try_send. by case_match. Qed.

Lemma try_send_fs ch s : sh_fs (try_send ch s) = sh_fs s.
Proof. unfold try_send. by case_match. Qed.

Lemma try_send_open ch s : sh_topics_open (try_send ch s) = sh_topics_open s.
Proof. unfold try_send. by case_match. Qed.

Lemma try_send_topics ch s : sh_topics (try_send ch s) =
  sh_topics s ++ (if sh_topics_open s then take (TOPIC_CAPACITY - length (sh_topics s)) [ch] else []).
Proof.
  unfold try_send. destruct (sh_topics_open s); cbn; [|by rewrite app_nil_r]. case_bool_decide as Hl; cbn.
  - destruct (TOPIC_CAPACITY - length (sh_topics s)) eqn:E; [lia|]. cbn. by rewrite take_nil.
  - replace (TOPIC_CAPACITY - length (sh_topics s)) with 0 by lia. by rewrite app_nil_r.
Qed.

(** The channels that fit in. *)
Definition announced (uuid : string) s : list TopicChannel :=
  if sh_topics_open s then take (TOPIC_CAPACITY - length (sh_topics s)) (beacon_channels uuid) else [].

Lemma announce_spec uuid s :
  let s' := try_send (mkTopicChannel uuid (mkTopicConfig (uuid +:+ "/cast") 1) Broadcast)
              (try_send (mkTopicChannel uuid (mkTopicConfig (uuid +:+ "/rec") 1) Listen) s) in
  sh_ca s' = sh_ca s ∧ sh_fs s' = sh_fs s ∧ sh_topics s' = sh_topics s ++ announced uuid s.
Proof.
  cbn zeta. split_and!; [by rewrite !try_send_ca|by rewrite !try_send_fs|].
  rewrite !try_send_topics, try_send_open. unfold announced, beacon_channels. destruct (sh_topics_open s); [|by rewrite !app_nil_r].
  destruct (TOPIC_CAPACITY - length (sh_topics s)) as [|n] eqn:E; cbn [take]; rewrite length_app; cbn [length].
  - replace (TOPIC_CAPACITY - (length (sh_topics s) + 0)) with 0 by lia. by rewrite !app_nil_r.
  - rewrite take_nil. cbn [length]. replace (TOPIC_CAPACITY - (length (sh_topics s) + 1)) with n by lia. by rewrite <- app_assoc.
Qed.

Lemma announced_room uuid s : sh_topics_open s = true → length (sh_topics s) + 2 ≤ TOPIC_CAPACITY →
  announced uuid s = beacon_channels uuid.
Proof. intros Ho Hl. unfold announced. rewrite Ho. apply take_ge. cbn. lia. Qed.

Lemma recorded_split fse (b : option MqttBrokerageConfig) host pem ca s :
  match b with
  | Some config => let '(r, fs) := register_cert_identity fse config host pem (sh_fs (with_ca ca s)) in (r, with_fs fs (with_ca ca s))
  | None => (Ok (), with_ca ca s)
  end =
  let recorded := match b with Some config => register_cert_identity fse config host pem (sh_fs s) | None => (Ok (), sh_fs s) end in
  (recorded.1, with_fs recorded.2 (with_ca ca s)).
Proof. destruct b; cbn; [by destruct (register_cert_identity _ _ _ _ _)|by destruct s]. Qed.

(** C12: The handshake answers every request with 200, 400, 422 or 500 and changes state
    accordingly.  A request with the wrong version, an unreadable or too large body or an
    ill-formed payload, and only such a one, is answered with 400 or 422 and changes nothing.
    500 means that the CA refused to sign, and nothing changed, or that the certificate was
    signed and stored but not written to the broker's directory, and nothing is announced.
    200 means that the certificate returned is the one the CA stored for the device's host
    name, and that the two channels of the new beacon are appended to the queue of the
    message loop as far as there is one, it is open and it has room: a channel that does not
    fit is dropped, and the answer is 200 all the same. *)
Theorem device_init_effects fse e uuid state req s :
  let '(resp, s') := handle_device_init fse e uuid state req s in
  (status resp = 400 ∨ status resp = 422)%Z ∧ s' = s ∧ (∀ host device, ¬ acceptable req host device) ∨
  (∃ host device, acceptable req host device ∧
    let signed := sign_csr e (mdns_hostname (dev_mdns device)) (dev_csr_pem device) (sh_ca s) in
    status resp = 500%Z ∧ is_ok signed.1 = false ∧ s' = s ∨
    ∃ pem, signed = (Ok pem, sh_ca s') ∧
      let recorded := match brokerage state with
        | Some config => register_cert_identity fse config (mdns_hostname (dev_mdns device)) pem (sh_fs s)
        | None => (Ok (), sh_fs s)
        end in
      sh_fs s' = recorded.2 ∧
      (status resp = 500%Z ∧ is_ok recorded.1 = false ∧ sh_topics s' = sh_topics s ∨
       status resp = 200%Z ∧ is_ok recorded.1 = true ∧
       (match payload resp with PJson v => as_object v ≫= str_field "cert_pem" | _ => None end) = Some pem ∧
       (match payload resp with PJson v => as_object v ≫= str_field "beacon_id" | _ => None end) = Some uuid ∧
       sh_topics s' = sh_topics s ++ (if has_topic_tx state then announced uuid s else []))).
Proof.
  unfold handle_device_init. pose proof (init_process_inv req) as Hreq.
  destruct (init_process_request req) as [r|resp]; [|left; destruct Hreq; by split_and!]. cbn zeta.
  pose proof (sign_csr_inv e (mdns_hostname (dev_mdns (init_device r))) (dev_csr_pem (init_device r)) (sh_ca s)) as Hinv.
  destruct (sign_csr e _ _ (sh_ca s)) as [[pem|err] ca] eqn:Hsign.
  2:{ right. exists (broker_host r), (init_device r). split; [done|]. left. rewrite Hsign. subst. by destruct s. }
  clear Hinv. pose proof (recorded_split fse (brokerage state) (mdns_hostname (dev_mdns (init_device r))) pem ca s) as Hrec.
  set (recorded := match brokerage state with Some config => register_cert_identity fse config _ pem (sh_fs s) | None => _ end) in *.
  rewrite Hrec. cbn [fst snd].
  destruct (announce_spec uuid (with_fs recorded.2 (with_ca ca s))) as (A1 & A2 & A3).
  destruct recorded.1 as [[]|msg] eqn:Hr; right; exists (broker_host r), (init_device r); (split; [done|]); right; exists pem;
    rewrite Hsign; cbn zeta; fold recorded; rewrite Hr.
  - destruct (has_topic_tx state); rewrite ?A1, ?A2, ?A3; (split; [done|]); (split; [done|]); right; split_and!; try done.
    by rewrite app_nil_r.
  - split; [done|]. split; [done|]. by left.
Qed.

(** A registration stores one certificate under the fresh id, or nothing. *)
Lemma client_register_effects e uuid req s :
  let '(resp, s') := handle_client_register e uuid req s in
  sh_topics s' = sh_topics s ∧ sh_fs s' = sh_fs s ∧
  (status resp = 201%Z → ∃ csr pem, sign_csr e uuid csr (sh_ca s) = (Ok pem, sh_ca s')) ∧
  ((status resp = 400 ∨ status resp = 422)%Z → s' = s).
Proof.
  unfold handle_client_register, register_process_request.
  destruct (collect_limited _ _); cbn; [|by split_and!; try done; intros [=]].
  destruct (from_slice _ ≫= _) as [csr|]; cbn; [|by split_and!; try done; intros [=]].
  destruct (sign_csr e uuid csr (sh_ca s)) as [[pem|] ca] eqn:Hs; cbn; [|split_and!; try done; intros [[=]|[=]]].
  destruct (ca_cert_pem ca); cbn; split_and!; try done; eauto; intros [[=]|[=]].
Qed.

(** Requests carrying one of the PlaceNet headers are answered here and never reach the
    upstream server, health checks first; every other request is passed to the upstream
    server, whose answer is returned unchanged or replaced by 502, and touches neither
    the CA nor the files nor the beacons. *)
Theorem dispatch_routes fse e uuid fwd fwd' state req s :
  (contains_key HEADER_HEALTH req = true ∨ contains_key HEADER_INIT req = true ∨ contains_key HEADER_REGISTER req = true →
   dispatch fse e uuid fwd state req s = dispatch fse e uuid fwd' state req s) ∧
  (contains_key HEADER_HEALTH req = true → dispatch fse e uuid fwd state req s = (text_response 200 "OK", s)) ∧
  (contains_key HEADER_HEALTH req = false ∧ contains_key HEADER_INIT req = false ∧ contains_key HEADER_REGISTER req = false →
   dispatch fse e uuid fwd state req s =
     (match fwd (upstream_port state) req with Ok r => r | Err _ => text_response 502 "Bad Gateway" end, s)).
Proof.
  unfold dispatch. split_and!.
  - intros [->|[Hk|Hk]]; [done|..]; rewrite Hk; by repeat case_match.
  - by intros ->.
  - intros (-> & -> & ->). by case_match.
Qed.

End handshake.

(** *** From the handshake to the message loop *)

(** A completed handshake makes a working beacon: once the message loop has taken its two
    channels from the queue and the subscription succeeded, the beacon is registered
    with its topics, its broadcast topic is on the list the broadcast loop publishes to,
    the MQTT client is subscribed to its receive topic, and a message on that topic
    counts as a sign of life of this beacon. *)
Theorem handshake_registers_beacon `{!JsonText} server_url uuid now t text s0 :
  records s0 !! uuid = None →
  let s := foldl (λ s ch, register_channel now (TaskAnswers (Ok ())) ch s) s0 (beacon_channels uuid) in
  records s !! uuid = Some (mkBeaconRecord (uuid +:+ "/rec") (uuid +:+ "/cast") now None None) ∧
  uuid +:+ "/cast" ∈ broadcast_topics s ∧
  Subscribe (uuid +:+ "/rec") AtLeastOnce ∈ mqtt_log s ∧
  (∀ id, id ≠ uuid → records s !! id = records s0 !! id) ∧
  last_seen <$> records (handle_message server_url t (mkMqttMessage (uuid +:+ "/rec") text) s) !! uuid = Some t.
Proof.
  intros Hnone s.
  assert (records s = <[uuid := mkBeaconRecord (uuid +:+ "/rec") (uuid +:+ "/cast") now None None]> (records s0)) as Hrec.
  { unfold s. cbn. unfold register_channel. cbn. rewrite Hnone. cbn.
    rewrite !alter_insert_eq. cbn. rewrite lookup_insert_eq, alter_insert_eq. done. }
  split_and!.
  - by rewrite Hrec, lookup_insert_eq.
  - unfold s. cbn. apply elem_of_app. right. by left.
  - unfold s. cbn. apply elem_of_app. right. by left.
  - intros id Hid. by rewrite Hrec, lookup_insert_ne.
  - clearbody s. unfold handle_message. cbn [msg_topic]. rewrite strip_suffix_app.
    assert (records (update_last_seen t uuid s) !! uuid = Some (mkBeaconRecord (uuid +:+ "/rec") (uuid +:+ "/cast") t None None)) as Hu.
    { cbn. by rewrite lookup_alter_eq, Hrec, lookup_insert_eq. }
    revert Hu. generalize (update_last_seen t uuid s). intros s1 Hu.
    destruct (advertised_gateway _); [|by rewrite Hu]. case_match; [by rewrite Hu|].
    unfold spawn_connection. cbn. unfold associate_gateway. cbn. rewrite Hu. cbn. by rewrite lookup_insert_eq.
Qed.

(** *** The service *)

(** A TLS configuration that cannot be built blocks the service: the failed start leaves
    the service claiming to run without a listener, so every further start is refused
    until it is stopped. *)
Theorem tls_failure_blocks_start config e err es :
  http_tls_enabled config = true → ge_bind e = Ok () → ge_local_addr e = Ok () → ge_tls e = Err err →
  let '(r, s) := gateway_start e (new_gateway config) in
  r = Err err ∧ gateway_is_running s = true ∧ gw_listeners s = [] ∧
  gateway_start es s = (Err "GatewayService is already running", s) ∧
  (gateway_stop s).1 = Ok () ∧ gw_shutdown_tx (gateway_stop s).2 = None.
Proof.
  intros Htls Hb Hl Ht. unfold gateway_start, gateway_initialize. cbn. rewrite Hb. cbn. rewrite Hl. cbn.
  rewrite Htls, Ht. done.
Qed.

(** *** Concrete runs *)

Lemma strip_port_correct_witness : strip_port "192.168.2.39:8080" = "192.168.2.39" ∧ strip_port "[::1]:8080" = "[::1]:8080".
Proof.
  split.
  - apply (strip_port_correct "192.168.2.39" "8080"); [|done..]. cbn. intuition discriminate.
  - apply (strip_port_correct "::1" "8080"). cbn. intuition discriminate.
Defined.

Lemma handshake_registers_beacon_witness :
  "u1/cast" ∈ broadcast_topics (foldl (λ s ch, register_channel 5 (TaskAnswers (Ok ())) ch s) (new_registry None) (beacon_channels "u1")).
Proof. apply (@handshake_registers_beacon ex_text "https://me" "u1" 5 6 "hi" (new_registry None)). reflexivity. Defined.

Lemma tls_failure_blocks_start_witness :
  let config := mkHttpConfig "0.0.0.0" 8080 true 3000 in
  let s := (gateway_start (mkGatewayEnv (Ok ()) (Ok ()) (Err "bad key")) (new_gateway config)).2 in
  gateway_start (mkGatewayEnv (Ok ()) (Ok ()) (Ok ())) s = (Err "GatewayService is already running", s).
Proof.
  apply (tls_failure_blocks_start (mkHttpConfig "0.0.0.0" 8080 true 3000) (mkGatewayEnv (Ok ()) (Ok ()) (Err "bad key")) "bad key"
    (mkGatewayEnv (Ok ()) (Ok ()) (Ok ()))); reflexivity.
Defined.

(** The routes of a request for the upstream server and on a health check. *)
Lemma dispatch_routes_witness :
  let fwd := λ (_ : Z) (_ : Request), @Err string Response "connection refused" in
  let state := mkAppState (mkBrokerageInfo "localhost" 8883 "") None 3000 false in
  let s := mkShared ex_ca (mkFS ∅ ∅) [] true in
  @dispatch ex_text _ _ _ toy_rcgen fs_healthy (ex_ca_env 1 "r") "u" fwd state (mkRequest [] (Ok "")) s = (text_response 502 "Bad Gateway", s) ∧
  @dispatch ex_text _ _ _ toy_rcgen fs_healthy (ex_ca_env 1 "r") "u" fwd state (mkRequest [("x-placenet-health", "1")] (Ok "")) s = (text_response 200 "OK", s).
Proof.
  intros fwd state s. split.
  - apply (@dispatch_routes ex_text _ _ _ toy_rcgen fs_healthy (ex_ca_env 1 "r") "u" fwd fwd state (mkRequest [] (Ok "")) s). done.
  - apply (@dispatch_routes ex_text _ _ _ toy_rcgen fs_healthy (ex_ca_env 1 "r") "u" fwd fwd state (mkRequest [("x-placenet-health", "1")] (Ok "")) s).
    reflexivity.
Defined.
