(* ===== verification/Handshakes.v ===== *)
(** * Concurrent handshakes (src/services/beacon_management/internals/handlers.rs)

    Every connection has a task of its own, so several handshakes run at once on the same
    CA, certificate directory and channel.  This file cuts [handle_device_init] at the
    points where other tasks can run in between, shows that the pieces put together are the
    handler, and compares interleaved handshakes with handshakes one after the other.
    Certificate files are told apart by their paths as strings, as everywhere in this
    library: [a] and [./a] count as different files. *)

From S2P Require Import Prelude RustStr Paths Config Ca Brokerage Json MqttClient CloudGateway Registry HttpGateway.
From S2P Require Import Interleave.
From stdpp Require Import options.

Section handshakes.
Context `{!JsonText} {KeyPair Certificate Rand : Type} `{!Rcgen KeyPair Certificate Rand}.
Implicit Types (s : Shared KeyPair Certificate).

(** ** The handler in steps *)

(** One handshake: its request, its fresh identifier, and what the world answers to it. *)
Record Handshake := mkHandshake {
  hs_request : Request;
  hs_uuid : string;
  hs_fs : FsEnv;
  hs_ca : CaEnv Rand
}.

(** The request is read; then the CA signs, the certificate is recorded, and the two
    channels are announced. *)
Inductive HsPhase :=
| HsSign (r : DeviceInitRequest)
| HsRecord (r : DeviceInitRequest) (pem : string)
| HsListen (r : DeviceInitRequest) (pem : string)
| HsBroadcast (r : DeviceInitRequest) (pem : string)
| HsDone (resp : Response).

Definition hs_start (h : Handshake) : HsPhase :=
  match init_process_request (hs_request h) with Ok r => HsSign r | Err resp => HsDone resp end.

Definition hs_hostname (r : DeviceInitRequest) : string := mdns_hostname (dev_mdns (init_device r)).

Definition hs_response (state : AppState) (h : Handshake) (r : DeviceInitRequest) (pem : string) : Response :=
  let info := mkBrokerageInfo (broker_host r) (bi_port (brokerage_info state)) (bi_ca_cert_pem (brokerage_info state)) in
  json_response 200 (JObject [("cert_pem", JString pem); ("brokerage", brokerage_to_json info);
                              ("beacon_id", JString (hs_uuid h))]).

(** What the handler does from one point at which it can be interrupted to the next: the
    two awaits on the CA and on the broker's directory, and the two sends. *)
Definition hs_step (state : AppState) (h : Handshake) (ph : HsPhase) (s : Shared KeyPair Certificate) :
    HsPhase * Shared KeyPair Certificate :=
  match ph with
  | HsSign r =>
      match sign_csr (hs_ca h) (hs_hostname r) (dev_csr_pem (init_device r)) (sh_ca s) with
      | (Err _, ca) => (HsDone (text_response 500 "Failed to sign device certificate"), with_ca ca s)
      | (Ok pem, ca) => (HsRecord r pem, with_ca ca s)
      end
  | HsRecord r pem =>
      match brokerage state with
      | Some config =>
          match register_cert_identity (hs_fs h) config (hs_hostname r) pem (sh_fs s) with
          | (Err _, fs) => (HsDone (text_response 500 "Failed to register device MQTT identity"), with_fs fs s)
          | (Ok _, fs) => (HsListen r pem, with_fs fs s)
          end
      | None => (HsListen r pem, s)
      end
  | HsListen r pem =>
      (HsBroadcast r pem,
       if has_topic_tx state
       then try_send (mkTopicChannel (hs_uuid h) (mkTopicConfig (hs_uuid h +:+ "/rec") 1) Listen) s else s)
  | HsBroadcast r pem =>
      (HsDone (hs_response state h r pem),
       if has_topic_tx state
       then try_send (mkTopicChannel (hs_uuid h) (mkTopicConfig (hs_uuid h +:+ "/cast") 1) Broadcast) s else s)
  | HsDone resp => (HsDone resp, s)
  end.

(** ** Several handshakes *)

(** The handshakes under way with their phases, and what they share. *)
Definition Server : Type := list HsPhase * Shared KeyPair Certificate.

(** The task of the [i]-th handshake runs to its next point. *)
Definition server_step (state : AppState) (hs : list Handshake) (i : nat) (c : Server) : Server :=
  match hs !! i, c.1 !! i with
  | Some h, Some ph => let '(ph, s) := hs_step state h ph c.2 in (<[i := ph]> c.1, s)
  | _, _ => c
  end.

Definition server_run (state : AppState) (hs : list Handshake) (schedule : list nat) (s : Shared KeyPair Certificate) : Server :=
  run_steps (server_step state hs) schedule (hs_start <$> hs, s).

(** One handshake after the other. *)
Fixpoint serve_serially (state : AppState) (hs : list Handshake) (s : Shared KeyPair Certificate) :
    list Response * Shared KeyPair Certificate :=
  match hs with
  | [] => ([], s)
  | h :: hs =>
      let '(resp, s) := handle_device_init (hs_fs h) (hs_ca h) (hs_uuid h) state (hs_request h) s in
      let '(resps, s) := serve_serially state hs s in
      (resp :: resps, s)
  end.

(** ** The handler is its steps *)

Lemma done_step state hs i c : c.1 !! i = None ∨ (∃ resp, c.1 !! i = Some (HsDone resp)) → server_step state hs i c = c.
Proof.
  destruct c as [phs s]. unfold server_step. cbn. intros [->|[resp Hr]]; [by destruct (hs !! i)|].
  destruct (hs !! i); [|done]. rewrite Hr. cbn. by rewrite list_insert_id.
Qed.

(** Four steps, or fewer, and the handshake has its answer: the one the handler gives. *)
Lemma handshake_steps state h s :
  let '(resp, s') := handle_device_init (hs_fs h) (hs_ca h) (hs_uuid h) state (hs_request h) s in
  Nat.iter 4 (λ c, hs_step state h c.1 c.2) (hs_start h, s) = (HsDone resp, s').
Proof.
  unfold handle_device_init, hs_start. destruct (init_process_request (hs_request h)) as [r|resp]; [|done].
  cbn. fold (hs_hostname r). destruct (sign_csr _ _ _ (sh_ca s)) as [[pem|err] ca]; [|done]. cbn.
  destruct (brokerage state) as [config|]; cbn; [|by destruct (has_topic_tx state)].
  destruct (register_cert_identity _ _ _ _ _) as [[[]|err] fs]; [|done]. cbn. by destruct (has_topic_tx state).
Qed.

(** ** What the steps change *)

(** States that differ only in the order of rows in the device table, and in how the
    announcements of different beacons interleave in the channel. *)
Record shared_equiv s s' : Prop := {
  se_state : ca_state (sh_ca s) = ca_state (sh_ca s');
  se_keys : ca_keys (ca_db (sh_ca s)) = ca_keys (ca_db (sh_ca s'));
  se_identity : node_identity (ca_db (sh_ca s)) = node_identity (ca_db (sh_ca s'));
  se_issued : issued_of (device_certs (ca_db (sh_ca s))) = issued_of (device_certs (ca_db (sh_ca s')));
  se_fs : sh_fs s = sh_fs s';
  se_open : sh_topics_open s = sh_topics_open s';
  se_length : length (sh_topics s) = length (sh_topics s');
  se_topics : same_per_key ch_beacon_id (sh_topics s) (sh_topics s')
}.

#[global] Instance shared_equiv_equivalence : Equivalence shared_equiv.
Proof.
  split; [by intros s; split|intros s s' []; by split|].
  intros s1 s2 s3 [] []. split; etransitivity; eauto.
Qed.

(** A failed write leaves other files and the directories alone. *)
Definition writes_locally (env : FsEnv) : Prop :=
  ∀ p c, ∃ f, ∀ fs, fs_after_failure env (WriteFile p c) fs = mkFS (partial_alter f p (files fs)) (dirs fs).

Definition signed_row (e : CaEnv Rand) (id csr : string) (c : option (CaState KeyPair Certificate)) : result string DeviceRow :=
  match c with
  | None => Err "CA not initialised"
  | Some ca =>
      match operations_sign_csr e ca csr with
      | Err err => Err err
      | Ok (pem, issued_at, expires_at) =>
          match ce_write_error e with
          | Some err => Err ("Failed to persist device cert: " +:+ err)
          | None => Ok (mkDeviceRow id pem issued_at expires_at 0)
          end
      end
  end.

Definition add_row (row : DeviceRow) (ca : CaService KeyPair Certificate) : CaService KeyPair Certificate :=
  mkCaService (ca_state ca) (mkCaDb (ca_keys (ca_db ca)) (upsert row (device_certs (ca_db ca))) (node_identity (ca_db ca))).

Lemma sign_csr_row e id csr ca : sign_csr e id csr ca =
  match signed_row e id csr (ca_state ca) with
  | Ok row => (Ok (dr_cert_pem row), add_row row ca)
  | Err err => (Err err, ca)
  end.
Proof. unfold sign_csr, signed_row, add_row. by repeat case_match; simplify_eq/=. Qed.

Lemma signed_row_id e id csr c row : signed_row e id csr c = Ok row → dr_device_id row = id.
Proof. unfold signed_row. repeat case_match; by intros [= <-]. Qed.

(** The changes a step can make. *)
Inductive Upd :=
| UNone
| URow (row : DeviceRow)
| UFile (f : option string → option string) (p : string)
| UPush (ch : TopicChannel).

Definition apply_upd (u : Upd) s : Shared KeyPair Certificate :=
  match u with
  | UNone => s
  | URow row => with_ca (add_row row (sh_ca s)) s
  | UFile f p => with_fs (mkFS (partial_alter f p (files (sh_fs s))) (dirs (sh_fs s))) s
  | UPush ch => if sh_topics_open s then mkShared (sh_ca s) (sh_fs s) (sh_topics s ++ [ch]) true else s
  end.

Definition pushes (u : Upd) : nat := match u with UPush _ => 1 | _ => 0 end.

(** Announcements still to come. *)
Definition pending (ph : HsPhase) : nat :=
  match ph with HsSign _ | HsRecord _ _ | HsListen _ _ => 2 | HsBroadcast _ _ => 1 | HsDone _ => 0 end.

Definition has_room (n : nat) s : Prop := sh_topics_open s = true → length (sh_topics s) + n ≤ TOPIC_CAPACITY.

(** The file a handshake writes. *)
Definition cert_file (state : AppState) (r : DeviceInitRequest) : option string :=
  config ← brokerage state; dir ← path_parent (mb_cafile config); Some (path_join dir (hs_hostname r +:+ ".crt")).

Definition request_of (h : Handshake) : option DeviceInitRequest := result_ok (init_process_request (hs_request h)).

Definition ph_request (ph : HsPhase) : option DeviceInitRequest :=
  match ph with HsSign r | HsRecord r _ | HsListen r _ | HsBroadcast r _ => Some r | HsDone _ => None end.

(** The phase belongs to this handshake. *)
Definition phase_of (h : Handshake) (ph : HsPhase) : Prop := ∀ r, ph_request ph = Some r → request_of h = Some r.

(** The change is one this handshake makes. *)
Definition own (state : AppState) (h : Handshake) (u : Upd) : Prop :=
  match u with
  | UNone => True
  | URow row => ∃ r, request_of h = Some r ∧ dr_device_id row = hs_hostname r
  | UFile _ p => ∃ r, request_of h = Some r ∧ cert_file state r = Some p
  | UPush ch => ch_beacon_id ch = hs_uuid h
  end.

Lemma try_send_push ch s : has_room 1 s → try_send ch s = apply_upd (UPush ch) s.
Proof.
  intros Hroom. cbn. unfold try_send. destruct (sh_topics_open s) eqn:Ho; [|done]. cbn.
  rewrite bool_decide_true; [done|]. specialize (Hroom Ho). lia.
Qed.

Lemma register_cert_identity_upd env state config r pem : writes_locally env → brokerage state = Some config →
  ∃ res u, pushes u = 0 ∧ (∀ h, request_of h = Some r → own state h u) ∧
    ∀ s, (let '(res', fs) := register_cert_identity env config (hs_hostname r) pem (sh_fs s) in (res', with_fs fs s)) = (res, apply_upd u s).
Proof.
  intros Hl Hb. unfold register_cert_identity, mbind, st_bind, st_lift, st_map_err, fs_run. destruct (path_parent (mb_cafile config)) as [dir|] eqn:Hdir; cbn.
  2:{ eexists _, UNone. split_and!; [done..|]. by intros []. }
  set (p := path_join dir (hs_hostname r +:+ ".crt")). assert (cert_file state r = Some p) as Hp by (unfold cert_file; rewrite Hb; cbn; by rewrite Hdir).
  destruct (fs_error env (WriteFile p pem)) as [err|] eqn:He.
  - destruct (Hl p pem) as [f Hf]. eexists _, (UFile f p). split_and!; [done|intros h Hh; cbn; eauto|].
    intros s. by rewrite Hf.
  - eexists _, (UFile (λ _, Some pem) p). split_and!; [done|intros h Hh; cbn; eauto|].
    done.
Qed.

(** Which phase comes next and what is changed depends on the loaded CA alone. *)
Lemma hs_step_upd state h ph c : writes_locally (hs_fs h) → phase_of h ph →
  ∃ ph' u, own state h u ∧ phase_of h ph' ∧ pending ph' + pushes u ≤ pending ph ∧
    ∀ s, ca_state (sh_ca s) = c → has_room (pushes u) s → hs_step state h ph s = (ph', apply_upd u s).
Proof.
  intros Hl Hph. destruct ph as [r|r pem|r pem|r pem|resp]; cbn in *.
  - destruct (signed_row (hs_ca h) (hs_hostname r) (dev_csr_pem (init_device r)) c) as [row|err] eqn:Hrow.
    + exists (HsRecord r (dr_cert_pem row)), (URow row). split_and!; [|done|done|].
      * exists r. split; [by apply Hph|]. by apply signed_row_id in Hrow.
      * intros s Hc _. by rewrite sign_csr_row, Hc, Hrow.
    + eexists (HsDone _), UNone. split_and!; [done|done|cbn; lia|]. intros s Hc _. rewrite sign_csr_row, Hc, Hrow. by destruct s.
  - destruct (brokerage state) as [config|] eqn:Hb; [|by exists (HsListen r pem), UNone].
    destruct (register_cert_identity_upd (hs_fs h) state config r pem Hl Hb) as (res & u & Hu & Hown & Hs).
    destruct res as [[]|err].
    + exists (HsListen r pem), u. split_and!; [auto|done|cbn; lia|]. intros s _ _. specialize (Hs s).
      destruct (register_cert_identity _ _ _ _ _) as [[]]; congruence.
    + eexists (HsDone _), u. split_and!; [auto|done|cbn; lia|]. intros s _ _. specialize (Hs s).
      destruct (register_cert_identity _ _ _ _ _) as [[]]; [congruence|]. by injection Hs as _ <-.
  - destruct (has_topic_tx state); [|exists (HsBroadcast r pem), UNone; split_and!; try done; cbn; lia].
    eexists (HsBroadcast r pem), (UPush (mkTopicChannel _ _ _)). split_and!; [done..|]. intros s _ Hroom. by rewrite try_send_push.
  - destruct (has_topic_tx state); [|eexists (HsDone _), UNone; split_and!; try done; cbn; lia].
    eexists (HsDone _), (UPush (mkTopicChannel _ _ _)). split_and!; [done..|]. intros s _ Hroom. by rewrite try_send_push.
  - by exists (HsDone resp), UNone.
Qed.

(** ** Handshakes of different devices commute *)

#[local] Arguments issued_of : simpl never.

Abbreviation rows_of s := (device_certs (ca_db (sh_ca s))) (only parsing).

(** Different identifiers, host names and files. *)
Definition independent (state : AppState) (h h' : Handshake) : Prop :=
  hs_uuid h ≠ hs_uuid h' ∧
  ∀ r r', request_of h = Some r → request_of h' = Some r' →
    hs_hostname r ≠ hs_hostname r' ∧ ∀ p, cert_file state r = Some p → cert_file state r' ≠ Some p.

Lemma apply_upd_frame u s :
  ca_state (sh_ca (apply_upd u s)) = ca_state (sh_ca s) ∧ sh_topics_open (apply_upd u s) = sh_topics_open s ∧
  (sh_topics_open s = true → length (sh_topics (apply_upd u s)) = length (sh_topics s) + pushes u) ∧
  (devices_ok (rows_of s) → devices_ok (rows_of (apply_upd u s))).
Proof.
  destruct u as [|row|f p|ch]; cbn; [split_and!; auto using upsert_ok with lia..|].
  destruct (sh_topics_open s) eqn:Ho; cbn; split_and!; auto; try done. intros _. rewrite length_app. cbn. lia.
Qed.

Lemma apply_upd_proper u s s' : devices_ok (rows_of s) → devices_ok (rows_of s') →
  shared_equiv s s' → shared_equiv (apply_upd u s) (apply_upd u s').
Proof.
  intros Hd Hd' [E1 E2 E3 E4 E5 E6 E7 E8]. destruct u as [|row|f p|ch]; cbn; [by split|..].
  - split; cbn; try done. by rewrite !upsert_issued, E4.
  - split; cbn; try done. by rewrite E5.
  - rewrite <- E6. destruct (sh_topics_open s) eqn:Ho; [|by split; rewrite <- ?E6]. split; cbn; try done.
    + by rewrite !length_app, E7.
    + by apply same_per_key_app.
Qed.

Lemma apply_upd_swap state h h' u u' s : own state h u → own state h' u' → independent state h h' → devices_ok (rows_of s) →
  shared_equiv (apply_upd u (apply_upd u' s)) (apply_upd u' (apply_upd u s)).
Proof.
  intros Hu Hu' [Hid Hind] Hd. destruct u as [|row|f p|ch], u' as [|row'|f' p'|ch']; cbn in *; try done;
    try (destruct (sh_topics_open s) eqn:Ho; cbn; try rewrite Ho; done).
  - destruct Hu as (r & Hr & Hrow), Hu' as (r' & Hr' & Hrow'). destruct (Hind r r' Hr Hr') as [Hne _].
    split; cbn; try done. rewrite !upsert_issued by auto using upsert_ok. apply insert_insert_ne. congruence.
  - destruct Hu as (r & Hr & Hp), Hu' as (r' & Hr' & Hp'). destruct (Hind r r' Hr Hr') as [_ Hne].
    split; cbn; try done. f_equal. apply partial_alter_partial_alter_ne. intros ->. by apply (Hne p' Hp).
  - destruct (sh_topics_open s) eqn:Ho; cbn; rewrite ?Ho; [|done]. split; cbn; try done; [by rewrite !length_app|].
    rewrite <- !app_assoc. apply same_per_key_app; [done|]. apply same_per_key_swap. congruence.
Qed.

(** *** The server's steps *)

Definition server_equiv (c c' : Server) : Prop := c.1 = c'.1 ∧ shared_equiv c.2 c'.2.

Record server_ok (hs : list Handshake) (c : Server) : Prop := {
  so_phases : Forall2 phase_of hs c.1;
  so_rows : devices_ok (rows_of c.2);
  so_room : has_room (sum_list_with pending c.1) c.2
}.

Section concurrent.
#[local] Set Default Proof Using "All".
Context (state : AppState) (hs : list Handshake).
Context (Hlocal : ∀ h, h ∈ hs → writes_locally (hs_fs h)).
Context (Hind : ∀ i j h h', hs !! i = Some h → hs !! j = Some h' → i ≠ j → independent state h h').

(** A step of one handshake, in every state with the same phases and the same CA. *)
Lemma server_step_upd i phs c h ph : hs !! i = Some h → phs !! i = Some ph → Forall2 phase_of hs phs →
  ∃ ph' u, own state h u ∧ phase_of h ph' ∧ pending ph' + pushes u ≤ pending ph ∧
    ∀ phs' s, phs' !! i = Some ph → ca_state (sh_ca s) = c → has_room (sum_list_with pending phs') s →
      server_step state hs i (phs', s) = (<[i := ph']> phs', apply_upd u s).
Proof.
  intros Hh Hph Hphs. destruct (hs_step_upd state h ph c) as (ph' & u & Hown & Hph' & Hpend & Hstep).
  { apply Hlocal. by eapply list_elem_of_lookup_2. }
  { by eapply (Forall2_lookup_lr _ _ _ i). }
  exists ph', u. split_and!; [done..|]. intros phs' s Hi Hc Hroom. unfold server_step. cbn. rewrite Hh, Hi.
  rewrite Hstep; [done|done|]. intros Ho. specialize (Hroom Ho). pose proof (sum_list_lookup pending _ _ _ Hi). lia.
Qed.

Lemma server_step_ok i c : server_ok hs c → server_ok hs (server_step state hs i c).
Proof.
  destruct c as [phs s]. intros [H1 H2 H3]. cbn in *.
  destruct (hs !! i) as [h|] eqn:Hh; [|by rewrite done_step; [|left; cbn; apply lookup_ge_None; rewrite <- (Forall2_length H1); by apply lookup_ge_None]].
  destruct (phs !! i) as [ph|] eqn:Hph; [|by rewrite done_step; [|left]].
  destruct (server_step_upd i phs (ca_state (sh_ca s)) h ph Hh Hph H1) as (ph' & u & Hown & Hph' & Hpend & Hstep).
  rewrite Hstep by done. destruct (apply_upd_frame u s) as (F1 & F2 & F3 & F4). split; cbn.
  - rewrite <- (list_insert_id hs i h) by done. by apply Forall2_insert.
  - auto.
  - intros Ho. rewrite F2 in Ho. specialize (H3 Ho). rewrite F3 by done.
    pose proof (sum_list_insert pending phs i ph ph' Hph). lia.
Qed.

Lemma server_equiv_ok c c' : server_equiv c c' → devices_ok (rows_of c'.2) → server_ok hs c → server_ok hs c'.
Proof.
  intros [H1 H2] Hd [O1 O2 O3]. split; [by rewrite <- H1|done|]. rewrite <- H1. intros Ho.
  rewrite <- (se_length _ _ H2). apply O3. by rewrite (se_open _ _ H2).
Qed.

(** Equivalent states have both sound device tables. *)
Definition server_sim (c c' : Server) : Prop :=
  server_equiv c c' ∧ (devices_ok (rows_of c.2) ↔ devices_ok (rows_of c'.2)).

#[global] Instance server_sim_equivalence : Equivalence server_sim.
Proof.
  split; [by intros c; split|intros c c' [[] ]; split; [split|]; by symmetry|].
  intros c1 c2 c3 [[A1 A2] A3] [[B1 B2] B3]. split; [split|]; etransitivity; eauto.
Qed.

Lemma server_step_proper i c c' : server_ok hs c → server_sim c c' → server_sim (server_step state hs i c) (server_step state hs i c').
Proof.
  intros Hok [Heq Hd]. pose proof (server_equiv_ok _ _ Heq (proj1 Hd (so_rows _ _ Hok)) Hok) as Hok'.
  pose proof (so_rows _ _ (server_step_ok i _ Hok)) as R1. pose proof (so_rows _ _ (server_step_ok i _ Hok')) as R2.
  split; [|done]. clear R1 R2. destruct c as [phs s], c' as [phs' s'], Heq as [E1 E2], Hok as [H1 H2 H3], Hok' as [H1' H2' H3'].
  cbn in *. subst phs'.
  destruct (hs !! i) as [h|] eqn:Hh; [|by unfold server_step; rewrite Hh].
  destruct (phs !! i) as [ph|] eqn:Hph; [|by unfold server_step; cbn; rewrite Hh, Hph].
  destruct (server_step_upd i phs (ca_state (sh_ca s)) h ph Hh Hph H1) as (ph' & u & _ & _ & _ & Hstep).
  rewrite !Hstep by (done || by rewrite (se_state _ _ E2)). split; [done|]. by apply apply_upd_proper.
Qed.

Lemma server_step_swap i j c : i ≠ j → server_ok hs c →
  server_sim (server_step state hs i (server_step state hs j c)) (server_step state hs j (server_step state hs i c)).
Proof.
  intros Hij Hok. pose proof (server_step_ok i _ Hok) as Oki. pose proof (server_step_ok j _ Hok) as Okj.
  split; [|split; intros _; apply (so_rows hs); by do 2 apply server_step_ok].
  destruct c as [phs s]. pose proof Hok as [H1 H2 H3]. cbn in *.
  destruct (hs !! i) as [h|] eqn:Hh; [|unfold server_step at 1 4; by rewrite Hh].
  destruct (hs !! j) as [h'|] eqn:Hh'; [|unfold server_step at 2 3; by rewrite Hh'].
  destruct (Forall2_lookup_l _ _ _ _ _ H1 Hh) as (ph & Hph & _). destruct (Forall2_lookup_l _ _ _ _ _ H1 Hh') as (ph' & Hph' & _).
  destruct (server_step_upd i phs (ca_state (sh_ca s)) h ph Hh Hph H1) as (ph1 & u & Hu & _ & _ & Hi).
  destruct (server_step_upd j phs (ca_state (sh_ca s)) h' ph' Hh' Hph' H1) as (ph1' & u' & Hu' & _ & _ & Hj).
  rewrite Hi in Oki |- * by done. rewrite Hj in Okj |- * by done.
  destruct (apply_upd_frame u s) as (F1 & _), (apply_upd_frame u' s) as (F1' & _).
  rewrite Hi; [|by rewrite list_lookup_insert_ne|done|apply Okj]. rewrite Hj; [|by rewrite list_lookup_insert_ne|done|apply Oki].
  split; cbn; [by apply list_insert_insert_ne|]. apply (apply_upd_swap state h h'); try done. by eapply Hind.
Qed.

#[local] Instance server_commuting : Commuting (L:=nat) server_sim (server_ok hs) (server_step state hs).
Proof.
  split; [apply _| | | |].
  - intros c c' [Heq Hd] Hok. apply (server_equiv_ok c); [done|apply Hd, Hok|done].
  - intros i c. apply server_step_ok.
  - intros i c c'. apply server_step_proper.
  - intros i j c. apply server_step_swap.
Qed.

End concurrent.

(** *** One handshake after the other *)

(** Every handshake makes its four steps at once. *)
Definition serial_from (i n : nat) : list nat := mjoin (replicate 4 <$> seq i n).

Lemma own_steps state hs n i h ph phs s : hs !! i = Some h → phs !! i = Some ph →
  run_steps (server_step state hs) (replicate n i) (phs, s) =
  let '(ph', s') := Nat.iter n (λ c, hs_step state h c.1 c.2) (ph, s) in (<[i := ph']> phs, s').
Proof.
  intros Hh. revert ph phs s. induction n as [|n IH]; intros ph phs s Hph; cbn [replicate]; [by cbn; rewrite list_insert_id|].
  rewrite Nat.iter_succ_r. cbn [run_steps foldl].
  assert (server_step state hs i (phs, s) = (<[i := (hs_step state h ph s).1]> phs, (hs_step state h ph s).2)) as ->.
  { unfold server_step. cbn. rewrite Hh, Hph. by destruct (hs_step state h ph s). }
  fold (run_steps (server_step state hs) (replicate n i)). destruct (hs_step state h ph s) as [ph1 s1] eqn:Hs. cbn.
  rewrite Hs. change (run_steps (server_step state hs) (replicate n i) (<[i:=ph1]> phs, s1) = let '(ph', s') := Nat.iter n (λ c, hs_step state h c.1 c.2) (ph1, s1) in (<[i:=ph']> phs, s')).
  rewrite (IH ph1); [|apply list_lookup_insert_eq, lookup_lt_is_Some; eauto].
  destruct (Nat.iter n _ _). by rewrite list_insert_insert_eq.
Qed.

Lemma serial_run state pre suf resps s : length resps = length pre →
  run_steps (server_step state (pre ++ suf)) (serial_from (length pre) (length suf)) ((HsDone <$> resps) ++ (hs_start <$> suf), s) =
  let '(rs, s') := serve_serially state suf s in (HsDone <$> (resps ++ rs), s').
Proof.
  revert pre resps s. induction suf as [|h suf IH]; intros pre resps s Hlen; [cbn; by rewrite !app_nil_r|].
  unfold serial_from. cbn [length seq fmap list_fmap mjoin list_join]. rewrite run_steps_app.
  rewrite (own_steps _ _ 4 _ h (hs_start h)); [|by rewrite list_lookup_middle|rewrite list_lookup_middle; [done|by rewrite length_fmap]].
  pose proof (handshake_steps state h s) as Hh. cbn [serve_serially].
  destruct (handle_device_init _ _ _ _ _ _) as [resp s1]. rewrite Hh. cbn [fst snd].
  specialize (IH (pre ++ [h]) (resps ++ [resp]) s1). rewrite <- !app_assoc, fmap_app, !length_app, !Nat.add_1_r in IH.
  rewrite <- app_assoc in IH. cbn in IH. rewrite insert_app_r_alt by (rewrite length_fmap; lia).
  rewrite length_fmap, Hlen, Nat.sub_diag. cbn. unfold serial_from in IH. etransitivity; [apply IH; congruence|].
  destruct (serve_serially state suf s1). by rewrite <- app_assoc.
Qed.

Lemma all_done_run state hs ls resps s : run_steps (server_step state hs) ls (HsDone <$> resps, s) = (HsDone <$> resps, s).
Proof.
  induction ls as [|i ls IH]; [done|]. cbn. rewrite done_step; [done|]. cbn. rewrite list_lookup_fmap.
  destruct (resps !! i); cbn; eauto.
Qed.

Lemma pending_start hs : sum_list_with pending (hs_start <$> hs) ≤ 2 * length hs.
Proof. induction hs as [|h hs IH]; [done|]. cbn. unfold hs_start at 1. destruct (init_process_request _); cbn; lia. Qed.

Lemma start_phase h : phase_of h (hs_start h).
Proof. unfold phase_of, hs_start, request_of. by destruct (init_process_request _); cbn; intros ? [= ->]. Qed.

(** Any schedule that gives every handshake its turns ends as the serial one. *)
Lemma handshakes_serial_equiv state hs schedule s :
  (∀ h, h ∈ hs → writes_locally (hs_fs h)) →
  (∀ i j h h', hs !! i = Some h → hs !! j = Some h' → i ≠ j → independent state h h') →
  devices_ok (rows_of s) → has_room (2 * length hs) s →
  serial_from 0 (length hs) ⊆+ schedule →
  let '(phases, s1) := server_run state hs schedule s in
  let '(resps, s2) := serve_serially state hs s in
  phases = HsDone <$> resps ∧ shared_equiv s1 s2.
Proof.
  intros Hlocal Hind Hd Hroom (rest & Hperm)%submseteq_Permutation.
  assert (server_ok hs (hs_start <$> hs, s)) as Hok.
  { split; cbn; [|done|].
    - apply Forall2_fmap_r, Forall_Forall2_diag, list.Forall_forall. intros h _. apply start_phase.
    - intros Ho. specialize (Hroom Ho). pose proof (pending_start hs). lia. }
  pose proof (run_steps_permutation (Commuting0:=server_commuting state hs Hlocal Hind) _ _ _ Hok Hperm) as [[H1 H2] _].
  unfold server_run. rewrite run_steps_app in H1, H2.
  pose proof (serial_run state [] hs [] s eq_refl) as Hserial. cbn [app fmap list_fmap length] in Hserial. rewrite Hserial in H1, H2.
  destruct (serve_serially state hs s) as [resps s2]. rewrite all_done_run in H1, H2.
  destruct (run_steps _ schedule _) as [phases s1]. done.
Qed.

Lemma start_of h r : request_of h = Some r → hs_start h = HsSign r.
Proof. unfold request_of, hs_start. by destruct (init_process_request _) as [?|?]; intros [= ->]. Qed.

Lemma sign_step state h r row s :
  signed_row (hs_ca h) (hs_hostname r) (dev_csr_pem (init_device r)) (ca_state (sh_ca s)) = Ok row →
  hs_step state h (HsSign r) s = (HsRecord r (dr_cert_pem row), apply_upd (URow row) s).
Proof. intros Hrow. cbn. by rewrite sign_csr_row, Hrow. Qed.

Lemma record_step state h r pem p s : cert_file state r = Some p → (∀ op, fs_error (hs_fs h) op = None) →
  hs_step state h (HsRecord r pem) s = (HsListen r pem, apply_upd (UFile (λ _, Some pem) p) s).
Proof.
  unfold cert_file. intros (config & Hb & (dir & Hdir & [= <-])%bind_Some)%bind_Some Hfs. cbn. rewrite Hb.
  unfold register_cert_identity, mbind, st_bind, st_lift, st_map_err, fs_run. rewrite Hdir. cbn. by rewrite Hfs.
Qed.

(** C38: Two handshakes under one host name can leave the CA and the broker's directory in
    disagreement: the second one signs last, the first one records its certificate last. *)
Theorem same_host_race state h0 h1 r0 r1 row0 row1 s p :
  request_of h0 = Some r0 → request_of h1 = Some r1 → hs_hostname r0 = hs_hostname r1 →
  cert_file state r0 = Some p → (∀ op, fs_error (hs_fs h0) op = None) → (∀ op, fs_error (hs_fs h1) op = None) →
  signed_row (hs_ca h0) (hs_hostname r0) (dev_csr_pem (init_device r0)) (ca_state (sh_ca s)) = Ok row0 →
  signed_row (hs_ca h1) (hs_hostname r1) (dev_csr_pem (init_device r1)) (ca_state (sh_ca s)) = Ok row1 →
  devices_ok (rows_of s) →
  let s' := (server_run state [h0; h1] [0; 1; 1; 0] s).2 in
  fst <$> issued_of (rows_of s') !! hs_hostname r0 = Some (dr_cert_pem row1) ∧
  files (sh_fs s') !! p = Some (dr_cert_pem row0).
Proof.
  intros Hr0 Hr1 Hhost Hp Hf0 Hf1 Hs0 Hs1 Hd.
  assert (cert_file state r1 = Some p) as Hp1 by (rewrite <- Hp; unfold cert_file; by rewrite Hhost).
  unfold server_run, run_steps. cbn [foldl fmap list_fmap]. rewrite (start_of h0 r0), (start_of h1 r1) by done.
  unfold server_step. cbn -[hs_step apply_upd]. rewrite (sign_step _ h0 r0 row0) by done. cbn -[hs_step apply_upd].
  rewrite (sign_step _ h1 r1 row1) by done. cbn -[hs_step apply_upd].
  rewrite (record_step _ h1 r1 _ p) by done. cbn -[hs_step apply_upd]. rewrite (record_step _ h0 r0 _ p) by done. cbn.
  split; [|by rewrite lookup_partial_alter_eq].
  apply signed_row_id in Hs1. rewrite !upsert_issued by auto using upsert_ok. by rewrite Hhost, <- Hs1, lookup_insert_eq.
Qed.

End handshakes.

(** ** The message loop takes the announcements *)

(** Registries that differ only in the order of the broadcast list and of the commands. *)
Record registry_equiv (s s' : BeaconRegistry) : Prop := {
  re_records : records s = records s';
  re_known : known_gateways s = known_gateways s';
  re_topics : broadcast_topics s ≡ₚ broadcast_topics s';
  re_log : mqtt_log s ≡ₚ mqtt_log s';
  re_connections : connections s = connections s' ∧ next_connection s = next_connection s'
}.

#[global] Instance registry_equiv_equivalence : Equivalence registry_equiv.
Proof.
  split; [by intros s; split|intros s s' [???? []]; by split|].
  intros s1 s2 s3 [???? []] [???? []]. split; try (etransitivity; eauto); split; congruence.
Qed.

(** What registering a channel does to its record, the broadcast list and the commands. *)
Definition answered (fate : CommandFate) : bool := match fate with TaskAnswers (Ok _) => true | _ => false end.

Definition reg_record (now : Z) (fate : CommandFate) (ch : TopicChannel) (r : option BeaconRecord) : option BeaconRecord :=
  let r := default (empty_record now) r in
  let topic := tc_topic (ch_topic ch) in
  Some match ch_topic_type ch with
       | Listen => if answered fate then set_listen topic r else r
       | Broadcast => set_broadcast topic r
       | Hybrid => if answered fate then set_broadcast topic (set_listen topic r) else r
       end.

Definition reg_topics (fate : CommandFate) (ch : TopicChannel) : list string :=
  match ch_topic_type ch with
  | Listen => []
  | Broadcast => [tc_topic (ch_topic ch)]
  | Hybrid => if answered fate then [tc_topic (ch_topic ch)] else []
  end.

Definition reg_log (fate : CommandFate) (ch : TopicChannel) : list MqttCommand :=
  match ch_topic_type ch with
  | Broadcast => []
  | _ => if answered fate then [Subscribe (tc_topic (ch_topic ch)) (qos_from_u8 (tc_qos (ch_topic ch)))] else []
  end.

Lemma alter_ensured (f : BeaconRecord → BeaconRecord) id d (m : gmap string BeaconRecord) :
  alter f id (match m !! id with Some _ => m | None => <[id := d]> m end) =
  partial_alter (λ r, Some (f (default d r))) id m.
Proof.
  apply map_eq. intros i. destruct (decide (i = id)) as [->|Hne].
  - rewrite lookup_partial_alter_eq, lookup_alter_eq. destruct (m !! id) as [r|] eqn:Hm; [by rewrite Hm|]. by rewrite lookup_insert_eq.
  - rewrite lookup_partial_alter_ne, lookup_alter_ne by done. destruct (m !! id); [done|]. by rewrite lookup_insert_ne.
Qed.

Lemma ensured id d (m : gmap string BeaconRecord) :
  match m !! id with Some _ => m | None => <[id := d]> m end = partial_alter (λ r, Some (default d r)) id m.
Proof. rewrite <- (alter_ensured (λ r, r)). by rewrite alter_id. Qed.

Lemma register_channel_effects now fate ch s : register_channel now fate ch s =
  mkRegistry (partial_alter (reg_record now fate ch) (ch_beacon_id ch) (records s)) (known_gateways s)
    (broadcast_topics s ++ reg_topics fate ch) (mqtt_log s ++ reg_log fate ch) (connections s) (next_connection s).
Proof.
  unfold register_channel, reg_record, reg_topics, reg_log.
  destruct (ch_topic_type ch), fate as [| |[[]|err]]; cbn; unfold set_records, set_log, set_topics; cbn;
    rewrite ?app_nil_r, ?alter_ensured, ?ensured; done.
Qed.

(** The message loop empties the channel; the moment and the fate of each registration are
    given. *)
Definition drain (now : TopicChannel → Z) (fates : TopicChannel → CommandFate) (chs : list TopicChannel) (s : BeaconRegistry) : BeaconRegistry :=
  run_steps (λ ch, register_channel (now ch) (fates ch) ch) chs s.

Lemma drain_same_per_beacon now fates chs chs' s : same_per_key ch_beacon_id chs chs' →
  registry_equiv (drain now fates chs s) (drain now fates chs' s).
Proof.
  apply run_steps_same_per_key.
  - apply _.
  - intros ch s1 s2 [H1 H2 H3 H4 [H5 H6]]. rewrite !register_channel_effects.
    split; cbn; [by rewrite H1|done|by rewrite H3|by rewrite H4|done].
  - intros ch ch' s1 Hne. rewrite !register_channel_effects. split; cbn; [|done| | |done].
    + apply partial_alter_partial_alter_ne. congruence.
    + rewrite <- !app_assoc. apply Permutation_app_head, Permutation_app_comm.
    + rewrite <- !app_assoc. apply Permutation_app_head, Permutation_app_comm.
Qed.

(** C4: Concurrent handshakes are as good as handshakes one after the other: for devices with
    different host names and certificate files, with room in the queue for all their
    channels and with failures of a write that concern its own path only, any schedule that
    gives every handshake its turns ends with all of them answered, with the answers the handlers give one after the other, with the same
    certificates and files, and with announcements from which the message loop builds the
    same registry, up to the order of the broadcast list. *)
Theorem handshakes_serializable `{!JsonText} {KeyPair Certificate Rand : Type} `{!Rcgen KeyPair Certificate Rand}
    state (hs : list (Handshake (Rand:=Rand))) schedule (s : Shared KeyPair Certificate) :
  (∀ h, h ∈ hs → writes_locally (hs_fs h)) →
  (∀ i j h h', hs !! i = Some h → hs !! j = Some h' → i ≠ j → independent state h h') →
  devices_ok (device_certs (ca_db (sh_ca s))) → has_room (2 * length hs) s →
  serial_from 0 (length hs) ⊆+ schedule →
  let '(phases, s1) := server_run state hs schedule s in
  let '(resps, s2) := serve_serially state hs s in
  phases = HsDone <$> resps ∧ shared_equiv s1 s2 ∧
  ∀ now fates reg, registry_equiv (drain now fates (sh_topics s1) reg) (drain now fates (sh_topics s2) reg).
Proof.
  intros H1 H2 H3 H4 H5. pose proof (handshakes_serial_equiv state hs schedule s H1 H2 H3 H4 H5) as Heq.
  destruct (server_run state hs schedule s) as [phases s1], (serve_serially state hs s) as [resps s2].
  destruct Heq as [Hp He]. split_and!; [done..|]. intros now fates reg. apply drain_same_per_beacon, He.
Qed.

(** ** Concrete runs *)

(** Requests whose body is a host name and a certificate request. *)
Definition ex_handshake_text : JsonText := λ s,
  '(host, csr) ← split_once "|" s;
  Some (JObject [("address", JString "10.0.0.7");
                 ("mdns", JObject [("hostname", JString host); ("port", JNumber "80")]);
                 ("csr_pem", JString csr)]).

Definition ex_handshake (uuid host csr : string) : Handshake (Rand:=string) :=
  mkHandshake (mkRequest [("x-placenet-init", "0.0.1")] (Ok (host +:+ "|" +:+ csr))) uuid fs_healthy (ex_ca_env 1 "r").

Definition ex_app_state : AppState :=
  mkAppState (mkBrokerageInfo "localhost" 8883 "") (Some ex_broker_config) 3000 true.

Definition ex_shared : Shared string string := mkShared ex_ca (mkFS ∅ ∅) [] true.

#[local] Existing Instance ex_handshake_text.
#[local] Existing Instance toy_rcgen.

Example ex_handshake_answers :
  status <$> (serve_serially ex_app_state [ex_handshake "u1" "a" "csr-a"] ex_shared).1 = [200%Z].
Proof. vm_compute. reflexivity. Qed.

Lemma ex_local h : h ∈ [ex_handshake "u1" "a" "csr-a"; ex_handshake "u2" "b" "csr-b"] → writes_locally (hs_fs h).
Proof.
  intros Hh. assert (hs_fs h = fs_healthy) as -> by (repeat (apply elem_of_cons in Hh as [->|Hh]; [done|]); by apply elem_of_nil in Hh).
  intros p c. exists (λ o, o). intros [fs ds]. cbn. f_equal. apply map_eq. intros q.
  destruct (decide (q = p)) as [->|]; [by rewrite lookup_partial_alter_eq|by rewrite lookup_partial_alter_ne].
Qed.

Lemma ex_independent i j h h' : [ex_handshake "u1" "a" "csr-a"; ex_handshake "u2" "b" "csr-b"] !! i = Some h →
  [ex_handshake "u1" "a" "csr-a"; ex_handshake "u2" "b" "csr-b"] !! j = Some h' → i ≠ j → independent ex_app_state h h'.
Proof.
  destruct i as [|[|]], j as [|[|]]; intros [= <-] [= <-] Hij; try done; split; try done;
    vm_compute; intros r r' [= <-] [= <-]; split; [done|by intros p [= <-]|done|by intros p [= <-]].
Qed.

(** Two handshakes in turns. *)
Lemma handshakes_serializable_witness :
  let hs := [ex_handshake "u1" "a" "csr-a"; ex_handshake "u2" "b" "csr-b"] in
  let '(phases, s1) := server_run ex_app_state hs [0; 1; 1; 0; 1; 0; 0; 1] ex_shared in
  let '(resps, s2) := serve_serially ex_app_state hs ex_shared in
  phases = HsDone <$> resps ∧ shared_equiv s1 s2 ∧
  ∀ now fates reg, registry_equiv (drain now fates (sh_topics s1) reg) (drain now fates (sh_topics s2) reg).
Proof.
  cbv zeta. apply (handshakes_serializable ex_app_state _ [0; 1; 1; 0; 1; 0; 0; 1] ex_shared ex_local ex_independent).
  - apply NoDup_nil_2.
  - intros _. cbn. unfold TOPIC_CAPACITY. lia.
  - vm_compute. by solve_submseteq.
Defined.

Lemma same_host_race_witness :
  let s := (server_run ex_app_state [ex_handshake "u1" "a" "csr-1"; ex_handshake "u2" "a" "csr-2"] [0; 1; 1; 0] ex_shared).2 in
  fst <$> issued_of (device_certs (ca_db (sh_ca s))) !! "a" = Some "cert(csr-2) by key-a" ∧
  files (sh_fs s) !! "/home/pi/.config/hamlet/certs/a.crt" = Some "cert(csr-1) by key-a".
Proof.
  apply (same_host_race ex_app_state (ex_handshake "u1" "a" "csr-1") (ex_handshake "u2" "a" "csr-2")
    (mkInitRequest "0.0.1" "localhost" (mkDeviceInfo "10.0.0.7" (mkMdns "a" 80) "csr-1"))
    (mkInitRequest "0.0.1" "localhost" (mkDeviceInfo "10.0.0.7" (mkMdns "a" 80) "csr-2"))
    (mkDeviceRow "a" "cert(csr-1) by key-a" 1 31536001 0) (mkDeviceRow "a" "cert(csr-2) by key-a" 1 31536001 0) ex_shared);
    try reflexivity. apply NoDup_nil_2.
Defined.
