(* ===== verification/Connections.v ===== *)
(** * Connections (src/services/beacon_management/internals/proxy.rs, tasks.rs;
    src/services/peer/peer_service.rs)

    The listener of the HTTP gateway, plain or over TLS: its accept loop and the tasks it
    spawns for its connections, which interleave as the scheduler likes; the request passed
    on to the upstream server; and the request the node sends to a peer.  hyper, the sockets
    and the TLS library are represented by what they answer: the requests a connection
    carries and how it ends, the result of connecting, of a handshake and of a sent
    request. *)

From S2P Require Import Prelude RustStr Paths Config Ca Brokerage Json MqttClient CloudGateway Registry HttpGateway.
From stdpp Require Import options.

(** [str::contains] *)
Definition contains (pat s : string) : bool := bool_decide (is_Some (split_once pat s)).

(** ** The upstream server *)

(** What the upstream server does with one forwarded request. *)
Record Upstream := mkUpstream {
  up_connect : Z → result string ();
  up_handshake : result string ();
  up_send : Request → result string Response
}.

Definition try_forward (up : Upstream) (upstream_port : Z) (req : Request) : result string Response :=
  _ ← up_connect up upstream_port;
  _ ← up_handshake up;
  up_send up req.

(** ** A connection *)

Section connection.
Context `{!JsonText} {KeyPair Certificate Rand : Type} `{!Rcgen KeyPair Certificate Rand}.
Implicit Types (s : Shared KeyPair Certificate) (state : AppState).

(** A request as it arrives, with what the world answers while it is handled. *)
Record Exchange := mkExchange {
  x_req : Request;
  x_fs : FsEnv;
  x_ca : CaEnv Rand;
  x_uuid : string;
  x_upstream : Upstream
}.

(** The service function hyper calls. *)
Definition service_fn (state : AppState) (x : Exchange) s : Response * Shared KeyPair Certificate :=
  dispatch (x_fs x) (x_ca x) (x_uuid x) (try_forward (x_upstream x)) state (x_req x) s.

(** What is logged at the end of a connection. *)
Definition connection_log (ended : result string ()) : option string :=
  match ended with
  | Ok _ => None
  | Err msg => if negb (contains "connection reset" msg) && negb (contains "broken pipe" msg) then Some msg else None
  end.

(** Where the task of a connection is: in the TLS handshake, or returned from a failed one
    (with what it logs), waiting for a request, handling one, or at its end (with what it
    logs). *)
Inductive ConnPhase :=
| Handshaking
| HandshakeFailed (e : string)
| Waiting
| Handling (x : Exchange)
| ConnOver (log : option string).

(** A connection, with the answers sent on it. *)
Record HttpConnection := mkHttpConnection {
  cn_phase : ConnPhase;
  cn_answers : list Response
}.

(** What lets a task continue: the handshake comes to an end, a request has arrived, its
    handler has run, or hyper is done with the connection.  HTTP/1 connections carry one
    request at a time.  A connection that ends while its request waits for the handler
    drops the request; a handler dropped at one of its own awaits is not among these
    (the steps between them are those of [Handshakes]). *)
Inductive ConnEvent :=
| CHandshake (accepted : result string ())
| CRequest (x : Exchange)
| CHandled
| CEnded (ended : result string ()).

(** The tasks as they are spawned. *)
Definition serve_connection : HttpConnection := mkHttpConnection Waiting [].
Definition serve_tls_connection : HttpConnection := mkHttpConnection Handshaking [].

(** The handshake, and then hyper's [serve_connection] with the service function. *)
Definition tls_accept (accepted : result string ()) (c : HttpConnection) : HttpConnection :=
  match accepted with
  | Ok _ => mkHttpConnection Waiting (cn_answers c)
  | Err e => mkHttpConnection (HandshakeFailed e) (cn_answers c)
  end.

Definition connection_step (state : AppState) (ev : ConnEvent) (c : HttpConnection) s : option (HttpConnection * Shared KeyPair Certificate) :=
  match cn_phase c, ev with
  | Handshaking, CHandshake accepted => Some (tls_accept accepted c, s)
  | Waiting, CRequest x => Some (mkHttpConnection (Handling x) (cn_answers c), s)
  | Handling x, CHandled =>
      let '(resp, s) := service_fn state x s in Some (mkHttpConnection Waiting (cn_answers c ++ [resp]), s)
  | Waiting, CEnded ended | Handling _, CEnded ended => Some (mkHttpConnection (ConnOver (connection_log ended)) (cn_answers c), s)
  | _, _ => None
  end.

(** ** Accept loops *)

(** A listener: whether its loop goes on, the connections it spawned, and the state their
    handlers share. *)
Record Listener := mkListener {
  li_open : bool;
  li_connections : list HttpConnection;
  li_shared : Shared KeyPair Certificate
}.

Definition new_listener s : Listener := mkListener true [] s.

(** What the loop's select sees, and the progress of a connection's task. *)
Inductive ListenerEvent :=
| LAccept
| LAcceptError (e : string)
| LShutdownSignal
| LConnection (i : nat) (ev : ConnEvent).

(** The loops; a loop that has ended sees nothing more. *)
Definition plain_accept_loop (ev : ListenerEvent) (l : Listener) : option Listener :=
  if li_open l then
    match ev with
    | LAccept => Some (mkListener true (li_connections l ++ [serve_connection]) (li_shared l))
    | LAcceptError _ => Some l
    | LShutdownSignal => Some (mkListener false (li_connections l) (li_shared l))
    | LConnection _ _ => None
    end
  else None.

Definition tls_accept_loop (ev : ListenerEvent) (l : Listener) : option Listener :=
  if li_open l then
    match ev with
    | LAccept => Some (mkListener true (li_connections l ++ [serve_tls_connection]) (li_shared l))
    | LAcceptError _ => Some l
    | LShutdownSignal => Some (mkListener false (li_connections l) (li_shared l))
    | LConnection _ _ => None
    end
  else None.

(** The loop and the tasks it spawned run concurrently: in any order the scheduler picks. *)
Definition listener_step (tls : bool) (state : AppState) (ev : ListenerEvent) (l : Listener) : option Listener :=
  match ev with
  | LConnection i cev =>
      c ← li_connections l !! i;
      '(c, s) ← connection_step state cev c (li_shared l);
      Some (mkListener (li_open l) (<[i := c]> (li_connections l)) s)
  | _ => if tls then tls_accept_loop ev l else plain_accept_loop ev l
  end.

Fixpoint listener_run (tls : bool) (state : AppState) (evs : list ListenerEvent) (l : Listener) : option Listener :=
  match evs with
  | [] => Some l
  | ev :: evs => listener_step tls state ev l ≫= listener_run tls state evs
  end.

(** ** What the answers should be

    The answer to a request and its effect, by the headers of the request: the health check
    before a handshake, a handshake before a registration; without any of the three headers
    the upstream server's answer, or 502 if any step towards it fails. *)
Inductive Answers (state : AppState) (x : Exchange) s : Response → Shared KeyPair Certificate → Prop :=
| answers_health :
    contains_key HEADER_HEALTH (x_req x) = true →
    Answers state x s (mkResponse 200 None (PText "OK")) s
| answers_init resp s' :
    contains_key HEADER_HEALTH (x_req x) = false → contains_key HEADER_INIT (x_req x) = true →
    handle_device_init (x_fs x) (x_ca x) (x_uuid x) state (x_req x) s = (resp, s') →
    Answers state x s resp s'
| answers_register resp s' :
    contains_key HEADER_HEALTH (x_req x) = false → contains_key HEADER_INIT (x_req x) = false →
    contains_key HEADER_REGISTER (x_req x) = true →
    handle_client_register (x_ca x) (x_uuid x) (x_req x) s = (resp, s') →
    Answers state x s resp s'
| answers_upstream resp :
    contains_key HEADER_HEALTH (x_req x) = false → contains_key HEADER_INIT (x_req x) = false →
    contains_key HEADER_REGISTER (x_req x) = false →
    up_connect (x_upstream x) (upstream_port state) = Ok () → up_handshake (x_upstream x) = Ok () →
    up_send (x_upstream x) (x_req x) = Ok resp →
    Answers state x s resp s
| answers_bad_gateway :
    contains_key HEADER_HEALTH (x_req x) = false → contains_key HEADER_INIT (x_req x) = false →
    contains_key HEADER_REGISTER (x_req x) = false →
    (∀ resp, ¬ (up_connect (x_upstream x) (upstream_port state) = Ok () ∧ up_handshake (x_upstream x) = Ok () ∧
                up_send (x_upstream x) (x_req x) = Ok resp)) →
    Answers state x s (mkResponse 502 None (PText "Bad Gateway")) s.

(** A history of handled requests, each on a connection and each handled in the state the
    one before left. *)
Inductive History (state : AppState) : Shared KeyPair Certificate → list (nat * Exchange * Response) → Shared KeyPair Certificate → Prop :=
| history_nil s : History state s [] s
| history_snoc s h s1 i x resp s2 :
    History state s h s1 → Answers state x s1 resp s2 → History state s (h ++ [(i, x, resp)]) s2.

(** What a history has of one connection. *)
Definition handled (i : nat) (h : list (nat * Exchange * Response)) : list (nat * Exchange * Response) :=
  filter (λ r, r.1.1 = i) h.

(** The requests that arrived on a connection. *)
Definition asked (i : nat) (evs : list ListenerEvent) : list Exchange :=
  omap (λ ev, match ev with LConnection j (CRequest x) => if decide (j = i) then Some x else None | _ => None end) evs.

(** The requests a connection in this phase can have left unanswered. *)
Definition left_open (c : HttpConnection) (xs : list Exchange) : Prop :=
  match cn_phase c with
  | Handshaking | HandshakeFailed _ => xs = [] ∧ cn_answers c = []
  | Waiting => xs = []
  | Handling x => xs = [x]
  | ConnOver _ => length xs ≤ 1
  end.

(** ** Proofs *)

Lemma service_fn_answers state x s resp s' : service_fn state x s = (resp, s') → Answers state x s resp s'.
Proof.
  unfold service_fn, dispatch. destruct (contains_key HEADER_HEALTH _) eqn:H1.
  { intros [= <- <-]. by apply answers_health. }
  destruct (contains_key HEADER_INIT _) eqn:H2; [by apply answers_init|].
  destruct (contains_key HEADER_REGISTER _) eqn:H3; [by apply answers_register|].
  unfold try_forward, mbind, result_bind.
  destruct (up_connect _ _) as [[]|e] eqn:H4; [destruct (up_handshake _) as [[]|e] eqn:H5; [destruct (up_send _ _) as [r|e] eqn:H6|]|];
    intros [= <- <-]; try (by apply answers_upstream); apply answers_bad_gateway; try done; intros resp; rewrite ?H4, ?H5, ?H6; naive_solver.
Qed.

Lemma listener_run_app tls state evs evs' l :
  listener_run tls state (evs ++ evs') l = listener_run tls state evs l ≫= listener_run tls state evs'.
Proof. revert l. induction evs as [|ev evs IH]; intros l; [done|]. cbn. destruct (listener_step tls state ev l); [apply IH|done]. Qed.

(** How the events of a run, its history and its listener fit together. *)
Record accounts (state : AppState) s (evs : list ListenerEvent) (h : list (nat * Exchange * Response)) (l : Listener) : Prop := {
  acc_history : History state s h (li_shared l);
  acc_conn : ∀ i c, li_connections l !! i = Some c →
    cn_answers c = (handled i h).*2 ∧ ∃ rest, asked i evs = (handled i h).*1.*2 ++ rest ∧ left_open c rest;
  acc_none : ∀ i, length (li_connections l) ≤ i → asked i evs = [] ∧ handled i h = []
}.

Lemma asked_other i ev evs : (∀ x, ev ≠ LConnection i (CRequest x)) → asked i (evs ++ [ev]) = asked i evs.
Proof.
  intros Hev. unfold asked. rewrite omap_app. cbn. destruct ev as [| | |j []]; rewrite ?app_nil_r; try done.
  case_decide; [subst; by edestruct Hev|]. apply app_nil_r.
Qed.

Lemma asked_request i x evs : asked i (evs ++ [LConnection i (CRequest x)]) = asked i evs ++ [x].
Proof. unfold asked. rewrite omap_app. cbn. by rewrite decide_True. Qed.

Lemma handled_snoc i j x resp h :
  handled i (h ++ [(j, x, resp)]) = handled i h ++ (if decide (j = i) then [(j, x, resp)] else []).
Proof. unfold handled. rewrite list.filter_app, filter_cons. cbn. by case_decide. Qed.

(** The loop itself touches no connection it has. *)
Lemma loop_keeps tls state ev l l' : listener_step tls state ev l = Some l' → (∀ i cev, ev ≠ LConnection i cev) →
  li_shared l' = li_shared l ∧
  (li_connections l' = li_connections l ∨
   li_open l = true ∧ li_connections l' = li_connections l ++ [if tls then serve_tls_connection else serve_connection]).
Proof.
  intros Hst Hev. destruct ev as [| | |i cev]; [..|by edestruct Hev]; cbn in Hst;
    destruct tls; unfold tls_accept_loop, plain_accept_loop in Hst; destruct (li_open l); simplify_eq/=; auto.
Qed.

Lemma accounts_loop tls state s evs h l l' ev : (∀ i cev, ev ≠ LConnection i cev) →
  listener_step tls state ev l = Some l' → accounts state s evs h l → accounts state s (evs ++ [ev]) h l'.
Proof.
  intros Hev Hst [H1 H2 H3]. destruct (loop_keeps _ _ _ _ _ Hst Hev) as [Hsh Hc].
  assert (∀ i, asked i (evs ++ [ev]) = asked i evs) as Ha by (intros i; by apply asked_other).
  split; [by rewrite Hsh| |]; intros i; rewrite Ha; destruct Hc as [->|[_ ->]]; auto.
  - intros c [[_ Hi]|[-> <-]]%lookup_snoc_Some; [auto|]. destruct (H3 _ (le_n _)) as [-> ->]. split; [by destruct tls|].
    exists []. split; [done|]. by destruct tls.
  - rewrite length_app. cbn. intros Hi. apply H3. lia.
Qed.

Lemma accounts_task state s evs h l i c cev c' s' :
  li_connections l !! i = Some c → connection_step state cev c (li_shared l) = Some (c', s') → accounts state s evs h l →
  ∃ h', accounts state s (evs ++ [LConnection i cev]) h' (mkListener (li_open l) (<[i := c']> (li_connections l)) s').
Proof.
  intros Hi Hst [H1 H2 H3]. destruct (H2 i c Hi) as [Hans (rest & Hasked & Hrest)].
  pose proof (lookup_lt_Some _ _ _ Hi) as Hlt.
  (* the frame: connections other than [i] *)
  assert (∀ h' s', History state s h' s' → (∀ j, j ≠ i → handled j h' = handled j h) →
    cn_answers c' = (handled i h').*2 →
    (∃ rest, asked i (evs ++ [LConnection i cev]) = (handled i h').*1.*2 ++ rest ∧ left_open c' rest) →
    accounts state s (evs ++ [LConnection i cev]) h' (mkListener (li_open l) (<[i := c']> (li_connections l)) s')) as frame.
  { intros h' t Hh Hj Hc Hr. split; cbn; [done| |].
    - intros j d. destruct (decide (j = i)) as [->|Hne]; [rewrite list_lookup_insert_eq by done; by intros [= <-]|].
      rewrite list_lookup_insert_ne by done. intros Hd. rewrite Hj, asked_other by naive_solver. auto.
    - rewrite length_insert. intros j Hle. rewrite Hj, asked_other by (naive_solver lia). auto. }
  unfold connection_step in Hst. unfold left_open in Hrest.
  destruct (cn_phase c) as [|e| |x|log] eqn:Hp, cev as [[[]|e']|y| |ended]; simplify_eq/=;
    try (exists h; apply frame; [done..|]; rewrite ?asked_request, ?asked_other by done; rewrite Hasked; cbn; exists rest; naive_solver (cbn; lia)).
  - exists h. apply frame; [done..|]. rewrite asked_request, Hasked, app_nil_r. by exists [y].
  - exists h. apply frame; [done..|]. rewrite asked_other, Hasked by done. eexists. split; [done|cbn; lia].
  - destruct (service_fn state x (li_shared l)) as [resp s1] eqn:Hs. simplify_eq/=. exists (h ++ [(i, x, resp)]). apply frame.
    + eapply history_snoc; [done|]. by apply service_fn_answers.
    + intros j Hne. rewrite handled_snoc, decide_False by done. apply app_nil_r.
    + rewrite handled_snoc, decide_True by done. cbn. by rewrite fmap_app, Hans.
    + rewrite asked_other, Hasked, handled_snoc, decide_True by done. exists []. by rewrite !fmap_app, app_nil_r.
  - exists h. apply frame; [done..|]. rewrite asked_other, Hasked by done. eexists. split; [done|cbn; lia].
Qed.

Lemma run_accounts tls state s evs l : listener_run tls state evs (new_listener s) = Some l → ∃ h, accounts state s evs h l.
Proof.
  revert l. induction evs as [|ev evs IH] using rev_ind; intros l.
  - intros [= <-]. exists []. split; [constructor|done|done].
  - rewrite listener_run_app. intros (l0 & Hl0 & Hst)%bind_Some. destruct (IH _ Hl0) as [h Hh]. cbn in Hst.
    apply bind_Some in Hst as (l1 & Hst & [= <-]). destruct ev as [|e| |i cev]; try (exists h; by eapply accounts_loop).
    cbn in Hst. apply bind_Some in Hst as (c & Hc & Hst). apply bind_Some in Hst as ([c' s'] & Hst & [= <-]).
    by eapply accounts_task.
Qed.

(** C28: However the accept loop and the tasks of its connections interleave, with TLS or
    without, the node's answers come from one history of handled requests in which every
    request is answered as its headers name ([Answers]), in the state the ones before it
    left, and which ends in the node's state.  On each connection the answers are those of
    its own requests, each once and in their order; only the last request can be still
    unanswered, while it is being handled or when the connection ended before it was; and
    a connection that is not past its TLS handshake has no requests. *)
Theorem requests_answered tls state evs s l :
  listener_run tls state evs (new_listener s) = Some l →
  ∃ h, History state s h (li_shared l) ∧
    ∀ i c, li_connections l !! i = Some c →
      cn_answers c = (handled i h).*2 ∧
      ∃ rest, asked i evs = (handled i h).*1.*2 ++ rest ∧ left_open c rest.
Proof. intros [h [H1 H2 _]]%run_accounts. exists h. split; [exact H1|exact H2]. Qed.

(** A loop that has ended accepts nothing. *)
Lemma closed_accepts_nothing tls state evs l l' : li_open l = false → listener_run tls state evs l = Some l' →
  length (li_connections l') = length (li_connections l).
Proof.
  revert l. induction evs as [|ev evs IH]; intros l Ho; [by intros [= <-]|]. cbn. intros (l1 & Hst & Hrun)%bind_Some.
  destruct ev as [|e| |i cev]; [destruct tls; cbn in Hst; unfold tls_accept_loop, plain_accept_loop in Hst; by rewrite Ho in Hst..|].
  cbn in Hst. apply bind_Some in Hst as (c & _ & Hst). apply bind_Some in Hst as ([c' s'] & _ & [= <-]).
  apply IH in Hrun; [|done]. cbn in Hrun. by rewrite length_insert in Hrun.
Qed.

(** The events of a client that asks one request after the other. *)
Definition ask (i : nat) (xs : list Exchange) : list ListenerEvent :=
  xs ≫= λ x, [LConnection i (CRequest x); LConnection i CHandled].

(** A waiting connection is served, whatever the loop does. *)
Lemma waiting_served tls state i c xs l : li_connections l !! i = Some c → cn_phase c = Waiting →
  ∃ l' h, listener_run tls state (ask i xs) l = Some l' ∧ History state (li_shared l) h (li_shared l') ∧
    h.*1 = (i,.) <$> xs ∧ li_connections l' !! i = Some (mkHttpConnection Waiting (cn_answers c ++ h.*2)).
Proof.
  intros Hi Hp. induction xs as [|x xs IH] using rev_ind.
  - exists l, []. split_and!; [done|constructor|done|]. rewrite app_nil_r, Hi. destruct c; cbn in *. by subst.
  - destruct IH as (l1 & h & Hrun & Hh & Hxs & Hc). unfold ask in *. rewrite bind_app, listener_run_app, Hrun. cbn.
    rewrite Hc. cbn. rewrite list_lookup_insert_eq by (by eapply lookup_lt_Some). cbn.
    destruct (service_fn state x (li_shared l1)) as [resp s2] eqn:Hs. cbn.
    eexists _, (h ++ [(i, x, resp)]). split_and!; [done|..].
    + eapply history_snoc; [exact Hh|]. by apply service_fn_answers.
    + by rewrite !fmap_app, Hxs.
    + cbn. rewrite list_insert_insert_eq, list_lookup_insert_eq by (by eapply lookup_lt_Some). by rewrite fmap_app, app_assoc.
Qed.

(** C27: Stopping the HTTP gateway ends only its accept loop: after the shutdown signal no
    connection is accepted any more, but every connection that is open keeps being served:
    any number of further requests on it are answered as before the stop, with all their
    effects on the node. *)
Theorem stop_keeps_connections tls state l :
  li_open l = true →
  ∃ l1, listener_step tls state LShutdownSignal l = Some l1 ∧ li_shared l1 = li_shared l ∧
    (∀ evs l2, listener_run tls state evs l1 = Some l2 → length (li_connections l2) = length (li_connections l)) ∧
    ∀ i c xs, li_connections l !! i = Some c → cn_phase c = Waiting →
      ∃ l2 h, listener_run tls state (ask i xs) l1 = Some l2 ∧ History state (li_shared l) h (li_shared l2) ∧
        h.*1 = (i,.) <$> xs ∧ li_connections l2 !! i = Some (mkHttpConnection Waiting (cn_answers c ++ h.*2)).
Proof.
  intros Ho. exists (mkListener false (li_connections l) (li_shared l)).
  split; [destruct tls; cbn; unfold tls_accept_loop, plain_accept_loop; by rewrite Ho|]. split_and!; [done| |].
  - intros evs l2. by apply (closed_accepts_nothing _ _ _ (mkListener false (li_connections l) (li_shared l))).
  - intros i c xs Hi Hp. by apply (waiting_served _ _ _ _ _ (mkListener false (li_connections l) (li_shared l))).
Qed.

End connection.

(** ** Messages to a peer (peer_service.rs) *)

(** A parsed [Uri] as far as it is used here; [uri_parse] is [Uri]'s own parser. *)
Record Uri := mkUri { uri_host : option string; uri_port : option Z; uri_path_and_query : option string }.

(** The request that is sent. *)
Record PeerRequest := mkPeerRequest {
  pr_addr : string;
  pr_uri : string;
  pr_headers : list (string * string);
  pr_body : string
}.

(** What the network answers, step by step; [pn_build] is the outcome of building the
    request. *)
Record PeerNet := mkPeerNet {
  pn_connect : string → result string ();
  pn_handshake : result string ();
  pn_build : result string ();
  pn_send : PeerRequest → result string Z;
  pn_body : result string string
}.

Section peer.
Context (uri_parse : string → result string Uri).
Context (show_status : Z → string).

(** [StatusCode::is_success] *)
Definition is_success (status : Z) : bool := (200 <=? status)%Z && (status <? 300)%Z.

(** The result, and the request that went out. *)
Definition send_message (net : PeerNet) (base_url message : string) : result string () * option PeerRequest :=
  match map_err (λ e, "Invalid peer URL: " +:+ e) (uri_parse (base_url +:+ "/peer/message")) with
  | Err e => (Err e, None)
  | Ok url =>
      match uri_host url with
      | None => (Err "Peer URL has no host", None)
      | Some host =>
          let port := default 80%Z (uri_port url) in
          let addr := host +:+ ":" +:+ show_uint port in
          let request := mkPeerRequest addr (default "/peer/message" (uri_path_and_query url))
                           [("host", host +:+ ":" +:+ show_uint port); ("content-type", "text/plain")] message in
          match map_err (λ e, "Failed to connect to peer " +:+ addr +:+ ": " +:+ e) (pn_connect net addr) with
          | Err e => (Err e, None)
          | Ok _ =>
              match (_ ← map_err (λ e, "HTTP handshake failed: " +:+ e) (pn_handshake net);
                     map_err (λ e, "Failed to build request: " +:+ e) (pn_build net)) with
              | Err e => (Err e, None)
              | Ok _ =>
                  (status ← map_err (λ e, "Failed to send request to peer: " +:+ e) (pn_send net request);
                   body ← map_err (λ e, "Failed to read peer response body: " +:+ e) (pn_body net);
                   if is_success status then Ok ()
                   else Err ("Peer returned " +:+ show_status status +:+ " — " +:+ from_utf8_lossy body), Some request)
              end
          end
      end
  end.

(** A message is delivered exactly when the peer answers it with a success status and a
    readable body; it is posted once, with the message as its body, to the host and port of
    the URL (80 without one), and nothing is sent unless a connection stands. *)
Theorem send_message_outcomes net base_url message :
  let '(r, sent) := send_message net base_url message in
  (r = Ok () ↔ ∃ req status body, sent = Some req ∧ pn_send net req = Ok status ∧ (200 ≤ status < 300)%Z ∧ pn_body net = Ok body) ∧
  (∀ req, sent = Some req → pr_body req = message ∧ pn_connect net (pr_addr req) = Ok () ∧ pn_handshake net = Ok () ∧
     ∃ url host, uri_parse (base_url +:+ "/peer/message") = Ok url ∧ uri_host url = Some host ∧
       pr_addr req = host +:+ ":" +:+ show_uint (default 80%Z (uri_port url)) ∧ ("host", pr_addr req) ∈ pr_headers req).
Proof.
  unfold send_message. destruct (uri_parse _) as [url|e] eqn:Hu; cbn; [|split; [naive_solver|done]].
  destruct (uri_host url) as [host|] eqn:Hh; [|split; [naive_solver|done]]. cbn zeta.
  set (addr := host +:+ ":" +:+ show_uint (default 80%Z (uri_port url))).
  destruct (pn_connect net addr) as [[]|e] eqn:Hc; cbn; [|split; [naive_solver|done]].
  destruct (pn_handshake net) as [[]|e] eqn:Hs; cbn; [|split; [naive_solver|done]].
  destruct (pn_build net) as [[]|e]; cbn; [|split; [naive_solver|done]].
  set (req := mkPeerRequest _ _ _ _). split.
  - destruct (pn_send net req) as [status|e] eqn:He; cbn;
      [|split; [done|]; intros (? & ? & ? & [= <-] & ? & _); congruence].
    destruct (pn_body net) as [body|e]; cbn; [|split; [done|]; intros (? & ? & ? & _ & _ & _ & ?); congruence].
    unfold is_success. destruct ((200 <=? status)%Z && (status <? 300)%Z) eqn:Hst; split; try done.
    + intros _. exists req, status, body. bools. by split_and!.
    + intros (req' & st' & b' & [= <-] & Hst' & Hb & _). rewrite He in Hst'. injection Hst' as <-.
      apply andb_false_iff in Hst as [Hst|Hst]; bools; lia.
  - intros req' [= <-]. split_and!; [done..|]. exists url, host. split_and!; try done. cbn. by left.
Qed.

End peer.

(** ** Concrete runs *)

Definition ex_request (header body : string) : Exchange (Rand := string) :=
  mkExchange (mkRequest [(header, "0.0.1")] (Ok body)) fs_healthy (ex_ca_env 1 "r") "u1"
    (mkUpstream (λ _, Err "refused") (Ok ()) (λ _, Err "closed")).

Definition ex_gateway_state : AppState := mkAppState (mkBrokerageInfo "localhost" 8883 "") None 3000 true.

Definition ex_start : Shared string string := mkShared ex_ca (mkFS ∅ ∅) [] true.

(** Three connections over TLS, one of which fails its handshake; the other two are handled
    in the opposite order of their requests, and one of them after the shutdown. *)
Definition ex_listener_events : list (ListenerEvent (Rand := string)) :=
  [LAccept; LAccept; LConnection 1 (CHandshake (Ok ())); LAccept; LConnection 0 (CHandshake (Ok ()));
   LConnection 2 (CHandshake (Err "bad certificate")); LConnection 0 (CRequest (ex_request "x-other" ""));
   LConnection 1 (CRequest (ex_request "x-placenet-health" "")); LConnection 1 CHandled;
   LShutdownSignal; LConnection 0 CHandled; LConnection 1 (CEnded (Err "broken pipe"))].

Definition ex_listen (tls : bool) (evs : list (ListenerEvent (Rand := string))) (l : Listener) : option Listener :=
  @listener_run ex_text string string string toy_rcgen tls ex_gateway_state evs l.

Example ex_listener_answers :
  (λ l, (λ c, status <$> cn_answers c) <$> li_connections l) <$> ex_listen true ex_listener_events (new_listener ex_start) = Some [[502%Z]; [200%Z]; []].
Proof. vm_compute. reflexivity. Qed.

Lemma requests_answered_witness :
  ∃ l h, ex_listen true ex_listener_events (new_listener ex_start) = Some l ∧
    @History ex_text string string string toy_rcgen ex_gateway_state ex_start h (li_shared l) ∧
    (handled 0 h).*1.*2 = [ex_request "x-other" ""].
Proof.
  destruct (ex_listen true ex_listener_events (new_listener ex_start)) as [l|] eqn:Hl; [|vm_compute in Hl; discriminate Hl].
  destruct (@requests_answered ex_text string string string toy_rcgen true ex_gateway_state ex_listener_events ex_start l Hl) as (h & Hh & Hc).
  exists l, h. split_and!; [done..|].
  destruct (Hc 0 (mkHttpConnection Waiting [text_response 502 "Bad Gateway"])) as (_ & rest & Ha & Hr).
  - revert Hl. vm_compute. by intros [= <-].
  - cbn in Hr. subst rest. by rewrite app_nil_r in Ha.
Defined.

Lemma stop_keeps_connections_witness :
  ∃ l1 l2, @listener_step ex_text string string string toy_rcgen false ex_gateway_state LShutdownSignal (mkListener true [serve_connection] ex_start) = Some l1 ∧
    ex_listen false (ask 0 [ex_request "x-placenet-health" ""]) l1 = Some l2.
Proof.
  destruct (@stop_keeps_connections ex_text string string string toy_rcgen false ex_gateway_state (mkListener true [serve_connection] ex_start) eq_refl)
    as (l1 & Hst & _ & _ & Hserve).
  destruct (Hserve 0 serve_connection [ex_request "x-placenet-health" ""] eq_refl eq_refl) as (l2 & h & Hrun & _).
  exists l1, l2. split; [exact Hst|exact Hrun].
Defined.
