(* ===== verification/GatewayMqtt.v ===== *)
(** * The cloud gateway over MQTT (src/services/gateway_mqtt/)

    The HTTPS login, the connection task that keeps an MQTT connection to the
    gateway's broker, the managed service and its registration.  What the network
    answers is an argument: the steps of a login, the events of a connection. *)

From S2P Require Import Prelude RustStr Paths Config Supervisor Json MqttClient.
From stdpp Require Import options.

(** ** The wire contract (protocol.rs) *)

Record LoginRequest := mkLoginRequest { lr_username : string; lr_password : string }.

Record BrokerInfo := mkBrokerInfo { br_host : string; br_port : Z }.

Record DeviceTopics := mkDeviceTopics { dt_cmds : string; dt_connect : string; dt_notify : string }.

Record LoginResponse := mkLoginResponse {
  protocol_version : string;
  device_id : string;
  mqtt_username : string;
  mqtt_password : string;
  broker : BrokerInfo;
  topics : DeviceTopics
}.

#[global] Instance BrokerInfo_eq_dec : EqDecision BrokerInfo.
Proof. solve_decision. Defined.
#[global] Instance DeviceTopics_eq_dec : EqDecision DeviceTopics.
Proof. solve_decision. Defined.
#[global] Instance LoginResponse_eq_dec : EqDecision LoginResponse.
Proof. solve_decision. Defined.

Definition login_request_json (r : LoginRequest) : Json :=
  JObject [("username", JString (lr_username r)); ("password", JString (lr_password r))].

Definition broker_from_json (v : Json) : option BrokerInfo :=
  host ← struct_field 2 0 "host" v ≫= as_str;
  port ← struct_field 2 1 "port" v ≫= as_u16;
  Some (mkBrokerInfo host port).

Definition topics_from_json (v : Json) : option DeviceTopics :=
  cmds ← struct_field 3 0 "cmds" v ≫= as_str;
  connect ← struct_field 3 1 "connect" v ≫= as_str;
  notify ← struct_field 3 2 "notify" v ≫= as_str;
  Some (mkDeviceTopics cmds connect notify).

Definition login_response_from_json (v : Json) : option LoginResponse :=
  version ← struct_field 6 0 "protocol_version" v ≫= as_str;
  device ← struct_field 6 1 "device_id" v ≫= as_str;
  username ← struct_field 6 2 "mqtt_username" v ≫= as_str;
  password ← struct_field 6 3 "mqtt_password" v ≫= as_str;
  b ← struct_field 6 4 "broker" v ≫= broker_from_json;
  t ← struct_field 6 5 "topics" v ≫= topics_from_json;
  Some (mkLoginResponse version device username password b t).

(** [Envelope], with the derived serialisation tagged in snake case and the derived parser
    of an internally tagged enum. *)
Inductive Envelope := Alive (device : string).

Definition alive_json (device : string) : Json :=
  JObject [("type", JString "alive"); ("device_id", JString device)].

Definition envelope_to_json (env : Envelope) : Json := match env with Alive device => alive_json device end.

Definition envelope_from_json (v : Json) : option Envelope :=
  m ← as_object v;
  tag ← str_field "type" m;
  if decide (tag = "alive") then Alive <$> str_field "device_id" m else None.

(** What [handle_inbound] writes to the log. *)
Inductive EnvelopeLog := LogEnvelope (topic : string) (env : Envelope) | LogUndecoded (topic : string).

Definition gateway_handle_inbound `{!JsonText} (topic payload : string) : EnvelopeLog :=
  match from_slice payload ≫= envelope_from_json with
  | Some env => LogEnvelope topic env
  | None => LogUndecoded topic
  end.

(** ** Login (login.rs) *)

Record Url := mkUrl { url_tls : bool; url_host : string; url_port : Z; url_path : string }.

#[global] Instance Url_eq_dec : EqDecision Url.
Proof. solve_decision. Defined.

Definition Url_parse (input : string) : result string Url :=
  '(scheme, rest) ← ok_or ("invalid gateway url '" +:+ input +:+ "'") (split_once "://" input);
  tls ← (if decide (scheme = "https") then Ok true
         else if decide (scheme = "http") then Ok false
         else Err ("unsupported gateway scheme '" +:+ scheme +:+ "'"));
  let '(authority, path) := match find_split "/" rest with Some (a, p) => (a, p) | None => (rest, "/") end in
  let plain := (authority, if tls : bool then 443%Z else 80%Z) in
  '(host, port) ←
    match rsplit_once ":" authority with
    | Some (h, p) =>
        if decide (h = "") then Ok plain
        else port ← ok_or ("invalid port in '" +:+ input +:+ "'") (parse_uint u16_max p); Ok (h, port)
    | None => Ok plain
    end;
  Ok (mkUrl tls host port path).

(** The certificates [tls_connector] trusts; [read] is what [std::fs::read] answers. *)
Section connector.
Context {Cert Anchor : Type}.
Context (pem_certs : string → list (result string Cert)).
Context (trust_anchor : Cert → result string Anchor).
Context (webpki_roots : list Anchor).

Fixpoint add_gateway_roots (roots : list Anchor) (certs : list (result string Cert)) : result string (list Anchor) :=
  match certs with
  | [] => Ok roots
  | cert :: certs =>
      cert ← map_err (λ e, "parse gateway CA: " +:+ e) cert;
      anchor ← map_err (λ e, "add gateway CA: " +:+ e) (trust_anchor cert);
      add_gateway_roots (roots ++ [anchor]) certs
  end.

Definition tls_connector (read : string → result string string) (cafile : option string) : result string (list Anchor) :=
  match cafile with
  | Some cafile =>
      pem ← map_err (λ e, "read gateway CA '" +:+ cafile +:+ "': " +:+ e) (read cafile);
      add_gateway_roots [] (pem_certs pem)
  | None => Ok webpki_roots
  end.

End connector.

Inductive LoginError := Unauthorized | Transient (e : string).

(** What a login meets on the way: connecting, the certificates to trust, the name of the
    server, the TLS and HTTP handshakes, sending, and the answer: its status code with
    the code's display text, and its body, which may fail to arrive. *)
Record LoginNet := mkLoginNet {
  ln_connect : result string ();
  ln_tls_connector : result string ();
  ln_server_name : result string ();
  ln_tls_handshake : result string ();
  ln_http_handshake : result string ();
  ln_build : result string ();
  ln_send : result string (Z * string);
  ln_body : result string string
}.

(** The request line, host and body put on the connection. *)
Record HttpPost := mkHttpPost { post_tls : bool; post_host : string; post_path : string; post_body : Json }.

Definition transient {A} (what : string) (r : result string A) : result LoginError A :=
  map_err (λ e, Transient (what +:+ e)) r.

Section login.
Context `{!JsonText}.

(** The text of a parse error is left out. *)
Definition send_request (net : LoginNet) : result LoginError LoginResponse :=
  _ ← transient "http handshake: " (ln_http_handshake net);
  _ ← transient "build request: " (ln_build net);
  '(status, status_text) ← transient "send request: " (ln_send net);
  bytes ← transient "read body: " (ln_body net);
  if decide (status = 401%Z) then Err Unauthorized
  else if decide (200 ≤ status < 300)%Z then
    ok_or (Transient "parse login response: ") (from_slice bytes ≫= login_response_from_json)
  else Err (Transient ("login returned " +:+ status_text +:+ ": " +:+ from_utf8_lossy bytes)).

(** The outcome and the request that was sent, if it came that far. *)
Definition login (net : LoginNet) (base_url : string) (req : LoginRequest) : result LoginError LoginResponse * option HttpPost :=
  match map_err Transient (Url_parse base_url) with
  | Err e => (Err e, None)
  | Ok url =>
      let path := trim_end_matches "/" (url_path url) +:+ "/api/login" in
      let post := mkHttpPost (url_tls url) (url_host url) path (login_request_json req) in
      match transient ("connect " +:+ url_host url +:+ ":" +:+ show_uint (url_port url) +:+ ": ") (ln_connect net) with
      | Err e => (Err e, None)
      | Ok _ =>
          if url_tls url then
            match (_ ← transient "" (ln_tls_connector net);
                   _ ← transient "invalid server name: " (ln_server_name net);
                   transient "tls handshake: " (ln_tls_handshake net)) with
            | Err e => (Err e, None)
            | Ok _ => (send_request net, Some post)
            end
          else (send_request net, Some post)
      end
  end.

End login.

(** ** The connection task (tasks.rs) *)

Record GatewayMqttConfig := mkGatewayMqttConfig {
  gmc_gateway_url : string;
  gmc_username : string;
  gmc_password : string;
  gmc_broker_cafile : option string;
  gmc_broker_tls : bool
}.

Definition INITIAL_DELAY : Z := 2.
Definition MAX_DELAY : Z := 60.

(** The broker connection the credentials ask for. *)
Definition client_config (config : GatewayMqttConfig) (creds : LoginResponse) : MqttClientConfig :=
  mkMqttClientConfig (device_id creds) (br_host (broker creds)) (br_port (broker creds))
    (if gmc_broker_tls config then ServerOnly else TlsNone) (gmc_broker_cafile config) None None
    (mqtt_username creds) (mqtt_password creds).

Section task.
Context {Cert Anchor : Type}.
Context (pem_certs : string → list (result string Cert)).
Context (trust_anchor : Cert → result string Anchor).
Context (webpki_roots : list Anchor).

(** Logging in, sleeping, holding a connection, or over. *)
Inductive GPhase :=
| LoggingIn
| Sleeping
| OnBroker (creds : LoginResponse) (opts : MqttOptions Anchor)
| Finished.

(** The messages queued for the task and those it took, the commands each connection's
    client accepted, the connections so far (latest first), the delays slept. *)
Record GTask := mkGTask {
  gt_config : GatewayMqttConfig;
  gt_phase : GPhase;
  gt_delay : Z;
  gt_cached : option LoginResponse;
  gt_queue : list MqttMessage;
  gt_connections : list (MqttOptions Anchor * list MqttCommand);
  gt_slept : list Z
}.

Definition new_gtask (config : GatewayMqttConfig) : GTask := mkGTask config LoggingIn INITIAL_DELAY None [] [] [].

(** Events; a [read] is the file system a new connection's options are built from, a
    [bool] says whether the client accepted a command. *)
Inductive GEvent :=
| GShutdown
| GQueued (m : MqttMessage)
| GLoggedIn (creds : LoginResponse) (read : string → result string string)
| GLoginFailed (e : LoginError)
| GSlept (read : string → result string string)
| GOutbound (accepted : bool)
| GConnAck (cmds connect alive : bool)
| GIncoming (topic payload : string)
| GRefused
| GConnectionError.

(** [backoff] starts with the current delay and doubles it for the next time. *)
Definition start_backoff (t : GTask) : GTask :=
  mkGTask (gt_config t) Sleeping (Z.min (gt_delay t * 2) MAX_DELAY) (gt_cached t) (gt_queue t) (gt_connections t)
    (gt_slept t ++ [gt_delay t]).

(** With credentials: build the options and connect. *)
Definition connect_with (read : string → result string string) (creds : LoginResponse) (t : GTask) : GTask :=
  match build_mqtt_opts pem_certs trust_anchor webpki_roots read (client_config (gt_config t) creds) with
  | Ok opts =>
      mkGTask (gt_config t) (OnBroker creds opts) (gt_delay t) (gt_cached t) (gt_queue t) ((opts, []) :: gt_connections t) (gt_slept t)
  | Err _ => start_backoff t
  end.

(** The top of the reconnect loop. *)
Definition reconnect (read : string → result string string) (t : GTask) : GTask :=
  match gt_cached t with
  | Some creds => connect_with read creds t
  | None => mkGTask (gt_config t) LoggingIn (gt_delay t) None (gt_queue t) (gt_connections t) (gt_slept t)
  end.

Definition log_commands (cmds : list MqttCommand) (t : GTask) : GTask :=
  mkGTask (gt_config t) (gt_phase t) (gt_delay t) (gt_cached t) (gt_queue t)
    (match gt_connections t with [] => [] | (o, l) :: cs => (o, l ++ cmds) :: cs end) (gt_slept t).

Definition accepted (b : bool) (cmd : MqttCommand) : list MqttCommand := if b then [cmd] else [].

(** The commands of [on_connected], in order; [render] is [serde_json::to_vec]. *)
Definition on_connected (render : Json → string) (creds : LoginResponse) (cmds connect alive : bool) : list MqttCommand :=
  accepted cmds (Subscribe (dt_cmds (topics creds)) AtLeastOnce) ++
  accepted connect (Subscribe (dt_connect (topics creds)) AtLeastOnce) ++
  accepted alive (Publish (dt_notify (topics creds)) AtLeastOnce (render (alive_json (device_id creds)))).

Definition set_gphase (p : GPhase) (t : GTask) : GTask :=
  mkGTask (gt_config t) p (gt_delay t) (gt_cached t) (gt_queue t) (gt_connections t) (gt_slept t).
Definition set_cached (c : option LoginResponse) (t : GTask) : GTask :=
  mkGTask (gt_config t) (gt_phase t) (gt_delay t) c (gt_queue t) (gt_connections t) (gt_slept t).
Definition reset_delay (t : GTask) : GTask :=
  mkGTask (gt_config t) (gt_phase t) INITIAL_DELAY (gt_cached t) (gt_queue t) (gt_connections t) (gt_slept t).
Definition set_gqueue (q : list MqttMessage) (t : GTask) : GTask :=
  mkGTask (gt_config t) (gt_phase t) (gt_delay t) (gt_cached t) q (gt_connections t) (gt_slept t).

Definition gtask_step (render : Json → string) (ev : GEvent) (t : GTask) : option GTask :=
  match gt_phase t, ev with
  | Finished, _ => None
  | _, GShutdown => Some (set_gphase Finished t)
  | _, GQueued m => if decide (length (gt_queue t) < 64) then Some (set_gqueue (gt_queue t ++ [m]) t) else None
  | LoggingIn, GLoggedIn creds read => Some (connect_with read creds (set_cached (Some creds) t))
  | LoggingIn, GLoginFailed _ => Some (start_backoff t)
  | Sleeping, GSlept read => Some (reconnect read t)
  | OnBroker creds _, GOutbound ok =>
      match gt_queue t with
      | [] => None
      | m :: q => Some (log_commands (accepted ok (Publish (msg_topic m) AtLeastOnce (msg_payload m))) (set_gqueue q t))
      end
  | OnBroker creds _, GConnAck cmds connect alive =>
      Some (log_commands (on_connected render creds cmds connect alive) (reset_delay t))
  | OnBroker _ _, GIncoming _ _ => Some t
  | OnBroker _ _, GRefused => Some (start_backoff (set_cached None t))
  | OnBroker _ _, GConnectionError => Some (start_backoff t)
  | _, _ => None
  end.

Fixpoint gtask_run (render : Json → string) (evs : list GEvent) (t : GTask) : option GTask :=
  match evs with
  | [] => Some t
  | ev :: evs => gtask_step render ev t ≫= gtask_run render evs
  end.

End task.
Arguments GPhase : clear implicits.
Arguments GTask : clear implicits.

(** ** The service (gateway_mqtt_service.rs, manager.rs) *)

Record GatewayMqttService := mkGatewayMqtt {
  gms_config : GatewayMqttConfig;
  gms_outbound_rx : option ();
  gms_shutdown_tx : option nat;
  gms_tasks : list (GatewayMqttConfig * bool)
}.

Definition new_gateway_mqtt (config : GatewayMqttConfig) : GatewayMqttService := mkGatewayMqtt config (Some ()) None [].

(** [GatewayMqttHandle::publish] on a channel with room: an error once the receiver is gone. *)
Definition gateway_publish (open : bool) (topic payload : string) : st (list MqttMessage) string () := λ queue,
  if open then (Ok (), queue ++ [mkMqttMessage topic payload]) else (Err "gateway mqtt channel closed", queue).

Definition gateway_mqtt_start : st GatewayMqttService string Z := λ s,
  match gms_outbound_rx s with
  | None => (Err "GatewayMqttService already started", s)
  | Some _ =>
      (Ok 0%Z, mkGatewayMqtt (gms_config s) None (Some (length (gms_tasks s))) (gms_tasks s ++ [(gms_config s, true)]))
  end.

Definition gateway_mqtt_stop : st GatewayMqttService string () := λ s,
  match gms_shutdown_tx s with
  | Some i => (Ok (), mkGatewayMqtt (gms_config s) (gms_outbound_rx s) None (alter (λ t, (t.1, false)) i (gms_tasks s)))
  | None => (Ok (), s)
  end.

Definition gateway_mqtt_is_running (s : GatewayMqttService) : bool := bool_decide (is_Some (gms_shutdown_tx s)).

#[global] Instance gateway_mqtt_managed : ManagedService () GatewayMqttService := {
  ms_start _ := gateway_mqtt_start;
  ms_stop _ := gateway_mqtt_stop;
  ms_is_running _ s := (gateway_mqtt_is_running s, s)
}.

#[global] Instance gateway_mqtt_laws : ManagedServiceLaws () GatewayMqttService.
Proof.
  refine {| active s := gateway_mqtt_is_running s |}.
  - intros e s pid s'. cbn. unfold gateway_mqtt_start. case_match; intros [= <- <-]; done.
  - intros e s s'. cbn. unfold gateway_mqtt_stop, gateway_mqtt_is_running.
    destruct (gms_shutdown_tx s) eqn:Hs; intros [= <-]; cbn; [done|]. by rewrite Hs.
  - intros e s msg s'. cbn. unfold gateway_mqtt_stop. by case_match.
Defined.

(** The configuration registered, if the connection is enabled. *)
Definition gateway_mqtt_config (cfg : GatewayRegistrationConfig) : option GatewayMqttConfig :=
  match gr_gateway_url cfg with
  | None => None
  | Some url =>
      if bool_decide (gr_username cfg = "") || bool_decide (gr_password cfg = "") then None
      else Some (mkGatewayMqttConfig url (gr_username cfg) (gr_password cfg) (gr_broker_cafile cfg) (gr_broker_tls cfg))
  end.

Definition register_gateway_mqtt {S} (inj : GatewayMqttService → S) (cfg : GatewayRegistrationConfig)
    (sup : Supervisor S) : option GatewayMqttService * Supervisor S :=
  match gateway_mqtt_config cfg with
  | None => (None, sup)
  | Some config =>
      let service := new_gateway_mqtt config in
      (Some service, register GatewayMqttClient (inj service) true sup)
  end.

(** ** Proofs *)

(** *** URLs *)





(** An IPv6 literal without a port is taken for a host with a bad port. *)
Example url_ipv6_without_port : Url_parse "https://[::1]/" = Err "invalid port in 'https://[::1]/'".
Proof. reflexivity. Qed.

(** *** Login *)

(** A login succeeds only on a success status with a well-formed body, reports rejected
    credentials only on 401, and sends them only to the login path of the configured
    host, over TLS exactly for an [https] URL. *)
Theorem login_outcomes `{!JsonText} net base_url req r post : login net base_url req = (r, post) →
  match r with
  | Ok creds => ∃ code text bytes, ln_send net = Ok (code, text) ∧ (200 ≤ code < 300)%Z ∧ ln_body net = Ok bytes ∧
      (from_slice bytes ≫= login_response_from_json) = Some creds
  | Err Unauthorized => ∃ text, ln_send net = Ok (401%Z, text)
  | Err (Transient _) => True
  end ∧
  match post with
  | Some p => ∃ url, Url_parse base_url = Ok url ∧ post_tls p = url_tls url ∧ post_host p = url_host url ∧
      post_path p = trim_end_matches "/" (url_path url) +:+ "/api/login" ∧ post_body p = login_request_json req
  | None => is_ok r = false
  end.
Proof.
  assert (∀ r, send_request net = r → match r with
    | Ok creds => ∃ code text bytes, ln_send net = Ok (code, text) ∧ (200 ≤ code < 300)%Z ∧ ln_body net = Ok bytes ∧
        (from_slice bytes ≫= login_response_from_json) = Some creds
    | Err Unauthorized => ∃ text, ln_send net = Ok (401%Z, text)
    | Err (Transient _) => True
    end) as Hsend.
  { intros r0 <-. unfold send_request, transient, mbind, result_bind.
    destruct (ln_http_handshake net); [|done]. destruct (ln_build net); [|done]. cbn.
    destruct (ln_send net) as [[code text]|]; [|done]. cbn. destruct (ln_body net) as [bytes|]; [|done]. cbn.
    case_decide; [subst; eauto|]. case_decide; [|done].
    match goal with |- context [ok_or _ ?o] => destruct o as [creds|] eqn:Ho end; cbn; [|done]. eauto 8. }
  unfold login. destruct (Url_parse base_url) as [url|] eqn:Hu; cbn; [|by intros [= <- <-]].
  unfold transient at 1. destruct (ln_connect net); cbn; [|by intros [= <- <-]].
  destruct (url_tls url) eqn:Ht.
  - unfold transient, mbind, result_bind.
    destruct (ln_tls_connector net); cbn; [|by intros [= <- <-]].
    destruct (ln_server_name net); cbn; [|by intros [= <- <-]].
    destruct (ln_tls_handshake net); cbn; [|by intros [= <- <-]]. intros [= <- <-].
    split; [by apply Hsend|]. exists url. by rewrite Ht.
  - intros [= <- <-]. split; [by apply Hsend|]. exists url. by rewrite Ht.
Qed.

(** Every envelope reads back as itself. *)
Lemma envelope_roundtrip env : envelope_from_json (envelope_to_json env) = Some env.
Proof. by destruct env. Qed.

Section trust.
Context {Cert Anchor : Type}.
Context (pem_certs : string → list (result string Cert)).
Context (trust_anchor : Cert → result string Anchor).
Context (webpki_roots : list Anchor).

Lemma add_gateway_roots_equiv roots certs :
  result_ok (add_gateway_roots trust_anchor roots certs) = result_ok (add_roots trust_anchor roots certs).
Proof.
  revert roots. induction certs as [|c certs IH]; intros roots; [done|]. cbn.
  destruct c as [c|e]; cbn; [|done]. destruct (trust_anchor c); cbn; [apply IH|done].
Qed.

(** The login and the broker connection of the gateway link, written twice in the code, trust
    the same certificates: for every CA setting and every file content one can be built
    exactly when the other can, with the same roots. *)
Theorem login_trusts_like_broker read config creds : gmc_broker_tls config = true →
  result_ok (tls_connector pem_certs trust_anchor webpki_roots read (gmc_broker_cafile config)) =
  (o ← result_ok (build_mqtt_opts pem_certs trust_anchor webpki_roots read (client_config config creds));
   match mo_transport o with Tls roots => Some roots | _ => None end).
Proof.
  intros Htls. unfold tls_connector, build_mqtt_opts, client_config, build_server_tls. rewrite Htls. cbn.
  destruct (gmc_broker_cafile config) as [ca|]; [|done]. cbn.
  destruct (read ca) as [pem|e]; [|done]. cbn. rewrite add_gateway_roots_equiv.
  by destruct (add_roots trust_anchor [] (pem_certs pem)).
Qed.

End trust.

(** *** The connection task *)

Section task_proofs.
Context {Cert Anchor : Type}.
Context (pem_certs : string → list (result string Cert)).
Context (trust_anchor : Cert → result string Anchor).
Context (webpki_roots : list Anchor).
Context (render : Json → string).

Abbreviation step := (gtask_step pem_certs trust_anchor webpki_roots render).
Abbreviation run := (gtask_run pem_certs trust_anchor webpki_roots render).
Implicit Types (t : GTask Anchor).

Definition is_login (ev : GEvent) : bool := match ev with GLoggedIn _ _ => true | _ => false end.
Definition is_refusal (ev : GEvent) : bool := match ev with GRefused => true | _ => false end.
Definition count (P : GEvent → bool) (evs : list GEvent) : nat := length (filter (λ ev, P ev = true) evs).

Lemma count_cons P ev evs : count P (ev :: evs) = (if P ev then 1 else 0) + count P evs.
Proof. unfold count. rewrite filter_cons. destruct (P ev); cbn; repeat case_decide; try done. Qed.

(** The logins of a run, and the one that counts at its end: the latest, unless the broker
    refused its credentials since. *)
Definition logins (evs : list GEvent) : list LoginResponse :=
  omap (λ ev, match ev with GLoggedIn creds _ => Some creds | _ => None end) evs.

Definition valid_login (c : option LoginResponse) (ev : GEvent) : option LoginResponse :=
  match ev with GLoggedIn creds _ => Some creds | GRefused => None | _ => c end.

(** The options of a connection are those of a login: its broker, its identity and its
    password, and the password never leaves without TLS when TLS is configured. *)
Definition uses (config : GatewayMqttConfig) (creds : LoginResponse) (o : MqttOptions Anchor) : Prop :=
  (gmc_broker_tls config = true → mo_transport o ≠ Tcp) ∧
  mo_credentials o = Some (mqtt_username creds, mqtt_password creds) ∧
  mo_client_id o = device_id creds ∧ mo_host o = br_host (broker creds) ∧ mo_port o = br_port (broker creds).

(** [ls] are the logins so far. *)
Record gtask_base (config : GatewayMqttConfig) (ls : list LoginResponse) (t : GTask Anchor) : Prop := mkGTaskBase {
  gok_config : gt_config t = config;
  gok_delay : (INITIAL_DELAY ≤ gt_delay t ≤ MAX_DELAY)%Z;
  gok_slept : Forall (λ d, INITIAL_DELAY ≤ d ≤ MAX_DELAY)%Z (gt_slept t);
  gok_conns : Forall (λ c, ∃ creds, creds ∈ ls ∧ uses config creds c.1) (gt_connections t);
  gok_cached : ∀ creds, gt_cached t = Some creds → creds ∈ ls
}.

(** A login is only waited for without credentials, and a connection has its own. *)
Record gtask_ok (config : GatewayMqttConfig) (ls : list LoginResponse) (t : GTask Anchor) : Prop := mkGTaskOk {
  gok_base : gtask_base config ls t;
  gok_login : gt_phase t = LoggingIn → gt_cached t = None;
  gok_broker : ∀ creds o, gt_phase t = OnBroker creds o → gt_cached t = Some creds ∧ uses config creds o
}.

Lemma new_gtask_ok config : gtask_ok config [] (new_gtask config).
Proof. split; [split|..]; cbn; try done; unfold INITIAL_DELAY, MAX_DELAY; try constructor; lia. Qed.

Lemma gtask_ok_logins config ls ls' t : ls ⊆ ls' → gtask_ok config ls t → gtask_ok config ls' t.
Proof.
  intros Hls [[H1 H2 H3 H4 H5] H6 H7]. split; [split|..]; auto. eapply list.Forall_impl; [exact H4|]. intros c (creds & ? & ?). eauto.
Qed.

Lemma start_backoff_ok config ls t : gtask_base config ls t → gtask_ok config ls (start_backoff t).
Proof.
  intros [H1 H2 H3 H4 H5]. unfold INITIAL_DELAY, MAX_DELAY in *.
  split; [split|..]; cbn; try done; unfold INITIAL_DELAY, MAX_DELAY; [lia|].
  apply Forall_app. split; [done|]. constructor; [lia|constructor].
Qed.

Lemma opts_use config read creds o :
  build_mqtt_opts pem_certs trust_anchor webpki_roots read (client_config config creds) = Ok o → uses config creds o.
Proof.
  unfold build_mqtt_opts, client_config, uses. cbn.
  destruct (gmc_broker_tls config).
  - unfold build_server_tls, mbind, result_bind.
    destruct (gmc_broker_cafile _); cbn; [destruct (read _); cbn; [|done]; destruct (add_roots _ _ _); cbn; [|done]|];
      intros [= <-]; by split_and!.
  - intros [= <-]. by split_and!.
Qed.

Lemma connect_with_ok config ls t read creds : gtask_base config ls t → gt_cached t = Some creds →
  gtask_ok config ls (connect_with pem_certs trust_anchor webpki_roots read creds t).
Proof.
  intros Ht Hc. unfold connect_with. destruct (build_mqtt_opts _ _ _ _ _) as [o|] eqn:Ho; [|by apply start_backoff_ok].
  destruct Ht as [H1 H2 H3 H4 H5]. rewrite H1 in Ho. apply opts_use in Ho. split; [split|..]; cbn; try done.
  - constructor; [|done]. cbn. eauto.
  - intros c o' [= <- <-]. done.
Qed.

Lemma reset_delay_ok config ls t : gtask_ok config ls t → gtask_ok config ls (reset_delay t).
Proof. intros [[] ? ?]. split; [split|..]; cbn; try done. Qed.

Lemma set_gqueue_ok config ls t q : gtask_ok config ls t → gtask_ok config ls (set_gqueue q t).
Proof. by intros [[] ? ?]. Qed.

Lemma finished_ok config ls t : gtask_ok config ls t → gtask_ok config ls (set_gphase Finished t).
Proof. by intros [[] ? ?]. Qed.

Lemma forget_base config ls t : gtask_base config ls t → gtask_base config ls (set_cached None t).
Proof. by intros []. Qed.

Lemma reconnect_ok config ls t read : gtask_base config ls t →
  gtask_ok config ls (reconnect pem_certs trust_anchor webpki_roots read t).
Proof.
  intros Ht. unfold reconnect. destruct (gt_cached t) eqn:Hc; [by apply connect_with_ok|]. by destruct Ht.
Qed.

Lemma log_commands_ok config ls t cmds : gtask_ok config ls t → gtask_ok config ls (log_commands cmds t).
Proof.
  intros [[H1 H2 H3 H4 H5] H6 H7]. split; [split|..]; cbn; try done. destruct (gt_connections t) as [|[o l] cs]; [done|].
  apply list.Forall_cons in H4 as [? ?]. constructor; done.
Qed.

Lemma gtask_step_ok config ls ev t t' : gtask_ok config ls t → step ev t = Some t' → gtask_ok config (ls ++ logins [ev]) t'.
Proof.
  intros Ht. apply (gtask_ok_logins _ _ (ls ++ logins [ev])) in Ht; [|set_solver].
  pose proof (gok_base _ _ _ Ht) as Hb. unfold gtask_step.
  destruct (gt_phase t); destruct ev; try done; repeat case_match; try done; intros [= <-];
    auto using set_gqueue_ok, finished_ok, start_backoff_ok, reconnect_ok, log_commands_ok, reset_delay_ok, forget_base.
  apply connect_with_ok; [|done]. destruct Hb. split; try done. cbn. intros c [= <-]. set_solver.
Qed.

Lemma connect_with_cached read creds t : gt_cached (connect_with pem_certs trust_anchor webpki_roots read creds t) = gt_cached t.
Proof. unfold connect_with. by case_match. Qed.

(** The task remembers the login that counts. *)
Lemma gtask_step_valid ev t t' : step ev t = Some t' → gt_cached t' = valid_login (gt_cached t) ev.
Proof.
  unfold gtask_step.
  destruct (gt_phase t); destruct ev; try done; repeat case_match; try done; intros [= <-]; cbn; rewrite ?connect_with_cached; try done.
  unfold reconnect. destruct (gt_cached t) eqn:Hc; [by rewrite connect_with_cached|done].
Qed.

(** How an event moves the cached credentials: a login fills the empty cache, a refusal
    empties it. *)
Definition held (c : option LoginResponse) : nat := match c with Some _ => 1 | None => 0 end.

Lemma gtask_step_cached ev t t' : (gt_phase t = LoggingIn → gt_cached t = None) → step ev t = Some t' →
  held (gt_cached t') + (if is_refusal ev then 1 else 0) ≥ held (gt_cached t) + (if is_login ev then 1 else 0).
Proof.
  intros Hl Hstep. rewrite (gtask_step_valid _ _ _ Hstep). destruct ev; cbn; try lia; [|destruct (gt_cached t); cbn; lia].
  unfold gtask_step in Hstep. destruct (gt_phase t); try done. rewrite Hl by done. cbn. lia.
Qed.

Lemma gtask_run_ok config evs ls t t' : gtask_ok config ls t → run evs t = Some t' →
  gtask_ok config (ls ++ logins evs) t' ∧ gt_cached t' = foldl valid_login (gt_cached t) evs ∧
  held (gt_cached t') + count is_refusal evs ≥ held (gt_cached t) + count is_login evs.
Proof.
  revert ls t. induction evs as [|ev evs IH]; intros ls t H0; cbn [gtask_run].
  { intros [= <-]. rewrite app_nil_r. split_and!; [done..|unfold count; cbn; lia]. }
  destruct (gtask_step _ _ _ _ ev t) as [t1|] eqn:Hs; cbn [mbind option_bind]; [|done]. intros Hr.
  pose proof (gtask_step_ok _ _ _ _ _ H0 Hs) as H1. destruct (IH _ t1 H1 Hr) as (Hok & Hv & Hc).
  assert (logins (ev :: evs) = logins [ev] ++ logins evs) as -> by apply (omap_app _ [ev] evs).
  rewrite <- app_assoc in Hok. split_and!; [done| |].
  - cbn [foldl]. by rewrite Hv, (gtask_step_valid _ _ _ Hs).
  - apply gtask_step_cached in Hs; [|apply H0]. rewrite !count_cons. lia.
Qed.

(** C26: The gateway link logs in again only after the broker refused its credentials: in any
    run the successful logins are at most one more than the refusals.  Every pause lasts
    between 2 and 60 seconds.  Every connection uses exactly the broker, identity and
    password that one of the run's logins returned, never over plain TCP when TLS is
    configured, and the current connection those of the latest login, which no broker has
    refused since. *)
Theorem gateway_mqtt_task config evs t : run evs (new_gtask config) = Some t →
  count is_login evs ≤ 1 + count is_refusal evs ∧
  Forall (λ d, 2 ≤ d ≤ 60)%Z (gt_slept t) ∧
  Forall (λ c, ∃ creds, creds ∈ logins evs ∧ uses config creds c.1) (gt_connections t) ∧
  (∀ creds o, gt_phase t = OnBroker creds o → foldl valid_login None evs = Some creds ∧ uses config creds o).
Proof.
  intros Hr. destruct (gtask_run_ok _ _ _ _ _ (new_gtask_ok config) Hr) as ([[H1 H2 H3 H4 H5] H6 H7] & Hv & Hc).
  cbn [held gt_cached new_gtask] in Hc, Hv. cbn in H4. split_and!; try done.
  - destruct (gt_cached t); cbn in Hc; lia.
  - intros creds o [Hcr Hu]%H7. split; [by rewrite <- Hv|done].
Qed.

(** Whatever the task is doing, also while it sleeps between two attempts, a shutdown ends
    it at once and nothing happens afterwards. *)
Theorem gateway_mqtt_shutdown t : gt_phase t ≠ Finished →
  ∃ t', step GShutdown t = Some t' ∧ gt_phase t' = Finished ∧ ∀ ev, step ev t' = None.
Proof.
  intros Hp. exists (set_gphase Finished t). unfold gtask_step. cbn. split_and!; [|done|done].
  by destruct (gt_phase t).
Qed.

End task_proofs.

(** *** Concrete runs *)


Definition ex_net : LoginNet :=
  mkLoginNet (Ok ()) (Ok ()) (Ok ()) (Ok ()) (Ok ()) (Ok ()) (Ok (401%Z, "401 Unauthorized")) (Ok "").

Definition ex_no_json : JsonText := λ _, None.

Definition ex_post : HttpPost :=
  mkHttpPost true "gateway.example" "/api/login" (login_request_json (mkLoginRequest "node" "secret")).

Lemma login_outcomes_witness :
  @login ex_no_json ex_net "https://gateway.example/" (mkLoginRequest "node" "secret") = (Err Unauthorized, Some ex_post) ∧
  ∃ text, ln_send ex_net = Ok (401%Z, text).
Proof.
  assert (@login ex_no_json ex_net "https://gateway.example/" (mkLoginRequest "node" "secret") = (Err Unauthorized, Some ex_post)) as Hl
    by (vm_compute; reflexivity).
  split; [exact Hl|].
  exact (proj1 (@login_outcomes ex_no_json ex_net "https://gateway.example/" (mkLoginRequest "node" "secret") _ _ Hl)).
Defined.

Definition ex_creds : LoginResponse :=
  mkLoginResponse "1" "dev-1" "dev-1" "pw" (mkBrokerInfo "mqtt.example" 8883) (mkDeviceTopics "c" "x" "n").
Definition ex_gateway_config : GatewayMqttConfig := mkGatewayMqttConfig "https://gateway.example" "node" "secret" None true.
Definition ex_events : list GEvent :=
  [GLoginFailed (Transient "timeout"); GSlept ex_read; GLoggedIn ex_creds ex_read; GConnAck true true true;
   GConnectionError; GSlept ex_read; GRefused; GSlept ex_read; GLoggedIn ex_creds ex_read].

Lemma ex_gtask_run :
  ∃ t, gtask_run ex_certs ex_anchor [] (λ _, "alive") ex_events (new_gtask ex_gateway_config) = Some t ∧
    gt_slept t = [2; 2; 4]%Z.
Proof. eexists. split; [vm_compute; reflexivity|reflexivity]. Qed.

Lemma gateway_mqtt_task_witness :
  ∃ t, gtask_run ex_certs ex_anchor [] (λ _, "alive") ex_events (new_gtask ex_gateway_config) = Some t ∧
    count is_login ex_events ≤ 1 + count is_refusal ex_events ∧ gt_slept t = [2; 2; 4]%Z ∧
    Forall (λ c, ∃ creds, creds ∈ logins ex_events ∧ uses ex_gateway_config creds c.1) (gt_connections t).
Proof.
  destruct ex_gtask_run as (t & Hr & Hs). exists t.
  destruct (gateway_mqtt_task ex_certs ex_anchor [] (λ _, "alive") ex_gateway_config ex_events t Hr) as (H1 & _ & H3 & _).
  split; [exact Hr|]. split; [exact H1|]. split; [exact Hs|exact H3].
Defined.

Lemma gateway_mqtt_shutdown_witness :
  ∃ t', gtask_step (Cert := string) ex_certs ex_anchor [] (λ _, "") GShutdown
          (start_backoff (new_gtask ex_gateway_config)) = Some t' ∧ gt_phase t' = Finished.
Proof.
  destruct (gateway_mqtt_shutdown ex_certs ex_anchor [] (λ _, "") (start_backoff (new_gtask ex_gateway_config))) as (t' & H1 & H2 & _).
  - cbn. discriminate.
  - exists t'. split; [exact H1|exact H2].
Defined.

Lemma login_trusts_like_broker_witness :
  result_ok (tls_connector ex_certs ex_anchor ["public"] ex_read (gmc_broker_cafile ex_gateway_config)) =
  (o ← result_ok (build_mqtt_opts ex_certs ex_anchor ["public"] ex_read (client_config ex_gateway_config ex_creds));
   match mo_transport o with Tls roots => Some roots | _ => None end).
Proof. apply (login_trusts_like_broker ex_certs ex_anchor ["public"] ex_read ex_gateway_config ex_creds). reflexivity. Defined.
