(* ===== verification/App.v ===== *)
(** * The application (src/app.rs, src/services/capabilities.rs and the managers)

    Which binaries the host has, the registration and start of the services on
    one supervisor, and the broadcast loop.  The supervisor manages the services as
    the sum of their types, each with its own environment. *)

From S2P Require Import Prelude RustStr Paths Config Supervisor KeyManagement Ca MqttClient Brokerage.
From S2P Require Import Json CloudGateway Registry HttpGateway GatewayMqtt.
From stdpp Require Import options.

(** ** Capabilities (capabilities.rs) *)

Record BinaryInfo := mkBinaryInfo { bin_path : string; bin_version : option string }.

Abbreviation ServiceCapabilities := (gmap string (option BinaryInfo)).

Definition is_available (binary : string) (c : ServiceCapabilities) : bool :=
  match c !! binary with Some (Some _) => true | _ => false end.

Definition binary_path_of (binary : string) (c : ServiceCapabilities) : option string :=
  match c !! binary with Some (Some info) => Some (bin_path info) | _ => None end.

(** What a process printed, and whether it succeeded. *)
Record ProcOutput := mkProcOutput { po_success : bool; po_stdout : string; po_stderr : string }.

(** [str::lines().next()]: up to the first line feed, without the carriage return that may
    precede it; nothing for the empty text. *)
Definition first_line (text : string) : option string :=
  if decide (text = "") then None
  else match split "010" text with
       | line :: _ :: _ => Some (default line (strip_suffix (String "013" "") line))
       | line :: _ => Some line
       | [] => None
       end.

(** The outputs of [which name] and of [path --version], where they ran. *)
Definition detect_binary (which : option ProcOutput) (version : option ProcOutput) : option BinaryInfo :=
  output ← which;
  if po_success output then
    let path := trim (from_utf8_lossy (po_stdout output)) in
    let ver :=
      o ← version;
      let text := if decide (po_stdout o = "") then from_utf8_lossy (po_stderr o) else from_utf8_lossy (po_stdout o) in
      line ← first_line text;
      let line := trim line in
      if decide (line = "") then None else Some line in
    Some (mkBinaryInfo path ver)
  else None.

Definition detect_capabilities (probe : string → option ProcOutput * option ProcOutput) (required : list string) : ServiceCapabilities :=
  foldl (λ m name, <[name := detect_binary (probe name).1 (probe name).2]> m) ∅ required.

(** ** The broadcast loop *)

Record BroadcastState := mkBroadcastState {
  bs_server_url : string;
  bs_use_jitter : bool;
  bs_interval : Z;
  bs_keys : BroadcastKeyManagement
}.

(** What one cycle meets: the key lookup, the sweep, the clock of the token, the fate of the
    publish to each topic, the random numbers and the time the publishing took. *)
Record CycleEnv := mkCycleEnv {
  cy_get : GetEnv;
  cy_sweep_clock : Z;
  cy_sweep_error : option string;
  cy_token_clock : Z;
  cy_fates : nat → CommandFate;
  cy_random : nat → Z;
  cy_elapsed : Z
}.

Definition broadcast_payload (server_url kid tok : string) : Json :=
  JObject [("url", JString server_url); ("kid", JString kid); ("tok", JString tok)].

(** The topics in order; a failure is logged and the next topic follows. *)
Fixpoint publish_all (fates : nat → CommandFate) (payload : string) (topics : list string) (log : list MqttCommand) : list MqttCommand :=
  match topics with
  | [] => log
  | topic :: topics => publish_all (λ i, fates (S i)) payload topics (publish (fates 0) topic AtLeastOnce payload log).2
  end.

(** The pauses of a cycle: one to ten seconds before each topic, and at the end what is left
    of the interval. *)
Definition cycle_sleeps (st : BroadcastState) (e : CycleEnv) (topics : list string) : list Z :=
  if bs_use_jitter st then
    imap (λ i _, cy_random e i `mod` 10 + 1)%Z topics ++
    (let remaining := Z.max 0 (bs_interval st - cy_elapsed e) in if (remaining =? 0)%Z then [] else [remaining])
  else [].

Section broadcast.
Context (hmac_sha256 : list byte → list byte → list byte).
Context (render : Json → string).

Definition broadcast_cycle (st : BroadcastState) (e : CycleEnv) (topics : list string)
    (s : list KeyRow * list MqttCommand) : list KeyRow * list MqttCommand :=
  let '(r, t) := get_or_rotate_key (bs_keys st) (cy_get e) s.1 in
  match r with
  | Err _ => (t, s.2)
  | Ok key =>
      let t := (sweep_expired (cy_sweep_clock e) (cy_sweep_error e) t).2 in
      let '(kid, tok) := ota_fields hmac_sha256 (bs_keys st) (cy_token_clock e) key in
      let payload := render (broadcast_payload (bs_server_url st) kid tok) in
      (t, publish_all (cy_fates e) payload topics s.2)
  end.

(** The loop over a history of cycles, each with the topics of its time; nothing when the
    interval panics, as [tokio::time::interval] does on a zero period. *)
Definition run_broadcast_loop (st : BroadcastState) (cycles : list (CycleEnv * list string))
    (s : list KeyRow * list MqttCommand) : option (list KeyRow * list MqttCommand) :=
  if decide (bs_interval st = 0%Z) then None
  else Some (foldl (λ s et, broadcast_cycle st et.1 et.2 s) s cycles).

End broadcast.

(** ** One supervisor for all services *)

Section services.
Context {Cert Anchor : Type}.
Context (pem_certs : string → list (result string Cert)).
Context (trust_anchor : Cert → result string Anchor).
Context (webpki_roots : list Anchor).

Inductive AnyService :=
| SGateway (s : GatewayService)
| SMosquitto (s : MosquittoBrokerageService)
| SMqttClient (s : MqttClientService Anchor)
| SCloudGateway (s : CloudGatewayService)
| SGatewayMqtt (s : GatewayMqttService).

(** What the outside world answers to one call on whichever service it is. *)
Record AnyEnv := mkAnyEnv {
  ae_gateway : GatewayEnv;
  ae_mosquitto : MosquittoEnv;
  ae_read : string → result string string
}.

Definition any_start (e : AnyEnv) (s : AnyService) : result string Z * AnyService :=
  match s with
  | SGateway s => let '(r, s) := gateway_start (ae_gateway e) s in (r, SGateway s)
  | SMosquitto s => let '(r, s) := mosquitto_start (ae_mosquitto e) s in (r, SMosquitto s)
  | SMqttClient s =>
      let '(r, s) := mqtt_client_start pem_certs trust_anchor webpki_roots (ae_read e) s in (r, SMqttClient s)
  | SCloudGateway s => let '(r, s) := cloud_gateway_start s in (r, SCloudGateway s)
  | SGatewayMqtt s => let '(r, s) := gateway_mqtt_start s in (r, SGatewayMqtt s)
  end.

Definition any_stop (e : AnyEnv) (s : AnyService) : result string () * AnyService :=
  match s with
  | SGateway s => let '(r, s) := gateway_stop s in (r, SGateway s)
  | SMosquitto s => let '(r, s) := mosquitto_stop (ae_mosquitto e) s in (r, SMosquitto s)
  | SMqttClient s => let '(r, s) := mqtt_client_stop s in (r, SMqttClient s)
  | SCloudGateway s => let '(r, s) := cloud_gateway_stop s in (r, SCloudGateway s)
  | SGatewayMqtt s => let '(r, s) := gateway_mqtt_stop s in (r, SGatewayMqtt s)
  end.

Definition any_is_running (e : AnyEnv) (s : AnyService) : bool * AnyService :=
  match s with
  | SGateway g => (gateway_is_running g, s)
  | SMosquitto m => let '(b, m) := mosquitto_is_running (ae_mosquitto e) m in (b, SMosquitto m)
  | SMqttClient c => (mqtt_client_is_running c, s)
  | SCloudGateway c => (cloud_gateway_is_running c, s)
  | SGatewayMqtt c => (gateway_mqtt_is_running c, s)
  end.

#[global] Instance any_managed : ManagedService AnyEnv AnyService := {
  ms_start := any_start;
  ms_stop := any_stop;
  ms_is_running := any_is_running
}.

Definition any_active (s : AnyService) : bool :=
  match s with
  | SGateway s => active s
  | SMosquitto s => active s
  | SMqttClient s => mqtt_client_is_running s
  | SCloudGateway s => active s
  | SGatewayMqtt s => active s
  end.

(** The laws of the sum are those of its parts. *)
#[global] Instance any_laws : ManagedServiceLaws AnyEnv AnyService.
Proof.
  pose (client := mqtt_client_laws pem_certs trust_anchor webpki_roots).
  refine {| active := any_active |}.
  - intros e [s|s|s|s|s] pid s'; cbn; case_match eqn:H; intros [= -> <-].
    + exact (start_ok_active (ae_gateway e) _ _ _ H).
    + exact (start_ok_active (ae_mosquitto e) _ _ _ H).
    + exact (@start_ok_active _ _ _ client (ae_read e) _ _ _ H).
    + exact (start_ok_active (E := ()) (S := CloudGatewayService) () _ _ _ H).
    + exact (start_ok_active (E := ()) (S := GatewayMqttService) () _ _ _ H).
  - intros e [s|s|s|s|s] s'; cbn; case_match eqn:H; intros [= -> <-].
    + exact (stop_ok_inactive (ae_gateway e) _ _ H).
    + exact (stop_ok_inactive (ae_mosquitto e) _ _ H).
    + exact (@stop_ok_inactive _ _ _ client (ae_read e) _ _ H).
    + exact (stop_ok_inactive (E := ()) (S := CloudGatewayService) () _ _ H).
    + exact (stop_ok_inactive (E := ()) (S := GatewayMqttService) () _ _ H).
  - intros e [s|s|s|s|s] msg s'; cbn; case_match eqn:H; intros [= -> <-].
    + change (ms_stop (ae_gateway e) s = (Err msg, g)) in H. by apply stop_err_inactive in H as [? ->].
    + change (ms_stop (ae_mosquitto e) s = (Err msg, m)) in H. by apply stop_err_inactive in H as [? ->].
    + by apply (@stop_err_inactive _ _ _ client (ae_read e)) in H as [? ->].
    + change (ms_stop () s = (Err msg, c)) in H. by apply stop_err_inactive in H as [? ->].
    + change (ms_stop () s = (Err msg, g)) in H. by apply stop_err_inactive in H as [? ->].
Defined.

End services.
Arguments AnyService : clear implicits.

(** ** Initialisation *)

Section initialize.
Context {Cert Anchor KeyPair Certificate Rand : Type} `{!Rcgen KeyPair Certificate Rand}.
Context (pem_certs : string → list (result string Cert)).
Context (trust_anchor : Cert → result string Anchor).
Context (webpki_roots : list Anchor).

#[local] Instance the_services : ManagedService AnyEnv (AnyService Anchor) :=
  any_managed pem_certs trust_anchor webpki_roots.

(** How waiting for the client's connection ends: the signal, the sender dropped, or never. *)
Inductive ConnectedOutcome := ConnectedSignal | ConnectedDropped | ConnectedNever.

(** What the start of the program meets. *)
Record InitEnv := mkInitEnv {
  ie_probe : string → option ProcOutput * option ProcOutput;
  ie_open : result string ();
  ie_ca : CaEnv Rand;
  ie_broker_cert : CaEnv Rand;
  ie_identity : CaEnv Rand;
  ie_fs : FsEnv;
  ie_ifaddrs : option (list (option SockAddr));
  ie_passwd_exists : bool;
  ie_passwd_output : result string Output;
  ie_mosquitto : AnyEnv;
  ie_client : AnyEnv;
  ie_gateway : AnyEnv;
  ie_gateway_mqtt : AnyEnv;
  ie_connected : ConnectedOutcome;
  ie_subscribe : nat → CommandFate
}.

(** The initialised application, with the files and the commands its client accepted. *)
Record App := mkApp {
  app_supervisor : Supervisor (AnyService Anchor);
  app_ca : CaService KeyPair Certificate;
  app_fs : FS;
  app_log : list MqttCommand;
  app_gateway_state : AppState;
  app_broadcast : BroadcastState;
  app_own_gateway : option string
}.

(** The program exits with code 1, waits for ever, or runs. *)
Inductive InitOutcome := InitExit | InitBlocked | InitDone (app : App).

(** [mqtt_brokerage::manager::register_onto]: files and accounts are prepared when the
    broker is installed; failures are only logged. *)
Definition register_mosquitto (e : InitEnv) (caps : ServiceCapabilities) (config : MqttBrokerageConfig)
    (fs : FS) (sup : Supervisor (AnyService Anchor)) : bool * FS * Supervisor (AnyService Anchor) :=
  let available := is_available "mosquitto" caps in
  let service := new_mosquitto (default "mosquitto" (binary_path_of "mosquitto" caps))
                   (binary_path_of "mosquitto_passwd" caps) config in
  let fs := if available then (write_config (ie_fs e) config fs).2 else fs in
  (available, fs, register Mosquitto (SMosquitto service) available sup).

(** The accounts [register_onto] sets up: one, and only for a broker without TLS. *)
Definition seed_password (e : InitEnv) (caps : ServiceCapabilities) (config : MqttBrokerageConfig) : list (list string) :=
  if is_available "mosquitto" caps && negb (mb_tls_enabled config) then
    let service := new_mosquitto (default "mosquitto" (binary_path_of "mosquitto" caps))
                     (binary_path_of "mosquitto_passwd" caps) config in
    (set_password (ie_passwd_exists e) (ie_passwd_output e) service (mb_username config) (mb_password config) []).2
  else [].

(** [beacon_management::manager::register_onto] and [mqtt_client::manager::register_onto]. *)
Definition register_gateway (config : HttpConfig) (sup : Supervisor (AnyService Anchor)) : Supervisor (AnyService Anchor) :=
  register Gateway (SGateway (new_gateway config)) true sup.

Definition register_mqtt_client (config : MqttClientConfig) (available : bool) (sup : Supervisor (AnyService Anchor)) : Supervisor (AnyService Anchor) :=
  register MqttClient (SMqttClient (new_mqtt_client config)) available sup.

(** The registration of the two clients, and whether the second one is enabled. *)
Definition register_clients (config : Config) (available : bool) (sup : Supervisor (AnyService Anchor)) : bool * Supervisor (AnyService Anchor) :=
  let sup := register_mqtt_client (cfg_mqtt_client config) available sup in
  let '(handle, sup) := register_gateway_mqtt SGatewayMqtt (cfg_gateway_registration config) sup in
  (bool_decide (is_Some handle), sup).

(** A start through the supervisor's handle; an error is logged. *)
Definition start_logged (e : AnyEnv) (id : ServiceId) (sup : Supervisor (AnyService Anchor)) : bool * Supervisor (AnyService Anchor) :=
  let '(r, sup) := start_service Live e id sup in (is_ok r, sup).

(** The start functions of the managers. *)
Definition start_mosquitto_brokerage (available : bool) (e : AnyEnv) (sup : Supervisor (AnyService Anchor)) : Supervisor (AnyService Anchor) :=
  if available then (start_logged e Mosquitto sup).2 else sup.

Definition start_mqtt_client (available : bool) (e : AnyEnv) (sup : Supervisor (AnyService Anchor)) : bool * Supervisor (AnyService Anchor) :=
  if available then start_logged e MqttClient sup else (false, sup).

Definition start_gateway (e : AnyEnv) (sup : Supervisor (AnyService Anchor)) : Supervisor (AnyService Anchor) :=
  (start_logged e Gateway sup).2.

Definition start_gateway_mqtt (e : AnyEnv) (sup : Supervisor (AnyService Anchor)) : Supervisor (AnyService Anchor) :=
  (start_logged e GatewayMqttClient sup).2.

Definition start_cloud_gateway (e : AnyEnv) (sup : Supervisor (AnyService Anchor)) : Supervisor (AnyService Anchor) :=
  (start_logged e CloudGateway sup).2.

(** The services are started in this order; with a broker, the start waits for the
    client's connection in between. *)
Definition start_services (e : InitEnv) (available cloud : bool) (sup : Supervisor (AnyService Anchor)) :
    option (Supervisor (AnyService Anchor) * list MqttCommand) :=
  let sup := start_mosquitto_brokerage available (ie_mosquitto e) sup in
  let '(started, sup) := start_mqtt_client available (ie_client e) sup in
  let log :=
    if available then
      match (if started : bool then ie_connected e else ConnectedDropped) with
      | ConnectedSignal => Some (subscribe_all (ie_subscribe e) required_subscriptions []).2
      | ConnectedDropped => Some []
      | ConnectedNever => None
      end
    else Some [] in
  log ← log;
  let sup := start_gateway (ie_gateway e) sup in
  let sup := if cloud : bool then start_gateway_mqtt (ie_gateway_mqtt e) sup else sup in
  Some (sup, log).

(** [App::broadcast_state]; the topic list and the MQTT handle are shared with the loops. *)
Definition broadcast_state (config : Config) (keys : BroadcastKeyManagement) : BroadcastState :=
  mkBroadcastState (gr_server_url (cfg_gateway_registration config)) (bm_use_jitter (cfg_beacon_management config))
    (bm_broadcast_interval (cfg_beacon_management config)) keys.

Definition initialize (e : InitEnv) (config : Config) (db : CaDb) (fs : FS) : InitOutcome :=
  let caps := detect_capabilities (ie_probe e) ["mosquitto"; "mosquitto_passwd"] in
  match ca_register (ie_open e) (ie_ca e) db with
  | (Err _, _) => InitExit
  | (Ok ca, _) =>
      match ca_cert_pem ca with
      | Err _ => InitExit
      | Ok pem =>
          let broker := cfg_mqtt_brokerage config in
          let info := build_brokerage_info broker pem in
          let '(provisioned, fs) :=
            if mb_tls_enabled broker then provision_mqtt_broker_cert (ie_fs e) (ie_broker_cert e) (ie_ifaddrs e) ca broker fs
            else (Ok (), fs) in
          match provisioned with
          | Err _ => InitExit
          | Ok _ =>
              let '(available, fs, sup) := register_mosquitto e caps broker fs new_supervisor in
              let sup := register_gateway (cfg_http config) sup in
              let '(identified, (ca, fs)) :=
                if decide (mc_tls_mode (cfg_mqtt_client config) = Mutual)
                then provision_node_identity (ie_fs e) (ie_identity e) (cfg_mqtt_client config) (ca, fs)
                else (Ok (), (ca, fs)) in
              match identified with
              | Err _ => InitExit
              | Ok _ =>
                  let '(cloud, sup) := register_clients config available sup in
                  match start_services e available cloud sup with
                  | None => InitBlocked
                  | Some (sup, log) =>
                      let keys := mkKeyManagement (bm_key_rotation_interval (cfg_beacon_management config))
                                    (bm_key_expiry (cfg_beacon_management config)) in
                      InitDone (mkApp sup ca fs log
                        (mkAppState info (if available then Some broker else None) (http_upstream_port (cfg_http config)) true)
                        (broadcast_state config keys)
                        (gr_gateway_url (cfg_gateway_registration config)))
                  end
              end
          end
      end
  end.

(** ** Proofs: initialisation *)

#[local] Instance the_laws : @ManagedServiceLaws AnyEnv (AnyService Anchor) the_services :=
  any_laws pem_certs trust_anchor webpki_roots.

Definition sound (sup : Supervisor (AnyService Anchor)) : Prop := same_keys sup ∧ consistent sup.

Lemma sound_new : sound new_supervisor.
Proof. split; [intros id; cbn; by rewrite !lookup_empty|intros ??? [=]]. Qed.

Lemma sound_register id svc av sup : active svc = false → sound sup → sound (register id svc av sup).
Proof.
  intros Ha [Hk Hc]. split; [|by apply register_consistent]. intros id'. specialize (Hk id').
  destruct (decide (id = id')) as [<-|]; cbn; simplify_map_eq; [|done]. split; eauto.
Qed.

Lemma sound_start e id sup : sound sup → sound (start_logged e id sup).2.
Proof.
  intros [Hk Hc]. unfold start_logged, start_service.
  pose proof (handle_start_keys e id sup Hk). pose proof (handle_start_consistent e id sup Hc).
  by destruct (handle_start e id sup).
Qed.

(** What holds of an empty supervisor and is kept by registering a fresh service and by
    starting one holds after initialisation. *)
Section initialised.
Context (Inv : Supervisor (AnyService Anchor) → Prop).

Definition fresh_service (svc : AnyService Anchor) : Prop :=
  match svc with
  | SGateway s => ∃ config, s = new_gateway config
  | SMosquitto s => ∃ bin passwd config, s = new_mosquitto bin passwd config
  | SMqttClient s => ∃ config, s = new_mqtt_client config
  | SCloudGateway s => ∃ server_url gateway_url, s = new_cloud_gateway server_url gateway_url
  | SGatewayMqtt s => ∃ config, s = new_gateway_mqtt config
  end.

Hypothesis inv_new : Inv new_supervisor.
Hypothesis inv_register : ∀ id svc av sup, fresh_service svc → Inv sup → Inv (register id svc av sup).
Hypothesis inv_start : ∀ e id sup, Inv sup → Inv (start_logged e id sup).2.

Lemma start_services_inv e available cloud sup sup' log :
  start_services e available cloud sup = Some (sup', log) → Inv sup → Inv sup'.
Proof using inv_start.
  intros Hst Hs.
  unfold start_services, start_mosquitto_brokerage, start_mqtt_client, start_gateway, start_gateway_mqtt in Hst.
  assert (Inv (if available then (start_logged (ie_mosquitto e) Mosquitto sup).2 else sup)) as H1 by (destruct available; auto).
  revert H1 Hst. generalize (if available then (start_logged (ie_mosquitto e) Mosquitto sup).2 else sup). intros s1 H1.
  assert (Inv (if available then start_logged (ie_client e) MqttClient s1 else (false, s1)).2) as H2 by (destruct available; auto).
  destruct (if available then start_logged (ie_client e) MqttClient s1 else (false, s1)) as [started s2]. cbn in H2.
  intros Hst. destruct (if available then _ else _) as [l|]; cbn in Hst; [|done]. injection Hst as <- <-.
  destruct cloud; auto.
Qed.

Lemma initialize_inv e config db fs app : initialize e config db fs = InitDone app → Inv (app_supervisor app).
Proof using inv_new inv_register inv_start.
  unfold initialize. destruct (ca_register _ _ db) as [[ca|] ?]; [|done]. destruct (ca_cert_pem ca); [|done].
  destruct (if mb_tls_enabled _ then _ else _) as [[[]|] fs1]; [|done]. cbn [register_mosquitto].
  destruct (if decide _ then _ else _) as [[[]|] [ca' fs2]]; [|done].
  destruct (register_clients config _ _) as [cloud sup] eqn:Hreg.
  destruct (start_services e _ cloud sup) as [[sup' log]|] eqn:Hst; [|done]. intros [= <-]. cbn.
  eapply start_services_inv; [exact Hst|]. unfold register_clients, register_gateway_mqtt, register_mqtt_client, register_gateway in Hreg.
  cbn zeta in Hreg. destruct (gateway_mqtt_config _); injection Hreg as <- <-;
    repeat (apply inv_register; [cbn; eauto|]); exact inv_new.
Qed.

End initialised.

Lemma initialize_sound e config db fs app : initialize e config db fs = InitDone app → sound (app_supervisor app).
Proof.
  apply initialize_inv; [exact sound_new| |exact sound_start].
  intros id svc av sup Hf. apply sound_register. destruct svc; cbn in Hf; naive_solver.
Qed.

(** C23: The running program tells the truth about its services: after
    initialisation and any commands, a service shown as running holds a running
    instance, one shown as stopped or unavailable holds none, and every running service
    can be stopped. *)
Theorem app_statuses_truthful e config db fs app cmds :
  initialize e config db fs = InitDone app →
  let s := (command_loop cmds (app_supervisor app)).2 in
  consistent s ∧
  ∀ e' id pid, statuses s !! id = Some (Running pid) →
    (handle_stop e' id s).1 = Ok () ∧ statuses (handle_stop e' id s).2 !! id = Some Stopped.
Proof.
  intros Hi. destruct (initialize_sound _ _ _ _ _ Hi) as [Hk Hc]. cbn zeta.
  pose proof (command_loop_consistent cmds _ Hc) as Hc'. split; [done|].
  intros e' id pid Hr. apply (stop_running e' id pid); [by apply command_loop_keys|done..].
Qed.

(** *** Shutdown *)

(** Everything the service ever spawned was told to stop; a process has ended. *)
Definition all_quiet (svc : AnyService Anchor) : Prop :=
  match svc with
  | SGateway s => all_told (gw_listeners s)
  | SMosquitto s => all_ended (processes s)
  | SMqttClient s => all_told (eventloops s) ∧ Forall (eq false) (command_tasks s)
  | SCloudGateway s => all_told (cgs_tasks s)
  | SGatewayMqtt s => all_told (gms_tasks s)
  end.

(** What the service spawned and did not stop it still holds. *)
Definition holds_all (svc : AnyService Anchor) : Prop :=
  match svc with
  | SGateway s => only_held (mjoin (gw_shutdown_tx s)) (gw_listeners s)
  | SMosquitto s => only_child s
  | SMqttClient s => client_inv s
  | SCloudGateway s => only_held (cgs_shutdown_tx s) (cgs_tasks s) ∧ (is_Some (cgs_outbound_rx s) → all_told (cgs_tasks s))
  | SGatewayMqtt s => only_held (gms_shutdown_tx s) (gms_tasks s) ∧ (is_Some (gms_outbound_rx s) → all_told (gms_tasks s))
  end.

Lemma fresh_holds_all svc : fresh_service svc → holds_all svc.
Proof.
  destruct svc; cbn.
  - intros [? ->]. apply only_held_nil.
  - intros (? & ? & ? & ->). apply new_mosquitto_only.
  - intros [? ->]. by left.
  - intros (? & ? & ->). split; [apply only_held_nil|by constructor].
  - intros [? ->]. split; [apply only_held_nil|by constructor].
Qed.

Lemma start_holds_all e svc : holds_all svc → holds_all (ms_start e svc).2.
Proof.
  destruct svc as [s|s|s|s|s]; cbn.
  - unfold gateway_start. destruct (gw_shutdown_tx s) eqn:Hs; [cbn; by rewrite Hs|]. cbn. intros Ho.
    destruct (gateway_initialize _ s); cbn; [|by rewrite Hs].
    destruct (http_tls_enabled _); cbn; [destruct (ge_tls _); cbn; [|done]|]; by apply only_held_spawn.
  - intros Ho. pose proof (mosq_op_only_child (MStart (ae_mosquitto e)) s Ho) as H. cbn in H. by destruct (mosquitto_start _ s).
  - intros Ho. pose proof (client_op_inv pem_certs trust_anchor webpki_roots (DoStart (ae_read e)) s Ho) as H. cbn in H.
    by destruct (mqtt_client_start _ _ _ _ s).
  - intros [Ho Hr]. unfold cloud_gateway_start. destruct (cgs_outbound_rx s) eqn:Hs; cbn; rewrite ?Hs; [|done].
    split; [apply only_held_spawn, only_held_none; eauto|by intros []].
  - intros [Ho Hr]. unfold gateway_mqtt_start. destruct (gms_outbound_rx s) eqn:Hs; cbn; rewrite ?Hs; [|done].
    split; [apply only_held_spawn, only_held_none; eauto|by intros []].
Qed.

(** A stop tells everything to stop, whatever it answers. *)
Lemma stop_all_quiet e svc : holds_all svc → all_quiet (ms_stop e svc).2.
Proof.
  destruct svc as [s|s|s|s|s]; cbn.
  - unfold gateway_stop. destruct (gw_shutdown_tx s) as [[i|]|]; cbn; intros Ho; [by apply only_held_stop|by apply only_held_none..].
  - intros Ho. pose proof (stop_all_ended (ae_mosquitto e) s Ho) as H. by destruct (mosquitto_stop _ s).
  - unfold mqtt_client_stop. destruct s as [cfg cr sh csh orx ct els cts]. unfold client_inv, fresh. cbn.
    intros [(-> & -> & -> & -> & -> & -> & ->)|(-> & [(o & -> & -> & -> & ->)|(-> & -> & [[-> ->]|(o & -> & ->)])])]; cbn;
      by repeat constructor.
  - intros [Ho Hr]. unfold cloud_gateway_stop. destruct (cgs_shutdown_tx s) as [i|]; cbn; [by apply only_held_stop|by apply only_held_none].
  - intros [Ho Hr]. unfold gateway_mqtt_stop. destruct (gms_shutdown_tx s) as [i|]; cbn; [by apply only_held_stop|by apply only_held_none].
Qed.

Lemma stop_holds_all e svc : holds_all svc → holds_all (ms_stop e svc).2.
Proof.
  intros Hs. pose proof (stop_all_quiet e svc Hs) as Hq. destruct svc as [s|s|s|s|s]; cbn in *.
  - unfold gateway_stop in *. destruct (gw_shutdown_tx s) as [[i|]|] eqn:Htx; cbn in *; rewrite ?Htx; by apply only_held_none.
  - pose proof (mosq_op_only_child (MStop (ae_mosquitto e)) s Hs) as H. cbn in H. by destruct (mosquitto_stop _ s).
  - pose proof (client_op_inv pem_certs trust_anchor webpki_roots DoStop s Hs) as H. cbn in H. by destruct (mqtt_client_stop s).
  - unfold cloud_gateway_stop in *. destruct (cgs_shutdown_tx s) as [i|] eqn:Htx; cbn in *; [split; [by apply only_held_none|done]|by rewrite Htx].
  - unfold gateway_mqtt_stop in *. destruct (gms_shutdown_tx s) as [i|] eqn:Htx; cbn in *; [split; [by apply only_held_none|done]|by rewrite Htx].
Qed.

Lemma initialize_holds_all e config db fs app :
  initialize e config db fs = InitDone app → all_services holds_all (app_supervisor app).
Proof.
  apply initialize_inv.
  - intros id svc [=].
  - intros id svc av sup Hf Hs id' svc'. cbn. rewrite lookup_insert. case_decide; [intros [= <-]; by apply fresh_holds_all|apply Hs].
  - intros e' id sup Hs. unfold start_logged, start_service.
    pose proof (handle_start_all holds_all start_holds_all e' id sup Hs) as H. by destruct (handle_start e' id sup).
Qed.

(** C7: The shutdown of the supervisor reaches everything its services run: after
    initialisation and any commands, whatever the services' starts and stops meet and answer,
    and whatever their statuses say, it leaves every registered service with everything the
    service ever spawned told to stop (the HTTP accept loops, the tasks of the MQTT client
    and of the gateway's clients), and with every broker process ended.  HTTP connections
    that were already accepted are not among these: see [Connections]. *)
Theorem shutdown_ends_everything e config db fs app cmds es :
  initialize e config db fs = InitDone app →
  let s := (supervisor_task cmds es (app_supervisor app)).2 in
  dom (services s) = dom (services (app_supervisor app)) ∧
  ∀ id svc, services s !! id = Some svc → all_quiet svc.
Proof.
  intros Hi s. split; [apply shutdown_dom|].
  apply (shutdown_all holds_all all_quiet); eauto using start_holds_all, stop_holds_all, stop_all_quiet, initialize_holds_all.
Qed.

Lemma start_other e id id' (sup : Supervisor (AnyService Anchor)) : id ≠ id' →
  statuses (start_logged e id sup).2 !! id' = statuses sup !! id'.
Proof.
  intros Hne. unfold start_logged, start_service. pose proof (handle_start_frame e id id' sup Hne) as Hv.
  destruct (handle_start e id sup). by apply view_status in Hv.
Qed.

#[local] Arguments gateway_start : simpl never.

(** C24: On a host without Mosquitto the node still comes up, unless the CA or the files make
    it exit: initialisation never waits for a connection, the broker and its client are shown as unavailable and are never
    started, no subscription is made, and the HTTP gateway is started, with the status its start
    gives it. *)
Theorem initialize_without_broker e config db fs :
  is_available "mosquitto" (detect_capabilities (ie_probe e) ["mosquitto"; "mosquitto_passwd"]) = false →
  match initialize e config db fs with
  | InitExit => True
  | InitBlocked => False
  | InitDone app =>
      statuses (app_supervisor app) !! Mosquitto = Some Unavailable ∧
      statuses (app_supervisor app) !! MqttClient = Some Unavailable ∧
      app_log app = [] ∧ brokerage (app_gateway_state app) = None ∧
      match (gateway_start (ae_gateway (ie_gateway e)) (new_gateway (cfg_http config))).1 with
      | Ok pid => statuses (app_supervisor app) !! Gateway = Some (Running pid)
      | Err msg => statuses (app_supervisor app) !! Gateway = Some (Failed msg)
      end
  end.
Proof.
  intros Hav. unfold initialize. destruct (ca_register _ _ db) as [[ca|] ?]; [|done]. destruct (ca_cert_pem ca); [|done].
  destruct (if mb_tls_enabled _ then _ else _) as [[[]|] fs1]; [|done]. cbn [register_mosquitto]. rewrite Hav.
  destruct (if decide _ then _ else _) as [[[]|] [ca' fs2]]; [|done].
  destruct (register_clients config false _) as [cloud sup] eqn:Hreg. cbn.
  assert (statuses sup !! Mosquitto = Some Unavailable ∧ statuses sup !! MqttClient = Some Unavailable ∧
    statuses sup !! Gateway = Some Stopped ∧ services sup !! Gateway = Some (SGateway (new_gateway (cfg_http config)))) as (H1 & H2 & H3 & H4).
  { unfold register_clients, register_gateway_mqtt, register_mqtt_client, register_gateway in Hreg.
    destruct (gateway_mqtt_config _); injection Hreg as <- <-; cbn; by simplify_map_eq. }
  assert (∀ id, id ≠ GatewayMqttClient →
    statuses (if cloud then (start_logged (ie_gateway_mqtt e) GatewayMqttClient (start_logged (ie_gateway e) Gateway sup).2).2
              else (start_logged (ie_gateway e) Gateway sup).2) !! id = statuses (start_logged (ie_gateway e) Gateway sup).2 !! id) as Hcloud.
  { intros id Hid. destruct cloud; [|done]. by apply start_other. }
  rewrite !Hcloud, !(start_other (ie_gateway e) Gateway) by done. split_and!; [done..|].
  unfold start_logged, start_service, handle_start. rewrite H3. cbn. rewrite H4. cbn.
  destruct (gateway_start _ _) as [[pid|msg] g]; cbn; by simplify_map_eq.
Qed.

End initialize.

(** ** Proofs: broadcasting *)

Section broadcast_proofs.
Context (hmac_sha256 : list byte → list byte → list byte).
Context (render : Json → string).

(** The topics whose publish the client accepted. *)
Fixpoint reached (fates : nat → CommandFate) (topics : list string) : list string :=
  match topics with
  | [] => []
  | topic :: topics =>
      (match fates 0 with TaskAnswers (Ok _) => [topic] | _ => [] end) ++ reached (λ i, fates (S i)) topics
  end.

Lemma publish_all_spec fates payload topics log :
  publish_all fates payload topics log = log ++ ((λ t, Publish t AtLeastOnce payload) <$> reached fates topics).
Proof.
  revert fates log; induction topics as [|t topics IH]; intros fates log; cbn; [by rewrite app_nil_r|].
  rewrite IH. unfold publish, request. destruct (fates 0) as [| |[[]|]]; cbn; by rewrite <- ?app_assoc.
Qed.

Lemma reached_all fates topics : (∀ i, fates i = TaskAnswers (Ok ())) → reached fates topics = topics.
Proof.
  intros Hf. revert fates Hf. induction topics as [|t topics IH]; intros fates Hf; cbn; [done|].
  rewrite Hf. cbn. f_equal. by apply IH.
Qed.

(** C21: A broadcast cycle publishes one payload, with this node's URL and the readable id
    and token of the current key, to every registered topic once and in order; a topic
    whose publish fails is skipped and the others still get theirs; and a cycle without
    a key publishes nothing. *)
Theorem broadcast_cycle_publishes st e topics t log :
  let '(r, t') := get_or_rotate_key (bs_keys st) (cy_get e) t in
  let '(t'', log') := broadcast_cycle hmac_sha256 render st e topics (t, log) in
  match r with
  | Err _ => t'' = t' ∧ log' = log
  | Ok key =>
      ∃ kid tok, ota_fields hmac_sha256 (bs_keys st) (cy_token_clock e) key = (kid, tok) ∧
        hex_decode kid = Some (key_id key) ∧
        log' = log ++ ((λ topic, Publish topic AtLeastOnce (render (broadcast_payload (bs_server_url st) kid tok)))
                         <$> reached (cy_fates e) topics) ∧
        ((∀ i, cy_fates e i = TaskAnswers (Ok ())) → reached (cy_fates e) topics = topics)
  end.
Proof.
  unfold broadcast_cycle. cbn [fst snd]. destruct (get_or_rotate_key _ _ t) as [[key|] t']; [|done].
  destruct (ota_fields _ _ _ key) as [kid tok] eqn:Hota. exists kid, tok.
  split_and!; [done| |by rewrite publish_all_spec|by apply reached_all].
  unfold ota_fields in Hota. injection Hota as <- <-. apply hex_decode_encode.
Qed.


(** An interval of zero, which the setting accepts, ends the broadcast loop before its
    first cycle. *)
Theorem zero_interval_stops_broadcasts env st cycles s :
  env "BROADCAST_INTERVAL" = Some "0" →
  bs_interval st = bm_broadcast_interval (BeaconManagementConfig_from_env env) →
  run_broadcast_loop hmac_sha256 render st cycles s = None.
Proof.
  intros Henv Hst. unfold run_broadcast_loop. rewrite decide_True; [done|]. rewrite Hst. cbn.
  unfold var_or. rewrite Henv. reflexivity.
Qed.

End broadcast_proofs.

(** ** Concrete runs *)

Definition ex_config : Config := default
  (mkConfig ex_broker_config ex_client_config (HttpConfig_from_env no_env) (GatewayRegistrationConfig_from_env no_env)
     (BeaconManagementConfig_from_env no_env) "/") (Config_from_env no_env (Some "/home/pi")).

Definition ex_any_env : AnyEnv :=
  mkAnyEnv (mkGatewayEnv (Ok ()) (Ok ()) (Ok ())) (mkMosquittoEnv true (Ok (Some 77%Z)) Exited (Ok ()) None) ex_read.

(** A host on which [which] finds every binary, or none. *)
Definition ex_probe (found : bool) (name : string) : option ProcOutput * option ProcOutput :=
  (Some (mkProcOutput found ("/usr/sbin/" +:+ name +:+ nl) ""), None).

Definition ex_init_env (found : bool) : InitEnv (Rand := string) :=
  mkInitEnv (ex_probe found) (Ok ()) (ex_ca_env 1 "a") (ex_ca_env 2 "b") (ex_ca_env 3 "c") fs_healthy None false
    (Ok (mkOutput true "")) ex_any_env ex_any_env ex_any_env ex_any_env ConnectedSignal (λ _, TaskAnswers (Ok ())).

Definition ex_init (found : bool) : InitOutcome (Anchor := string) (KeyPair := string) (Certificate := string) :=
  @initialize string string string string string toy_rcgen ex_certs ex_anchor [] (ex_init_env found) ex_config empty_db (mkFS ∅ ∅).

(** What the statuses show after initialisation. *)
Definition shown (o : InitOutcome (Anchor := string) (KeyPair := string) (Certificate := string)) (id : ServiceId) : option ServiceStatus :=
  match o with InitDone app => statuses (app_supervisor app) !! id | _ => None end.

Example ex_all_running :
  shown (ex_init true) <$> [Gateway; Mosquitto; MqttClient; GatewayMqttClient] =
  [Some (Running 0); Some (Running 77); Some (Running 0); None].
Proof. vm_compute. reflexivity. Qed.

Lemma ex_init_done : ∃ app, ex_init true = InitDone app.
Proof. eexists. vm_compute. reflexivity. Qed.

Lemma app_statuses_truthful_witness :
  ∃ app, ex_init true = InitDone app ∧
    @consistent AnyEnv (AnyService string) (any_managed ex_certs ex_anchor []) (any_laws ex_certs ex_anchor [])
      (@command_loop AnyEnv (AnyService string) (any_managed ex_certs ex_anchor []) [(ex_any_env, ex_any_env, Restart MqttClient)] (app_supervisor app)).2.
Proof.
  destruct ex_init_done as [app Happ]. exists app. split; [exact Happ|].
  exact (proj1 (@app_statuses_truthful string string string string string toy_rcgen ex_certs ex_anchor []
    (ex_init_env true) ex_config empty_db (mkFS ∅ ∅) app [(ex_any_env, ex_any_env, Restart MqttClient)] Happ)).
Defined.

Lemma shutdown_ends_everything_witness :
  ∃ app, ex_init true = InitDone app ∧
    match services (@supervisor_task AnyEnv (AnyService string) (any_managed ex_certs ex_anchor [])
      [(ex_any_env, ex_any_env, Restart Mosquitto)] (λ _, ex_any_env) (app_supervisor app)).2 !! Mosquitto with
    | Some svc => all_quiet svc
    | None => False
    end.
Proof.
  destruct ex_init_done as [app Happ]. exists app. split; [exact Happ|].
  pose proof (@shutdown_ends_everything string string string string string toy_rcgen ex_certs ex_anchor []
    (ex_init_env true) ex_config empty_db (mkFS ∅ ∅) app [(ex_any_env, ex_any_env, Restart Mosquitto)] (λ _, ex_any_env) Happ) as [Hd Hq].
  destruct (services _ !! Mosquitto) as [svc|] eqn:Hsvc; [exact (Hq _ _ Hsvc)|].
  assert (Mosquitto ∈ dom (services (app_supervisor app))) as Hin
    by (apply elem_of_dom; revert Happ; clear; vm_compute; intros [= <-]; by eexists).
  rewrite <- Hd in Hin. apply elem_of_dom in Hin as [svc Hsvc']. discriminate (eq_trans (eq_sym Hsvc') Hsvc).
Defined.

Lemma initialize_without_broker_witness :
  match ex_init false with InitBlocked => False | _ => True end ∧
  shown (ex_init false) <$> [Gateway; Mosquitto; MqttClient] = [Some (Running 0); Some Unavailable; Some Unavailable].
Proof.
  split; [|vm_compute; reflexivity].
  pose proof (@initialize_without_broker string string string string string toy_rcgen ex_certs ex_anchor []
    (ex_init_env false) ex_config empty_db (mkFS ∅ ∅)) as H.
  specialize (H ltac:(vm_compute; reflexivity)).
  change (initialize ex_certs ex_anchor [] (ex_init_env false) ex_config empty_db (mkFS ∅ ∅)) with (ex_init false) in H.
  destruct (ex_init false); [exact I|exact H|exact I].
Defined.

Definition ex_cycle : CycleEnv :=
  mkCycleEnv (ex_get 1000 Byte.x01) 1000 None 1000 (λ _, TaskAnswers (Ok ())) (λ _, 0%Z) 0.



Definition ex_zero_env : Env := λ name, if decide (name = "BROADCAST_INTERVAL") then Some "0" else None.

Lemma zero_interval_stops_broadcasts_witness :
  run_broadcast_loop ex_hmac (λ _, "payload") (mkBroadcastState "https://me" false 0 ex_manager) [(ex_cycle, [])] ([], []) = None.
Proof. apply (zero_interval_stops_broadcasts ex_hmac (λ _, "payload") ex_zero_env); reflexivity. Defined.
