(* ===== verification/Pipeline.v ===== *)
(** * The message pipeline (src/app.rs, src/services/mqtt_client/tasks.rs and manager.rs)

    Four tasks work on the beacons' messages: the event-loop task and the command task of
    the MQTT client, the message loop and the broadcast loop.  They are joined by three
    bounded channels and by the lock of the broadcast-topic list, and wait for each other.
    This file models who waits for what: the channels with their capacities, the await
    points of the four loops and the lock, as a transition system whose labels are the
    steps of the tasks and the inputs from outside. *)

From S2P Require Import Prelude.
From stdpp Require Import relations.
From stdpp Require Import options.

(** ** Capacities *)

(** The command channel and the queue of inbound messages (manager.rs), and the request
    channel [AsyncClient::new] creates, which only polling the event loop drains. *)
Definition CMD_CAPACITY : nat := 64.
Definition MSG_CAPACITY : nat := 64.
Definition REQUEST_CAPACITY : nat := 10.

(** ** The tasks *)

(** Who waits for the reply to a command.  The sweep runs inside the [select!] of the
    message loop: it may be dropped, and then nobody takes the reply. *)
Inductive Requester := ByMessageLoop | ByBroadcastLoop | BySweep.

#[global] Instance Requester_eq_dec : EqDecision Requester.
Proof. solve_decision. Defined.

(** The message loop is in its [select!], or in [register_channel] sending the subscribe
    command, waiting for its reply, or waiting for the write lock of the topic list. *)
Inductive MessageLoop := MLSelect | MLSend | MLReply | MLLock.

(** The broadcast loop is between two cycles; or holds the read lock with [n] topics to go,
    [BLNext 0] being the pause at the end of the cycle; or waits for the reply to a
    publish, after which [n] topics are left. *)
Inductive BroadcastLoop := BLIdle | BLNext (n : nat) | BLReply (n : nat).

(** The command task receives, or is inside a call of the client that waits for room in the
    request channel.  A client that was never started has no command task: the receiving
    end of the command channel is then kept, unread, inside the service. *)
Inductive CommandTask := CTIdle | CTBusy (who : Requester) | CTAbsent.

(** The event-loop task polls, or waits for room in the queue of inbound messages. *)
Inductive EventLoopTask := ELPoll | ELForward.

#[global] Instance MessageLoop_eq_dec : EqDecision MessageLoop.
Proof. solve_decision. Defined.
#[global] Instance BroadcastLoop_eq_dec : EqDecision BroadcastLoop.
Proof. solve_decision. Defined.
#[global] Instance CommandTask_eq_dec : EqDecision CommandTask.
Proof. solve_decision. Defined.
#[global] Instance EventLoopTask_eq_dec : EqDecision EventLoopTask.
Proof. solve_decision. Defined.

Record Pipe := mkPipe {
  message_loop : MessageLoop;
  broadcast_loop : BroadcastLoop;
  command_loop_task : CommandTask;
  eventloop : EventLoopTask;
  commands : list Requester;
  inbound : nat;
  requests : nat
}.

Definition new_pipe : Pipe := mkPipe MLSelect BLIdle CTIdle ELPoll [] 0 0.

(** The loops of [main] on a host where the client is not started. *)
Definition pipe_without_client : Pipe := mkPipe MLSelect BLIdle CTAbsent ELPoll [] 0 0.

(** The broadcast loop holds the read guard from the first topic to the end of the cycle,
    its last pause included. *)
Definition read_locked (s : Pipe) : bool :=
  match broadcast_loop s with BLIdle => false | _ => true end.

(** ** Steps *)

(** What comes from outside: a packet of the broker, a channel of a completed handshake, an
    unsubscribe of the sweep, the tick that starts a cycle over [n] topics. *)
Inductive PipeInput := InPacket | InListen | InBroadcast | InSweep | InCycle (n : nat).

(** What the tasks do by themselves.  [Poll] is the library taking one request to the broker:
    the connection is up. *)
Inductive PipeAction :=
| Forward | Poll | Handle | SendSubscribe | GetLock | SendPublish | EndCycle | TakeCommand | Accept.

Inductive Label := Inp (i : PipeInput) | Act (a : PipeAction).

(** An input the tasks are ready for.  A tick finds no writer waiting: one that waited got
    the lock when the last cycle released it. *)
Definition input_step (i : PipeInput) (s : Pipe) : option Pipe :=
  let '(mkPipe ml bl ct el cs inb req) := s in
  match i, ml, bl, el with
  | InPacket, _, _, ELPoll => Some (mkPipe ml bl ct ELForward cs inb req)
  | InListen, MLSelect, _, _ => Some (mkPipe MLSend bl ct el cs inb req)
  | InBroadcast, MLSelect, _, _ => Some (mkPipe MLLock bl ct el cs inb req)
  | InSweep, MLSelect, _, _ =>
      if decide (length cs < CMD_CAPACITY) then Some (mkPipe ml bl ct el (cs ++ [BySweep]) inb req) else None
  | InCycle n, _, BLIdle, _ => if decide (ml = MLLock) then None else Some (mkPipe ml (BLNext n) ct el cs inb req)
  | _, _, _, _ => None
  end.

(** The reply to a command wakes the task that waits for it. *)
Definition reply_to (who : Requester) (ml : MessageLoop) (bl : BroadcastLoop) : MessageLoop * BroadcastLoop :=
  match who, ml, bl with
  | ByMessageLoop, MLReply, _ => (MLSelect, bl)
  | ByBroadcastLoop, _, BLReply n => (ml, BLNext n)
  | _, _, _ => (ml, bl)
  end.

(** The event-loop task puts the message it holds into the queue; it polls one request to the
    broker. *)
Definition eventloop_forward (s : Pipe) : option Pipe :=
  let '(mkPipe ml bl ct el cs inb req) := s in
  match el with
  | ELForward => if decide (inb < MSG_CAPACITY) then Some (mkPipe ml bl ct ELPoll cs (S inb) req) else None
  | ELPoll => None
  end.

Definition eventloop_poll (s : Pipe) : option Pipe :=
  let '(mkPipe ml bl ct el cs inb req) := s in
  match el, req with ELPoll, S req => Some (mkPipe ml bl ct el cs inb req) | _, _ => None end.

(** The message loop handles a message; in [register_channel], it sends the subscribe command
    and it gets the write lock. *)
Definition loop_handle (s : Pipe) : option Pipe :=
  let '(mkPipe ml bl ct el cs inb req) := s in
  match ml, inb with MLSelect, S inb => Some (mkPipe ml bl ct el cs inb req) | _, _ => None end.

Definition loop_subscribe (s : Pipe) : option Pipe :=
  let '(mkPipe ml bl ct el cs inb req) := s in
  match ml with
  | MLSend => if decide (length cs < CMD_CAPACITY) then Some (mkPipe MLReply bl ct el (cs ++ [ByMessageLoop]) inb req) else None
  | _ => None
  end.

Definition loop_lock (s : Pipe) : option Pipe :=
  let '(mkPipe ml bl ct el cs inb req) := s in
  match ml with MLLock => if read_locked s then None else Some (mkPipe MLSelect bl ct el cs inb req) | _ => None end.

(** The broadcast loop sends the publish command for its next topic; it ends the cycle. *)
Definition broadcast_publish (s : Pipe) : option Pipe :=
  let '(mkPipe ml bl ct el cs inb req) := s in
  match bl with
  | BLNext (S n) =>
      if decide (length cs < CMD_CAPACITY) then Some (mkPipe ml (BLReply n) ct el (cs ++ [ByBroadcastLoop]) inb req) else None
  | _ => None
  end.

Definition broadcast_end (s : Pipe) : option Pipe :=
  let '(mkPipe ml bl ct el cs inb req) := s in
  match bl with BLNext 0 => Some (mkPipe ml BLIdle ct el cs inb req) | _ => None end.

(** The command task takes a command; its call of the client is accepted, and it replies. *)
Definition command_take (s : Pipe) : option Pipe :=
  let '(mkPipe ml bl ct el cs inb req) := s in
  match ct, cs with CTIdle, who :: cs => Some (mkPipe ml bl (CTBusy who) el cs inb req) | _, _ => None end.

Definition command_accept (s : Pipe) : option Pipe :=
  let '(mkPipe ml bl ct el cs inb req) := s in
  match ct with
  | CTBusy who =>
      if decide (req < REQUEST_CAPACITY) then
        let '(ml, bl) := reply_to who ml bl in Some (mkPipe ml bl CTIdle el cs inb (S req))
      else None
  | CTIdle | CTAbsent => None
  end.

Definition action_step (a : PipeAction) : Pipe → option Pipe :=
  match a with
  | Forward => eventloop_forward
  | Poll => eventloop_poll
  | Handle => loop_handle
  | SendSubscribe => loop_subscribe
  | GetLock => loop_lock
  | SendPublish => broadcast_publish
  | EndCycle => broadcast_end
  | TakeCommand => command_take
  | Accept => command_accept
  end.

Definition pipe_step (l : Label) (s : Pipe) : option Pipe :=
  match l with Inp i => input_step i s | Act a => action_step a s end.

Fixpoint pipe_run (ls : list Label) (s : Pipe) : option Pipe :=
  match ls with
  | [] => Some s
  | l :: ls => pipe_step l s ≫= pipe_run ls
  end.

(** The steps the tasks make without any input. *)
Definition internal (s s' : Pipe) : Prop := ∃ a, action_step a s = Some s'.

(** ** Specification *)

(** Nothing left to do: no message, no command, no request, nobody waits. *)
Definition settled (s : Pipe) : Prop := s = new_pipe.

(** The circular wait: the event loop waits for room in the inbound queue, the message loop
    that would make room waits for the command task or for the broadcast loop, and the
    command task waits for room in the request channel, which only the event loop drains. *)
Record deadlocked (s : Pipe) : Prop := {
  dl_eventloop : eventloop s = ELForward;
  dl_inbound : inbound s = MSG_CAPACITY;
  dl_command : ∃ who, command_loop_task s = CTBusy who;
  dl_requests : requests s = REQUEST_CAPACITY;
  dl_waits : message_loop s = MLSend ∧ length (commands s) = CMD_CAPACITY ∨ message_loop s = MLReply ∨
             message_loop s = MLLock ∧ match broadcast_loop s with BLReply _ | BLNext (S _) => True | _ => False end
}.

(** Commands sent and not answered. *)
Definition unanswered (s : Pipe) : list Requester :=
  commands s ++ match command_loop_task s with CTBusy who => [who] | CTIdle | CTAbsent => [] end.

Definition hit (who w : Requester) : nat :=
  match who, w with
  | ByMessageLoop, ByMessageLoop | ByBroadcastLoop, ByBroadcastLoop | BySweep, BySweep => 1
  | _, _ => 0
  end.

Definition count_of (who : Requester) (l : list Requester) : nat := foldr (λ w n, hit who w + n) 0 l.

(** How many replies a loop waits for. *)
Definition ml_waits (ml : MessageLoop) : nat := match ml with MLReply => 1 | _ => 0 end.
Definition bl_waits (bl : BroadcastLoop) : nat := match bl with BLReply _ => 1 | _ => 0 end.

Record pipe_ok (s : Pipe) : Prop := {
  ok_started : command_loop_task s ≠ CTAbsent;
  ok_commands : length (commands s) ≤ CMD_CAPACITY;
  ok_inbound : inbound s ≤ MSG_CAPACITY;
  ok_requests : requests s ≤ REQUEST_CAPACITY;
  ok_message_loop : count_of ByMessageLoop (unanswered s) = ml_waits (message_loop s);
  ok_broadcast_loop : count_of ByBroadcastLoop (unanswered s) = bl_waits (broadcast_loop s)
}.

(** The work left: every step of the tasks makes it smaller. *)
Definition work (s : Pipe) : nat :=
  inbound s + requests s + 3 * length (commands s) +
  match eventloop s with ELForward => 2 | ELPoll => 0 end +
  match command_loop_task s with CTBusy _ => 2 | CTIdle | CTAbsent => 0 end +
  match message_loop s with MLSend => 4 | MLLock => 1 | _ => 0 end +
  match broadcast_loop s with BLIdle => 0 | BLNext n | BLReply n => 5 * n + 1 end.

(** Messages a run brings in, and commands it makes the loops send. *)
Definition packet_of (l : Label) : nat := match l with Inp InPacket => 1 | _ => 0 end.
Definition commands_of (l : Label) : nat :=
  match l with Inp InListen | Inp InSweep => 1 | Inp (InCycle n) => n | _ => 0 end.
Definition total (f : Label → nat) (ls : list Label) : nat := foldr (λ l n, f l + n) 0 ls.

(** Messages in the pipeline, and commands that were not yet polled. *)
Definition messages_in (s : Pipe) : nat := inbound s + match eventloop s with ELForward => 1 | ELPoll => 0 end.
Definition commands_in (s : Pipe) : nat :=
  requests s + length (unanswered s) + match message_loop s with MLSend => 1 | _ => 0 end +
  match broadcast_loop s with BLIdle => 0 | BLNext n | BLReply n => n end.

(** ** Proofs *)

Create Rewrite HintDb pipe.
#[local] Arguments count_of : simpl never.
#[local] Arguments CMD_CAPACITY : simpl never.
#[local] Arguments MSG_CAPACITY : simpl never.
#[local] Arguments REQUEST_CAPACITY : simpl never.

Lemma count_of_app who l l' : count_of who (l ++ l') = count_of who l + count_of who l'.
Proof. induction l as [|w l IH]; [done|]. change (hit who w + count_of who (l ++ l') = hit who w + count_of who l + count_of who l'). lia. Qed.

Lemma count_of_cons who w l : count_of who (w :: l) = hit who w + count_of who l.
Proof. done. Qed.

Lemma count_of_nil who : count_of who [] = 0.
Proof. done. Qed.

#[local] Hint Rewrite count_of_app count_of_cons count_of_nil @length_app : pipe.

(** Unfolds a step taken from a state given by its parts, down to the branch it took. *)
Ltac step_cases H :=
  cbn in H; unfold read_locked, reply_to in H; cbn in H;
  repeat match type of H with
  | context [match ?x with _ => _ end] =>
      lazymatch x with context [match _ with _ => _ end] => fail | _ => destruct x; try discriminate H end
  end;
  simplify_eq/=.

Ltac counts := cbn in *; autorewrite with pipe in *; cbn in *.

Lemma pipe_step_ok l s s' : pipe_ok s → pipe_step l s = Some s' → pipe_ok s'.
Proof.
  destruct s as [ml bl ct el cs inb req]. intros [H0 H1 H2 H3 H4 H5] Hstep. unfold unanswered in *.
  destruct l as [[]|[]]; step_cases Hstep; split; unfold unanswered; counts; done || lia.
Qed.

Lemma new_pipe_ok : pipe_ok new_pipe.
Proof. split; cbn; unfold CMD_CAPACITY, MSG_CAPACITY, REQUEST_CAPACITY; done || lia. Qed.

Lemma pipe_run_ok ls s s' : pipe_ok s → pipe_run ls s = Some s' → pipe_ok s'.
Proof.
  revert s. induction ls as [|l ls IH]; intros s Hs; cbn; [by intros [= <-]|].
  intros (s1 & H1 & H2)%bind_Some. eauto using pipe_step_ok.
Qed.

Lemma internal_work s s' : internal s s' → work s' < work s.
Proof.
  destruct s as [ml bl ct el cs inb req]. intros [[] Hstep]; step_cases Hstep; unfold work; counts; lia.
Qed.

Lemma internal_sn s : sn internal s.
Proof.
  induction (Nat.lt_wf_0_projected work s) as [s _ IH]. constructor. intros s' Hs. by apply IH, internal_work.
Qed.

(** A state in which no task can move. *)
Lemma stuck_action a s : nf internal s → action_step a s = None.
Proof. intros Hnf. destruct (action_step a s) eqn:Ha; [|done]. destruct Hnf. by exists p, a. Qed.

Lemma stuck_settled_or_deadlocked s : pipe_ok s → nf internal s → settled s ∨ deadlocked s.
Proof.
  destruct s as [ml bl ct el cs inb req]. intros [H0 H1 H2 H3 H4 H5] Hnf. unfold unanswered in *. cbn in *.
  pose proof (λ a, stuck_action a _ Hnf) as Hs.
  pose proof (Hs Forward) as F1. pose proof (Hs Poll) as F2. pose proof (Hs Handle) as F3.
  pose proof (Hs SendSubscribe) as F4. pose proof (Hs GetLock) as F5. pose proof (Hs SendPublish) as F6.
  pose proof (Hs EndCycle) as F7. pose proof (Hs TakeCommand) as F8. pose proof (Hs Accept) as F9. clear Hs Hnf.
  cbn in *. unfold read_locked, reply_to in *. cbn in *.
  destruct el.
  - left. destruct req; [|done].
    destruct ct as [|who|]; [|by destruct who, ml, bl|done].
    destruct cs; [|done]. destruct ml, bl as [|[]|]; try done. by destruct inb.
  - right. destruct (decide (inb < MSG_CAPACITY)); [done|].
    destruct ct as [|who|]; [..|done].
    + exfalso. destruct cs; [|done]. destruct ml, bl as [|[]|]; try done. destruct inb; [|done]. unfold MSG_CAPACITY in *. lia.
    + destruct (decide (req < REQUEST_CAPACITY)); [by destruct who, ml, bl|].
      split; cbn; [done|lia|eauto|lia|].
      destruct ml; [destruct inb; [unfold MSG_CAPACITY in *; lia|done]|left|by right; left|right; right].
      * destruct (decide (length cs < CMD_CAPACITY)); [done|]. split; [done|lia].
      * split; [done|]. by destruct bl as [|[]|].
Qed.

Lemma pipe_step_packets l s s' : pipe_step l s = Some s' → messages_in s' ≤ messages_in s + packet_of l.
Proof.
  destruct s as [ml bl ct el cs inb req]. intros Hstep.
  destruct l as [[]|[]]; step_cases Hstep; unfold messages_in; cbn; lia.
Qed.

Lemma pipe_step_commands l s s' : pipe_step l s = Some s' → commands_in s' ≤ commands_in s + commands_of l.
Proof.
  destruct s as [ml bl ct el cs inb req]. intros Hstep.
  destruct l as [[]|[]]; step_cases Hstep; unfold commands_in, unanswered; counts; lia.
Qed.

(** A quantity that a step raises by at most what its label says. *)
Lemma pipe_run_total (f : Pipe → nat) (g : Label → nat) ls s s' :
  (∀ l s s', pipe_step l s = Some s' → f s' ≤ f s + g l) →
  pipe_run ls s = Some s' → f s' ≤ f s + total g ls.
Proof.
  intros Hf. revert s. induction ls as [|l ls IH]; intros s; cbn; [intros [= <-]; lia|].
  intros (s1 & H1 & H2)%bind_Some. specialize (Hf _ _ _ H1). specialize (IH _ H2). unfold total in *. lia.
Qed.

Lemma deadlocked_full s : deadlocked s → MSG_CAPACITY < messages_in s ∧ REQUEST_CAPACITY < commands_in s.
Proof.
  intros [H1 H2 [who H3] H4 _]. unfold messages_in, commands_in, unanswered.
  rewrite H1, H2, H3, H4, length_app. cbn. lia.
Qed.

Lemma internal_run s s' : rtc internal s s' → ∃ ls, pipe_run ls s = Some s' ∧ total packet_of ls = 0 ∧ total commands_of ls = 0.
Proof.
  induction 1 as [s|s s1 s' [a Ha] _ (ls & H1 & H2 & H3)]; [by exists []|].
  exists (Act a :: ls). cbn. by rewrite Ha.
Qed.

Lemma pipe_run_app ls ls' s : pipe_run (ls ++ ls') s = pipe_run ls s ≫= pipe_run ls'.
Proof. revert s. induction ls as [|l ls IH]; intros s; cbn; [done|]. destruct (pipe_step l s); cbn; auto. Qed.

Lemma total_app f ls ls' : total f (ls ++ ls') = total f ls + total f ls'.
Proof. induction ls as [|l ls IH]; cbn; [done|]. unfold total in *. lia. Qed.

(** C20: The four tasks always come to rest: left without new input they make at most [work s]
    further steps, in whatever order they are scheduled. *)
Theorem pipeline_settles s :
  sn internal s ∧ ∀ n s', nsteps internal n s s' → n + work s' ≤ work s.
Proof.
  split; [apply internal_sn|]. intros n s'. induction 1 as [s|n s s1 s' Hstep _ IH]; [lia|].
  apply internal_work in Hstep. lia.
Qed.

(** C19: Where they come to rest, every message was handled and every command answered, or they
    wait for each other in the one circular way; and this takes more than 64 messages and
    more than ten commands since the pipeline was last empty. *)
Theorem pipeline_answers ls s s' :
  pipe_run ls new_pipe = Some s → rtc internal s s' → nf internal s' →
  settled s' ∨ deadlocked s' ∧ MSG_CAPACITY < total packet_of ls ∧ REQUEST_CAPACITY < total commands_of ls.
Proof.
  intros Hrun (ls' & Hrun' & Hp & Hc)%internal_run Hnf.
  assert (pipe_run (ls ++ ls') new_pipe = Some s') as Hall by (by rewrite pipe_run_app, Hrun).
  destruct (stuck_settled_or_deadlocked s') as [Hs|Hd]; [by eapply pipe_run_ok, Hall; apply new_pipe_ok|done|by left|].
  right. split; [done|]. apply deadlocked_full in Hd as [D1 D2].
  pose proof (pipe_run_total messages_in packet_of _ _ _ pipe_step_packets Hall) as B1.
  pose proof (pipe_run_total commands_in commands_of _ _ _ pipe_step_commands Hall) as B2.
  rewrite total_app in B1, B2. cbn in B1, B2. lia.
Qed.

Lemma deadlocked_step l s s' : deadlocked s → pipe_step l s = Some s' → deadlocked s' ∧ message_loop s' = message_loop s.
Proof.
  destruct s as [ml bl ct el cs inb req]. intros [H1 H2 [who H3] H4 H5] Hstep. cbn in *. subst.
  destruct H5 as [[-> Hfull]|[->|[-> Hbl]]]; destruct l as [[]|[]]; step_cases Hstep; try lia; try done;
    (split; [|done]); split; cbn; eauto 6.
Qed.

Lemma deadlocked_run ls s s' : deadlocked s → pipe_run ls s = Some s' → deadlocked s' ∧ message_loop s' = message_loop s.
Proof.
  revert s. induction ls as [|l ls IH]; intros s Hd; cbn; [by intros [= <-]|].
  intros (s1 & H1 & H2)%bind_Some. destruct (deadlocked_step _ _ _ Hd H1) as [Hd1 <-]. by apply IH.
Qed.

(** A cycle over [n] topics starts; a new beacon's broadcast topic arrives and waits for the
    cycle to release the list; 65 messages arrive; and the cycle goes on. *)
Definition deadlock_run (n : nat) : list Label :=
  [Inp (InCycle n); Inp InBroadcast] ++ mjoin (replicate 64 [Inp InPacket; Act Forward]) ++ [Inp InPacket] ++
  mjoin (replicate 10 [Act SendPublish; Act TakeCommand; Act Accept]) ++ [Act SendPublish; Act TakeCommand].

(** C37: The circular wait is reached and final: with more than ten topics to announce, one beacon
    that registers during a cycle and 65 messages during it stop the message loop, the MQTT
    client and the broadcasts; whatever happens next, no further message is handled. *)
Theorem registration_deadlocks n :
  REQUEST_CAPACITY < n →
  ∃ s, pipe_run (deadlock_run n) new_pipe = Some s ∧ deadlocked s ∧
    ∀ ls s', pipe_run ls s = Some s' → deadlocked s' ∧ message_loop s' = MLLock ∧ inbound s' = MSG_CAPACITY.
Proof.
  intros Hn. destruct (Nat.le_exists_sub (S REQUEST_CAPACITY) n) as (k & -> & _); [done|].
  rewrite Nat.add_comm. eexists. split; [reflexivity|].
  match goal with |- deadlocked ?s ∧ _ => assert (deadlocked s) as Hd by (split; cbn; eauto) end.
  split; [done|]. intros ls s' Hrun. destruct (deadlocked_run _ _ _ Hd Hrun) as [Hd' Hml]. split_and!; [done|done|apply Hd'].
Qed.

(** Without a client the first channel to listen on stops the message loop for ever, and the
    first topic to announce the broadcast loop: the commands they send lie in a channel
    nobody reads and whose receiver is never dropped, so no reply and no error ever comes. *)
Theorem no_client_blocks n :
  (∃ s, pipe_run [Inp InListen; Act SendSubscribe] pipe_without_client = Some s ∧
     ∀ ls s', pipe_run ls s = Some s' → message_loop s' = MLReply) ∧
  (∃ s, pipe_run [Inp (InCycle (S n)); Act SendPublish] pipe_without_client = Some s ∧
     ∀ ls s', pipe_run ls s = Some s' → broadcast_loop s' = BLReply n).
Proof.
  assert (∀ ls s s', command_loop_task s = CTAbsent → pipe_run ls s = Some s' →
    (message_loop s = MLReply → message_loop s' = MLReply) ∧ (broadcast_loop s = BLReply n → broadcast_loop s' = BLReply n)) as Hrun.
  { intros ls. induction ls as [|l ls IH]; intros s s' Hs; cbn; [by intros [= <-]|].
    intros (s1 & Hstep & Hrun)%bind_Some. destruct s as [ml bl ct el cs inb req]. cbn in Hs. subst ct.
    destruct l as [[]|[]]; step_cases Hstep; (apply IH in Hrun as [H1 H2]; [|done]); split; intros; simplify_eq/=; auto. }
  split; (eexists; split; [reflexivity|]); intros ls s' Hls; apply Hrun in Hls as [H1 H2]; cbn; auto.
Qed.

Lemma registration_deadlocks_witness : ∃ s, pipe_run (deadlock_run 12) new_pipe = Some s ∧ deadlocked s.
Proof.
  destruct (registration_deadlocks 12) as (s & H1 & H2 & _); [unfold REQUEST_CAPACITY; lia|]. by exists s.
Defined.

Lemma pipeline_answers_witness : settled new_pipe ∨ deadlocked new_pipe ∧ MSG_CAPACITY < 1 ∧ REQUEST_CAPACITY < 2.
Proof.
  apply (pipeline_answers [Inp InPacket; Act Forward; Inp (InCycle 2); Act Handle; Act SendPublish; Act TakeCommand; Act Accept;
    Act SendPublish; Act TakeCommand; Act Accept; Act Poll]
    (mkPipe MLSelect (BLNext 0) CTIdle ELPoll [] 0 1) new_pipe); [reflexivity| |].
  - eapply rtc_l; [by exists EndCycle|]. eapply rtc_l; [by exists Poll|]. apply rtc_refl.
  - by intros [s [[] [=]]].
Defined.

(** ** The gateway link (src/services/gateway_mqtt/tasks.rs)

    Here one task does everything: it takes messages from its outbound queue, hands them to
    the client and polls the client's event loop.  A call of the client waits while the
    request channel is full, and polling is what empties it. *)

(** In the [select!], with [n] calls of the client to finish before it is reached again, or
    over. *)
Inductive LinkPhase := LinkSelect | LinkCalls (n : nat) | LinkOver.

Record Link := mkLink {
  link_phase : LinkPhase;
  link_connected : bool;
  link_requests : nat;
  link_queue : nat
}.

Definition new_link : Link := mkLink LinkSelect false 0 0.

(** A message is queued; the task takes one; a call of the client finishes; the broker's
    ConnAck is polled, upon which two topics are subscribed to and the notification is
    published; a request is polled to the broker; the shutdown arrives. *)
Inductive LinkEvent := LkQueue | LkTake | LkCall | LkConnAck | LkPoll | LkShutdown.

(** One call less to go. *)
Definition calls_left (n : nat) : LinkPhase := match n with 0 => LinkSelect | S _ => LinkCalls n end.

Definition link_step (ev : LinkEvent) (s : Link) : option Link :=
  let '(mkLink ph connected req q) := s in
  match ev, ph with
  | LkQueue, LinkOver => None
  | LkQueue, _ => if decide (q < 64) then Some (mkLink ph connected req (S q)) else None
  | LkTake, LinkSelect => match q with S q => Some (mkLink (LinkCalls 1) connected req q) | 0 => None end
  | LkCall, LinkCalls (S n) =>
      if decide (req < REQUEST_CAPACITY) then Some (mkLink (calls_left n) connected (S req) q) else None
  | LkConnAck, LinkSelect => if connected then None else Some (mkLink (LinkCalls 3) true req q)
  | LkPoll, LinkSelect => match connected, req with true, S req => Some (mkLink ph connected req q) | _, _ => None end
  | LkShutdown, LinkSelect => Some (mkLink LinkOver connected req q)
  | _, _ => None
  end.

Fixpoint link_run (evs : list LinkEvent) (s : Link) : option Link :=
  match evs with
  | [] => Some s
  | ev :: evs => link_step ev s ≫= link_run evs
  end.

(** Calls the task has made or will make for what came in. *)
Definition link_load (s : Link) : nat :=
  link_requests s + link_queue s + match link_phase s with LinkCalls n => n | _ => 0 end.

Definition link_demand (evs : list LinkEvent) : nat :=
  foldr (λ ev n, match ev with LkQueue => 1 | LkConnAck => 3 | _ => 0 end + n) 0 evs.

Definition link_blocked (s : Link) : Prop :=
  (∃ n, link_phase s = LinkCalls (S n)) ∧ link_requests s = REQUEST_CAPACITY.

Lemma link_step_load ev s s' : link_step ev s = Some s' → link_load s' ≤ link_load s + link_demand [ev].
Proof.
  destruct s as [ph connected req q]. intros Hstep.
  destruct ev; step_cases Hstep; unfold link_load; cbn; try lia. destruct n; cbn; lia.
Qed.

Lemma link_run_load evs s s' : link_run evs s = Some s' → link_load s' ≤ link_load s + link_demand evs.
Proof.
  revert s. induction evs as [|ev evs IH]; intros s; cbn; [intros [= <-]; lia|].
  intros (s1 & H1%link_step_load & H2%IH)%bind_Some. cbn in H1. unfold link_demand in *. lia.
Qed.

Lemma link_blocked_step ev s s' : link_blocked s → link_step ev s = Some s' → link_blocked s' ∧ link_phase s' = link_phase s.
Proof.
  destruct s as [ph connected req q]. intros [[n Hn] Hr] Hstep. cbn in *. subst.
  destruct ev; step_cases Hstep; try lia. split; [split; cbn; eauto|done].
Qed.

Lemma link_blocked_run evs s s' : link_blocked s → link_run evs s = Some s' → link_blocked s' ∧ link_phase s' = link_phase s.
Proof.
  revert s. induction evs as [|ev evs IH]; intros s Hb; cbn; [by intros [= <-]|].
  intros (s1 & H1 & H2)%bind_Some. destruct (link_blocked_step _ _ _ Hb H1) as [Hb1 <-]. by apply IH.
Qed.

(** The gateway link can stop itself: eleven messages published before the broker has
    answered fill the request channel, and the task waits for room that only itself could
    make; no ConnAck, no request and no shutdown is seen any more.  With at most ten calls
    to make, the three of the connection included, it never blocks. *)
Theorem gateway_link_blocks :
  (∃ s, link_run (replicate 11 LkQueue ++ mjoin (replicate 10 [LkTake; LkCall]) ++ [LkTake]) new_link = Some s ∧
     link_blocked s ∧ ∀ evs s', link_run evs s = Some s' → link_blocked s' ∧ link_phase s' ≠ LinkOver) ∧
  (∀ evs s, link_run evs new_link = Some s → link_demand evs ≤ REQUEST_CAPACITY → ¬ link_blocked s).
Proof.
  split.
  - eexists. split; [reflexivity|].
    match goal with |- link_blocked ?s ∧ _ => assert (link_blocked s) as Hb by (split; cbn; eauto) end.
    split; [done|]. intros evs s' Hrun. destruct (link_blocked_run _ _ _ Hb Hrun) as [Hb' ->]. by split.
  - intros evs s Hrun%link_run_load Hd [[n Hn] Hr]. unfold link_load in Hrun. rewrite Hn, Hr in Hrun. cbn in Hrun.
    unfold REQUEST_CAPACITY in *. lia.
Qed.
