(* ===== verification/System.v ===== *)
(** * The running node (src/main.rs, src/app.rs)

    The parts put together: after initialisation the handlers of the HTTP gateway, the
    message loop and the broadcast loop run side by side on the CA, the certificate files,
    the channel of announced topics, the registry with the broadcast list it shares with the
    broadcast loop, the key table and the commands of the MQTT client.  A run of the node is
    a sequence of their events in any order. *)

From S2P Require Import Prelude RustStr Paths Config Supervisor KeyManagement Ca MqttClient Brokerage.
From S2P Require Import Json CloudGateway Registry HttpGateway Handshakes Connections GatewayMqtt App.
From stdpp Require Import options.

#[local] Arguments strip_suffix : simpl never.

Section node.
Context `{!JsonText} {Anchor KeyPair Certificate Rand : Type} `{!Rcgen KeyPair Certificate Rand}.
Context (hmac_sha256 : list byte → list byte → list byte).
Context (render : Json → string).

(** ** State and events *)

(** What the tasks of the node share. *)
Record Node := mkNode {
  n_shared : Shared KeyPair Certificate;
  n_registry : BeaconRegistry;
  n_keys : list KeyRow
}.

Definition new_node (app : App (Anchor := Anchor) (KeyPair := KeyPair) (Certificate := Certificate)) (keys : list KeyRow) : Node :=
  mkNode (mkShared (app_ca app) (app_fs app) [] true)
    (set_log (app_log app) (new_registry (app_own_gateway app))) keys.

(** A request is served; the message loop takes a channel, ends a sweep, has one dropped or
    gets a message; the broadcast loop does a cycle, with the list of topics locked. *)
Inductive NodeEvent :=
| NRequest (x : Exchange (Rand := Rand))
| NTake (now : Z) (fate : CommandFate)
| NSweep (now : Z) (order : list string) (fates : string → CommandFate)
| NSweepCancelled (now : Z) (done_ : list string) (beacon_id : string) (at_ : Suspended) (fates : string → CommandFate)
| NMessage (now : Z) (msg : MqttMessage)
| NBroadcast (e : CycleEnv).

Definition with_queue (q : list TopicChannel) (s : Shared KeyPair Certificate) : Shared KeyPair Certificate :=
  mkShared (sh_ca s) (sh_fs s) q (sh_topics_open s).

Definition node_step (app : App (Anchor := Anchor) (KeyPair := KeyPair) (Certificate := Certificate)) (ev : NodeEvent) (s : Node) : Node :=
  let loop ev := mkNode (n_shared s) (app_step (bs_server_url (app_broadcast app)) ev (n_registry s)) (n_keys s) in
  match ev with
  | NRequest x => mkNode (service_fn (app_gateway_state app) x (n_shared s)).2 (n_registry s) (n_keys s)
  | NTake now fate =>
      match sh_topics (n_shared s) with
      | [] => s
      | ch :: q => mkNode (with_queue q (n_shared s)) (register_channel now fate ch (n_registry s)) (n_keys s)
      end
  | NSweep now order fates => loop (EvSweep now order fates)
  | NSweepCancelled now done_ id at_ fates => loop (EvSweepCancelled now done_ id at_ fates)
  | NMessage now msg => loop (EvMessage now msg)
  | NBroadcast e =>
      let '(keys, log) := broadcast_cycle hmac_sha256 render (app_broadcast app) e (broadcast_topics (n_registry s))
                            (n_keys s, mqtt_log (n_registry s)) in
      mkNode (n_shared s) (set_log log (n_registry s)) keys
  end.

Definition node_run (app : App (Anchor := Anchor) (KeyPair := KeyPair) (Certificate := Certificate)) (evs : list NodeEvent) (s : Node) : Node :=
  foldl (λ s ev, node_step app ev s) s evs.

End node.
Arguments Node : clear implicits.
Arguments NodeEvent : clear implicits.

(** ** Starting the node *)

Section main.
Context `{!JsonText} {Cert Anchor KeyPair Certificate Rand : Type} `{!Rcgen KeyPair Certificate Rand}.
Context (hmac_sha256 : list byte → list byte → list byte).
Context (render : Json → string).
Context (pem_certs : string → list (result string Cert)).
Context (trust_anchor : Cert → result string Anchor).
Context (webpki_roots : list Anchor).

(** [main] up to the interrupt: [provider] is the outcome of installing the crypto provider,
    which must not fail, [env] the environment after the [.env] file was read, and [evs] what
    happens until the interrupt.  Without a node the process has ended, or waits for ever. *)
Definition main (provider : result string ()) (e : InitEnv (Rand := Rand)) (env : Env) (home : option string) (db : CaDb)
    (fs : FS) (keys : list KeyRow) (evs : list (NodeEvent Rand)) : option (Node KeyPair Certificate) :=
  match provider with
  | Err _ => None
  | Ok _ =>
      config ← Config_from_env env home;
      match initialize pem_certs trust_anchor webpki_roots e config db fs with
      | InitDone app => Some (node_run hmac_sha256 render app evs (new_node app keys))
      | InitExit | InitBlocked => None
      end
  end.

End main.

(** ** Proofs *)

Section node_proofs.
Context `{!JsonText} {Anchor KeyPair Certificate Rand : Type} `{!Rcgen KeyPair Certificate Rand}.
Context (hmac_sha256 : list byte → list byte → list byte).
Context (render : Json → string).

Abbreviation Application := (App (Anchor := Anchor) (KeyPair := KeyPair) (Certificate := Certificate)).
Abbreviation ServedRequest := (Exchange (Rand := Rand)).
Abbreviation Event := (NodeEvent Rand).
Abbreviation State := (Node KeyPair Certificate).
Abbreviation step := (node_step hmac_sha256 render).
Abbreviation run := (node_run hmac_sha256 render).

Implicit Types (app : Application) (s : State).

Definition fresh_of (ev : Event) : option string := match ev with NRequest x => Some (x_uuid x) | _ => None end.

(** The identifiers drawn in a run. *)
Definition drawn (evs : list Event) : list string := omap fresh_of evs.

Definition cast_topic (id : string) : string := id +:+ "/cast".

(** The broadcast topic a channel announces. *)
Definition announces (ch : TopicChannel) : option string :=
  match ch_topic_type ch with Broadcast => Some (tc_topic (ch_topic ch)) | _ => None end.

Lemma cast_topic_inj id id' : cast_topic id = cast_topic id' → id = id'.
Proof. apply str_app_inj_r. Qed.

Lemma cast_topic_ne id : cast_topic id ≠ "".
Proof. unfold cast_topic. destruct id; cbn; done. Qed.

(** *** Requests *)

(** What serving a request may do: append some of the channels of a new beacon within the
    capacity of the queue, and store a certificate. *)
Record served (uuid : string) (s s' : Shared KeyPair Certificate) : Prop := {
  sv_queue : ∃ l, l `sublist_of` beacon_channels uuid ∧ sh_topics s' = sh_topics s ++ l;
  sv_capacity : length (sh_topics s) ≤ TOPIC_CAPACITY → length (sh_topics s') ≤ TOPIC_CAPACITY;
  sv_open : sh_topics_open s' = sh_topics_open s;
  sv_devices : devices_ok (device_certs (ca_db (sh_ca s))) → devices_ok (device_certs (ca_db (sh_ca s')))
}.

Lemma served_quiet uuid (s s' : Shared KeyPair Certificate) : sh_topics s' = sh_topics s → sh_topics_open s' = sh_topics_open s →
  (devices_ok (device_certs (ca_db (sh_ca s))) → devices_ok (device_certs (ca_db (sh_ca s')))) → served uuid s s'.
Proof.
  intros Ht Ho Hd. split; [|by rewrite Ht|done..]. exists []. split; [apply sublist_nil_l|by rewrite app_nil_r].
Qed.

Lemma sign_csr_devices e id csr (ca : CaService KeyPair Certificate) :
  devices_ok (device_certs (ca_db ca)) → devices_ok (device_certs (ca_db (sign_csr e id csr ca).2)).
Proof.
  intros Hd. pose proof (sign_csr_inv e id csr ca) as Hinv. destruct (sign_csr e id csr ca) as [[pem|] ca']; [|by subst].
  destruct Hinv as (_ & _ & _ & i & x & Hrows). cbn. rewrite Hrows. by apply upsert_ok.
Qed.

Lemma try_send_effects ch (s : Shared KeyPair Certificate) : let s' := try_send ch s in
  (∃ l, l `sublist_of` [ch] ∧ sh_topics s' = sh_topics s ++ l) ∧
  (length (sh_topics s) ≤ TOPIC_CAPACITY → length (sh_topics s') ≤ TOPIC_CAPACITY) ∧
  sh_topics_open s' = sh_topics_open s ∧ sh_ca s' = sh_ca s.
Proof.
  unfold try_send. case_match eqn:Hc; cbn; split_and!; try done.
  - by exists [ch].
  - bools. rewrite length_app. cbn. lia.
  - exists []. split; [apply sublist_nil_l|by rewrite app_nil_r].
Qed.

Lemma announce_served uuid (s : Shared KeyPair Certificate) : served uuid s
  (try_send (mkTopicChannel uuid (mkTopicConfig (uuid +:+ "/cast") 1) Broadcast)
     (try_send (mkTopicChannel uuid (mkTopicConfig (uuid +:+ "/rec") 1) Listen) s)).
Proof.
  destruct (try_send_effects (mkTopicChannel uuid (mkTopicConfig (uuid +:+ "/rec") 1) Listen) s) as ((l1 & S1 & Q1) & C1 & O1 & A1).
  destruct (try_send_effects (mkTopicChannel uuid (mkTopicConfig (uuid +:+ "/cast") 1) Broadcast)
    (try_send (mkTopicChannel uuid (mkTopicConfig (uuid +:+ "/rec") 1) Listen) s)) as ((l2 & S2 & Q2) & C2 & O2 & A2).
  split; [|auto|by rewrite O2|by rewrite A2, A1]. exists (l1 ++ l2). split; [by apply (sublist_app l1 [_] l2 [_])|].
  by rewrite Q2, Q1, <- app_assoc.
Qed.

Lemma served_after uuid (s s1 s2 : Shared KeyPair Certificate) : served uuid s1 s2 →
  sh_topics s1 = sh_topics s → sh_topics_open s1 = sh_topics_open s →
  (devices_ok (device_certs (ca_db (sh_ca s))) → devices_ok (device_certs (ca_db (sh_ca s1)))) → served uuid s s2.
Proof. intros [H1 H2 H3 H4] Ht Ho Hd. rewrite Ht in H1, H2. rewrite Ho in H3. split; auto. Qed.

Lemma device_init_served fse e uuid state req (s : Shared KeyPair Certificate) :
  served uuid s (handle_device_init fse e uuid state req s).2.
Proof.
  unfold handle_device_init. destruct (init_process_request req) as [r|]; [|by apply served_quiet]. cbn zeta.
  pose proof (sign_csr_devices e (mdns_hostname (dev_mdns (init_device r))) (dev_csr_pem (init_device r)) (sh_ca s)) as Hd.
  destruct (sign_csr e _ _ (sh_ca s)) as [[pem|] ca]; [|by apply served_quiet]. cbn in Hd.
  destruct (match brokerage state with Some _ => _ | None => _ end) as [registered s1] eqn:Hreg.
  assert (sh_topics s1 = sh_topics s ∧ sh_topics_open s1 = sh_topics_open s ∧ sh_ca s1 = ca) as (Ht & Ho & Hca).
  { destruct (brokerage state); [|by injection Hreg as _ <-].
    destruct (register_cert_identity _ _ _ _ _). by injection Hreg as _ <-. }
  destruct registered; cbn; [|by apply served_quiet; rewrite ?Hca].
  destruct (has_topic_tx state); [|by apply served_quiet; rewrite ?Hca].
  by eapply served_after; [apply announce_served|rewrite ?Hca..].
Qed.

Lemma client_register_served e uuid req (s : Shared KeyPair Certificate) :
  served uuid s (handle_client_register e uuid req s).2.
Proof.
  unfold handle_client_register. destruct (register_process_request req) as [csr|]; [|by apply served_quiet].
  pose proof (sign_csr_devices e uuid csr (sh_ca s)) as Hd.
  destruct (sign_csr e uuid csr (sh_ca s)) as [[pem|] ca]; [|by apply served_quiet]. cbn in Hd.
  destruct (ca_cert_pem ca); by apply served_quiet.
Qed.

Lemma service_fn_served state (x : ServedRequest) (s : Shared KeyPair Certificate) : served (x_uuid x) s (service_fn state x s).2.
Proof.
  unfold service_fn, dispatch. repeat case_match; cbn; try by apply served_quiet.
  - apply device_init_served.
  - apply client_register_served.
Qed.

(** *** The broadcast list *)

(** The topic of a registered beacon. *)
Definition topic_at (reg : BeaconRegistry) (id : string) : option string := records reg !! id ≫= topic_of.

(** [ids] are the identifiers drawn so far; [clean] says that no sweep was dropped. *)
Record casts_ok (ids : list string) (clean : bool) (reg : BeaconRegistry) (queue : list TopicChannel) : Prop := {
  cs_nodup : NoDup (broadcast_topics reg ++ omap announces queue);
  cs_ids : ∀ t, t ∈ broadcast_topics reg → ∃ id, id ∈ ids ∧ t = cast_topic id;
  cs_queue : Forall (λ ch, ∃ id, id ∈ ids ∧ ch ∈ beacon_channels id) queue;
  cs_records : ∀ id, is_Some (records reg !! id) → id ∈ ids;
  cs_topics : ∀ id t, topic_at reg id = Some t → t = cast_topic id ∧ t ∈ broadcast_topics reg;
  cs_exact : clean = true → ∀ t, t ∈ broadcast_topics reg → ∃ id, topic_at reg id = Some t
}.

Lemma casts_ok_ids ids ids' clean reg queue : ids ⊆ ids' → casts_ok ids clean reg queue → casts_ok ids' clean reg queue.
Proof.
  intros Hs [C1 C2 C3 C4 C5 C6]. split; auto.
  - intros t (id & ? & ?)%C2. eauto.
  - eapply list.Forall_impl; [exact C3|]. intros ch (id & ? & ?). eauto.
Qed.

Lemma topic_at_same reg reg' id :
  broadcast_topic <$> records reg' !! id = broadcast_topic <$> records reg !! id → topic_at reg' id = topic_at reg id.
Proof.
  unfold topic_at, topic_of. destruct (records reg' !! id), (records reg !! id); intros Hb; simplify_eq/=; by rewrite ?Hb.
Qed.

(** Only the topics of the records and the list matter. *)
Lemma casts_ok_same ids clean reg reg' queue :
  (∀ id, broadcast_topic <$> records reg' !! id = broadcast_topic <$> records reg !! id) →
  broadcast_topics reg' = broadcast_topics reg → casts_ok ids clean reg queue → casts_ok ids clean reg' queue.
Proof.
  intros Hr Hl [C1 C2 C3 C4 C5 C6].
  assert (∀ id, topic_at reg' id = topic_at reg id) as Ht by (intros id; by apply topic_at_same).
  split; rewrite ?Hl; auto.
  - intros id Hid. apply C4. specialize (Hr id). destruct Hid as [r' Hr']. rewrite Hr' in Hr.
    destruct (records reg !! id); [eauto|done].
  - intros id t. rewrite Ht. apply C5.
  - intros Hc t Hin. destruct (C6 Hc t Hin) as [id Hid]. exists id. by rewrite Ht.
Qed.

(** Some records are removed, and possibly their topics. *)
Lemma casts_ok_remove ids clean clean' reg reg' queue (gone : string → Prop) (off : string → Prop)
    `{!∀ id, Decision (gone id), !∀ t, Decision (off t)} :
  (∀ id, records reg' !! id = if decide (gone id) then None else records reg !! id) →
  broadcast_topics reg' = filter (λ t, ¬ off t) (broadcast_topics reg) →
  (∀ id t, topic_at reg id = Some t → off t → gone id) →
  (clean' = true → clean = true ∧ ∀ id t, topic_at reg id = Some t → gone id → off t) →
  casts_ok ids clean reg queue → casts_ok ids clean' reg' queue.
Proof.
  intros Hr Hl Hoff Hclean [C1 C2 C3 C4 C5 C6].
  assert (∀ id, topic_at reg' id = if decide (gone id) then None else topic_at reg id) as Ht.
  { intros id. unfold topic_at. rewrite Hr. by case_decide. }
  split; rewrite ?Hl; try done.
  - eapply sublist_NoDup; [exact C1|]. apply sublist_app; [apply sublist_filter|done].
  - intros t [_ Hin]%list_elem_of_filter. auto.
  - intros id. rewrite Hr. case_decide; [by intros [??]|apply C4].
  - intros id t. rewrite Ht. case_decide as Hg; [done|]. intros Hid. destruct (C5 id t Hid) as [? ?].
    split; [done|]. apply list_elem_of_filter. split; [|done]. intros Ho. by apply Hg, (Hoff id t).
  - intros Hc t [Ho Hin]%list_elem_of_filter. destruct (Hclean Hc) as [Hc0 Hg]. destruct (C6 Hc0 t Hin) as [id Hid].
    exists id. rewrite Ht. rewrite decide_False; [done|]. intros Hgone. apply Ho. eauto.
Qed.

Lemma swept_topics sw reg id t ids clean queue : casts_ok ids clean reg queue →
  topic_at reg id = Some t → t ∈ swept topic_of sw reg → id ∈ sw.
Proof.
  intros C Ht (id' & r & Hin & Hr & Hf)%elem_of_swept.
  assert (topic_at reg id' = Some t) as Ht' by (unfold topic_at; by rewrite Hr).
  destruct (cs_topics _ _ _ _ C _ _ Ht) as [-> _], (cs_topics _ _ _ _ C _ _ Ht') as [E _].
  by apply cast_topic_inj in E as ->.
Qed.

Lemma casts_ok_sweep ids clean fates sw reg queue : casts_ok ids clean reg queue → casts_ok ids clean (sweep fates sw reg) queue.
Proof.
  intros C. eapply (casts_ok_remove _ _ _ _ _ _ (λ id, id ∈ sw) (λ t, t ∈ swept topic_of sw reg)); [..|exact C].
  - intros id. apply sweep_records.
  - apply sweep_effect.
  - intros id t Ht Hs. by eapply swept_topics.
  - intros Hc. split; [done|]. intros id t Ht Hid. apply elem_of_swept. unfold topic_at in Ht.
    destruct (records reg !! id) as [r|] eqn:Hr; [|done]. by exists id, r.
Qed.

Lemma casts_ok_suspended ids clean id at_ reg queue :
  casts_ok ids clean reg queue → casts_ok ids false (sweep_suspended id at_ reg) queue.
Proof.
  intros C. unfold sweep_suspended. destruct (records reg !! id) as [r|] eqn:Hr; cycle 1.
  { destruct C. by split. }
  eapply (casts_ok_remove _ _ _ reg _ _ (λ id', id' = id) (λ _, False)); [..|done|exact C].
  - intros id'. unfold sweep_unsubscribe. case_match; cbn; rewrite lookup_delete; by repeat case_decide.
  - rewrite filter_true by (by intros ? ? []). unfold sweep_unsubscribe. by case_match.
  - done.
Qed.

Lemma casts_ok_cancelled ids clean now done_ id at_ fates reg queue : casts_ok ids clean reg queue →
  casts_ok ids false (check_timeouts_cancelled now done_ id at_ fates reg) queue.
Proof.
  intros C. assert (casts_ok ids false reg queue) by (destruct C; by split).
  unfold check_timeouts_cancelled. repeat case_match; try done. eapply casts_ok_suspended. by apply casts_ok_sweep.
Qed.

(** A message changes no broadcast topic. *)
Lemma handle_message_casts server_url now msg reg : let reg' := handle_message server_url now msg reg in
  (∀ id, broadcast_topic <$> records reg' !! id = broadcast_topic <$> records reg !! id) ∧
  broadcast_topics reg' = broadcast_topics reg ∧ mqtt_log reg' = mqtt_log reg.
Proof.
  cbn zeta. unfold handle_message.
  set (s1 := match strip_suffix "/rec" (msg_topic msg) with Some b => update_last_seen now b reg | None => reg end).
  assert ((∀ id, broadcast_topic <$> records s1 !! id = broadcast_topic <$> records reg !! id) ∧
    broadcast_topics s1 = broadcast_topics reg ∧ mqtt_log s1 = mqtt_log reg) as (Hb & Hl & Hm).
  { unfold s1. case_match; [|done]. cbn. split_and!; [|done..]. intros id. rewrite lookup_alter. case_decide; [|done].
    subst. by destruct (records reg !! _). }
  clearbody s1. destruct (advertised_gateway _); [|done]. case_match; [done|]. unfold spawn_connection. cbn.
  case_match; [|done]. unfold associate_gateway. cbn. destruct (records s1 !! _) as [r|] eqn:Hs; [|done]. cbn.
  split_and!; [|done..]. intros id. rewrite lookup_insert, <- Hb. case_decide; [|done]. subst. by rewrite Hs.
Qed.

(** Registering a channel of a handshake. *)
Lemma topic_at_register now fate ch id reg : ch ∈ beacon_channels id →
  (∀ id', topic_at (register_channel now fate ch reg) id' =
     if decide (id' = id ∧ is_Some (announces ch)) then Some (cast_topic id) else topic_at reg id') ∧
  broadcast_topics (register_channel now fate ch reg) = broadcast_topics reg ++ option_list (announces ch) ∧
  (announces ch = None ∨ announces ch = Some (cast_topic id)) ∧
  (∀ id', is_Some (records (register_channel now fate ch reg) !! id') → id' = id ∨ is_Some (records reg !! id')).
Proof.
  intros Hch. rewrite register_channel_effects. unfold topic_at. cbn.
  apply elem_of_cons in Hch as [->| ->%list_elem_of_singleton]; cbn [ch_beacon_id announces ch_topic_type]; split_and!.
  - intros id'. rewrite decide_False by (by intros [_ [??]]). rewrite lookup_partial_alter. case_decide; [|done]. subst id'.
    unfold reg_record, topic_of. cbn. by destruct (answered fate), (records reg !! id).
  - done.
  - by left.
  - intros id'. rewrite lookup_partial_alter. case_decide; auto.
  - intros id'. rewrite lookup_partial_alter. case_decide as Hd.
    + subst id'. rewrite decide_True by (split; [done|by eexists]). cbn. unfold topic_of. cbn.
      rewrite decide_False; [done|]. apply cast_topic_ne.
    + rewrite decide_False; [done|]. by intros [-> _].
  - done.
  - by right.
  - intros id'. rewrite lookup_partial_alter. case_decide; auto.
Qed.

(** The head of the queue is registered. *)
Lemma casts_ok_take ids clean now fate ch reg queue : casts_ok ids clean reg (ch :: queue) →
  casts_ok ids clean (register_channel now fate ch reg) queue.
Proof.
  intros [C1 C2 C3 C4 C5 C6]. apply list.Forall_cons in C3 as [(id & Hid & Hch) C3].
  destruct (topic_at_register now fate ch id reg Hch) as (Ht & Hl & Ha & Hr).
  assert (∀ t, t ∈ option_list (announces ch) → t = cast_topic id ∧ is_Some (announces ch)) as Hopt.
  { intros t. destruct Ha as [->| ->]; cbn; [by intros ?%elem_of_nil|intros ->%list_elem_of_singleton; eauto]. }
  split; rewrite ?Hl.
  - rewrite <- app_assoc. cbn in C1. by destruct (announces ch).
  - intros t [Hin|[-> _]%Hopt]%elem_of_app; [auto|eauto].
  - done.
  - intros id' [->|?]%Hr; auto.
  - intros id' t. rewrite Ht. case_decide as Hd.
    + intros [= <-]. destruct Hd as [-> [t Hs]]. split; [done|]. apply elem_of_app. right. rewrite Hs.
      destruct Ha as [?|?]; simplify_eq/=. by left.
    + intros [??]%C5. split; [done|]. apply elem_of_app. auto.
  - intros Hc t [Hin|[-> Hs]%Hopt]%elem_of_app.
    + destruct (C6 Hc t Hin) as [id' Hid']. exists id'. rewrite Ht. case_decide as Hd; [|done].
      f_equal. destruct Hd as [-> _]. by apply C5 in Hid' as [-> _].
    + exists id. by rewrite Ht, decide_True.
Qed.

Lemma announces_cast ch id t : ch ∈ beacon_channels id → announces ch = Some t → t = cast_topic id.
Proof. intros Hch. by apply elem_of_cons in Hch as [->| ->%list_elem_of_singleton]; intros [= <-]. Qed.

(** A handshake's channels are queued, under an identifier not drawn before. *)
Lemma casts_ok_announce ids clean id reg queue l : id ∉ ids → l `sublist_of` beacon_channels id →
  casts_ok ids clean reg queue → casts_ok (ids ++ [id]) clean reg (queue ++ l).
Proof.
  intros Hid Hl C. assert (omap announces l `sublist_of` [cast_topic id]) as Ho.
  { change [cast_topic id] with (omap announces (beacon_channels id)).
    induction Hl as [|x l1 l2 ? IH|x l1 l2 ? IH]; cbn; [done|case_match; [by constructor|done]..]. }
  assert (ids ⊆ ids ++ [id]) as Hsub by set_solver.
  destruct (casts_ok_ids _ _ _ _ _ Hsub C) as [_ C2 C3 C4 C5 C6]. split; [|done| |done..].
  - rewrite omap_app, app_assoc. apply list.NoDup_app. split_and!.
    + apply C.
    + intros t Hold Hnew. assert (t = cast_topic id) as ->.
      { eapply sublist_subseteq in Hnew; [|exact Ho]. by apply list_elem_of_singleton in Hnew. }
      apply Hid. apply elem_of_app in Hold as [(id' & ? & E)%(cs_ids _ _ _ _ C)|(ch & Hch & Ha)%list_elem_of_omap].
      * by apply cast_topic_inj in E as ->.
      * pose proof (cs_queue _ _ _ _ C) as Hq. eapply list.Forall_forall in Hq as (id' & ? & Hc); [|exact Hch].
        by apply (announces_cast ch id') in Ha as ->%cast_topic_inj.
    + eapply sublist_NoDup; [apply NoDup_singleton|exact Ho].
  - apply list.Forall_app. split; [done|]. apply list.Forall_forall. intros ch Hch. exists id.
    split; [set_solver|]. by eapply sublist_subseteq in Hch; [|exact Hl].
Qed.

(** *** The node *)

Definition is_cancelled (ev : Event) : bool := match ev with NSweepCancelled _ _ _ _ _ => true | _ => false end.

(** The random bytes of a rotation have the lengths of the arrays they fill. *)
Definition rand_ok (ev : Event) : Prop :=
  match ev with NBroadcast e => rotate_env_ok (ge_rotate (cy_get e)) | _ => True end.

Record node_ok (app : Application) (ids : list string) (clean : bool) (s : State) : Prop := {
  no_casts : casts_ok ids clean (n_registry s) (sh_topics (n_shared s));
  no_linked : linked (app_own_gateway app) (n_registry s);
  no_devices : devices_ok (device_certs (ca_db (sh_ca (n_shared s))));
  no_keys : table_ok (n_keys s);
  no_capacity : length (sh_topics (n_shared s)) ≤ TOPIC_CAPACITY;
  no_open : sh_topics_open (n_shared s) = true
}.

Lemma broadcast_cycle_keys st e topics t log : rotate_env_ok (ge_rotate (cy_get e)) → table_ok t →
  table_ok (broadcast_cycle hmac_sha256 render st e topics (t, log)).1.
Proof.
  intros He Ht. pose proof (get_ok (bs_keys st) (cy_get e) t He Ht) as Hg. unfold broadcast_cycle. cbn [fst snd].
  destruct (get_or_rotate_key _ _ t) as [[key|] t']; [|done]. destruct (ota_fields _ _ _ key). by apply sweep_ok.
Qed.

Lemma set_log_linked own log reg : linked own reg → linked own (set_log log reg).
Proof. intros Hl. by eapply linked_ext; [exact Hl|..]. Qed.

Lemma node_step_ok app ids clean ev s : NoDup (ids ++ drawn [ev]) → rand_ok ev → node_ok app ids clean s →
  node_ok app (ids ++ drawn [ev]) (clean && negb (is_cancelled ev)) (step app ev s).
Proof.
  intros Hnd Hrand [N1 N2 N3 N4 N5 N6].
  destruct ev as [x|now fate|now order fates|now done_ id at_ fates|now msg|e]; cbn in *; rewrite ?app_nil_r, ?andb_true_r in *.
  - apply list.NoDup_app in Hnd as (_ & Hx & _). assert (x_uuid x ∉ ids) as Hfresh by (intros ?; eapply Hx; [done|by left]).
    destruct (service_fn_served (app_gateway_state app) x (n_shared s)) as [(l & Hl & Hq) Hc Ho Hd].
    split; cbn; auto; [|congruence]. rewrite Hq. by apply casts_ok_announce.
  - destruct (sh_topics (n_shared s)) as [|ch q] eqn:Hq; [split; by rewrite ?Hq|]. cbn in N5.
    split; cbn; auto; [by apply casts_ok_take| |lia]. eapply same_links_linked; [apply register_channel_same|done].
  - split; cbn; auto; [by apply casts_ok_sweep|by apply sweep_linked].
  - rewrite andb_false_r. split; cbn; auto; [by eapply casts_ok_cancelled|by apply check_timeouts_cancelled_linked].
  - destruct (handle_message_casts (bs_server_url (app_broadcast app)) now msg (n_registry s)) as (H1 & H2 & _).
    split; cbn; auto; [|by apply handle_message_linked]. by eapply casts_ok_same; [exact H1|exact H2|].
  - pose proof (broadcast_cycle_keys (app_broadcast app) e (broadcast_topics (n_registry s)) (n_keys s) (mqtt_log (n_registry s)) Hrand N4) as Hk.
    destruct (broadcast_cycle _ _ _ _ _ _) as [keys log]. split; cbn; auto using set_log_linked.
    eapply casts_ok_same; [..|exact N1]; done.
Qed.

Lemma node_run_ok app ids clean evs s : NoDup (ids ++ drawn evs) → Forall rand_ok evs → node_ok app ids clean s →
  node_ok app (ids ++ drawn evs) (clean && forallb (λ ev, negb (is_cancelled ev)) evs) (run app evs s).
Proof.
  revert ids clean s. induction evs as [|ev evs IH]; intros ids clean s Hnd Hr Hs; cbn [node_run foldl forallb].
  { cbn. by rewrite app_nil_r, andb_true_r. }
  apply list.Forall_cons in Hr as [Hr Hrs]. assert (drawn (ev :: evs) = drawn [ev] ++ drawn evs) as Hd by apply (omap_app fresh_of [ev] evs).
  rewrite Hd, app_assoc in *. rewrite andb_assoc. apply IH; [done..|]. apply node_step_ok; [|done..].
  by apply list.NoDup_app in Hnd as (? & _ & _).
Qed.

Lemma new_node_ok app keys : devices_ok (device_certs (ca_db (app_ca app))) → table_ok keys →
  node_ok app [] true (new_node app keys).
Proof.
  intros Hd Hk. split; cbn; try done; [|apply set_log_linked, new_registry_linked|unfold TOPIC_CAPACITY; lia].
  split; unfold topic_at; cbn; try (by constructor).
  - by intros t ?%elem_of_nil.
  - intros id [r Hr]. by rewrite lookup_empty in Hr.
  - by intros _ t ?%elem_of_nil.
Qed.

(** *** From a handshake to a broadcast *)

(** When an event of the message loop happens. *)
Definition node_time (ev : Event) : option Z :=
  match ev with
  | NTake now _ | NSweep now _ _ | NSweepCancelled now _ _ _ _ | NMessage now _ => Some now
  | NRequest _ | NBroadcast _ => None
  end.

Definition node_sweep (ev : Event) : bool :=
  match ev with NSweep _ _ _ | NSweepCancelled _ _ _ _ _ => true | _ => false end.

(** The clock of the loop is past [t], and a sweep comes in time for a beacon heard at [t]. *)
Definition in_time (t : Z) (ev : Event) : Prop :=
  match node_time ev with
  | Some now => (t ≤ now)%Z ∧ (node_sweep ev = true → now ≤ t + BEACON_TIMEOUT)%Z
  | None => True
  end.

Definition takes (ev : Event) : nat := match ev with NTake _ _ => 1 | _ => 0 end.

(** The beacon, if registered, was heard at [t] or later. *)
Definition seen_since (t : Z) (id : string) (reg : BeaconRegistry) : Prop :=
  ∀ r, records reg !! id = Some r → (t ≤ last_seen r)%Z.

Lemma heard_seen t id reg : heard_since t id reg → seen_since t id reg.
Proof. intros (r & Hr & Ht) r' Hr'. by simplify_eq. Qed.

Lemma seen_heard t id reg r : seen_since t id reg → records reg !! id = Some r → heard_since t id reg.
Proof. intros Hs Hr. exists r. auto. Qed.

Lemma sweep_records_sub fates sw reg id r : records (sweep fates sw reg) !! id = Some r → records reg !! id = Some r.
Proof. rewrite sweep_records. by case_decide. Qed.

Lemma cancelled_records now done_ id at_ fates reg : ∃ gone : list string,
  (∀ id', id' ∈ gone → id' ∈ stale_ids now reg) ∧
  ∀ id', records (check_timeouts_cancelled now done_ id at_ fates reg) !! id' = if decide (id' ∈ gone) then None else records reg !! id'.
Proof.
  unfold check_timeouts_cancelled. destruct (records reg !! id) as [r|] eqn:Hr; [|exists []; split; set_solver].
  case_match eqn:Hc; [|exists []; split; set_solver]. bools.
  set (sw := filter _ done_). assert (id ∉ sw) as Hid by (intros [[_ ?] _]%list_elem_of_filter; done).
  exists (id :: sw). split.
  - intros id' [->|[[? _] _]%list_elem_of_filter]%elem_of_cons; [|done]. apply elem_of_stale_ids. eauto.
  - intros id'. unfold sweep_suspended. rewrite sweep_records, decide_False, Hr by done.
    assert (∀ f, records (sweep_unsubscribe f r (set_records (delete id) (sweep fates sw reg))) = delete id (records (sweep fates sw reg))) as Hu
      by (intros f; unfold sweep_unsubscribe; by case_match).
    cbn. rewrite Hu, lookup_delete, sweep_records. repeat case_decide; set_solver.
Qed.

(** Sweeps only remove stale records. *)
Lemma loop_sweep_records ev reg : is_sweep ev = true → ∃ gone : list string,
  (∀ id, id ∈ gone → id ∈ stale_ids (event_time ev) reg) ∧
  ∀ id, records (app_step "" ev reg) !! id = if decide (id ∈ gone) then None else records reg !! id.
Proof.
  destruct ev as [|now order fates|now done_ id at_ fates|]; intros [=].
  - exists (filter (λ id, id ∈ stale_ids now reg) order). split; [by intros id [??]%list_elem_of_filter|]. intros id. apply sweep_records.
  - apply cancelled_records.
Qed.

Lemma sweep_keeps t ev id reg : is_sweep ev = true → (event_time ev ≤ t + BEACON_TIMEOUT)%Z → seen_since t id reg →
  records (app_step "" ev reg) !! id = records reg !! id.
Proof.
  intros Hsw Ht Hs. destruct (loop_sweep_records ev reg Hsw) as (gone & Hg & ->). case_decide as Hd; [|done].
  destruct (records reg !! id) as [r|] eqn:Hr; [|done]. exfalso.
  eapply heard_not_stale; [by eapply seen_heard|exact Ht|by apply Hg].
Qed.

Lemma handle_message_none url now msg id reg : records reg !! id = None → records (handle_message url now msg reg) !! id = None.
Proof.
  intros Hr. destruct (handle_message_casts url now msg reg) as (Hb & _). specialize (Hb id). rewrite Hr in Hb.
  by destruct (records (handle_message url now msg reg) !! id).
Qed.

(** Every step of the loop but a registration of another kind keeps a beacon in time. *)
Lemma seen_register t now fate ch id reg : (t ≤ now)%Z → seen_since t id reg → seen_since t id (register_channel now fate ch reg).
Proof.
  intros Ht Hs. destruct (records reg !! id) as [r|] eqn:Hr.
  - apply heard_seen, heard_register. by eapply seen_heard.
  - intros r. rewrite register_channel_effects. cbn. rewrite lookup_partial_alter. case_decide; [|by rewrite Hr].
    subst. rewrite Hr. unfold reg_record. cbn. intros [= <-]. destruct (ch_topic_type ch); try destruct (answered fate); done.
Qed.

Lemma seen_message t url now msg id reg : (t ≤ now)%Z → seen_since t id reg → seen_since t id (handle_message url now msg reg).
Proof.
  intros Ht Hs. destruct (records reg !! id) as [r|] eqn:Hr.
  - apply heard_seen, heard_message; [done|]. by eapply seen_heard.
  - intros r'. by rewrite handle_message_none.
Qed.

(** Within the next [n] channels taken the beacon is on the broadcast list, as heard since
    [t]. *)
Definition joining (t : Z) (id : string) (n : nat) (s : State) : Prop :=
  seen_since t id (n_registry s) ∧
  ((∃ pre post, sh_topics (n_shared s) = pre ++ mkTopicChannel id (mkTopicConfig (cast_topic id) 1) Broadcast :: post ∧ length pre < n) ∨
   topic_at (n_registry s) id = Some (cast_topic id)).

Lemma sweep_joining t id n s ev url : is_sweep ev = true → (event_time ev ≤ t + BEACON_TIMEOUT)%Z → joining t id n s →
  joining t id n (mkNode (n_shared s) (app_step url ev (n_registry s)) (n_keys s)).
Proof.
  intros Hsw Ht [Hs Hj]. pose proof (sweep_keeps t ev id (n_registry s) Hsw Ht Hs) as Hk.
  assert (app_step url ev (n_registry s) = app_step "" ev (n_registry s)) as -> by (by destruct ev).
  split; unfold seen_since, topic_at; cbn; rewrite Hk; [done|exact Hj].
Qed.

Lemma joining_step app ids clean t id n ev s : node_ok app ids clean s → in_time t ev →
  joining t id n s → joining t id (n - takes ev) (step app ev s).
Proof.
  intros Hok Hin [Hs Hj]. destruct ev as [x|now fate|now order fates|now done_ b at_ fates|now msg|e]; cbn in Hin; cbn [takes]; rewrite ?Nat.sub_0_r.
  - split; [done|]. cbn. destruct Hj as [(pre & post & Hq & Hlt)|Hj]; [left|by right].
    destruct (service_fn_served (app_gateway_state app) x (n_shared s)) as [(l & _ & ->) _ _ _]. rewrite Hq.
    exists pre, (post ++ l). by rewrite <- app_assoc.
  - pose proof (cs_queue _ _ _ _ (no_casts _ _ _ _ Hok)) as Hqueue. cbn.
    destruct (sh_topics (n_shared s)) as [|ch q] eqn:Hq.
    { split; [done|]. right. destruct Hj as [(pre & post & Hq' & _)|Hj]; [by destruct pre|done]. }
    apply list.Forall_cons in Hqueue as [(id' & _ & Hch) _].
    destruct (topic_at_register now fate ch id' (n_registry s) Hch) as (Ht & _ & Ha & _).
    split; cbn; [by apply seen_register; [apply Hin|]|]. rewrite Ht. destruct Hj as [(pre & post & Hq' & Hlt)|Hj].
    + destruct pre as [|ch' pre]; cbn in Hq', Hlt; injection Hq' as -> ->.
      * right. cbn in Ha. destruct Ha as [|[= ->%cast_topic_inj]]; [done|]. rewrite decide_True; [done|]. split; [done|]. by eexists.
      * left. exists pre, post. split; [done|lia].
    + right. case_decide as Hd; [|done]. by destruct Hd as [-> _].
  - apply (sweep_joining t id n s (EvSweep now order fates)); [done|by apply Hin|done].
  - apply (sweep_joining t id n s (EvSweepCancelled now done_ b at_ fates)); [done|by apply Hin|done].
  - destruct Hin as [Hin _]. destruct (handle_message_casts (bs_server_url (app_broadcast app)) now msg (n_registry s)) as (Hb & _).
    split; cbn; [by apply seen_message|]. destruct Hj as [Hj|Hj]; [by left|right]. rewrite <- Hj. by apply topic_at_same.
  - cbn. destruct (broadcast_cycle _ _ _ _ _ _). by split.
Qed.

Lemma joining_run app ids clean t id n evs s :
  node_ok app ids clean s → NoDup (ids ++ drawn evs) → Forall rand_ok evs → Forall (in_time t) evs →
  n ≤ sum_list_with takes evs → joining t id n s → joining t id 0 (run app evs s).
Proof.
  revert ids clean n s. induction evs as [|ev evs IH]; intros ids clean n s Hok Hnd Hr Hin Hn Hj.
  { cbn in Hn. by replace n with 0 in Hj by lia. }
  apply list.Forall_cons in Hr as [Hr Hrs], Hin as [Hin Hins].
  change (drawn (ev :: evs)) with (drawn ([ev] ++ evs)) in Hnd. unfold drawn in Hnd. rewrite omap_app, app_assoc in Hnd.
  assert (NoDup (ids ++ drawn [ev])) as Hnd1 by (by apply list.NoDup_app in Hnd as (? & _ & _)).
  pose proof (node_step_ok app ids clean ev s Hnd1 Hr Hok) as Hok1. cbn [sum_list_with] in Hn.
  eapply (IH _ _ (n - takes ev)); [exact Hok1|exact Hnd|done|done|lia|]. by eapply joining_step.
Qed.

End node_proofs.

(** ** The whole node *)

Section whole_node.
Context `{!JsonText} {Cert Anchor KeyPair Certificate Rand : Type} `{!Rcgen KeyPair Certificate Rand}.
Context (hmac_sha256 : list byte → list byte → list byte).
Context (render : Json → string).
Context (pem_certs : string → list (result string Cert)).
Context (trust_anchor : Cert → result string Anchor).
Context (webpki_roots : list Anchor).

(** The node starts with the device certificates of the database, and with the channel to
    the message loop. *)
Lemma initialize_node e config db fs app :
  initialize pem_certs trust_anchor webpki_roots e config db fs = InitDone app →
  device_certs (ca_db (app_ca app)) = device_certs db ∧ has_topic_tx (app_gateway_state app) = true.
Proof.
  unfold initialize. destruct (ca_register _ _ db) as [[ca|] db1] eqn:Hca; [|done]. destruct (ca_cert_pem ca); [|done].
  apply ca_register_db in Hca as (Hd & _ & _ & Hdb). specialize (Hdb ca eq_refl). subst db1.
  destruct (if mb_tls_enabled _ then _ else _) as [[[]|] fs1]; [|done]. cbn [register_mosquitto].
  destruct (if decide _ then _ else _) as [identified [ca' fs2]] eqn:Hid.
  assert (device_certs (ca_db ca') = device_certs (ca_db ca)) as Hd'.
  { case_decide; [|by injection Hid as _ <- _]. unfold provision_node_identity in Hid.
    destruct (mc_certfile _); [|by injection Hid as _ <- _]. destruct (mc_keyfile _); [|by injection Hid as _ <- _].
    pose proof (ensure_inv (ie_identity e) ca) as Hinv.
    destruct (ensure_node_identity _ ca) as [[[cert key]|] ca1]; [|injection Hid as _ <- _; by subst].
    destruct Hinv as (_ & _ & Hc & _). repeat case_match; simplify_eq/=; done. }
  destruct identified; [|done]. destruct (register_clients config _ _) as [cloud sup].
  destruct (start_services _ _ _ e _ cloud sup) as [[sup1 log]|]; [|done]. intros [= <-]. cbn. by rewrite Hd', Hd.
Qed.

(** C3: In every state the program can reach the parts of the node agree: the list the broadcast
    loop publishes to has no topic twice, contains the topic of every registered beacon and,
    unless a sweep was dropped, no other one; every gateway connection belongs to a
    registered beacon; no device has two certificates; the key table is well formed; and the
    queue of announced topics is within its capacity. *)
Theorem node_invariant provider e env home db fs keys evs s :
  main hmac_sha256 render pem_certs trust_anchor webpki_roots provider e env home db fs keys evs = Some s →
  devices_ok (device_certs db) → table_ok keys → NoDup (drawn evs) → Forall rand_ok evs →
  let reg := n_registry s in
  NoDup (broadcast_topics reg) ∧
  (∀ id r, records reg !! id = Some r → broadcast_topic r ≠ "" →
     broadcast_topic r = cast_topic id ∧ cast_topic id ∈ broadcast_topics reg) ∧
  (forallb (λ ev, negb (is_cancelled ev)) evs = true → ∀ t, t ∈ broadcast_topics reg →
     ∃ id r, records reg !! id = Some r ∧ broadcast_topic r = t) ∧
  (∀ i c, connections reg !! i = Some c → ∃ id r, records reg !! id = Some r ∧ gateway_shutdown_tx r = Some i) ∧
  devices_ok (device_certs (ca_db (sh_ca (n_shared s)))) ∧ table_ok (n_keys s) ∧
  length (sh_topics (n_shared s)) ≤ TOPIC_CAPACITY.
Proof.
  unfold main. intros Hm Hdev Hkeys Hnd Hrand. destruct provider; [|done].
  destruct (Config_from_env env home) as [config|]; [|done]. cbn in Hm.
  destruct (initialize _ _ _ e config db fs) as [| |app] eqn:Hi; [done..|]. injection Hm as <-.
  apply initialize_node in Hi as [Hd _]. rewrite <- Hd in Hdev.
  destruct (node_run_ok hmac_sha256 render app [] true evs _ Hnd Hrand (new_node_ok app keys Hdev Hkeys)) as [C L D K Q _].
  set (s := node_run _ _ _ _ _) in *. cbn in C. destruct C as [C1 _ _ _ C5 C6]. cbn zeta. split_and!; try done.
  - by apply list.NoDup_app in C1 as (? & _ & _).
  - intros id r Hr Hne. destruct (C5 id (broadcast_topic r)) as [<- ?]; [|done].
    unfold topic_at. rewrite Hr. cbn. unfold topic_of. by rewrite decide_False.
  - intros Hc t Ht. destruct (C6 Hc t Ht) as [id Hid]. unfold topic_at in Hid.
    destruct (records (n_registry s) !! id) as [r|] eqn:Hr; [|done]. exists id, r. split; [done|].
    cbn in Hid. unfold topic_of in Hid. case_decide; [done|]. by injection Hid.
  - intros i c Hi. destruct (lk_conn _ _ L i c Hi) as [_ [id Hid]]. unfold links in Hid.
    destruct (records (n_registry s) !! id) as [r|] eqn:Hr; [|done]. exists id, r. split; [done|]. by injection Hid.
Qed.

Lemma device_init_announces fse e uuid state req (s : Shared KeyPair Certificate) :
  let '(resp, s') := handle_device_init fse e uuid state req s in
  status resp = 200%Z → has_topic_tx state = true → sh_topics_open s = true → length (sh_topics s) + 2 ≤ TOPIC_CAPACITY →
  sh_topics s' = sh_topics s ++ beacon_channels uuid.
Proof.
  unfold handle_device_init. pose proof (init_process_inv req) as Hreq.
  destruct (init_process_request req) as [r|resp]; [|intros E; destruct Hreq as [Hst _]; rewrite E in Hst; by destruct Hst]. cbn zeta.
  destruct (sign_csr e _ _ (sh_ca s)) as [[pem|err] ca]; [|done].
  destruct (match brokerage state with Some _ => _ | None => _ end) as [registered s1] eqn:Hreg.
  assert (sh_topics s1 = sh_topics s ∧ sh_topics_open s1 = sh_topics_open s) as [Ht Ho].
  { destruct (brokerage state); [|by injection Hreg as _ <-].
    destruct (register_cert_identity _ _ _ _ _). by injection Hreg as _ <-. }
  destruct registered; [|done]. intros _ -> Hopen Hroom. destruct (announce_spec uuid s1) as (_ & _ & A).
  rewrite announced_room in A by (by rewrite ?Ho, ?Ht). by rewrite A, Ht.
Qed.

Lemma handshake_joins app ids clean x s0 t : NoDup (ids ++ [x_uuid x]) → node_ok app ids clean s0 →
  has_topic_tx (app_gateway_state app) = true →
  contains_key HEADER_HEALTH (x_req x) = false → contains_key HEADER_INIT (x_req x) = true →
  status (service_fn (app_gateway_state app) x (n_shared s0)).1 = 200%Z →
  length (sh_topics (n_shared s0)) + 2 ≤ TOPIC_CAPACITY →
  joining t (x_uuid x) (length (sh_topics (n_shared s0)) + 2)
    (node_step (Anchor := Anchor) hmac_sha256 render app (NRequest x) s0).
Proof.
  intros Hnd Hok Htx Hh Hinit Hst Hroom. split.
  - intros r Hr. cbn in Hr. assert (x_uuid x ∈ ids) as Hin by (apply (cs_records _ _ _ _ (no_casts _ _ _ _ Hok)); eauto).
    apply list.NoDup_app in Hnd as (_ & Hn & _). exfalso. apply (Hn _ Hin). by left.
  - left. cbn. unfold service_fn, dispatch in Hst |- *. rewrite Hh, Hinit in *.
    pose proof (device_init_announces (x_fs x) (x_ca x) (x_uuid x) (app_gateway_state app) (x_req x) (n_shared s0)) as Ha.
    destruct (handle_device_init _ _ _ _ _ _) as [resp s1]. cbn in Hst |- *. rewrite Ha; [|done|done|apply Hok|done].
    eexists (sh_topics (n_shared s0) ++ [_]), []. rewrite <- app_assoc. split; [reflexivity|]. rewrite length_app. cbn. lia.
Qed.

(** C2: A device that completes its handshake gets the broadcasts: whatever happened before, when
    the handshake of a fresh beacon is answered with 200 while the queue has room for its
    two channels, then once the message loop has taken the channels queued until then, amid
    any other events of the node, and as long as no sweep runs more than 120 seconds after
    the handshake, every broadcast cycle that has a key and whose publishes the client
    accepts publishes this node's address and token to the beacon's topic, once. *)
Theorem handshake_reaches_broadcast e config db fs app keys evs x t later c key keys' :
  let s0 := node_run hmac_sha256 render app evs (new_node app keys) in
  let s := node_run hmac_sha256 render app later (node_step hmac_sha256 render app (NRequest x) s0) in
  initialize pem_certs trust_anchor webpki_roots e config db fs = InitDone app →
  devices_ok (device_certs db) → table_ok keys →
  NoDup (drawn (evs ++ NRequest x :: later)) → Forall rand_ok (evs ++ later) →
  contains_key HEADER_HEALTH (x_req x) = false → contains_key HEADER_INIT (x_req x) = true →
  status (service_fn (app_gateway_state app) x (n_shared s0)).1 = 200%Z →
  length (sh_topics (n_shared s0)) + 2 ≤ TOPIC_CAPACITY →
  Forall (in_time t) later → length (sh_topics (n_shared s0)) + 2 ≤ sum_list_with takes later →
  get_or_rotate_key (bs_keys (app_broadcast app)) (cy_get c) (n_keys s) = (Ok key, keys') →
  (∀ i, cy_fates c i = TaskAnswers (Ok ())) →
  let '(kid, tok) := ota_fields hmac_sha256 (bs_keys (app_broadcast app)) (cy_token_clock c) key in
  let payload := render (broadcast_payload (bs_server_url (app_broadcast app)) kid tok) in
  ∃ before after, (cast_topic (x_uuid x) ∉ before ++ after) ∧
    mqtt_log (n_registry (node_step hmac_sha256 render app (NBroadcast c) s)) =
    mqtt_log (n_registry s) ++ ((λ topic, Publish topic AtLeastOnce payload) <$> (before ++ cast_topic (x_uuid x) :: after)).
Proof.
  intros s0 s Hi Hdev Hkeys Hnd Hrand Hh Hinit Hst Hroom Htime Htakes Hget Hfates.
  apply initialize_node in Hi as [Hd Htx]. rewrite <- Hd in Hdev.
  unfold drawn in Hnd. rewrite omap_app in Hnd. apply list.Forall_app in Hrand as [Hr1 Hr2].
  pose proof (node_run_ok hmac_sha256 render app [] true evs _ ltac:(by apply list.NoDup_app in Hnd as (? & _ & _)) Hr1
    (new_node_ok app keys Hdev Hkeys)) as Hok. fold s0 in Hok.
  change (NRequest x :: later) with ([NRequest x] ++ later) in Hnd. rewrite omap_app, app_assoc in Hnd.
  assert (NoDup (drawn evs ++ drawn [NRequest x])) as Hnd1 by (by apply list.NoDup_app in Hnd as (? & _ & _)).
  pose proof (node_step_ok hmac_sha256 render app _ _ (NRequest x) s0 Hnd1 I Hok) as Hok1.
  pose proof (handshake_joins app (drawn evs) _ x s0 t Hnd1 Hok Htx Hh Hinit Hst Hroom) as Hj.
  pose proof (node_run_ok hmac_sha256 render app _ _ later _ Hnd Hr2 Hok1) as Hok2.
  eapply joining_run in Hj as [_ [(? & ? & _ & ?)|Hj]]; [lia| |exact Hok1|exact Hnd|done..]. fold s in Hok2, Hj.
  destruct (ota_fields _ _ _ key) as [kid tok] eqn:Hota. cbn zeta.
  pose proof (no_casts _ _ _ _ Hok2) as Hc. destruct (cs_topics _ _ _ _ Hc _ _ Hj) as [_ Hin].
  pose proof (cs_nodup _ _ _ _ Hc) as Hl. apply list.NoDup_app in Hl as (Hl & _ & _).
  apply list_elem_of_split in Hin as (before & after & Hba). exists before, after. rewrite <- Hba. split.
  - rewrite Hba in Hl. rewrite <- Permutation_middle in Hl. by apply list.NoDup_cons in Hl as [? _].
  - cbn. unfold broadcast_cycle. cbn [fst snd]. rewrite Hget, Hota. cbn. by rewrite publish_all_spec, reached_all.
Qed.

End whole_node.

(** ** Concrete runs *)

#[local] Existing Instance ex_handshake_text.
#[local] Existing Instance toy_rcgen.

(** The node on a host with Mosquitto, and a device that shakes hands with it. *)
Definition ex_node_app : App (Anchor := string) (KeyPair := string) (Certificate := string) :=
  ltac:(let o := eval vm_compute in (ex_init true) in match o with InitDone ?app => exact app end).

Lemma ex_node_app_done : ex_init true = InitDone ex_node_app.
Proof. vm_compute. reflexivity. Qed.

Definition ex_exchange (uuid : string) : Exchange (Rand := string) :=
  mkExchange (mkRequest [("x-placenet-init", "0.0.1")] (Ok "a|csr-a")) fs_healthy (ex_ca_env 1 "r") uuid
    (mkUpstream (λ _, Err "refused") (Ok ()) (λ _, Err "closed")).

Definition ex_later : list (NodeEvent string) :=
  [NTake (secs 1) (TaskAnswers (Ok ())); NMessage (secs 2) (mkMqttMessage "u1/rec" "hello"); NSweep (secs 100) ["u1"] (λ _, TaskGone);
   NTake (secs 101) (TaskAnswers (Ok ())); NSweep (secs 110) ["u1"] (λ _, TaskGone)].

Lemma node_invariant_witness :
  ∃ s, main ex_hmac (λ _, "payload") ex_certs ex_anchor [] (Ok ()) (ex_init_env true) no_env (Some "/home/pi") empty_db (mkFS ∅ ∅) []
         (NRequest (ex_exchange "u1") :: ex_later) = Some s ∧
    broadcast_topics (n_registry s) = ["u1/cast"] ∧ NoDup (broadcast_topics (n_registry s)).
Proof.
  eexists. split; [vm_compute; reflexivity|]. split; [reflexivity|].
  refine (proj1 (node_invariant ex_hmac (λ _, "payload") ex_certs ex_anchor [] (Ok ()) (ex_init_env true) no_env (Some "/home/pi") empty_db
    (mkFS ∅ ∅) [] (NRequest (ex_exchange "u1") :: ex_later) _ _ _ _ _ _)).
  - vm_compute. reflexivity.
  - apply NoDup_nil_2.
  - apply table_ok_nil.
  - apply NoDup_singleton.
  - by repeat constructor.
Defined.

Lemma handshake_reaches_broadcast_witness :
  let s := node_run ex_hmac (λ _, "payload") ex_node_app ex_later
    (node_step ex_hmac (λ _, "payload") ex_node_app (NRequest (ex_exchange "u1"))
      (node_run ex_hmac (λ _, "payload") ex_node_app [] (new_node ex_node_app []))) in
  ∃ before after, (cast_topic (x_uuid (ex_exchange "u1")) ∉ before ++ after) ∧
    mqtt_log (n_registry (node_step ex_hmac (λ _, "payload") ex_node_app (NBroadcast ex_cycle) s)) =
    mqtt_log (n_registry s) ++ ((λ topic, Publish topic AtLeastOnce "payload") <$> (before ++ cast_topic (x_uuid (ex_exchange "u1")) :: after)).
Proof.
  intros s.
  pose proof (handshake_reaches_broadcast ex_hmac (λ _, "payload") ex_certs ex_anchor [] (ex_init_env true) ex_config empty_db (mkFS ∅ ∅)
    ex_node_app [] [] (ex_exchange "u1") (secs 0) ex_later ex_cycle
    (key_of (new_row (bs_keys (app_broadcast ex_node_app)) (ex_rotate 1000 Byte.x01)))
    [new_row (bs_keys (app_broadcast ex_node_app)) (ex_rotate 1000 Byte.x01)] ex_node_app_done
    (NoDup_nil_2) table_ok_nil (NoDup_singleton _) ltac:(by repeat constructor) eq_refl eq_refl ltac:(vm_compute; reflexivity)
    ltac:(vm_compute; lia) ltac:(by repeat constructor) ltac:(vm_compute; lia) ltac:(vm_compute; reflexivity) (λ _, eq_refl)) as H.
  destruct (ota_fields _ _ _ _) as [kid tok]. cbv beta zeta in H. fold s in H. exact H.
Defined.
